(* ===== verification/_CoqProject ===== *)
-Q . S2P
Prelude.v
RustStr.v
RustNum.v
RustMap.v
RustPath.v
RustSock.v
TimeLib.v
Severity.v
HawkFrame.v
Io.v
App.v
RustDebug.v
Backoff.v
Spine.v
SpineThreads.v
SpineLiveness.v
Ingest.v
GrpcHealth.v
Systemd.v
EndToEnd.v
Sources.v
HawkdMain.v
Packs.v
Doctor.v
AwkBridge.v
Ui.v
HawkMain.v
System.v
