(* ===== verification/Prelude.v ===== *)
(** * Hawk-tui: a verification library of the Rust spine and mirror

    ** The program

    Hawk-tui watches the health of services.  A _frame_ is one line of seven
    tab-separated columns (time, kind, scope, id, level, message, a bag of
    key-value pairs).  The daemon [hawkd] collects frames from producers (its
    standard input, publishers on an ingest socket, gRPC health watches, systemd
    units) through one channel, the _spine_, and broadcasts every message to the
    clients of a unix socket.  The mirror [hawk] reads frames from its standard
    input or from that socket, may pass them through an awk script (a _thread_ of
    a _pack_, checked by a _doctor_), keeps the last state of every entity and
    shows it in a terminal.

    ** Files and the code they model

    All source paths are under [src/crates/].

    - [Prelude.v] (this file): [Result] with the [?] operator ([let?]), the hint
      databases and tactics, lists: trimming, splitting, joining, infixes.
    - [RustStr.v], [RustNum.v], [RustMap.v], [RustPath.v], [RustSock.v],
      [RustDebug.v]: what the sources use of the standard library: text as Unicode
      scalar values with UTF-8, line reading, 64-bit integers at their width,
      [BTreeMap] as the list of its entries in key order, the stable sort, unix
      paths, the file system as a class of answers, [anyhow] as a chain of
      messages, socket files and who answers at them, [{:?}] text.
    - [TimeLib.v]: the [time] crate as a class with its documented laws, and an
      instance on which examples evaluate.
    - [Severity.v]: [hawk_core/src/severity.rs].  [HawkFrame.v]:
      [hawk_core/src/hawkframe.rs] (parser, printers, kv bag).
    - [Io.v]: [hawk/src/io.rs] (the two reader threads).  [App.v]:
      [hawk/src/app.rs] (state, ingestion, liveness, counts, order).
    - [Backoff.v]: the back-off variables of both watchers.
    - [Spine.v]: broadcast, accept loop and stdin source of [hawkd/src/main.rs],
      and the relation [step] over all interleavings of producers, accept thread
      and broadcast loop, a broadcast being one step.  [SpineThreads.v]: the same
      threads call by call ([tstep]), with the lock, partial writes and peers that
      do not read, and the simulation into [Spine.v].  [SpineLiveness.v]: infinite
      runs of [tstep] and fairness.
    - [Ingest.v]: [hawkd/src/unix_ingest.rs].  [GrpcHealth.v]:
      [hawkd/src/grpc_health.rs].  [Systemd.v]: [hawkd/src/systemd.rs].
    - [EndToEnd.v]: producers, spine and mirror together; the class [Producer] is
      what a source promises to the spine (each message is a text and a line feed;
      a text with line feeds of its own is several lines, [text_lines]), with the
      standard input as its first instance.  [heard] is what a reader makes of a
      banner that was cut short.  [Sources.v]: the other sources keep the promise,
      and what a mirror reads of their messages.
    - [HawkdMain.v]: command line and [main] of the daemon, with its sockets.
    - [Packs.v]: [hawk/src/packs.rs].  [Doctor.v]: [hawk/src/doctor.rs].
      [AwkBridge.v]: [hawk/src/awk.rs].
    - [Ui.v]: [hawk/src/ui.rs] and [hawk/src/ui/draw.rs]: the loop, and the picture
      as areas with widgets.  [HawkMain.v]: [hawk/src/main.rs]; the channel to the
      user interface is [receive], which takes the next message of the sender that
      is named by the order of arrival.
    - [System.v]: the daemon's threads, the mirror's threads and its user interface
      side by side.

    ** How the code is rendered

    Definitions keep the source's names.  A struct is a record, an enum an
    inductive type, [Result] the type [result].  State is passed explicitly.  A
    thread is the list of the messages it sends as a function of what its reader
    delivers; threads that share state are the relations [Spine.step] and
    [SpineThreads.tstep], and an infinite run is a function from [nat] to states
    with a step between neighbours.  Every reading of the clock is an argument
    ([now], or [now i] for the i-th turn of a loop).  A panic is a value ([None] of
    [clip_raw], [Panicked] of [Ending], [UiPanicked] of [UiEnd]).  The two
    compilations under [cfg(unix)] and [cfg(not(unix))] are an argument
    ([Platform]).  Counters wrap at 64 bits, as in a release build.  Loops without
    a structural measure take fuel: [pop_excess] the length of the tail
    ([pop_excess_take]), [broadcast_loop] the number of clients
    ([broadcast_loop_spec]), [word_loop] the length of the line plus one
    ([word_loop_spec]); these lemmas show that it is enough.  A loop that never
    ends ([watch_one], [watch_one_unit], [ui_loop]) is given by its first turns,
    one per element of a list, and the theorems hold for every list.

    ** Parameters

    Third-party code is never defined, only passed in: [TimeLib] (the [time]
    crate, with [TimeLaws]: RFC 3339 text is read back, has no other characters,
    instants are ordered and subtraction is monotone), [Sink] (a stream, with
    [SinkLaws]: [write_all] delivers all bytes or, on error, a first part),
    [Stream] (the same stream by single [write] calls, with [StreamLaws]: a call
    delivers as many bytes as it reports, or none; and [LiveStream]: calls are not
    interrupted, and a stream that accepts bytes does so until it is written to),
    [Layout] (how ratatui divides an area, with [LayoutLaws]: one
    part per constraint), [SockOs] (whether
    the operating system lets a path be bound or removed), [Transport] and
    [HealthPb] (tonic), [Session] (zbus), [Fs] (files), [Toml], [Awk], [Setup] and
    [UiCalls] (the terminal), [Turn] (the order of arrival), [UnicodeTables] (which
    characters [{:?}] prints as themselves).  A text of this code is a list of
    numbers; where it matters, [outside_texts] says that they are Unicode scalar
    values, which Rust's [String] guarantees.  A new stream has received nothing
    yet ([step_accept], [t_incoming]).  Every theorem with such a law has a witness at a concrete
    instance.

    ** What the theorems show

    - The whole system: from the daemon's sources to the mirror's entity table and
      a restored terminal ([system_shows_sources]); what the user interface holds
      when the user quits, for every order of arrival ([mirror_session]).
    - Codec: a clean frame survives printing and parsing, whatever was parsed can
      be re-emitted and read back as its tidy form, a printed tidy frame has seven
      columns, each parse error has its own condition ([frame_round_trip],
      [frame_reemit], [seven_columns], [parse_outcome]).
    - Readers: both agree; strict mode only cuts ([readers_agree],
      [strict_stops_at_first_error]).
    - Mirror: the invariant, the refinement of "last frame per key, newest lines
      first", the counts, the order, liveness ([reachable_ok], [mirror_refines],
      [counts_partition], [display_order], [liveness_decays]).
    - Spine: delivery to every client under every interleaving ([spine_delivers],
      [broadcast_keeps_accepting]); the threads implement it, a message is never
      torn, every message arrives when peers read, and a peer that stops reading
      stops everybody ([threads_refine_spine], [no_torn_messages],
      [every_message_arrives], [stalled_client_stops_all]).
    - The way from input to mirror: [mirror_reads_spine], [spine_to_mirror],
      [grpc_status_in_mirror], [snapshot_read_back]; for the configured daemon, at every moment
      [daemon_feeds_mirror], in the long run [daemon_delivers], and at the start
      [daemon_starts].
    - Sources: relaying and the panic of the ingest socket
      ([ingest_relays_like_stdin], [ingest_panics_iff]), specifications, TLS,
      levels, back-off ([parse_watch_spec_spec], [connect_follows_tls_mode],
      [watch_backoff], [systemd_level_precedence], [systemd_backoff_never_resets]).
    - Packs and doctor: confinement, index, variables, the scan, the gate
      ([script_stays_in_pack], [packs_indexed], [validate_tvars_spec],
      [defaults_accepted], [thread_variables], [security_scan_rules],
      [contains_word_spec], [doctor_gate], [pack_list_deterministic],
      [parse_transform_spec]).
    - Transform and terminal: a copying script changes nothing
      ([awk_copy_transparent], [copying_transform_invisible]); every picture shows
      the state after all messages received before it ([picture_shows_state]);
      quitting restores the terminal, success means it is restored, an error
      leaves it as it is ([tui_quit_restores], [tui_success_restored],
      [tui_error_leaves_terminal]).

    Some theorems state behaviour that the documents or comments of the repository
    do not intend: [stalled_client_stops_all], [ingest_panics_iff],
    [ingest_takes_broadcast_path], [error_frame_columns],
    [systemd_backoff_never_resets], [description_overwrites_state],
    [tui_error_leaves_terminal], [blank_default_unusable],
    [smoke_refuses_valid_line], [spaced_system_passes], [ipv6_host_truncated],
    [entity_key_ambiguous], [empty_flag_lost], [extra_columns_ignored],
    [torn_banner_swallows_line], [tls_keeps_http], and in [doctor_gate] the entries
    of the packs directory that the doctor passes over.

    ** Not modelled

    Argument parsing by [clap] and the help texts; how ratatui paints a widget into
    its area; the D-Bus and protobuf encodings; lock poisoning beyond the flag of
    [broadcast] and [accept_one]; allocation failures, such as that of
    [VecDeque::with_capacity] for a huge tail; wall-clock duration of pauses; the
    programs in other languages (the Python mirror, shell adapters, the awk scripts
    of the packs). *)

From stdpp Require Export base list numbers sets.
From Stdlib Require Export Bool.

(** ** Notation and automation *)

Declare Scope rust_scope.
Delimit Scope rust_scope with rust.
#[global] Open Scope rust_scope.

(** Rust's [Result<T, E>]. *)
Inductive result (A E : Type) : Type :=
| Ok (a : A)
| Err (e : E).
Arguments Ok {A E} a.
Arguments Err {A E} e.

#[export] Instance Ok_inj A E : Inj (=) (=) (@Ok A E).
Proof. by intros ? ? [= ->]. Qed.
#[export] Instance Err_inj A E : Inj (=) (=) (@Err A E).
Proof. by intros ? ? [= ->]. Qed.

(** The [?] operator: leave with the error, or go on with the value. *)
Notation "'let?' x := c 'in' k" :=
  (match c with Ok x => k | Err err => Err err end)
  (at level 10, x name, c at level 100, k at level 200) : rust_scope.

(** [Result::map_err] and [Option::ok_or_else]. *)
Definition map_err {A E F} (f : E -> F) (r : result A E) : result A F :=
  match r with Ok a => Ok a | Err e => Err (f e) end.

Definition ok_or {A E} (o : option A) (e : E) : result A E :=
  match o with Some a => Ok a | None => Err e end.

Definition is_ok {A E} (r : result A E) : bool :=
  match r with Ok _ => true | Err _ => false end.

(** Boolean equality by the type's [EqDecision]. *)
Notation "x =? y" := (bool_decide (x = y)) : rust_scope.

(** The database of the development: what survives trimming, and the
    representation invariants of maps. *)
Create HintDb hawk.

(** Turn boolean hypotheses and goals into propositions. *)
Ltac to_prop :=
  repeat match goal with
  | H : _ && _ = true |- _ => apply andb_true_iff in H as [? ?]
  | H : _ || _ = false |- _ => apply orb_false_iff in H as [? ?]
  | H : negb _ = true |- _ => apply negb_true_iff in H
  | H : negb _ = false |- _ => apply negb_false_iff in H
  | H : bool_decide _ = true |- _ => apply bool_decide_eq_true_1 in H
  | H : bool_decide _ = false |- _ => apply bool_decide_eq_false_1 in H
  | |- _ && _ = true => apply andb_true_iff; split
  | |- _ || _ = false => apply orb_false_iff; split
  | |- negb _ = true => apply negb_true_iff
  | |- negb _ = false => apply negb_false_iff
  | |- bool_decide _ = true => apply bool_decide_eq_true_2
  | |- bool_decide _ = false => apply bool_decide_eq_false_2
  end.

(** ** Lists *)

Section Lists.
Context {A : Type}.
Implicit Types (p : A -> bool) (s t : list A).

(** Drop the longest prefix of elements satisfying [p]. *)
Fixpoint drop_while p s : list A :=
  match s with
  | [] => []
  | c :: s' => if p c then drop_while p s' else s
  end.

(** The first element, if any, does not satisfy [p]. *)
Definition head_free p s : bool :=
  match s with [] => true | c :: _ => negb (p c) end.

Definition last_free p s : bool := head_free p (rev s).

(** Drop elements satisfying [p] on both sides. *)
Definition trim_with p s : list A :=
  rev (drop_while p (rev (drop_while p s))).

Definition edge_free p s : bool := head_free p s && last_free p s.

Fixpoint list_prefix `{EqDecision A} (pat s : list A) : bool :=
  match pat, s with
  | [], _ => true
  | _, [] => false
  | a :: pat', b :: s' => (a =? b) && list_prefix pat' s'
  end.

Fixpoint list_infix `{EqDecision A} (pat s : list A) : bool :=
  list_prefix pat s ||
  match s with [] => false | _ :: s' => list_infix pat s' end.

(** The same as a statement. *)
Definition occurs (pat s : list A) : Prop := exists u v, s = u ++ pat ++ v.

(** Split at every occurrence of [d]; the result is never empty. *)
Fixpoint split_on `{EqDecision A} (d : A) s : list (list A) :=
  match s with
  | [] => [[]]
  | c :: s' =>
      if c =? d then [] :: split_on d s'
      else match split_on d s' with
           | w :: ws => (c :: w) :: ws
           | [] => [[c]]
           end
  end.

(** Split at the first occurrence of [d]. *)
Fixpoint split_first `{EqDecision A} (d : A) s : option (list A * list A) :=
  match s with
  | [] => None
  | c :: s' =>
      if c =? d then Some ([], s')
      else match split_first d s' with
           | Some (k, v) => Some (c :: k, v)
           | None => None
           end
  end.

(** The position of the first occurrence, and the order a list enumerates. *)
Fixpoint place `{EqDecision A} (x : A) s : nat :=
  match s with
  | [] => 0
  | y :: s' => if x =? y then 0 else S (place x s')
  end.

Definition precedes `{EqDecision A} s (x y : A) : Prop := (place x s < place y s)%nat.

(** Concatenation with a separator between consecutive elements. *)
Fixpoint join_with (sep : list A) (l : list (list A)) : list A :=
  match l with
  | [] => []
  | [x] => x
  | x :: l' => x ++ sep ++ join_with sep l'
  end.
End Lists.

Section ListLemmas.
Context {A : Type}.
Implicit Types (p : A -> bool) (s t : list A).

Lemma precedes_irrefl `{EqDecision A} s (x : A) : ~ precedes s x x.
Proof. unfold precedes. lia. Qed.

Lemma precedes_asym `{EqDecision A} s (x y : A) : precedes s x y -> x ≠ y /\ ~ precedes s y x.
Proof. unfold precedes. intros H. split; [intros ->; lia|lia]. Qed.

Lemma list_prefix_iff `{EqDecision A} pat s : list_prefix pat s = true <-> exists v, s = pat ++ v.
Proof.
  revert s. induction pat as [|a pat IH]; intros s; [split; [by exists s|done]|].
  destruct s as [|b s]; [split; [done|by intros [v E]]|]. cbn [list_prefix]. rewrite andb_true_iff, bool_decide_eq_true, IH.
  split; [intros [-> [v ->]]; by exists v|intros [v [= -> ->]]; split; [done|by exists v]].
Qed.

Lemma list_infix_spec `{EqDecision A} pat s : list_infix pat s = true <-> occurs pat s.
Proof.
  unfold occurs. induction s as [|b s IH]; cbn [list_infix]; rewrite orb_true_iff, list_prefix_iff.
  - split; [intros [[v E]|?]; [by exists [], v|done]|]. intros (u & v & E). left. symmetry in E.
    apply app_nil in E as [-> E]. by exists v.
  - rewrite IH. split.
    + intros [[v E]|(u & v & ->)]; [by exists [], v|by exists (b :: u), v].
    + intros ([|c u] & v & E); [left; by exists v|right]. injection E as <- ->. by exists u, v.
Qed.

Lemma drop_while_suffix p s : exists t, s = t ++ drop_while p s.
Proof.
  induction s as [|c s [t IH]]; simpl; [by exists []|].
  case_match; [exists (c :: t); simpl; by f_equal | by exists []].
Qed.

Lemma drop_while_free p s : head_free p (drop_while p s) = true.
Proof. induction s as [|c s IH]; simpl; [done|]. case_match; [done|]. simpl. by rewrite H. Qed.

Lemma drop_while_id p s : head_free p s = true -> drop_while p s = s.
Proof. destruct s as [|c s]; simpl; [done|]. intros H. by destruct (p c). Qed.

Lemma drop_while_all p s : Forall (fun c => p c = true) s -> drop_while p s = [].
Proof. induction 1 as [|c s Hc _ IH]; simpl; [done|]. by rewrite Hc. Qed.

Lemma drop_while_nil_inv p s : drop_while p s = [] -> Forall (fun c => p c = true) s.
Proof. induction s as [|c s IH]; simpl; [by constructor|]. case_match; [by constructor; auto|done]. Qed.

Lemma elem_of_drop_while p s x : x ∈ drop_while p s -> x ∈ s.
Proof. destruct (drop_while_suffix p s) as [t E]. rewrite E at 2. set_solver. Qed.

Lemma head_free_app p s t :
  head_free p (s ++ t) = match s with [] => head_free p t | _ => head_free p s end.
Proof. by destruct s. Qed.

Lemma last_free_app p s t :
  last_free p (s ++ t) = match t with [] => last_free p s | _ => last_free p t end.
Proof.
  unfold last_free. rewrite rev_app_distr, head_free_app.
  destruct t as [|c t]; simpl; [done|].
  destruct (rev t) eqn:E; done.
Qed.

Lemma last_free_cons p c s :
  last_free p (c :: s) = match s with [] => negb (p c) | _ => last_free p s end.
Proof. change (c :: s) with ([c] ++ s). rewrite last_free_app. by destruct s. Qed.

Lemma trim_with_id p s : edge_free p s = true -> trim_with p s = s.
Proof.
  unfold edge_free, last_free, trim_with. intros [H1 H2]%andb_true_iff.
  rewrite (drop_while_id p s), (drop_while_id p (rev s)) by done.
  apply rev_involutive.
Qed.

Lemma trim_with_edge_free p s : edge_free p (trim_with p s) = true.
Proof.
  unfold edge_free, trim_with. apply andb_true_iff; split.
  - pose proof (drop_while_free p s) as H.
    set (t := drop_while p s) in *.
    destruct (drop_while_suffix p (rev t)) as [u E].
    apply (f_equal (@rev A)) in E. rewrite rev_involutive, rev_app_distr in E.
    destruct (rev (drop_while p (rev t))) as [|c w]; [done|].
    rewrite E in H. done.
  - unfold last_free. rewrite rev_involutive. apply drop_while_free.
Qed.

Lemma elem_of_trim_with p s x : x ∈ trim_with p s -> x ∈ s.
Proof.
  unfold trim_with. rewrite !list_elem_of_In, <-in_rev, <-list_elem_of_In.
  intros H%elem_of_drop_while. rewrite list_elem_of_In, <-in_rev, <-list_elem_of_In in H.
  rewrite <-list_elem_of_In. by eapply elem_of_drop_while.
Qed.

Lemma edge_free_forall p s : (forall c, c ∈ s -> p c = false) -> edge_free p s = true.
Proof.
  intros H. unfold edge_free, last_free. apply andb_true_iff; split.
  - destruct s as [|c w]; [done|]. simpl. by rewrite H by set_solver.
  - destruct (rev s) as [|c w] eqn:E; [done|]. simpl. rewrite H; [done|].
    rewrite list_elem_of_In, in_rev, E. by left.
Qed.

(** Two texts with clean edges around a clean element. *)
Lemma edge_free_glue p a c b :
  edge_free p a = true -> edge_free p b = true -> p c = false -> edge_free p (a ++ [c] ++ b) = true.
Proof.
  unfold edge_free. intros Ha Hb Hc. to_prop.
  - rewrite head_free_app. destruct a; [cbn; by rewrite Hc|done].
  - rewrite last_free_app. cbn [app]. rewrite last_free_cons. destruct b; [by rewrite Hc|done].
Qed.

(** Joining non-empty pieces with clean edges gives clean edges. *)
Lemma edge_free_join p sep (l : list (list A)) :
  edge_free p sep = true -> sep ≠ [] -> Forall (fun w => edge_free p w = true) l ->
  edge_free p (join_with sep l) = true.
Proof.
  intros Hs Hn. induction 1 as [|w l Hw Hl IH]; [done|]. destruct l as [|v l]; [done|].
  change (join_with sep (w :: v :: l)) with (w ++ sep ++ join_with sep (v :: l)).
  set (rest := join_with sep (v :: l)) in *. unfold edge_free in *.
  apply andb_true_iff in Hs as [Hs1 Hs2], Hw as [Hw1 Hw2], IH as [_ IH2]. apply andb_true_iff. split.
  - rewrite head_free_app. destruct w; [|done]. rewrite head_free_app. by destruct sep.
  - assert (last_free p (sep ++ rest) = true) as Hl' by (rewrite last_free_app; by destruct rest).
    rewrite last_free_app. destruct (sep ++ rest) eqn:E; [|done]. by apply app_nil in E as [? _].
Qed.

Lemma trim_with_nil_iff p s : trim_with p s = [] <-> Forall (fun c => p c = true) s.
Proof.
  unfold trim_with. split.
  - intros H. apply (f_equal (@rev A)) in H. rewrite rev_involutive in H. simpl in H.
    apply drop_while_nil_inv in H. apply Forall_rev in H. rewrite rev_involutive in H.
    pose proof (drop_while_free p s) as F.
    destruct (drop_while p s) as [|c t] eqn:E; [by apply drop_while_nil_inv|].
    inversion H as [|?? Hc _]; subst. simpl in F. by rewrite Hc in F.
  - intros H. by rewrite (drop_while_all p s).
Qed.
End ListLemmas.

Section SplitLemmas.
Context {A : Type} `{EqDecision A}.
Implicit Types (d : A) (s t : list A).

Lemma split_on_cons d s : exists w ws, split_on d s = w :: ws.
Proof.
  induction s as [|c s (w & ws & E)]; simpl; [eauto|].
  case_match; [eauto|]. rewrite E. eauto.
Qed.

(** The first piece ends at the first delimiter, or with the list. *)
Lemma split_on_first d s :
  exists w ws u, split_on d s = w :: ws /\ d ∉ w /\ s = w ++ u /\ (u = [] \/ head u = Some d).
Proof.
  induction s as [|c s (w & ws & u & E & Hw & -> & Hu)]; simpl; [exists [], [], []; set_solver|].
  case_bool_decide as Hc; [subst c; exists [], (split_on d (w ++ u)), (d :: w ++ u); set_solver|].
  rewrite E. exists (c :: w), ws, u. set_solver.
Qed.

Lemma split_on_no_delim d s : d ∉ s -> split_on d s = [s].
Proof.
  induction s as [|c s IH]; simpl; [done|]. intros H%not_elem_of_cons. destruct H as [H1 H2].
  rewrite bool_decide_eq_false_2 by congruence. by rewrite IH.
Qed.

Lemma split_on_app d s t : d ∉ s -> split_on d (s ++ d :: t) = s :: split_on d t.
Proof.
  induction s as [|c s IH]; simpl; intros H.
  - by rewrite bool_decide_eq_true_2.
  - apply not_elem_of_cons in H as [H1 H2].
    rewrite bool_decide_eq_false_2 by congruence. by rewrite IH.
Qed.

Lemma split_on_join_app d s t : split_on d (s ++ d :: t) = split_on d s ++ split_on d t.
Proof.
  induction s as [|c s IH]; simpl; [by rewrite bool_decide_eq_true_2|].
  rewrite IH. case_bool_decide; [done|]. by destruct (split_on_cons d s) as (w & ws & ->).
Qed.

Lemma split_on_prefix d s t :
  d ∉ s ->
  split_on d (s ++ t) = match split_on d t with w :: ws => (s ++ w) :: ws | [] => [s] end.
Proof.
  induction s as [|c s IH]; simpl; intros H.
  - by destruct (split_on_cons d t) as (w & ws & ->).
  - apply not_elem_of_cons in H as [H1 H2].
    rewrite bool_decide_eq_false_2, IH by congruence.
    by destruct (split_on_cons d t) as (w & ws & ->).
Qed.

Lemma split_on_join d (l : list (list A)) :
  l ≠ [] -> Forall (fun w => d ∉ w) l -> split_on d (join_with [d] l) = l.
Proof.
  induction l as [|w l IH]; [done|]. intros _ [Hw Hl]%Forall_cons.
  destruct l as [|v l]; simpl in *; [by apply split_on_no_delim|].
  rewrite split_on_app by done. f_equal. by apply IH.
Qed.

Lemma elem_of_split_on d s w x : w ∈ split_on d s -> x ∈ w -> x ∈ s /\ x ≠ d.
Proof.
  revert w. induction s as [|c s IH]; simpl; intros w Hw Hx.
  { apply list_elem_of_singleton in Hw; subst. by apply elem_of_nil in Hx. }
  destruct (split_on_cons d s) as (v & vs & E). rewrite E in *.
  case_bool_decide; apply elem_of_cons in Hw as [->|Hw].
  - by apply elem_of_nil in Hx.
  - destruct (IH w) as [? ?]; auto. split; [by constructor|done].
  - apply elem_of_cons in Hx as [->|Hx]; [split; [constructor|done]|].
    destruct (IH v) as [? ?]; [by constructor|done|]. split; [by constructor|done].
  - destruct (IH w) as [? ?]; [by constructor|done|]. split; [by constructor|done].
Qed.

Lemma length_split_on d s :
  length (split_on d s) = S (length (filter (fun c => c = d) s)).
Proof.
  induction s as [|c s IH]; simpl; [done|].
  destruct (split_on_cons d s) as (v & vs & E). rewrite E in *.
  rewrite filter_cons. case_bool_decide; case_decide; simpl in *; try done; lia.
Qed.

Lemma split_first_app d s t : d ∉ s -> split_first d (s ++ d :: t) = Some (s, t).
Proof.
  induction s as [|c s IH]; simpl; intros Hs.
  - by rewrite bool_decide_eq_true_2.
  - apply not_elem_of_cons in Hs as [H1 H2].
    rewrite bool_decide_eq_false_2 by congruence. by rewrite IH.
Qed.

Lemma split_first_none d s : split_first d s = None <-> d ∉ s.
Proof.
  induction s as [|c s IH]; simpl; [set_solver|].
  case_bool_decide; subst; [set_solver|].
  destruct (split_first d s) as [[k v]|]; set_solver.
Qed.

Lemma split_first_some d s k v :
  split_first d s = Some (k, v) -> s = k ++ d :: v /\ d ∉ k.
Proof.
  revert k. induction s as [|c s IH]; simpl; intros k; [done|].
  case_bool_decide; intros E.
  - simplify_eq. split; [done|set_solver].
  - destruct (split_first d s) as [[k' v']|]; simplify_eq.
    destruct (IH k') as [-> ?]; [done|]. split; [done|set_solver].
Qed.

Lemma elem_of_join_with sep (l : list (list A)) x :
  x ∈ join_with sep l -> x ∈ sep \/ exists w, w ∈ l /\ x ∈ w.
Proof.
  induction l as [|w [|v l] IH]; simpl; [set_solver..|].
  rewrite !elem_of_app. intros [?|[?|H]]; [set_solver..|].
  destruct (IH H); set_solver.
Qed.

End SplitLemmas.

#[export] Hint Resolve trim_with_edge_free elem_of_trim_with : hawk.
