(* ===== verification/RustStr.v ===== *)
(** * Strings of the Rust standard library

    A [String] or [&str] is the list of its Unicode scalar values; its bytes are
    the UTF-8 encoding of that list.  The operations are the ones the sources
    call: [trim], [split], [split_once], [lines], [strip_prefix], [contains],
    [replace], [to_ascii_lowercase], [truncate], [BufRead::lines] and
    [BufRead::read_line].  The lemmas give what the components use of them:
    UTF-8 round trip, string order as byte order, edges and separators. *)

From S2P Require Import Prelude.
From Stdlib Require Ascii String.
Export String.StringSyntax.

Abbreviation char := N (only parsing).
Abbreviation byte := N (only parsing).
Abbreviation rstr := (list N) (only parsing).

(** ** Characters *)

Definition TAB : char := 9%N.
Definition LF : char := 10%N.
Definition CR : char := 13%N.
Definition QUOTE : char := 34%N.
Definition HASH : char := 35%N.
Definition COMMA : char := 44%N.
Definition DOT : char := 46%N.
Definition SLASH : char := 47%N.
Definition COLON : char := 58%N.
Definition SEMI : char := 59%N.
Definition EQUALS : char := 61%N.
Definition UNDERSCORE : char := 95%N.

Definition between (lo hi c : N) : bool := (lo <=? c)%N && (c <=? hi)%N.

(** [char::is_whitespace]: the Unicode property White_Space. *)
Definition is_whitespace (c : char) : bool :=
  (between 9 13 c || (c =? 32) || (c =? 133) || (c =? 160) || (c =? 5760)
   || between 8192 8202 c || (c =? 8232) || (c =? 8233) || (c =? 8239)
   || (c =? 8287) || (c =? 12288))%N.

(** Unicode scalar values: code points that are not surrogates. *)
Definition is_scalar (c : char) : bool :=
  (c <? 55296)%N || between 57344 1114111 c.

Definition is_digit (c : char) : bool := between 48 57 c.
Definition is_upper (c : char) : bool := between 65 90 c.
Definition is_lower (c : char) : bool := between 97 122 c.
Definition is_ascii_alphanumeric (c : char) : bool := is_digit c || is_upper c || is_lower c.

Definition ascii_lower (c : char) : char := if is_upper c then (c + 32)%N else c.
Definition to_ascii_lowercase (s : rstr) : rstr := map ascii_lower s.

(** ** UTF-8 *)

Definition utf8_char (c : char) : list byte :=
  if (c <? 128)%N then [c]
  else if (c <? 2048)%N then [192 + c / 64; 128 + c mod 64]%N
  else if (c <? 65536)%N then [224 + c / 4096; 128 + (c / 64) mod 64; 128 + c mod 64]%N
  else [240 + c / 262144; 128 + (c / 4096) mod 64; 128 + (c / 64) mod 64; 128 + c mod 64]%N.

Definition utf8_encode (s : rstr) : list byte := concat (map utf8_char s).

Definition is_cont (b : byte) : bool := between 128 191 b.

(** Strict decoding, as [String::from_utf8]: no overlong form, no surrogate,
    nothing above U+10FFFF. *)
Fixpoint utf8_decode (bs : list byte) : option rstr :=
  match bs with
  | [] => Some []
  | b0 :: r0 =>
      if (b0 <? 128)%N then cons b0 <$> utf8_decode r0
      else match r0 with
      | [] => None
      | b1 :: r1 =>
          if between 194 223 b0 && is_cont b1 then
            cons ((b0 - 192) * 64 + (b1 - 128))%N <$> utf8_decode r1
          else match r1 with
          | [] => None
          | b2 :: r2 =>
              let c3 := ((b0 - 224) * 4096 + (b1 - 128) * 64 + (b2 - 128))%N in
              if between 224 239 b0 && is_cont b1 && is_cont b2
                 && (2048 <=? c3)%N && is_scalar c3 then
                cons c3 <$> utf8_decode r2
              else match r2 with
              | [] => None
              | b3 :: r3 =>
                  let c4 := ((b0 - 240) * 262144 + (b1 - 128) * 4096
                             + (b2 - 128) * 64 + (b3 - 128))%N in
                  if between 240 244 b0 && is_cont b1 && is_cont b2 && is_cont b3
                     && (65536 <=? c4)%N && is_scalar c4 then
                    cons c4 <$> utf8_decode r3
                  else None
              end
          end
      end
  end.

(** A string literal of the sources. *)
Definition lit (s : String.string) : rstr :=
  default [] (utf8_decode (map Byte.to_N (String.list_byte_of_string s))).
Arguments lit s%_string_scope : simpl never.

(** [String::len]: the length in bytes. *)
Definition str_len (s : rstr) : nat := length (utf8_encode s).

(** [String::truncate]: [None] is the panic when the new length is not a
    character boundary. *)
Fixpoint truncate (n : nat) (s : rstr) : option rstr :=
  match s with
  | [] => Some []
  | c :: s' =>
      if n =? 0 then Some []
      else if length (utf8_char c) <=? n then cons c <$> truncate (n - length (utf8_char c)) s'
      else None
  end%nat.

(** ** Searching, trimming, splitting *)

Definition is_empty (s : rstr) : bool := match s with [] => true | _ => false end.

Definition trim (s : rstr) : rstr := trim_with is_whitespace s.
Definition trim_start (s : rstr) : rstr := drop_while is_whitespace s.
Definition trim_end_newlines (s : rstr) : rstr :=
  rev (drop_while (fun c => (c =? LF) || (c =? CR)) (rev s)).

Definition starts_with (pat s : rstr) : bool := list_prefix pat s.
Definition strip_prefix (pat s : rstr) : option rstr :=
  if list_prefix pat s then Some (drop (length pat) s) else None.
Definition contains (pat s : rstr) : bool := list_infix pat s.

Definition split (d : char) (s : rstr) : list rstr := split_on d s.
Definition split_once (d : char) (s : rstr) : option (rstr * rstr) := split_first d s.
Definition join (sep : rstr) (l : list rstr) : rstr := join_with sep l.

(** [str::replace] with a non-empty pattern: leftmost, non-overlapping.  [skip]
    counts the characters of the current match still to be dropped. *)
Fixpoint replace_go (pat to : rstr) (skip : nat) (s : rstr) : rstr :=
  match s with
  | [] => []
  | c :: s' =>
      match skip with
      | S k => replace_go pat to k s'
      | O => if list_prefix pat s then to ++ replace_go pat to (length pat - 1) s'
             else c :: replace_go pat to 0 s'
      end
  end.
Definition replace (pat to s : rstr) : rstr := replace_go pat to 0 s.

(** [str::split] with a non-empty string pattern. *)
Fixpoint split_str_go (pat : rstr) (skip : nat) (s : rstr) : list rstr :=
  match s with
  | [] => [[]]
  | c :: s' =>
      match skip with
      | S k => split_str_go pat k s'
      | O => if list_prefix pat s then [] :: split_str_go pat (length pat - 1) s'
             else match split_str_go pat 0 s' with
                  | w :: ws => (c :: w) :: ws
                  | [] => [[c]]
                  end
      end
  end.
Definition split_str (pat s : rstr) : list rstr := split_str_go pat 0 s.

(** ** Lines *)

(** Remove one trailing carriage return. *)
Definition strip_cr (w : list N) : list N :=
  match rev w with
  | c :: r => if c =? CR then rev r else w
  | [] => []
  end.

Fixpoint lines_of_pieces (ps : list (list N)) : list (list N) :=
  match ps with
  | [] => []
  | [w] => if is_empty w then [] else [w]
  | w :: ws => strip_cr w :: lines_of_pieces ws
  end.

(** [str::lines]. *)
Definition lines (s : rstr) : list rstr := lines_of_pieces (split_on LF s).

(** What a reader delivers: bytes, then end of file or an I/O error with its
    message. *)
Record byte_stream := mk_stream { bs_data : list byte; bs_err : option rstr }.

Definition utf8_error : rstr := lit "stream did not contain valid UTF-8".

Definition from_utf8 (bs : list byte) : result rstr rstr := ok_or (utf8_decode bs) utf8_error.

Fixpoint read_lines_go (err : option rstr) (ps : list (list byte)) : list (result rstr rstr) :=
  match ps with
  | [] => []
  | [w] => match err with
           | Some e => [Err e]
           | None => if is_empty w then [] else [from_utf8 w]
           end
  | w :: ws => from_utf8 (strip_cr w) :: read_lines_go err ws
  end.

(** [BufRead::lines], every item up to and including the first error of the
    underlying reader. *)
Definition read_lines (st : byte_stream) : list (result rstr rstr) :=
  read_lines_go (bs_err st) (split_on LF (bs_data st)).

Fixpoint read_line_go (err : option rstr) (ps : list (list byte)) : list (result rstr rstr) :=
  match ps with
  | [] => []
  | [w] => match err with
           | Some e => [Err e]
           | None => if is_empty w then [] else [from_utf8 w]
           end
  | w :: ws => from_utf8 (w ++ [LF]) :: read_line_go err ws
  end.

(** The results of successive [BufRead::read_line] calls: each line keeps its
    terminator, and the list ends where a call returns [Ok(0)] or the reader's
    error. *)
Definition read_line_calls (st : byte_stream) : list (result rstr rstr) :=
  read_line_go (bs_err st) (split_on LF (bs_data st)).

(** ** Order of strings *)

Fixpoint lex_cmp (s t : list N) : comparison :=
  match s, t with
  | [], [] => Eq
  | [], _ => Lt
  | _, [] => Gt
  | a :: s', b :: t' =>
      match N.compare a b with Eq => lex_cmp s' t' | o => o end
  end.

(** [Ord for str] compares bytes; [str_cmp_bytes] below shows that comparing
    scalar values is the same. *)
Definition str_cmp (s t : rstr) : comparison := lex_cmp s t.

(** ** Lemmas: UTF-8 *)

#[local] Ltac Zify.zify_post_hook ::= Z.to_euclidean_division_equations.

Ltac unfold_ranges := unfold is_scalar, is_cont, between in *.

(** Decide every comparison of the goal by linear arithmetic. *)
Ltac decide_tests :=
  repeat match goal with
  | |- context [N.leb ?a ?b] =>
      first [rewrite (proj2 (N.leb_le a b)) by lia | rewrite (proj2 (N.leb_gt a b)) by lia]
  | |- context [N.ltb ?a ?b] =>
      first [rewrite (proj2 (N.ltb_lt a b)) by lia | rewrite (proj2 (N.ltb_ge a b)) by lia]
  end; cbn [andb orb negb].

Lemma utf8_encode_cons c s : utf8_encode (c :: s) = utf8_char c ++ utf8_encode s.
Proof. done. Qed.

Lemma utf8_encode_single c : utf8_encode [c] = utf8_char c.
Proof. apply app_nil_r. Qed.

Lemma utf8_encode_app s t : utf8_encode (s ++ t) = utf8_encode s ++ utf8_encode t.
Proof. unfold utf8_encode. by rewrite map_app, concat_app. Qed.

Lemma utf8_char_ascii c : (c < 128)%N -> utf8_char c = [c].
Proof. intros H. unfold utf8_char. by destruct (N.ltb_spec c 128); [|lia]. Qed.

(** Every byte of a character outside ASCII is at least 128. *)
Lemma utf8_char_high c b : (128 <= c)%N -> b ∈ utf8_char c -> (128 <= b)%N.
Proof.
  intros H. unfold utf8_char.
  destruct (N.ltb_spec c 128); [lia|].
  repeat case_match; rewrite ?elem_of_cons, elem_of_nil; intros; destruct_or?; try done; subst; lia.
Qed.

Lemma utf8_char_nonempty c : exists b bs, utf8_char c = b :: bs.
Proof. unfold utf8_char. repeat case_match; eauto. Qed.

Lemma is_scalar_bound c : is_scalar c = true -> (c < 1114112)%N.
Proof.
  unfold_ranges. rewrite orb_true_iff, andb_true_iff, N.ltb_lt, !N.leb_le. lia.
Qed.

Lemma utf8_decode_char2 c bs :
  (128 <= c < 2048)%N ->
  utf8_decode ((192 + c / 64)%N :: (128 + c mod 64)%N :: bs) = cons c <$> utf8_decode bs.
Proof. intros H. cbn [utf8_decode]. unfold_ranges. decide_tests. do 2 f_equal. lia. Qed.

(** The two low groups of six bits rebuild the number. *)
Lemma groups_of_six c : (c / 4096 * 4096 + (c / 64) mod 64 * 64 + c mod 64 = c)%N.
Proof.
  replace (c / 4096)%N with (c / 64 / 64)%N by apply N.Div0.div_div.
  pose proof (N.div_mod c 64). pose proof (N.div_mod (c / 64) 64). lia.
Qed.

Lemma utf8_decode_char3 c bs :
  (2048 <= c < 65536)%N -> is_scalar c = true ->
  utf8_decode ((224 + c / 4096)%N :: (128 + (c / 64) mod 64)%N :: (128 + c mod 64)%N :: bs)
  = cons c <$> utf8_decode bs.
Proof.
  intros H Hc. cbn [utf8_decode].
  replace ((224 + c / 4096 - 224) * 4096 + (128 + (c / 64) mod 64 - 128) * 64
           + (128 + c mod 64 - 128))%N with c.
  2:{ pose proof (groups_of_six c). set (x := (c / 64)%N) in *.
      set (y := (c / 4096)%N) in *. clearbody x y. lia. }
  rewrite Hc. unfold is_cont, between. by decide_tests.
Qed.

Lemma utf8_decode_char4 c bs :
  (65536 <= c < 1114112)%N -> is_scalar c = true ->
  utf8_decode ((240 + c / 262144)%N :: (128 + (c / 4096) mod 64)%N
               :: (128 + (c / 64) mod 64)%N :: (128 + c mod 64)%N :: bs)
  = cons c <$> utf8_decode bs.
Proof.
  intros H Hc. cbn [utf8_decode].
  replace ((240 + c / 262144 - 240) * 262144 + (128 + (c / 4096) mod 64 - 128) * 4096
           + (128 + (c / 64) mod 64 - 128) * 64 + (128 + c mod 64 - 128))%N with c.
  2:{ pose proof (groups_of_six c) as E1.
      pose proof (N.div_mod (c / 4096) 64) as E2. rewrite N.Div0.div_div in E2.
      change (4096 * 64)%N with 262144%N in E2.
      set (x := (c / 64)%N) in *. set (y := (c / 4096)%N) in *. set (z := (c / 262144)%N) in *.
      clearbody x y z. lia. }
  rewrite Hc. unfold is_cont, between. by decide_tests.
Qed.

Lemma utf8_decode_char c bs :
  is_scalar c = true -> utf8_decode (utf8_char c ++ bs) = cons c <$> utf8_decode bs.
Proof.
  intros Hc. pose proof (is_scalar_bound c Hc). unfold utf8_char.
  repeat case_match; cbn [app]; rewrite ?N.ltb_lt, ?N.ltb_ge in *.
  - simpl. by decide_tests.
  - by apply utf8_decode_char2.
  - by apply utf8_decode_char3.
  - by apply utf8_decode_char4.
Qed.

Definition scalar_str (s : rstr) : Prop := Forall (fun c => is_scalar c = true) s.

(** Decoding inverts encoding. *)
Lemma utf8_decode_encode s : scalar_str s -> utf8_decode (utf8_encode s) = Some s.
Proof.
  induction 1 as [|c s Hc _ IH]; [done|].
  by rewrite utf8_encode_cons, utf8_decode_char, IH.
Qed.

(** ** Lemmas: ASCII delimiters in encoded text *)

Lemma elem_of_utf8_char b c : (b < 128)%N -> b ∈ utf8_char c <-> b = c.
Proof.
  intros Hb. destruct (decide (c < 128)%N) as [Hc|Hc].
  - rewrite utf8_char_ascii by done. apply list_elem_of_singleton.
  - split; [|lia]. intros H%utf8_char_high; lia.
Qed.

(** Splitting the bytes at an ASCII delimiter splits the text. *)
Lemma split_on_utf8 d s :
  (d < 128)%N -> split_on d (utf8_encode s) = map utf8_encode (split_on d s).
Proof.
  intros Hd. induction s as [|c s IH]; [done|].
  rewrite utf8_encode_cons. simpl.
  destruct (split_on_cons d s) as (w & ws & E). rewrite E in *.
  case_bool_decide as Hc.
  - subst c. rewrite utf8_char_ascii by done. simpl.
    by rewrite bool_decide_eq_true_2, IH.
  - rewrite split_on_prefix, IH by (rewrite elem_of_utf8_char; congruence). done.
Qed.

Lemma is_empty_utf8 s : is_empty (utf8_encode s) = is_empty s.
Proof.
  destruct s as [|c s]; [done|]. rewrite utf8_encode_cons.
  by destruct (utf8_char_nonempty c) as (b & bs & ->).
Qed.

Lemma strip_cr_snoc w c : strip_cr (w ++ [c]) = if c =? CR then w else w ++ [c].
Proof. unfold strip_cr. rewrite rev_app_distr. simpl. by rewrite rev_involutive. Qed.

Lemma strip_cr_utf8 w : strip_cr (utf8_encode w) = utf8_encode (strip_cr w).
Proof.
  destruct w as [|c w _] using rev_ind; [done|].
  rewrite strip_cr_snoc, utf8_encode_app, utf8_encode_single. case_bool_decide as Hc.
  - subst c. rewrite utf8_char_ascii by done. by rewrite strip_cr_snoc.
  - assert (Hn : CR ∉ utf8_char c) by (rewrite elem_of_utf8_char; [congruence|done]).
    rewrite utf8_encode_app, utf8_encode_single.
    destruct (utf8_char_nonempty c) as (b & bs & E). rewrite E in *. clear E.
    destruct bs as [|x bs _] using rev_ind.
    + rewrite strip_cr_snoc. rewrite bool_decide_eq_false_2; [done|set_solver].
    + change (b :: bs ++ [x]) with ((b :: bs) ++ [x]) in *. rewrite app_assoc, strip_cr_snoc.
      rewrite bool_decide_eq_false_2; [done|set_solver].
Qed.

Lemma strip_cr_id w : last_free (fun c => c =? CR) w = true -> strip_cr w = w.
Proof.
  destruct w as [|c w _] using rev_ind; [done|].
  rewrite last_free_app, strip_cr_snoc. unfold last_free; simpl.
  by case_bool_decide.
Qed.

Lemma elem_of_strip_cr w x : x ∈ strip_cr w -> x ∈ w.
Proof.
  destruct w as [|c w _] using rev_ind; [done|]. rewrite strip_cr_snoc.
  case_bool_decide; set_solver.
Qed.

Lemma lines_cons w t : LF ∉ w -> lines (w ++ LF :: t) = strip_cr w :: lines t.
Proof.
  intros H. unfold lines. rewrite split_on_app by done.
  by destruct (split_on_cons LF t) as (v & vs & ->).
Qed.

(** Reading encoded text line by line gives its lines. *)
Lemma read_lines_utf8 s :
  scalar_str s -> read_lines (mk_stream (utf8_encode s) None) = map Ok (lines s).
Proof.
  intros Hs. unfold read_lines, lines; simpl. rewrite split_on_utf8 by done.
  assert (Forall scalar_str (split_on LF s)) as Hw.
  { apply Forall_forall. intros w Hw. apply Forall_forall. intros c Hc.
    eapply elem_of_split_on in Hc as [Hc _]; [|done].
    eapply Forall_forall in Hs; eauto. }
  induction Hw as [|w [|v ps] Hw Hps IH]; simpl in *; [done| |].
  - rewrite is_empty_utf8. destruct (is_empty w); [done|].
    unfold from_utf8. by rewrite utf8_decode_encode.
  - rewrite strip_cr_utf8. unfold from_utf8 at 1.
    rewrite utf8_decode_encode; [by f_equal|].
    apply Forall_forall. intros c Hc%elem_of_strip_cr. eapply Forall_forall in Hw; eauto.
Qed.

(** Pieces before others are whole lines. *)
Lemma read_lines_go_app err l1 l2 :
  l2 ≠ [] -> read_lines_go err (l1 ++ l2) = map (fun w => from_utf8 (strip_cr w)) l1 ++ read_lines_go err l2.
Proof.
  intros H2. induction l1 as [|w l1 IH]; [done|]. cbn [app map]. rewrite <-IH. cbn [read_lines_go].
  by destruct (l1 ++ l2) eqn:E; [apply app_nil in E as [_ ?]|].
Qed.

(** Text that ends in a line feed is read as its lines, whatever follows. *)
Lemma read_lines_text t rest err :
  scalar_str t ->
  read_lines (mk_stream (utf8_encode (t ++ [LF]) ++ rest) err) = map Ok (map strip_cr (split LF t)) ++ read_lines (mk_stream rest err).
Proof.
  intros Ht. unfold read_lines. cbn [bs_data bs_err]. rewrite utf8_encode_app, <-app_assoc.
  change (utf8_encode [LF] ++ rest) with (LF :: rest). rewrite split_on_join_app, split_on_utf8 by done.
  rewrite read_lines_go_app by (by destruct (split_on_cons LF rest) as (w & ws & ->)). f_equal. rewrite !map_map.
  unfold split. apply map_ext_in. intros w Hw%list_elem_of_In. rewrite strip_cr_utf8. unfold from_utf8.
  rewrite utf8_decode_encode; [done|]. apply Forall_forall. intros c Hc%elem_of_strip_cr.
  eapply elem_of_split_on in Hc as [Hc _]; [|done]. by eapply Forall_forall in Ht.
Qed.

Lemma strip_cr_app u w : w ≠ [] -> strip_cr (u ++ w) = u ++ strip_cr w.
Proof.
  destruct w as [|c w _] using rev_ind; [done|]. intros _. rewrite app_assoc, !strip_cr_snoc, <-app_assoc. by case_bool_decide.
Qed.

(** An ASCII text in front is decoded on its own. *)
Lemma utf8_decode_ascii_app (u w : list byte) :
  Forall (fun c => (c < 128)%N) u -> utf8_decode (u ++ w) = (fun l => u ++ l) <$> utf8_decode w.
Proof.
  induction 1 as [|c u Hc _ IH]; cbn [app]; [by destruct (utf8_decode w)|].
  cbn [utf8_decode]. rewrite (proj2 (N.ltb_lt c 128)), IH by done. by destruct (utf8_decode w).
Qed.

(** ** Lemmas: order *)

Lemma lex_cmp_refl s : lex_cmp s s = Eq.
Proof. induction s as [|a s IH]; simpl; [done|]. by rewrite N.compare_refl. Qed.

Lemma lex_cmp_eq s t : lex_cmp s t = Eq -> s = t.
Proof.
  revert t. induction s as [|a s IH]; intros [|b t]; simpl; try done.
  destruct (N.compare_spec a b) as [->|?|?]; try done. intros E. by rewrite (IH t E).
Qed.

Lemma lex_cmp_antisym s t : lex_cmp t s = CompOpp (lex_cmp s t).
Proof.
  revert t. induction s as [|a s IH]; intros [|b t]; simpl; try done.
  rewrite (N.compare_antisym a b). destruct (N.compare a b); simpl; auto.
Qed.

Lemma lex_cmp_trans s t u : lex_cmp s t = Lt -> lex_cmp t u = Lt -> lex_cmp s u = Lt.
Proof.
  revert t u. induction s as [|a s IH]; intros [|b t] [|c u]; simpl; try done.
  destruct (N.compare_spec a b), (N.compare_spec b c), (N.compare_spec a c);
    subst; try done; try lia; eauto.
Qed.

Lemma lex_cmp_app_l p s t : lex_cmp (p ++ s) (p ++ t) = lex_cmp s t.
Proof. induction p as [|a p IH]; simpl; [done|]. by rewrite N.compare_refl. Qed.

(** The groups of six bits of a number, with the divisions that extract them. *)
Lemma sextets a :
  exists x y2 y1 y0,
    (a = x * 262144 + y2 * 4096 + y1 * 64 + y0 /\ y2 < 64 /\ y1 < 64 /\ y0 < 64
     /\ a / 262144 = x /\ a / 4096 = x * 64 + y2 /\ (a / 4096) mod 64 = y2
     /\ a / 64 = x * 4096 + y2 * 64 + y1 /\ (a / 64) mod 64 = y1 /\ a mod 64 = y0)%N.
Proof.
  exists (a / 64 / 64 / 64)%N, ((a / 64 / 64) mod 64)%N, ((a / 64) mod 64)%N, (a mod 64)%N.
  replace (a / 262144)%N with (a / 64 / 64 / 64)%N by (rewrite !N.Div0.div_div; done).
  replace (a / 4096)%N with (a / 64 / 64)%N by (rewrite N.Div0.div_div; done).
  pose proof (N.div_mod a 64). pose proof (N.div_mod (a / 64) 64).
  pose proof (N.div_mod (a / 64 / 64) 64).
  repeat split; try (apply N.mod_lt); lia.
Qed.

#[local] Ltac Zify.zify_post_hook ::= idtac.

(** A smaller character has the smaller encoding. *)
Lemma utf8_char_lt a b x y :
  (a < b < 1114112)%N -> lex_cmp (utf8_char a ++ x) (utf8_char b ++ y) = Lt.
Proof.
  intros H. unfold utf8_char.
  destruct (sextets a) as (a3 & a2 & a1 & a0 & Ea & ? & ? & ? & -> & -> & -> & -> & -> & ->).
  destruct (sextets b) as (b3 & b2 & b1 & b0 & Eb & ? & ? & ? & -> & -> & -> & -> & -> & ->).
  destruct (N.ltb_spec a 128), (N.ltb_spec b 128); try lia;
  destruct (N.ltb_spec a 2048), (N.ltb_spec b 2048); try lia;
  destruct (N.ltb_spec a 65536), (N.ltb_spec b 65536); try lia; cbn [app lex_cmp];
    repeat (match goal with |- context [N.compare ?u ?v] =>
              destruct (N.compare_spec u v); try done; try (exfalso; lia) end).
Qed.

(** [Ord for str] is the order of the bytes. *)
Lemma str_cmp_bytes s t :
  scalar_str s -> scalar_str t -> lex_cmp (utf8_encode s) (utf8_encode t) = str_cmp s t.
Proof.
  unfold str_cmp. intros Hs. revert t. induction Hs as [|a s Ha _ IH]; intros t [|b t' Hb Ht].
  - done.
  - rewrite utf8_encode_cons. by destruct (utf8_char_nonempty b) as (c & w & ->).
  - rewrite utf8_encode_cons. by destruct (utf8_char_nonempty a) as (c & w & ->).
  - rewrite !utf8_encode_cons. simpl. apply is_scalar_bound in Ha, Hb.
    destruct (N.compare_spec a b) as [->|Hl|Hg].
    + rewrite lex_cmp_app_l. by apply IH.
    + by apply utf8_char_lt.
    + by rewrite lex_cmp_antisym, utf8_char_lt.
Qed.

(** ** Lemmas: trimming and literals *)

Lemma trim_id s : edge_free is_whitespace s = true -> trim s = s.
Proof. apply trim_with_id. Qed.

Lemma trim_edge_free s : edge_free is_whitespace (trim s) = true.
Proof. apply trim_with_edge_free. Qed.

Lemma elem_of_trim c s : c ∈ trim s -> c ∈ s.
Proof. apply elem_of_trim_with. Qed.

Lemma not_elem_of_trim c s : c ∉ s -> c ∉ trim s.
Proof. intros H ?%elem_of_trim. done. Qed.

#[export] Hint Resolve trim_edge_free not_elem_of_trim : hawk.
#[export] Hint Rewrite trim_id using done : hawk_simp.

Lemma trim_end_newlines_app s t :
  last_free (fun c => (c =? LF) || (c =? CR)) t = true -> t ≠ [] ->
  trim_end_newlines (s ++ t) = s ++ t.
Proof.
  intros H Ht. unfold trim_end_newlines. rewrite drop_while_id; [apply rev_involutive|].
  change (last_free (fun c => (c =? LF) || (c =? CR)) (s ++ t) = true).
  rewrite last_free_app. by destruct t.
Qed.

Lemma elem_of_trim_end_newlines c s : c ∈ trim_end_newlines s -> c ∈ s.
Proof.
  unfold trim_end_newlines. rewrite list_elem_of_In, <-in_rev, <-list_elem_of_In.
  intros H%elem_of_drop_while. by rewrite list_elem_of_In, <-in_rev, <-list_elem_of_In in H.
Qed.

(** An edge that is not white space is not a line terminator. *)
Lemma whitespace_newline c : is_whitespace c = false -> (c =? LF) || (c =? CR) = false.
Proof.
  intros H. apply orb_false_iff; split; apply bool_decide_eq_false_2; intros ->; by vm_compute in H.
Qed.

Lemma ascii_lower_idemp c : ascii_lower (ascii_lower c) = ascii_lower c.
Proof.
  unfold ascii_lower, is_upper, between.
  destruct (N.leb_spec 65 c), (N.leb_spec c 90); try lia; cbn [andb]; decide_tests; done.
Qed.

(** ** Lemmas: decoding and an ASCII byte at the end *)

Lemma is_cont_ascii b : (b < 128)%N -> is_cont b = false.
Proof. intros H. unfold is_cont, between. by decide_tests. Qed.

(** An ASCII byte after the text decodes to itself, and never repairs or breaks
    what stands before it. *)
Lemma utf8_decode_snoc v b :
  (b < 128)%N -> utf8_decode (v ++ [b]) = (fun s => s ++ [b]) <$> utf8_decode v.
Proof.
  intros Hb. pose proof (is_cont_ascii b Hb) as Hc.
  assert (forall (c : N) (o : option (list N)),
    cons c <$> ((fun s => s ++ [b]) <$> o) = (fun s => s ++ [b]) <$> (cons c <$> o)) as Hmap
    by (by intros c [?|]).
  induction v as [v IH] using (induction_ltof1 _ length). unfold ltof in IH.
  destruct v as [|b0 r0]; [cbn; by decide_tests|].
  cbn [app utf8_decode]. destruct (b0 <? 128)%N; [rewrite IH by (simpl; lia); apply Hmap|].
  destruct r0 as [|b1 r1]; cbn [app]; [by rewrite Hc, andb_false_r|].
  destruct (between 194 223 b0 && is_cont b1); [rewrite IH by (simpl; lia); apply Hmap|].
  destruct r1 as [|b2 r2]; cbn [app]; [by rewrite Hc, !andb_false_r|].
  match goal with |- context [if ?t then _ else _] => destruct t end;
    [rewrite IH by (simpl; lia); apply Hmap|].
  destruct r2 as [|b3 r3]; cbn [app]; [by rewrite Hc, !andb_false_r|].
  match goal with |- context [if ?t then _ else _] => destruct t end;
    [rewrite IH by (simpl; lia); apply Hmap|done].
Qed.

Lemma from_utf8_snoc v b :
  (b < 128)%N ->
  from_utf8 (v ++ [b]) = match from_utf8 v with Ok s => Ok (s ++ [b]) | Err e => Err e end.
Proof. intros Hb. unfold from_utf8. rewrite utf8_decode_snoc by done. by destruct (utf8_decode v). Qed.

Lemma trim_end_newlines_snoc s c :
  (c =? LF) || (c =? CR) = true -> trim_end_newlines (s ++ [c]) = trim_end_newlines s.
Proof. intros H. unfold trim_end_newlines. rewrite rev_app_distr. simpl. by rewrite H. Qed.

(** Part [k] of a text that was split, trimmed; blank when there is none. *)
Lemma trimmed_part (parts : list rstr) k :
  default [] (trim <$> parts !! k) = trim (nth k parts []).
Proof.
  destruct (parts !! k) as [p|] eqn:E; cbn.
  - by rewrite (nth_lookup_Some _ _ [] p E).
  - rewrite nth_overflow by (by apply lookup_ge_None). done.
Qed.

(** Decoded text: scalar values, and every ASCII character stands for its own
    byte. *)
Lemma utf8_decode_chars n bs s :
  (length bs <= n)%nat -> utf8_decode bs = Some s ->
  Forall (fun c => is_scalar c = true /\ ((c < 128)%N -> c ∈ bs)) s.
Proof.
  revert bs s. induction n as [|n IH]; intros bs s Hn.
  { destruct bs; [|simpl in Hn; lia]. intros [= <-]. constructor. }
  assert (forall c rest pre, bs = pre ++ rest -> (length rest <= n)%nat ->
    is_scalar c = true -> ((c < 128)%N -> c ∈ bs) -> cons c <$> utf8_decode rest = Some s ->
    Forall (fun c => is_scalar c = true /\ ((c < 128)%N -> c ∈ bs)) s) as Hstep.
  { intros c rest pre -> Hr Hc Ha (t & Ht & ->)%fmap_Some. constructor; [done|].
    eapply Forall_impl; [by apply (IH rest t)|]. cbn beta. intros x [Hx1 Hx2]. split; [done|]. set_solver. }
  destruct bs as [|b0 r0]; [intros [= <-]; constructor|]. cbn [utf8_decode].
  destruct (N.ltb_spec b0 128) as [H0|H0].
  { apply (Hstep b0 r0 [b0]); [done|simpl in Hn; lia| |set_solver].
    unfold is_scalar. apply orb_true_iff. left. apply N.ltb_lt. lia. }
  destruct r0 as [|b1 r1]; [done|]. destruct (between 194 223 b0 && is_cont b1) eqn:E2.
  { unfold is_cont, between in E2. rewrite !andb_true_iff, !N.leb_le in E2.
    apply (Hstep _ r1 [b0; b1]); [done|simpl in Hn; lia| |lia].
    unfold is_scalar. apply orb_true_iff. left. apply N.ltb_lt. lia. }
  destruct r1 as [|b2 r2]; [done|]. cbn zeta.
  match goal with |- (if ?b then _ else _) = _ -> _ => destruct b eqn:E3 end.
  { rewrite !andb_true_iff, N.leb_le in E3. apply (Hstep _ r2 [b0; b1; b2]); [done|simpl in Hn; lia|tauto|lia]. }
  destruct r2 as [|b3 r3]; [done|].
  match goal with |- (if ?b then _ else _) = _ -> _ => destruct b eqn:E4 end; [|done].
  rewrite !andb_true_iff, N.leb_le in E4. apply (Hstep _ r3 [b0; b1; b2; b3]); [done|simpl in Hn; lia|tauto|lia].
Qed.

Lemma pieces_no_lf bs : Forall (fun w => LF ∉ w) (split_on LF bs).
Proof. apply Forall_forall. intros w Hw Hin. by destruct (elem_of_split_on LF _ w LF Hw Hin). Qed.

(** A piece without a line feed is decoded to text without one. *)
Lemma from_utf8_shape w v :
  LF ∉ w -> from_utf8 w = Ok v -> Forall (fun c => is_scalar c = true /\ c ≠ LF) v.
Proof.
  intros Hw. unfold from_utf8, ok_or. destruct (utf8_decode w) as [s|] eqn:E; [|done].
  intros E'. apply (inj Ok) in E'. subst v.
  eapply Forall_impl; [by apply (utf8_decode_chars (length w) w)|]. cbn beta. intros c [Hc1 Hc2].
  split; [done|]. intros ->. apply Hw, Hc2. done.
Qed.

(** The lines [read_line] returns: scalar values without a line feed, apart from
    the last character. *)
Lemma read_line_calls_shape st l :
  Ok l ∈ read_line_calls st ->
  exists w, (l = w \/ l = w ++ [LF]) /\ Forall (fun c => is_scalar c = true /\ c ≠ LF) w.
Proof.
  unfold read_line_calls. pose proof (pieces_no_lf (bs_data st)) as Hp.
  induction Hp as [|w ps Hw Hps IH]; [by intros ?%elem_of_nil|]. destruct ps as [|v ps].
  - cbn [read_line_go]. destruct (bs_err st); [by intros ?%list_elem_of_singleton|].
    destruct (is_empty w); [by intros ?%elem_of_nil|]. intros E%list_elem_of_singleton. symmetry in E.
    eauto using from_utf8_shape.
  - cbn [read_line_go]. intros [E|Hl]%elem_of_cons; [|by apply IH].
    rewrite from_utf8_snoc in E by done. destruct (from_utf8 w) as [s|] eqn:Es; [|done].
    apply (inj Ok) in E. exists s. split; [by right|by eapply from_utf8_shape].
Qed.

(** The lines of [lines]: without a line feed. *)
Lemma read_lines_shape st l :
  Ok l ∈ read_lines st -> Forall (fun c => is_scalar c = true /\ c ≠ LF) l.
Proof.
  unfold read_lines. pose proof (pieces_no_lf (bs_data st)) as Hp.
  induction Hp as [|w ps Hw Hps IH]; [by intros ?%elem_of_nil|]. destruct ps as [|v ps].
  - cbn [read_lines_go]. destruct (bs_err st); [by intros ?%list_elem_of_singleton|].
    destruct (is_empty w); [by intros ?%elem_of_nil|]. intros E%list_elem_of_singleton. symmetry in E.
    eauto using from_utf8_shape.
  - cbn [read_lines_go]. intros [E|Hl]%elem_of_cons; [|by apply IH]. symmetry in E.
    eapply from_utf8_shape; [|exact E]. by intros ?%elem_of_strip_cr.
Qed.
