(* ===== verification/RustNum.v ===== *)
(** * Machine integers and their text

    [i64] and [u64] of the Rust standard library as integers of [Z] kept at their
    width: [str::parse::<i64>], [to_string], wrapping and saturating operations,
    with the lemmas that relate text and value. *)

From S2P Require Import Prelude RustStr.

#[local] Open Scope Z_scope.

(** ** Widths *)

Definition i64_min : Z := - 2 ^ 63.
Definition i64_max : Z := 2 ^ 63 - 1.
Definition in_i64 (z : Z) : bool := (i64_min <=? z) && (z <=? i64_max).

Definition u64_max : Z := 2 ^ 64 - 1.

(** [a + b] and [a * b] on [u64], as a release build computes them. *)
Definition u64_wrap (z : Z) : Z := z mod 2 ^ 64.
Definition u64_add (a b : Z) : Z := u64_wrap (a + b).
Definition u64_mul (a b : Z) : Z := u64_wrap (a * b).

(** [checked_mul] and [checked_add] on [i64]. *)
Definition i64_checked (z : Z) : option Z := if in_i64 z then Some z else None.

(** ** Parsing *)

Definition MINUS : char := 45%N.
Definition PLUS : char := 43%N.

Definition digit_val (c : char) : Z := Z.of_N c - 48.

(** The digit loop of [from_str_radix]: [sgn] is 1, or -1 after a minus sign. *)
Fixpoint parse_digits (sgn acc : Z) (s : rstr) : option Z :=
  match s with
  | [] => Some acc
  | c :: s' =>
      if is_digit c then
        m ← i64_checked (acc * 10);
        a ← i64_checked (m + sgn * digit_val c);
        parse_digits sgn a s'
      else None
  end.

(** [str::parse::<i64>], errors forgotten. *)
Definition parse_i64 (s : rstr) : option Z :=
  match s with
  | [] => None
  | c :: r =>
      if (c =? MINUS)%rust then (if is_empty r then None else parse_digits (-1) 0 r)
      else if (c =? PLUS)%rust then (if is_empty r then None else parse_digits 1 0 r)
      else parse_digits 1 0 s
  end.

(** ** Printing *)

(** The decimal digits of [n] in front of [acc]. *)
Fixpoint dec_go (fuel : nat) (n : N) (acc : rstr) : rstr :=
  match fuel with
  | O => acc
  | S f =>
      let acc' := (48 + n mod 10)%N :: acc in
      if (n / 10 =? 0)%N then acc' else dec_go f (n / 10) acc'
  end.

(** As many steps as bits are enough: every step divides by ten. *)
Definition dec_string (n : N) : rstr := dec_go (S (N.size_nat n)) n [].

(** [i64::to_string], [u64::to_string] and [usize::to_string]. *)
Definition int_to_string (z : Z) : rstr :=
  if z <? 0 then MINUS :: dec_string (Z.to_N (- z)) else dec_string (Z.to_N z).

Definition nat_to_string (n : nat) : rstr := dec_string (N.of_nat n).

(** ** Lemmas *)

Definition dec_val (acc : Z) (s : rstr) : Z :=
  fold_left (fun a c => a * 10 + digit_val c) s acc.

Definition digits (s : rstr) : Prop := Forall (fun c => is_digit c = true) s.

Lemma is_digit_val c : is_digit c = true -> 0 <= digit_val c <= 9.
Proof.
  unfold is_digit, between, digit_val. rewrite andb_true_iff, !N.leb_le. lia.
Qed.

Lemma digit_of_mod n : is_digit (48 + n mod 10)%N = true.
Proof.
  unfold is_digit, between. rewrite andb_true_iff, !N.leb_le.
  pose proof (N.mod_lt n 10 ltac:(done)). generalize dependent (n mod 10)%N. lia.
Qed.

Lemma dec_go_digits f n acc : digits acc -> digits (dec_go f n acc).
Proof.
  unfold digits. revert n acc. induction f as [|f IH]; intros n acc H; simpl; [done|].
  assert (Forall (fun c => is_digit c = true) ((48 + n mod 10)%N :: acc))
    by (constructor; [apply digit_of_mod|done]).
  case_match; auto.
Qed.

Lemma dec_go_nonempty f n acc : acc ≠ [] -> dec_go f n acc ≠ [].
Proof. revert n acc. induction f as [|f IH]; intros n acc H; simpl; [done|]. case_match; [done|by apply IH]. Qed.

Lemma dec_go_val f n acc :
  (n < 10 ^ N.of_nat f)%N -> dec_val 0 (dec_go f n acc) = dec_val (Z.of_N n) acc.
Proof.
  revert n acc. induction f as [|f IH]; intros n acc H.
  { change (10 ^ N.of_nat 0)%N with 1%N in H. by replace n with 0%N by lia. }
  cbn [dec_go]. rewrite Nat2N.inj_succ, N.pow_succ_r' in H.
  pose proof (N.div_mod n 10 ltac:(done)) as E. pose proof (N.mod_lt n 10 ltac:(done)) as Hm.
  destruct (N.eqb_spec (n / 10) 0) as [E0|E0]; [|rewrite IH by (apply N.Div0.div_lt_upper_bound; lia)];
    unfold dec_val; simpl; f_equal; unfold digit_val; lia.
Qed.

Lemma size_nat_pow n : (n < 10 ^ N.of_nat (S (N.size_nat n)))%N.
Proof.
  apply N.lt_le_trans with (2 ^ N.size n)%N; [apply N.size_gt|].
  assert (N.of_nat (N.size_nat n) = N.size n) as <- by (destruct n; simpl; [done|]; induction p; simpl; lia).
  transitivity (10 ^ N.of_nat (N.size_nat n))%N; [by apply N.pow_le_mono_l|].
  apply N.pow_le_mono_r; lia.
Qed.

Lemma dec_string_val n : dec_val 0 (dec_string n) = Z.of_N n.
Proof. apply dec_go_val, size_nat_pow. Qed.

Lemma dec_string_digits n : digits (dec_string n).
Proof. apply dec_go_digits. constructor. Qed.

Lemma dec_string_nonempty n : dec_string n ≠ [].
Proof. unfold dec_string. cbn [dec_go]. case_match; [done|]. by apply dec_go_nonempty. Qed.

(** The digits read so far never exceed the number they are the start of. *)
Lemma dec_val_ge s acc : digits s -> 0 <= acc -> acc <= dec_val acc s.
Proof.
  intros Hs. revert acc. induction Hs as [|c s Hc _ IH]; intros acc Ha; simpl; [done|].
  apply is_digit_val in Hc. etrans; [|apply IH; lia]. lia.
Qed.

Lemma i64_checked_in z : in_i64 z = true -> i64_checked z = Some z.
Proof. unfold i64_checked. by intros ->. Qed.

Lemma i64_checked_out z : in_i64 z = false -> i64_checked z = None.
Proof. unfold i64_checked. by intros ->. Qed.

Lemma in_i64_iff z : in_i64 z = true <-> i64_min <= z <= i64_max.
Proof. unfold in_i64. rewrite andb_true_iff, !Z.leb_le. done. Qed.

(** Growing away from zero never comes back into range. *)
Lemma in_i64_mono sgn a b :
  sgn = 1 \/ sgn = -1 -> 0 <= a <= b -> in_i64 (sgn * b) = true -> in_i64 (sgn * a) = true.
Proof. rewrite !in_i64_iff. unfold i64_min, i64_max. intros [-> | ->]; lia. Qed.

(** The digit loop computes the value when it is in range, and fails exactly
    when it is not: no partial sum overflows earlier or later than the whole. *)
Lemma parse_digits_spec sgn acc s :
  sgn = 1 \/ sgn = -1 -> 0 <= acc -> in_i64 (sgn * acc) = true -> digits s ->
  parse_digits sgn (sgn * acc) s = i64_checked (sgn * dec_val acc s).
Proof.
  intros Hsgn Ha Hr Hs. revert acc Ha Hr. induction Hs as [|c s Hc Hs IH]; intros acc Ha Hr; simpl.
  { symmetry. by apply i64_checked_in. }
  rewrite Hc. pose proof (is_digit_val c Hc) as Hd.
  pose proof (dec_val_ge s (acc * 10 + digit_val c) Hs ltac:(lia)) as Hge.
  fold (dec_val (acc * 10 + digit_val c) s). set (v := dec_val _ s) in *.
  replace (sgn * acc * 10) with (sgn * (acc * 10)) by lia.
  destruct (in_i64 (sgn * (acc * 10))) eqn:E1; [rewrite (i64_checked_in _ E1)|rewrite (i64_checked_out _ E1)]; simpl.
  - replace (sgn * (acc * 10) + sgn * digit_val c) with (sgn * (acc * 10 + digit_val c)) by lia.
    destruct (in_i64 (sgn * (acc * 10 + digit_val c))) eqn:E2;
      [rewrite (i64_checked_in _ E2)|rewrite (i64_checked_out _ E2)]; simpl.
    + apply IH; [lia|done].
    + symmetry. apply i64_checked_out. apply not_true_iff_false. intros E.
      eapply in_i64_mono in E; [|done|split; [|exact Hge]; lia]. congruence.
  - symmetry. apply i64_checked_out. apply not_true_iff_false. intros E.
    eapply in_i64_mono with (a := acc * 10) in E; [|done|lia]. congruence.
Qed.

Lemma parse_digits_range sgn acc s z :
  in_i64 acc = true -> parse_digits sgn acc s = Some z -> in_i64 z = true.
Proof.
  revert acc. induction s as [|c s IH]; intros acc Ha; simpl; [by intros [= ->]|].
  unfold i64_checked. repeat case_match; try done; simpl; repeat case_match; try done; simpl; eauto.
Qed.

Lemma parse_i64_range s z : parse_i64 s = Some z -> in_i64 z = true.
Proof.
  destruct s as [|c r]; cbn [parse_i64]; [done|].
  repeat case_match; try done; by apply parse_digits_range.
Qed.

Lemma parse_digits_dec sgn n :
  sgn = 1 \/ sgn = -1 -> in_i64 (sgn * Z.of_N n) = true ->
  parse_digits sgn 0 (dec_string n) = Some (sgn * Z.of_N n).
Proof.
  intros Hs Hr. replace 0 with (sgn * 0) by lia.
  rewrite parse_digits_spec; [|done|lia| |apply dec_string_digits].
  - rewrite dec_string_val. by apply i64_checked_in.
  - by replace (sgn * 0) with 0 by lia.
Qed.

Lemma parse_i64_dec n :
  in_i64 (Z.of_N n) = true -> parse_i64 (dec_string n) = Some (Z.of_N n).
Proof.
  intros Hr. replace (Z.of_N n) with (1 * Z.of_N n) in * by lia.
  rewrite <-(parse_digits_dec 1 n) by auto.
  pose proof (dec_string_digits n) as Hd. pose proof (dec_string_nonempty n).
  destruct (dec_string n) as [|d ds]; [done|]. cbn [parse_i64].
  inversion Hd as [|? ? Hc _]; subst.
  rewrite !bool_decide_eq_false_2 by (intros ->; by vm_compute in Hc). done.
Qed.

(** Printing an [i64] and parsing it gives it back. *)
Lemma parse_i64_to_string z : in_i64 z = true -> parse_i64 (int_to_string z) = Some z.
Proof.
  intros Hz. unfold int_to_string. destruct (Z.ltb_spec z 0) as [Hn|Hn].
  - cbn [parse_i64]. rewrite bool_decide_eq_true_2 by done.
    pose proof (dec_string_nonempty (Z.to_N (- z))).
    destruct (is_empty (dec_string (Z.to_N (- z)))) eqn:E; [by destruct (dec_string _)|].
    assert (-1 * Z.of_N (Z.to_N (- z)) = z) as Ez by lia.
    rewrite parse_digits_dec; rewrite ?Ez; auto.
  - assert (Z.of_N (Z.to_N z) = z) as Ez by lia.
    rewrite parse_i64_dec; rewrite ?Ez; auto.
Qed.

(** The characters of a printed integer. *)
Lemma int_to_string_chars z c : c ∈ int_to_string z -> is_digit c = true \/ c = MINUS.
Proof.
  unfold int_to_string. case_match; rewrite ?elem_of_cons; intros H'; destruct_or?; auto;
    left; eapply Forall_forall in H'; [|apply dec_string_digits| |apply dec_string_digits]; done.
Qed.

Lemma u64_add_small a b : 0 <= a -> 0 <= b -> a + b <= u64_max -> u64_add a b = a + b.
Proof. unfold u64_add, u64_wrap, u64_max. intros. apply Z.mod_small. lia. Qed.

Lemma u64_mul_small a b : 0 <= a * b <= u64_max -> u64_mul a b = a * b.
Proof. unfold u64_mul, u64_wrap, u64_max. intros. apply Z.mod_small. lia. Qed.
