(* ===== verification/RustMap.v ===== *)
(** * Ordered maps and stable sorting of the Rust standard library

    [Ord] is a class with its laws.  A [BTreeMap] is the list of its entries in
    increasing key order, which is what its iterators deliver; [bt_insert] and
    [bt_get] are [insert] and [get].  [sort_by] is the stable slice sort: it is
    defined by insertion, and [stable_sort_unique] shows that the three facts
    "sorted, a permutation, stable" leave no other result. *)

From S2P Require Import Prelude RustStr.
From Stdlib Require Export Sorted Permutation.

(** ** [Ord] *)

Class RustOrd (K : Type) := rcmp : K -> K -> comparison.

Class RustOrdLaws (K : Type) `{RustOrd K} : Prop := {
  rcmp_refl : forall a : K, rcmp a a = Eq;
  rcmp_eq : forall a b : K, rcmp a b = Eq -> a = b;
  rcmp_antisym : forall a b : K, rcmp b a = CompOpp (rcmp a b);
  rcmp_trans : forall a b c : K, rcmp a b = Lt -> rcmp b c = Lt -> rcmp a c = Lt
}.

#[export] Instance str_ord : RustOrd (list N) := str_cmp.

#[export] Instance str_ord_laws : RustOrdLaws (list N).
Proof. split; [apply lex_cmp_refl|apply lex_cmp_eq|intros; apply lex_cmp_antisym|apply lex_cmp_trans]. Qed.

(** ** [BTreeMap] *)

Section BTreeMap.
Context {K V : Type} `{RustOrd K}.
Implicit Types (m : list (K * V)) (k : K) (v : V).

Fixpoint bt_insert k v m : list (K * V) :=
  match m with
  | [] => [(k, v)]
  | (k', v') :: m' =>
      match rcmp k k' with
      | Lt => (k, v) :: m
      | Eq => (k, v) :: m'
      | Gt => (k', v') :: bt_insert k v m'
      end
  end.

Fixpoint bt_get k m : option V :=
  match m with
  | [] => None
  | (k', v') :: m' =>
      match rcmp k k' with
      | Eq => Some v'
      | Lt => None
      | Gt => bt_get k m'
      end
  end.

Definition bt_values m : list V := map snd m.

(** Insert the entries of a list, in order. *)
Definition bt_extend (l : list (K * V)) m : list (K * V) :=
  foldl (fun acc e => bt_insert e.1 e.2 acc) m l.

Definition key_lt (a b : K * V) : Prop := rcmp a.1 b.1 = Lt.

(** The representation invariant: keys strictly increase. *)
Definition bt_wf m : Prop := StronglySorted key_lt m.
End BTreeMap.

(** ** [sort_by] *)

Section SortBy.
Context {A : Type} (cmp : A -> A -> comparison).

Fixpoint insert_by (x : A) (l : list A) : list A :=
  match l with
  | [] => [x]
  | y :: l' => match cmp x y with Gt => y :: insert_by x l' | _ => x :: l end
  end.

Fixpoint sort_by (l : list A) : list A :=
  match l with
  | [] => []
  | x :: l' => insert_by x (sort_by l')
  end.

Definition cmp_le (x y : A) : Prop := cmp x y ≠ Gt.

(** What a comparator passed to [sort_by] must satisfy. *)
Class CmpPreorder : Prop := {
  cmp_opp : forall x y, cmp y x = CompOpp (cmp x y);
  cmp_trans : forall x y z, cmp_le x y -> cmp_le y z -> cmp_le x z
}.
End SortBy.
Arguments CmpPreorder {A} cmp.

(** [Ordering::then_with]. *)
Definition then_with (o1 o2 : comparison) : comparison :=
  match o1 with Eq => o2 | o => o end.

(** ** Lemmas: maps *)

Section BTreeMapLemmas.
Context {K V : Type} `{RustOrdLaws K}.
Implicit Types (m : list (K * V)) (k : K) (v : V).

Lemma bt_insert_keys k v m e : e ∈ bt_insert k v m -> e = (k, v) \/ e ∈ m.
Proof.
  induction m as [|[k' v'] m IH]; simpl; [set_solver|].
  case_match; set_solver.
Qed.

Lemma bt_insert_wf k v m : bt_wf m -> bt_wf (bt_insert k v m).
Proof.
  unfold bt_wf. induction 1 as [|[k' v'] m Hm IH Hf]; simpl; [repeat constructor|].
  destruct (rcmp k k') eqn:E.
  - apply rcmp_eq in E. subst k'. by constructor.
  - constructor; [by constructor|]. constructor; [done|].
    eapply Forall_impl; [exact Hf|]. intros e He. by eapply rcmp_trans.
  - constructor; [done|]. apply Forall_forall. intros e He.
    apply bt_insert_keys in He as [->|He].
    + unfold key_lt; simpl. rewrite rcmp_antisym, E. done.
    + by eapply Forall_forall in Hf.
Qed.

Lemma bt_extend_wf l m : bt_wf m -> bt_wf (bt_extend l m).
Proof. revert m. induction l as [|[k v] l IH]; simpl; intros m Hm; [done|]. by apply IH, bt_insert_wf. Qed.

Lemma bt_extend_elem e l m : e ∈ bt_extend l m -> e ∈ l \/ e ∈ m.
Proof.
  revert m. induction l as [|[k v] l IH]; simpl; intros m; [by right|].
  intros [He|[->|He]%bt_insert_keys]%IH; set_solver.
Qed.

Lemma bt_get_insert k v m : bt_get k (bt_insert k v m) = Some v.
Proof.
  induction m as [|[k' v'] m IH]; simpl; [by rewrite rcmp_refl|].
  destruct (rcmp k k') eqn:E; simpl; [by rewrite rcmp_refl..|]. by rewrite E.
Qed.

Lemma bt_get_insert_ne k k2 v m :
  bt_wf m -> k ≠ k2 -> bt_get k2 (bt_insert k v m) = bt_get k2 m.
Proof.
  unfold bt_wf. intros Hm Hne. induction Hm as [|[k' v'] m Hm IH Hf]; simpl.
  { destruct (rcmp k2 k) eqn:E; try done. by apply rcmp_eq in E. }
  destruct (rcmp k k') eqn:E; simpl.
  - apply rcmp_eq in E. subst k'. destruct (rcmp k2 k) eqn:E2; try done. by apply rcmp_eq in E2.
  - destruct (rcmp k2 k) eqn:E2; [by apply rcmp_eq in E2| |done].
    by rewrite (rcmp_trans _ _ _ E2 E).
  - by rewrite IH.
Qed.

Lemma bt_get_elem k v m : bt_wf m -> bt_get k m = Some v <-> (k, v) ∈ m.
Proof.
  unfold bt_wf. induction 1 as [|[k' v'] m Hm IH Hf]; simpl; [set_solver|].
  rewrite elem_of_cons. destruct (rcmp k k') eqn:E.
  - apply rcmp_eq in E. subst k'. split; [intros; left; congruence|].
    intros [?|Hin]; [congruence|]. eapply Forall_forall in Hf; [|exact Hin].
    unfold key_lt in Hf; simpl in Hf. rewrite rcmp_refl in Hf. done.
  - split; [done|]. intros [?|Hin].
    + simplify_eq. by rewrite rcmp_refl in E.
    + eapply Forall_forall in Hf; [|exact Hin]. unfold key_lt in Hf; simpl in Hf.
      pose proof (rcmp_trans _ _ _ E Hf) as E2. by rewrite rcmp_refl in E2.
  - rewrite IH. split; [by right|]. intros [?|?]; [|done].
    simplify_eq. by rewrite rcmp_refl in E.
Qed.

Lemma bt_insert_last k v m : bt_wf (m ++ [(k, v)]) -> bt_insert k v m = m ++ [(k, v)].
Proof.
  unfold bt_wf. induction m as [|[k' v'] m IH]; simpl; intros Hw; [done|].
  inversion Hw as [|? ? Hm Hf]; subst.
  assert (key_lt (k', v') (k, v)) as L by (eapply Forall_forall in Hf; [exact Hf|set_solver]).
  unfold key_lt in L; simpl in L. rewrite rcmp_antisym, L. simpl. by rewrite IH.
Qed.

Lemma bt_wf_app_l m1 m2 : bt_wf (m1 ++ m2) -> bt_wf m1.
Proof.
  unfold bt_wf. induction m1 as [|e m1 IH]; simpl; intros Hw; [constructor|].
  inversion Hw as [|? ? Hm Hf]; subst. apply Forall_app in Hf as [Hf _].
  constructor; auto.
Qed.

(** Inserting the entries of a map in key order rebuilds it. *)
Lemma bt_extend_sorted m1 m2 : bt_wf (m1 ++ m2) -> bt_extend m2 m1 = m1 ++ m2.
Proof.
  revert m1. induction m2 as [|[k v] m2 IH]; intros m1 Hw; simpl; [by rewrite app_nil_r|].
  replace (m1 ++ (k, v) :: m2) with ((m1 ++ [(k, v)]) ++ m2) in * by (by rewrite <-app_assoc).
  rewrite bt_insert_last by (by eapply bt_wf_app_l). by apply IH.
Qed.

Lemma bt_get_extend_fresh k l m :
  bt_wf m -> k ∉ l.*1 -> bt_get k (bt_extend l m) = bt_get k m.
Proof.
  revert m. induction l as [|[k' v'] l IH]; simpl; intros m Hm Hk; [done|].
  apply not_elem_of_cons in Hk as [Hk1 Hk2].
  rewrite IH by (auto using bt_insert_wf). by apply bt_get_insert_ne.
Qed.

Lemma bt_get_extend_app k v l1 l2 m :
  bt_wf m -> k ∉ l2.*1 -> bt_get k (bt_extend (l1 ++ (k, v) :: l2) m) = Some v.
Proof.
  intros Hm Hk. unfold bt_extend. rewrite foldl_app. simpl.
  fold (bt_extend l1 m). fold (bt_extend l2 (bt_insert k v (bt_extend l1 m))).
  rewrite bt_get_extend_fresh by (auto using bt_insert_wf, bt_extend_wf). apply bt_get_insert.
Qed.

(** Extending by a map: its own entries first. *)
Lemma bt_get_extend k l m :
  bt_wf l -> bt_wf m ->
  bt_get k (bt_extend l m) = match bt_get k l with Some v => Some v | None => bt_get k m end.
Proof.
  intros Hl Hm. destruct (bt_get k l) as [v|] eqn:E.
  - apply bt_get_elem in E as (l1 & l2 & ->)%list_elem_of_split; [|done].
    apply bt_get_extend_app; [done|]. intros (e & Ek & He)%list_elem_of_fmap.
    assert (bt_wf ((k, v) :: l2)) as Hw.
    { clear -Hl. unfold bt_wf in *. induction l1 as [|x l1 IH]; [done|]. apply IH. by inversion Hl. }
    inversion Hw as [|? ? _ Hf]; subst. eapply Forall_forall in Hf; [|exact He]. unfold key_lt in Hf; cbn [fst] in Hf.
    by rewrite rcmp_refl in Hf.
  - apply bt_get_extend_fresh; [done|]. intros (e & -> & He)%list_elem_of_fmap.
    destruct e as [k' v']. apply bt_get_elem in He; [|done]. cbn [fst] in E. by rewrite E in He.
Qed.
End BTreeMapLemmas.

#[export] Hint Resolve bt_insert_wf bt_extend_wf : hawk.
#[export] Hint Extern 1 (bt_wf []) => constructor : hawk.

(** ** Lemmas: sorting *)

Section SortLemmas.
Context {A : Type} (cmp : A -> A -> comparison) `{!CmpPreorder cmp}.

Definition cmp_eqb (x y : A) : bool := match cmp x y with Eq => true | _ => false end.

Lemma cmp_refl x : cmp x x = Eq.
Proof. pose proof (cmp_opp cmp x x) as E. by destruct (cmp x x). Qed.

Lemma cmp_le_gt x y : cmp x y = Gt -> cmp_le cmp y x.
Proof. unfold cmp_le. rewrite (cmp_opp cmp x y). by intros ->. Qed.

Lemma cmp_le_antisym x y : cmp_le cmp x y -> cmp_le cmp y x -> cmp x y = Eq.
Proof. unfold cmp_le. rewrite (cmp_opp cmp x y). by destruct (cmp x y). Qed.

(** Strictly below and then at most is strictly below. *)
Lemma cmp_lt_le x y z : cmp x y = Lt -> cmp_le cmp y z -> cmp x z = Lt.
Proof.
  intros Hxy Hyz. destruct (cmp x z) eqn:E; [|done|].
  - assert (cmp_le cmp y x) as Hyx.
    { eapply cmp_trans; [done|exact Hyz|]. unfold cmp_le. rewrite (cmp_opp cmp x z), E. done. }
    unfold cmp_le in Hyx. rewrite (cmp_opp cmp x y), Hxy in Hyx. done.
  - assert (cmp_le cmp x z) as Hxz by (eapply cmp_trans; [done| |exact Hyz]; unfold cmp_le; by rewrite Hxy).
    by destruct Hxz.
Qed.

Lemma insert_by_perm x l : insert_by cmp x l ≡ₚ x :: l.
Proof.
  induction l as [|y l IH]; simpl; [done|]. case_match; try done.
  rewrite IH. apply Permutation_swap.
Qed.

Lemma sort_by_perm l : sort_by cmp l ≡ₚ l.
Proof. induction l as [|x l IH]; simpl; [done|]. by rewrite insert_by_perm, IH. Qed.

Lemma insert_by_sorted x l :
  StronglySorted (cmp_le cmp) l -> StronglySorted (cmp_le cmp) (insert_by cmp x l).
Proof.
  induction 1 as [|y l Hl IH Hy]; simpl; [repeat constructor|].
  destruct (cmp x y) eqn:E.
  1,2: assert (cmp_le cmp x y) as Hxy by (unfold cmp_le; by rewrite E);
    constructor; [by constructor|]; constructor; [done|];
    eapply Forall_impl; [exact Hy|]; intros z Hz; by eapply cmp_trans.
  constructor; [done|]. rewrite insert_by_perm. constructor; [by apply cmp_le_gt|done].
Qed.

Lemma sort_by_sorted l : StronglySorted (cmp_le cmp) (sort_by cmp l).
Proof. induction l as [|x l IH]; simpl; [constructor|]. by apply insert_by_sorted. Qed.

Lemma cmp_eqb_true x y : cmp_eqb x y = true <-> cmp x y = Eq.
Proof. unfold cmp_eqb. by destruct (cmp x y). Qed.

(** Elements equal to a probe keep their order. *)
Lemma insert_by_stable p x l :
  List.filter (cmp_eqb p) (insert_by cmp x l) = List.filter (cmp_eqb p) (x :: l).
Proof.
  induction l as [|y l IH]; simpl; [done|].
  destruct (cmp x y) eqn:E; [done..|]. cbn [List.filter]. rewrite IH. cbn [List.filter].
  destruct (cmp_eqb p x) eqn:Ex, (cmp_eqb p y) eqn:Ey; try done.
  apply cmp_eqb_true in Ex, Ey.
  assert (cmp x p = Eq) by (by rewrite (cmp_opp cmp p x), Ex).
  assert (cmp_le cmp x y) as [] by (eapply cmp_trans; [done|unfold cmp_le; by erewrite H|unfold cmp_le; by rewrite Ey]).
  done.
Qed.

Lemma sort_by_stable p l :
  List.filter (cmp_eqb p) (sort_by cmp l) = List.filter (cmp_eqb p) l.
Proof. induction l as [|x l IH]; cbn [sort_by]; [done|]. rewrite insert_by_stable. cbn [List.filter]. by rewrite IH. Qed.

(** Sorted, a permutation and stable: there is one such list. *)
Lemma stable_sort_unique l1 l2 :
  StronglySorted (cmp_le cmp) l1 -> StronglySorted (cmp_le cmp) l2 -> l1 ≡ₚ l2 ->
  (forall p, List.filter (cmp_eqb p) l1 = List.filter (cmp_eqb p) l2) -> l1 = l2.
Proof.
  intros S1. revert l2. induction S1 as [|a l1 S1 IH F1]; intros l2 S2 P F.
  { by apply Permutation_nil in P. }
  destruct S2 as [|b l2 S2 F2]; [by apply Permutation_sym, Permutation_nil in P|].
  assert (cmp a b = Eq) as Eab.
  { assert (b ∈ a :: l1) as Hb by (rewrite P; set_solver).
    assert (a ∈ b :: l2) as Ha by (rewrite <-P; set_solver).
    apply cmp_le_antisym.
    - apply elem_of_cons in Hb as [->|Hb]; [unfold cmp_le; by rewrite cmp_refl|].
      by eapply Forall_forall in F1.
    - apply elem_of_cons in Ha as [->|Ha]; [unfold cmp_le; by rewrite cmp_refl|].
      by eapply Forall_forall in F2. }
  assert (a = b) as <-.
  { specialize (F a). cbn [List.filter] in F.
    rewrite (proj2 (cmp_eqb_true a a) (cmp_refl a)), (proj2 (cmp_eqb_true a b) Eab) in F.
    by simplify_eq. }
  f_equal. apply IH; [done|by apply Permutation_cons_inv in P|].
  intros p. specialize (F p). cbn [List.filter] in F. case_match; by simplify_eq.
Qed.
End SortLemmas.

(** Comparators built the way the sources build them. *)
Section Comparators.
Context {A B : Type}.

Lemma cmp_on_preorder (f : A -> B) cmp : CmpPreorder cmp -> CmpPreorder (fun x y => cmp (f x) (f y)).
Proof.
  intros [H1 H2]. split; [intros; apply H1|].
  intros x y z. unfold cmp_le. apply (H2 (f x) (f y) (f z)).
Qed.

Lemma cmp_flip_preorder (cmp : A -> A -> comparison) : CmpPreorder cmp -> CmpPreorder (fun x y => cmp y x).
Proof.
  intros [H1 H2]. split; [intros; apply H1|].
  intros x y z. unfold cmp_le. intros Hxy Hyz. by apply (H2 z y x).
Qed.

Lemma cmp_then_preorder (c1 c2 : A -> A -> comparison) :
  CmpPreorder c1 -> CmpPreorder c2 -> CmpPreorder (fun x y => then_with (c1 x y) (c2 x y)).
Proof.
  intros P1 P2. split.
  { intros x y. rewrite (cmp_opp c1 x y), (cmp_opp c2 x y). by destruct (c1 x y). }
  intros x y z. unfold cmp_le, then_with. intros Hxy Hyz.
  destruct (c1 x y) eqn:Exy; [|rewrite (cmp_lt_le c1 x y z); [done..|]; unfold cmp_le; by destruct (c1 y z)|done].
  assert (c1 y x = Eq) as Eyx by (by rewrite (cmp_opp c1 x y), Exy).
  destruct (c1 y z) eqn:Eyz; [| |done].
  - assert (c1 x z = Eq) as ->; [|by eapply (cmp_trans c2)].
    assert (c1 z y = Eq) as Ezy by (by rewrite (cmp_opp c1 y z), Eyz).
    apply cmp_le_antisym; [done| |]; eapply (cmp_trans c1) with (y := y); unfold cmp_le;
      rewrite ?Exy, ?Eyz, ?Eyx, ?Ezy; done.
  - assert (cmp_le c1 x z) as Hxz
      by (eapply (cmp_trans c1) with (y := y); unfold cmp_le; rewrite ?Exy, ?Eyz; done).
    unfold cmp_le in Hxz. destruct (c1 x z) eqn:Exz; try done.
    assert (c1 z y = Gt) as Ezy by (by rewrite (cmp_opp c1 y z), Eyz).
    assert (cmp_le c1 z y) as []; [|done].
    eapply (cmp_trans c1) with (y := x); unfold cmp_le; rewrite ?Exy; [|done].
    rewrite (cmp_opp c1 x z), Exz. done.
Qed.
End Comparators.

Lemma Z_compare_preorder : CmpPreorder Z.compare.
Proof.
  split; [intros; apply Z.compare_antisym|].
  unfold cmp_le. intros x y z. rewrite !Z.compare_gt_iff. lia.
Qed.

Lemma str_cmp_preorder : CmpPreorder str_cmp.
Proof.
  split; [intros; apply lex_cmp_antisym|].
  unfold cmp_le. intros x y z Hxy Hyz.
  destruct (str_cmp x y) eqn:E1; [apply lex_cmp_eq in E1; by subst| |done].
  destruct (str_cmp y z) eqn:E2; [apply lex_cmp_eq in E2; subst; by rewrite E1| |done].
  pose proof (lex_cmp_trans _ _ _ E1 E2) as E. unfold str_cmp. by rewrite E.
Qed.

#[export] Hint Resolve bt_insert_wf bt_extend_wf bt_get_insert : hawk.
