(* ===== verification/RustPath.v ===== *)
(** * [std::path] on unix, [std::fs] and [anyhow] as the sources use them

    Paths as text, their components, joining and the order of [PathBuf].  The
    file system is the class [Fs]: what its calls answer at one moment.  An
    [anyhow::Error] is the chain of its messages, outermost first.  The lemma the
    pack loader rests on: joining a relative path without [..] only appends
    ordinary components. *)

From S2P Require Import Prelude RustStr RustMap.

(** ** Components *)

Inductive Component := RootDir | CurDir | ParentDir | Normal (s : rstr).

#[export] Instance component_eq_dec : EqDecision Component.
Proof. solve_decision. Defined.

(** What a piece between separators stands for; empty pieces and [.] for
    nothing. *)
Definition comp_of_piece (s : rstr) : option Component :=
  if is_empty s then None
  else if s =? [DOT] then None
  else if s =? [DOT; DOT] then Some ParentDir
  else Some (Normal s).

Definition is_absolute (p : rstr) : bool := starts_with [SLASH] p.

(** [Path::components]: a leading [.] is kept when the path has no root. *)
Definition components (p : rstr) : list Component :=
  let pieces := split SLASH p in
  if is_absolute p then RootDir :: omap comp_of_piece pieces
  else match pieces with
       | w :: rest => if w =? [DOT] then CurDir :: omap comp_of_piece rest else omap comp_of_piece pieces
       | [] => []
       end.

(** [Path::join]. *)
Definition path_join (a b : rstr) : rstr :=
  if is_absolute b then b
  else if last_free (fun c => c =? SLASH) a && negb (is_empty a) then a ++ [SLASH] ++ b
  else a ++ b.

(** ** [Ord for Path]: by components *)

Definition comp_rank (c : Component) : Z :=
  match c with RootDir => 0 | CurDir => 1 | ParentDir => 2 | Normal _ => 3 end.

Definition comp_cmp (a b : Component) : comparison :=
  match a, b with
  | Normal s, Normal t => str_cmp s t
  | _, _ => Z.compare (comp_rank a) (comp_rank b)
  end.

Fixpoint comps_cmp (a b : list Component) : comparison :=
  match a, b with
  | [], [] => Eq
  | [], _ => Lt
  | _, [] => Gt
  | x :: a', y :: b' => then_with (comp_cmp x y) (comps_cmp a' b')
  end.

Definition path_cmp (a b : rstr) : comparison := comps_cmp (components a) (components b).

(** ** The file system at one moment *)

Class Fs := {
  fs_exists : rstr -> bool;
  fs_is_dir : rstr -> bool;
  (** [fs::read_dir]: the paths of the entries, some of which may fail *)
  fs_read_dir : rstr -> result (list (result rstr rstr)) rstr;
  fs_read_to_string : rstr -> result rstr rstr
}.

(** ** [anyhow] *)

Notation anyhow := (list (list N)) (only parsing).

Definition with_context {A} (msg : rstr) (r : result A anyhow) : result A anyhow := map_err (cons msg) r.

(** An error of another type, converted by [?]. *)
Definition from_err {A} (r : result A rstr) : result A anyhow := map_err (fun e => [e]) r.

(** [Display]: the outermost message. *)
Definition anyhow_display (e : anyhow) : rstr := default [] (head e).

(** ** Lemmas *)

Lemma comp_of_piece_cases w :
  comp_of_piece w = None \/ comp_of_piece w = Some ParentDir \/ comp_of_piece w = Some (Normal w).
Proof. unfold comp_of_piece. repeat case_match; auto. Qed.

(** Appending below a non-empty path appends components. *)
Lemma components_app dir file :
  dir ≠ [] -> components (dir ++ SLASH :: file) = components dir ++ omap comp_of_piece (split SLASH file).
Proof.
  intros Hne. unfold components, split. rewrite split_on_join_app.
  assert (is_absolute (dir ++ SLASH :: file) = is_absolute dir) as -> by (by destruct dir).
  destruct (is_absolute dir); [by rewrite omap_app|].
  destruct (split_on_cons SLASH dir) as (w & ws & ->). cbn [app].
  case_bool_decide; [by rewrite omap_app|]. by rewrite app_comm_cons, omap_app.
Qed.

(** The same for a path that ends with a separator. *)
Lemma components_trailing dir : dir ≠ [] -> components (dir ++ [SLASH]) = components dir.
Proof. intros H. rewrite (components_app dir []) by done. cbn. by rewrite app_nil_r. Qed.

(** The pieces of a relative path, whether or not it starts with [.]. *)
Lemma relative_components file :
  is_absolute file = false ->
  components file = omap comp_of_piece (split SLASH file)
  \/ components file = CurDir :: omap comp_of_piece (split SLASH file).
Proof.
  intros H. unfold components. rewrite H. destruct (split SLASH file) as [|w ws] eqn:E; [by left|].
  case_bool_decide as Hw; [|by left]. right. subst w. done.
Qed.

(** What joining does to the components. *)
Lemma components_join dir file :
  dir ≠ [] -> is_absolute file = false ->
  components (path_join dir file) = components dir ++ omap comp_of_piece (split SLASH file).
Proof.
  intros Hne Hrel. unfold path_join. rewrite Hrel.
  assert (is_empty dir = false) as -> by (by destruct dir). rewrite andb_true_r.
  destruct (last_free (fun c => c =? SLASH) dir) eqn:El; [by apply components_app|].
  destruct dir as [|c d _] using rev_ind; [done|].
  rewrite last_free_app in El. unfold last_free in El. cbn in El. apply negb_false_iff, bool_decide_eq_true in El.
  subst c. rewrite <-app_assoc. destruct d as [|x d]; [done|].
  change ((x :: d) ++ [SLASH] ++ file) with ((x :: d) ++ SLASH :: file).
  by rewrite components_trailing, components_app.
Qed.
