(* ===== verification/RustSock.v ===== *)
(** * Unix sockets in the file system, and [cfg(unix)]

    What the daemon uses of [std::fs::remove_file] and [UnixListener::bind]: a
    bound socket is a file, [bind] refuses a path at which there is a file, and a
    listener whose file was removed can no longer be reached.  The state is the
    map from the paths of socket files to who answers there. *)

From stdpp Require Import gmap.
From S2P Require Import Prelude RustStr RustPath.

(** The two ways the crates are compiled. *)
Inductive Platform := Unix | NotUnix.

#[export] Instance platform_eq_dec : EqDecision Platform.
Proof. solve_decision. Defined.

(** Who answers at a path: one of the daemon's listeners, or something left by
    another process. *)
Inductive Owner := Leftover | Broadcast | IngestPort.

#[export] Instance owner_eq_dec : EqDecision Owner.
Proof. solve_decision. Defined.

Notation sockets := (gmap rstr Owner).

(** What the system lets the process do: which files it may remove, why a path
    cannot be bound even when there is no file, and the text of the error when
    there is one. *)
Record SockOs := mk_sock_os {
  os_removable : rstr -> bool;
  os_unbindable : rstr -> option rstr;
  os_in_use : rstr
}.

Definition remove_file (os : SockOs) (fs : sockets) (path : rstr) : sockets :=
  if os_removable os path then delete path fs else fs.

Definition bind (os : SockOs) (fs : sockets) (path : rstr) (who : Owner) : result sockets rstr :=
  match os_unbindable os path, fs !! path with
  | Some e, _ => Err e
  | None, Some _ => Err (os_in_use os)
  | None, None => Ok (<[path := who]> fs)
  end.

(** The two calls together, as both listeners are opened. *)
Definition listen (os : SockOs) (fs : sockets) (overwrite : bool) (path : rstr) (who : Owner) : result sockets rstr :=
  bind os (if overwrite then remove_file os fs path else fs) path who.

(** A path is free after the optional removal. *)
Definition available (os : SockOs) (fs : sockets) (overwrite : bool) (path : rstr) : bool :=
  match os_unbindable os path with
  | Some _ => false
  | None => bool_decide (fs !! path = None) || (overwrite && os_removable os path)
  end.

Lemma listen_ok os fs overwrite path who :
  listen os fs overwrite path who =
  if available os fs overwrite path then Ok (<[path := who]> fs)
  else Err (default (os_in_use os) (os_unbindable os path)).
Proof.
  unfold listen, bind, available, remove_file. destruct (os_unbindable os path); [done|]. cbn [default].
  destruct overwrite; cbn [andb]; [destruct (os_removable os path)|]; rewrite ?orb_true_r, ?orb_false_r.
  - by rewrite lookup_delete_eq, insert_delete_eq.
  - destruct (fs !! path) eqn:E; [by rewrite bool_decide_eq_false_2|by rewrite bool_decide_eq_true_2].
  - destruct (fs !! path) eqn:E; [by rewrite bool_decide_eq_false_2|by rewrite bool_decide_eq_true_2].
Qed.
