(* ===== verification/TimeLib.v ===== *)
(** * The [time] crate, as the sources use it

    [OffsetDateTime], RFC 3339 parsing and formatting, subtraction and
    [Duration::whole_seconds] belong to the third-party crate [time]; they are
    the class [TimeLib], and what its documentation promises is the class
    [TimeLaws].  [Module UtcSeconds] is a concrete instance (UTC instants at
    whole-second precision, written [YYYY-MM-DDThh:mm:ssZ]) on which examples
    and witnesses evaluate. *)

From S2P Require Import Prelude RustStr RustNum RustMap.

(** The characters of RFC 3339 text. *)
Definition rfc3339_char (c : char) : bool :=
  is_digit c || bool_decide (c ∈ lit "-:.TZ+").

Class TimeLib := {
  OffsetDateTime : Type;
  Duration : Type;
  (** [OffsetDateTime::parse(s, &Rfc3339).ok()] *)
  odt_parse : rstr -> option OffsetDateTime;
  (** [t.format(&Rfc3339).ok()] *)
  odt_format : OffsetDateTime -> option rstr;
  (** [Ord for OffsetDateTime]: the order of the instants *)
  odt_cmp : OffsetDateTime -> OffsetDateTime -> comparison;
  (** [a - b] *)
  odt_sub : OffsetDateTime -> OffsetDateTime -> Duration;
  whole_seconds : Duration -> Z
}.

Class TimeLaws (T : TimeLib) : Prop := {
  (** RFC 3339 text written by the crate is read back as the same value. *)
  odt_parse_format : forall t s, odt_format t = Some s -> odt_parse s = Some t;
  (** It is not empty and has no character outside RFC 3339. *)
  odt_format_chars : forall t s,
    odt_format t = Some s -> s ≠ [] /\ Forall (fun c => rfc3339_char c = true) s;
  (** Instants are totally ordered. *)
  odt_cmp_preorder : CmpPreorder odt_cmp;
  (** Subtraction respects that order. *)
  odt_sub_mono : forall t1 t2 s,
    odt_cmp t1 t2 ≠ Gt -> (whole_seconds (odt_sub t1 s) <= whole_seconds (odt_sub t2 s))%Z
}.
#[export] Existing Instance odt_cmp_preorder.

(** ** An instance: UTC at whole seconds *)

Module UtcSeconds.
#[local] Open Scope N_scope.

Record civil := mk_civil { year : N; month : N; day : N; hour : N; minute : N; second : N }.

Definition leap (y : N) : bool :=
  ((y mod 4 =? 0) && negb (y mod 100 =? 0)) || (y mod 400 =? 0).

Definition days_in_month (y m : N) : N :=
  if (m =? 2) then (if leap y then 29 else 28)
  else if bool_decide (m ∈ [4; 6; 9; 11]) then 30 else 31.

Definition valid (c : civil) : bool :=
  (year c <=? 9999) && (1 <=? month c) && (month c <=? 12)
  && (1 <=? day c) && (day c <=? days_in_month (year c) (month c))
  && (hour c <=? 23) && (minute c <=? 59) && (second c <=? 59).

(** Days from 1 March of year 0, by the usual shift of the year to March. *)
Definition day_number (c : civil) : Z :=
  let y := (Z.of_N (year c) - (if (month c <=? 2)%N then 1 else 0))%Z in
  let m := ((Z.of_N (month c) + 9) mod 12)%Z in
  (365 * y + y / 4 - y / 100 + y / 400 + (153 * m + 2) / 5 + Z.of_N (day c) - 1)%Z.

Definition seconds (c : civil) : Z :=
  (day_number c * 86400 + Z.of_N (hour c) * 3600 + Z.of_N (minute c) * 60 + Z.of_N (second c))%Z.

Definition pad2 (n : N) : rstr := [48 + n / 10; 48 + n mod 10].
Definition pad4 (n : N) : rstr := pad2 (n / 100) ++ pad2 (n mod 100).

Definition format (c : civil) : option rstr :=
  if valid c then
    Some (pad4 (year c) ++ lit "-" ++ pad2 (month c) ++ lit "-" ++ pad2 (day c) ++ lit "T"
          ++ pad2 (hour c) ++ lit ":" ++ pad2 (minute c) ++ lit ":" ++ pad2 (second c) ++ lit "Z")
  else None.

Definition val2 (a b : char) : option N :=
  if is_digit a && is_digit b then Some ((a - 48) * 10 + (b - 48)) else None.

Definition parse (s : rstr) : option civil :=
  match s with
  | [y1; y2; y3; y4; p1; m1; m2; p2; d1; d2; pt; h1; h2; q1; n1; n2; q2; s1; s2; pz] =>
      if bool_decide ([p1; p2; pt; q1; q2; pz] = lit "--T::Z") then
        yh ← val2 y1 y2; yl ← val2 y3 y4; mo ← val2 m1 m2; dy ← val2 d1 d2;
        hh ← val2 h1 h2; mi ← val2 n1 n2; ss ← val2 s1 s2;
        let c := mk_civil (yh * 100 + yl) mo dy hh mi ss in
        if valid c then Some c else None
      else None
  | _ => None
  end.

Definition utc_lib : TimeLib := {|
  OffsetDateTime := civil;
  Duration := Z;
  odt_parse := parse;
  odt_format := format;
  odt_cmp a b := Z.compare (seconds a) (seconds b);
  odt_sub a b := (seconds a - seconds b)%Z;
  whole_seconds d := d
|}.

Lemma pad2_digits n : n < 100 -> Forall (fun c => is_digit c = true) (pad2 n).
Proof.
  intros H. assert (n / 10 < 10) by (apply N.Div0.div_lt_upper_bound; lia).
  pose proof (N.mod_lt n 10 ltac:(done)).
  unfold pad2, is_digit, between.
  repeat constructor; rewrite andb_true_iff, !N.leb_le;
    generalize dependent (n mod 10); generalize dependent (n / 10); lia.
Qed.

Lemma val2_pad2 n : n < 100 -> val2 (48 + n / 10) (48 + n mod 10) = Some n.
Proof.
  intros H. pose proof (pad2_digits n H) as Hd. unfold pad2 in Hd.
  inversion Hd as [|? ? Ha Hd']; subst. inversion Hd' as [|? ? Hb _]; subst.
  unfold val2. rewrite Ha, Hb. simpl. f_equal.
  pose proof (N.div_mod n 10 ltac:(done)) as E.
  generalize dependent (n mod 10); generalize dependent (n / 10); intros; lia.
Qed.

Lemma valid_bounds c :
  valid c = true ->
  year c < 10000 /\ month c < 100 /\ day c < 100 /\ hour c < 100 /\ minute c < 100 /\ second c < 100.
Proof.
  unfold valid, days_in_month. rewrite !andb_true_iff, !N.leb_le. intros H.
  assert (day c <= 31) by (destruct H as [[[[? ?] ?] ?] ?]; repeat case_match; lia). lia.
Qed.

Lemma parse_format c s : format c = Some s -> parse s = Some c.
Proof.
  unfold format. destruct (valid c) eqn:V; [|done]. intros [= <-].
  pose proof (valid_bounds c V) as (Hy & Hm & Hd & Hh & Hn & Hs).
  pose proof (N.mod_lt (year c) 100 ltac:(done)).
  assert (year c / 100 < 100) by (apply N.Div0.div_lt_upper_bound; lia).
  unfold pad4, pad2. cbn [app parse lit].
  change (lit "-") with [45]; change (lit "T") with [84]; change (lit ":") with [58]; change (lit "Z") with [90].
  cbn [app parse]. rewrite bool_decide_eq_true_2 by done.
  rewrite !val2_pad2 by done. cbn [mbind option_bind].
  replace (year c / 100 * 100 + year c mod 100) with (year c)
    by (pose proof (N.div_mod (year c) 100 ltac:(done)); lia).
  destruct c as [y m d h n' s']; simpl in *. by rewrite V.
Qed.

Lemma format_chars c s :
  format c = Some s -> s ≠ [] /\ Forall (fun c => rfc3339_char c = true) s.
Proof.
  unfold format. destruct (valid c) eqn:V; [|done]. intros E. apply (inj Some) in E. subst s.
  pose proof (valid_bounds c V) as (Hy & Hm & Hd & Hh & Hn & Hs).
  pose proof (N.mod_lt (year c) 100 ltac:(done)).
  assert (year c / 100 < 100) by (apply N.Div0.div_lt_upper_bound; lia).
  split; [done|]. unfold pad4.
  assert (forall n, n < 100 -> Forall (fun c => rfc3339_char c = true) (pad2 n)) as P.
  { intros k Hk. eapply Forall_impl; [by apply pad2_digits|].
    intros x Hx. unfold rfc3339_char. by rewrite Hx. }
  rewrite !Forall_app. repeat split; try (by apply P);
    (constructor; [reflexivity|constructor]).
Qed.

#[global] Instance utc_laws : TimeLaws utc_lib.
Proof.
  split.
  - apply parse_format.
  - apply format_chars.
  - apply (cmp_on_preorder seconds), Z_compare_preorder.
  - intros t1 t2 s H. assert (seconds t1 <= seconds t2)%Z by exact H.
    change (seconds t1 - seconds s <= seconds t2 - seconds s)%Z. lia.
Qed.

(** The instants of the sources' own sample lines. *)
Definition t0 : civil := mk_civil 2026 2 16 12 34 56.
Definition t1 : civil := mk_civil 2026 2 16 12 35 6.

Example parse_sample : parse (lit "2026-02-16T12:34:56Z") = Some t0.
Proof. reflexivity. Qed.

Example ten_seconds : whole_seconds (odt_sub (t1 : @OffsetDateTime utc_lib) t0) = 10%Z.
Proof. reflexivity. Qed.
End UtcSeconds.

(** ** What RFC 3339 text cannot contain *)

Lemma rfc3339_char_plain c :
  rfc3339_char c = true ->
  is_whitespace c = false /\ c ≠ TAB /\ c ≠ LF /\ c ≠ CR /\ c ≠ HASH /\ is_scalar c = true.
Proof.
  unfold rfc3339_char. rewrite orb_true_iff. intros [Hd|Hb].
  - unfold is_digit, between in Hd. rewrite andb_true_iff, !N.leb_le in Hd.
    assert (c ∈ [48; 49; 50; 51; 52; 53; 54; 55; 56; 57]%N) as Hc.
    { rewrite !elem_of_cons. lia. }
    repeat (apply elem_of_cons in Hc as [->|Hc]; [by vm_compute|]). by apply elem_of_nil in Hc.
  - apply bool_decide_eq_true_1 in Hb.
    change (lit "-:.TZ+") with [45; 58; 46; 84; 90; 43]%N in Hb.
    repeat (apply elem_of_cons in Hb as [->|Hb]; [by vm_compute|]). by apply elem_of_nil in Hb.
Qed.
