(* ===== verification/Severity.v ===== *)
(** * [crates/hawk_core/src/severity.rs]: levels and their rank

    [Level] with [parse] and [as_str], and the rank that puts failures first. *)

From S2P Require Import Prelude RustStr RustNum RustMap.

Module Level.
Inductive t : Type := Ok | Info | Warn | Fail | Unknown.

#[export] Instance eq_dec : EqDecision t.
Proof. solve_decision. Defined.

Definition parse (s : rstr) : t :=
  let w := to_ascii_lowercase (trim s) in
  if w =? lit "ok" then Ok
  else if w =? lit "info" then Info
  else if (w =? lit "warn") || (w =? lit "warning") then Warn
  else if (w =? lit "fail") || (w =? lit "error") || (w =? lit "fatal") then Fail
  else Unknown.

Definition as_str (l : t) : rstr :=
  match l with
  | Ok => lit "ok"
  | Info => lit "info"
  | Warn => lit "warn"
  | Fail => lit "fail"
  | Unknown => lit "unknown"
  end.
End Level.

#[export] Existing Instance Level.eq_dec.

(** [LevelRank(u8)] and [From<Level>]. *)
Definition LevelRank (l : Level.t) : Z :=
  match l with
  | Level.Fail => 0
  | Level.Warn => 1
  | Level.Info => 2
  | Level.Ok => 3
  | Level.Unknown => 4
  end%Z.

(** ** Lemmas *)

Lemma level_parse_as_str l : Level.parse (Level.as_str l) = l.
Proof. by destruct l; vm_compute. Qed.

Lemma level_as_str_plain l :
  edge_free is_whitespace (Level.as_str l) = true /\ TAB ∉ Level.as_str l /\ Level.as_str l ≠ [].
Proof. destruct l; vm_compute; set_solver. Qed.

(** [parse] ignores case and surrounding white space. *)
Lemma level_parse_normal s : Level.parse (to_ascii_lowercase (trim s)) = Level.parse s.
Proof.
  unfold Level.parse.
  assert (to_ascii_lowercase (trim (to_ascii_lowercase (trim s))) = to_ascii_lowercase (trim s)) as ->; [|done].
  assert (edge_free is_whitespace (to_ascii_lowercase (trim s)) = true) as He.
  { pose proof (trim_edge_free s) as H. revert H. unfold edge_free, last_free, to_ascii_lowercase.
    rewrite <-map_rev.
    assert (forall w, head_free is_whitespace (map ascii_lower w) = head_free is_whitespace w) as Hh.
    { intros [|c w]; simpl; [done|]. f_equal.
      unfold ascii_lower. destruct (is_upper c) eqn:E; [|done].
      unfold is_upper, between in E. rewrite andb_true_iff, !N.leb_le in E.
      unfold is_whitespace, between. decide_tests.
      repeat (rewrite (proj2 (N.eqb_neq _ _)) by lia). done. }
    by rewrite !Hh. }
  rewrite (trim_id _ He). unfold to_ascii_lowercase. rewrite map_map.
  apply map_ext. apply ascii_lower_idemp.
Qed.
