(* ===== verification/HawkFrame.v ===== *)
(** * [crates/hawk_core/src/hawkframe.rs]: the HawkFrame TSV codec

    A frame, the error type, the line parser, the two printers and the
    semicolon bag of key-value pairs.  The theorems: a clean frame printed and
    parsed comes back; whatever the parser accepts is clean, so re-emitting a
    parsed frame loses nothing (the flag with the empty name apart); a printed
    clean frame has exactly seven columns; each error is reported exactly on its
    own condition. *)

From S2P Require Import Prelude RustStr RustNum RustMap TimeLib Severity.

(** ** Data *)

Section Types.
Context {T : TimeLib}.

Record HawkFrame : Type := mk_frame {
  f_ts : option OffsetDateTime;
  f_kind : rstr;
  f_scope : rstr;
  f_id : rstr;
  f_level : Level.t;
  f_msg : rstr;
  f_kv : list (rstr * rstr)
}.

Inductive HawkFrameParseError : Type :=
| Empty
| TooFewColumns (found : nat)
| BadTimestamp (raw : rstr).
End Types.

(** ** The kv bag *)

Definition TRUE : rstr := lit "true".

(** One turn of the loop of [parse_kv_bag]. *)
Definition kv_step (out : list (rstr * rstr)) (part0 : rstr) : list (rstr * rstr) :=
  let part := trim part0 in
  if is_empty part then out
  else match split_once EQUALS part with
       | Some (k, v) => bt_insert (trim k) (trim v) out
       | None => bt_insert part TRUE out
       end.

Definition parse_kv_bag (s : rstr) : list (rstr * rstr) :=
  if is_empty (trim s) then []
  else foldl kv_step [] (split SEMI s).

Definition serialize_kv_part (e : rstr * rstr) : rstr :=
  if e.2 =? TRUE then e.1 else e.1 ++ [EQUALS] ++ e.2.

Definition serialize_kv_bag (kv : list (rstr * rstr)) : rstr :=
  if bool_decide (kv = []) then []
  else join [SEMI] (map serialize_kv_part kv).

(** ** Lines *)

Section Codec.
Context {T : TimeLib}.

Definition parse_tsv_line (line0 : rstr) : result (option HawkFrame) HawkFrameParseError :=
  let line := trim_end_newlines line0 in
  if is_empty (trim line) then Ok None
  else if starts_with [HASH] (trim_start line) then Ok None
  else
    let cols := split TAB line in
    if (length cols <? 7)%nat then Err (TooFewColumns (length cols))
    else
      let col i := nth i cols [] in
      let raw_ts := trim (col 0%nat) in
      let? ts := (if is_empty raw_ts then Ok None
                  else match odt_parse raw_ts with
                       | Some v => Ok (Some v)
                       | None => Err (BadTimestamp raw_ts)
                       end) in
      Ok (Some {|
        f_ts := ts;
        f_kind := trim (col 1%nat);
        f_scope := trim (col 2%nat);
        f_id := trim (col 3%nat);
        f_level := Level.parse (col 4%nat);
        f_msg := trim (col 5%nat);
        f_kv := parse_kv_bag (trim (col 6%nat))
      |}).

(** [t.format(&Rfc3339).unwrap_or_default()] *)
Definition format_or_default (t : OffsetDateTime) : rstr := default [] (odt_format t).

Definition to_compact_line (f : HawkFrame) : rstr :=
  let ts := default [] (format_or_default <$> f_ts f) in
  join [TAB] [ts; f_kind f; f_scope f; f_id f; Level.as_str (f_level f); f_msg f].

Definition to_tsv_line (f : HawkFrame) (now : OffsetDateTime) : rstr :=
  let ts := format_or_default (default now (f_ts f)) in
  let kv := serialize_kv_bag (f_kv f) in
  join [TAB] [ts; f_kind f; f_scope f; f_id f; Level.as_str (f_level f); f_msg f; kv].

(** The frame a reader of [to_tsv_line f now] should see. *)
Definition stamp (now : OffsetDateTime) (f : HawkFrame) : HawkFrame :=
  mk_frame (Some (default now (f_ts f))) (f_kind f) (f_scope f) (f_id f)
           (f_level f) (f_msg f) (f_kv f).
End Codec.

(** ** Clean text: what survives a trip through a line *)

Definition lacks (c : char) (s : rstr) : bool := bool_decide (c ∉ s).

Definition clean_field (s : rstr) : bool := edge_free is_whitespace s && lacks TAB s.
Definition clean_value (s : rstr) : bool := clean_field s && lacks SEMI s.
Definition clean_key (s : rstr) : bool := clean_value s && lacks EQUALS s.

(** A flag (value [true]) is printed as its name alone, so the name must not be
    empty. *)
Definition named_entry (e : rstr * rstr) : bool := negb (is_empty e.1 && (e.2 =? TRUE)).
Definition tidy_entry (e : rstr * rstr) : bool := clean_key e.1 && clean_value e.2.
Definition clean_entry (e : rstr * rstr) : bool := tidy_entry e && named_entry e.

Definition clean_frame `{TimeLib} (f : HawkFrame) : Prop :=
  clean_field (f_kind f) = true /\ clean_field (f_scope f) = true
  /\ clean_field (f_id f) = true /\ clean_field (f_msg f) = true
  /\ bt_wf (f_kv f) /\ Forall (fun e => clean_entry e = true) (f_kv f).

(** The same but for the flag without a name. *)
Definition tidy_frame `{TimeLib} (f : HawkFrame) : Prop :=
  clean_field (f_kind f) = true /\ clean_field (f_scope f) = true
  /\ clean_field (f_id f) = true /\ clean_field (f_msg f) = true
  /\ bt_wf (f_kv f) /\ Forall (fun e => tidy_entry e = true) (f_kv f).

(** What is left of the bag, and of the frame, without that flag. *)
Definition named_kv (kv : list (rstr * rstr)) : list (rstr * rstr) := List.filter named_entry kv.

Definition named_frame `{TimeLib} (f : HawkFrame) : HawkFrame :=
  mk_frame (f_ts f) (f_kind f) (f_scope f) (f_id f) (f_level f) (f_msg f) (named_kv (f_kv f)).

(** ** Lemmas: the bag *)

Lemma lacks_true c s : lacks c s = true <-> c ∉ s.
Proof. apply bool_decide_eq_true. Qed.

Lemma clean_field_iff s :
  clean_field s = true <-> edge_free is_whitespace s = true /\ TAB ∉ s.
Proof. unfold clean_field. by rewrite andb_true_iff, lacks_true. Qed.

Lemma clean_value_iff s :
  clean_value s = true <-> edge_free is_whitespace s = true /\ TAB ∉ s /\ SEMI ∉ s.
Proof. unfold clean_value. rewrite andb_true_iff, clean_field_iff, lacks_true. tauto. Qed.

Lemma clean_key_iff s :
  clean_key s = true <->
  edge_free is_whitespace s = true /\ TAB ∉ s /\ SEMI ∉ s /\ EQUALS ∉ s.
Proof. unfold clean_key. rewrite andb_true_iff, clean_value_iff, lacks_true. tauto. Qed.

Lemma clean_field_trim s : TAB ∉ s -> clean_field (trim s) = true.
Proof. rewrite clean_field_iff. auto with hawk. Qed.

(** A printed integer is a clean value. *)
Lemma int_to_string_clean z : clean_value (int_to_string z) = true.
Proof.
  assert (forall c, c ∈ int_to_string z -> is_whitespace c = false /\ c ≠ TAB /\ c ≠ SEMI) as H.
  { intros c [Hd| ->]%int_to_string_chars; [|done].
    assert (rfc3339_char c = true) as (? & ? & _)%rfc3339_char_plain by (unfold rfc3339_char; by rewrite Hd).
    repeat split; [done..|]. intros ->. by vm_compute in Hd. }
  rewrite clean_value_iff. split; [apply edge_free_forall; intros c Hc; by apply H|].
  split; intros Hin; by destruct (H _ Hin) as (_ & ? & ?).
Qed.

(** An entry with a name. *)
Lemma clean_entry_named k v :
  clean_key k = true -> k ≠ [] -> clean_value v = true -> clean_entry (k, v) = true.
Proof. intros Hk Hn Hv. unfold clean_entry, tidy_entry, named_entry; cbn [fst snd]. rewrite Hk, Hv. by destruct k. Qed.

(** One part of the bag, as an entry. *)
Definition kv_part (part0 : rstr) : option (rstr * rstr) :=
  let part := trim part0 in
  if is_empty part then None
  else match split_once EQUALS part with
       | Some (k, v) => Some (trim k, trim v)
       | None => Some (part, TRUE)
       end.

Lemma kv_fold_parts m l : foldl kv_step m l = bt_extend (omap kv_part l) m.
Proof.
  revert m. induction l as [|p l IH]; intros m; simpl; [done|].
  rewrite IH. unfold kv_step, kv_part. cbn zeta.
  destruct (is_empty (trim p)); [done|]. by destruct (split_once EQUALS (trim p)) as [[k v]|].
Qed.

(** The early return on blank text changes nothing. *)
Lemma parse_kv_bag_parts s : parse_kv_bag s = bt_extend (omap kv_part (split SEMI s)) [].
Proof.
  unfold parse_kv_bag. destruct (is_empty (trim s)) eqn:E; [|apply kv_fold_parts].
  assert (trim s = []) as Et by (by destruct (trim s)).
  unfold split. rewrite split_on_no_delim.
  - simpl. unfold kv_part. by rewrite Et.
  - apply trim_with_nil_iff in Et. rewrite Forall_forall in Et.
    intros H%Et. by vm_compute in H.
Qed.

Lemma parse_kv_bag_wf s : bt_wf (parse_kv_bag s).
Proof. rewrite parse_kv_bag_parts. apply bt_extend_wf. constructor. Qed.

Lemma tidy_entry_iff e :
  tidy_entry e = true <->
  (edge_free is_whitespace e.1 = true /\ TAB ∉ e.1 /\ SEMI ∉ e.1 /\ EQUALS ∉ e.1)
  /\ (edge_free is_whitespace e.2 = true /\ TAB ∉ e.2 /\ SEMI ∉ e.2).
Proof. unfold tidy_entry. rewrite andb_true_iff, clean_key_iff, clean_value_iff. tauto. Qed.

Lemma clean_entry_tidy e : clean_entry e = true -> tidy_entry e = true.
Proof. unfold clean_entry. by intros [? _]%andb_true_iff. Qed.

Lemma serialize_kv_part_edge e : tidy_entry e = true -> edge_free is_whitespace (serialize_kv_part e) = true.
Proof.
  destruct e as [k v]. rewrite tidy_entry_iff. unfold serialize_kv_part; cbn [fst snd]. intros [[Hk _] [Hv _]].
  destruct (v =? TRUE); [done|]. by apply edge_free_glue.
Qed.

(** A part is read as its entry, and the flag without a name as nothing. *)
Lemma kv_part_serialize e :
  tidy_entry e = true -> kv_part (serialize_kv_part e) = if named_entry e then Some e else None.
Proof.
  intros He. unfold kv_part. rewrite (trim_id _ (serialize_kv_part_edge e He)). apply tidy_entry_iff in He.
  destruct e as [k v], He as [(Hk & _ & _ & Heq) (Hv & _)]. unfold serialize_kv_part, named_entry; cbn [fst snd] in *.
  unfold split_once. case_bool_decide as Ev.
  - subst v. rewrite andb_true_r. destruct k as [|c k]; [done|]. cbn [is_empty negb].
    by rewrite (proj2 (split_first_none EQUALS (c :: k)) Heq).
  - rewrite andb_false_r. cbn [negb].
    assert (is_empty (k ++ [EQUALS] ++ v) = false) as -> by (by destruct k).
    cbn [app]. rewrite split_first_app by done. by rewrite !trim_id.
Qed.

Lemma serialize_kv_part_lacks c e :
  c ≠ EQUALS -> c ∉ e.1 -> c ∉ e.2 -> c ∉ serialize_kv_part e.
Proof. unfold serialize_kv_part. case_match; set_solver. Qed.

Lemma named_kv_wf kv : bt_wf kv -> bt_wf (named_kv kv).
Proof.
  unfold bt_wf. induction 1 as [|e kv Hs IH Hf]; cbn [named_kv List.filter]; [constructor|].
  destruct (named_entry e); [|done]. constructor; [done|].
  apply Forall_forall. intros x Hx%list_elem_of_In. apply filter_In in Hx as [Hx%list_elem_of_In _].
  by eapply Forall_forall in Hf.
Qed.

Lemma named_kv_id kv : Forall (fun e => clean_entry e = true) kv -> named_kv kv = kv.
Proof.
  induction 1 as [|e kv He _ IH]; [done|]. cbn [named_kv List.filter]. unfold clean_entry in He.
  apply andb_true_iff in He as [_ ->]. by f_equal.
Qed.

(** The bag comes back without the flag that has no name. *)
Lemma kv_round_trip_named kv :
  bt_wf kv -> Forall (fun e => tidy_entry e = true) kv -> parse_kv_bag (serialize_kv_bag kv) = named_kv kv.
Proof.
  intros Hw Hc. rewrite parse_kv_bag_parts. unfold serialize_kv_bag.
  case_bool_decide as E; [by subst|]. unfold split, join.
  rewrite split_on_join.
  - assert (omap kv_part (map serialize_kv_part kv) = named_kv kv) as ->.
    { clear E Hw. induction Hc as [|e kv He _ IH]; [done|]. cbn [map omap list_omap named_kv List.filter].
      rewrite kv_part_serialize by done. destruct (named_entry e); [by f_equal|done]. }
    by apply (bt_extend_sorted []), named_kv_wf.
  - intros Em. by apply map_eq_nil in Em.
  - apply Forall_map. eapply Forall_impl; [exact Hc|]. intros e [(_ & _ & Hk & _) (_ & _ & Hv)]%tidy_entry_iff.
    by apply serialize_kv_part_lacks.
Qed.

(** ** Lemmas: lines *)

Definition newline (c : char) : bool := (c =? LF) || (c =? CR).

Lemma last_free_newline s : last_free is_whitespace s = true -> last_free newline s = true.
Proof.
  unfold last_free. destruct (rev s) as [|c r]; [done|]. simpl.
  rewrite !negb_true_iff. apply whitespace_newline.
Qed.

Lemma serialize_kv_bag_edge kv :
  Forall (fun e => tidy_entry e = true) kv -> edge_free is_whitespace (serialize_kv_bag kv) = true.
Proof.
  intros H. unfold serialize_kv_bag. case_bool_decide; [done|]. apply edge_free_join; [done..|].
  apply Forall_map. eapply Forall_impl; [exact H|]. apply serialize_kv_part_edge.
Qed.

Lemma serialize_kv_bag_lacks c kv :
  c ≠ EQUALS -> c ≠ SEMI -> Forall (fun e => c ∉ e.1 /\ c ∉ e.2) kv -> c ∉ serialize_kv_bag kv.
Proof.
  intros H1 H2 Hkv. unfold serialize_kv_bag. case_bool_decide; [set_solver|].
  unfold join. intros [Hc|(w & Hw & Hc)]%elem_of_join_with; [set_solver|].
  rewrite list_elem_of_In, in_map_iff in Hw. destruct Hw as (e & <- & He).
  rewrite <-list_elem_of_In in He. eapply Forall_forall in Hkv as [? ?]; [|exact He].
  by apply (serialize_kv_part_lacks c e).
Qed.

Lemma tidy_entry_no_tab kv :
  Forall (fun e => tidy_entry e = true) kv -> TAB ∉ serialize_kv_bag kv.
Proof.
  intros H. apply serialize_kv_bag_lacks; [done..|].
  eapply Forall_impl; [exact H|]. intros e He%tidy_entry_iff. tauto.
Qed.

Section Lines.
Context {T : TimeLib}.

Lemma to_tsv_line_eq f now s :
  odt_format (default now (f_ts f)) = Some s ->
  to_tsv_line f now =
  join [TAB] [s; f_kind f; f_scope f; f_id f; Level.as_str (f_level f); f_msg f; serialize_kv_bag (f_kv f)].
Proof. intros Hs. unfold to_tsv_line, format_or_default. by rewrite Hs. Qed.

(** The parser on seven tab-free columns whose first one is neither blank nor
    a comment and whose last one does not end in a line terminator. *)
Lemma parse_seven_columns ts k s i l m kv :
  Forall (fun w => TAB ∉ w) [ts; k; s; i; l; m; kv] ->
  head_free (fun c => is_whitespace c || (c =? HASH)) ts = true -> ts ≠ [] ->
  last_free newline kv = true ->
  parse_tsv_line (join [TAB] [ts; k; s; i; l; m; kv]) =
  let? t := match odt_parse (trim ts) with
            | Some v => Ok (Some v)
            | None => Err (BadTimestamp (trim ts))
            end in
  Ok (Some (mk_frame t (trim k) (trim s) (trim i) (Level.parse l) (trim m) (parse_kv_bag (trim kv)))).
Proof.
  intros Ht Hh Hne Hl. unfold parse_tsv_line.
  destruct ts as [|c ts]; [done|]. cbn [head_free] in Hh.
  rewrite negb_orb, andb_true_iff, !negb_true_iff in Hh. destruct Hh as [Hws Hhash].
  set (line := join [TAB] _).
  assert (trim_end_newlines line = line) as ->.
  { assert (line = ((c :: ts) ++ [TAB] ++ k ++ [TAB] ++ s ++ [TAB] ++ i ++ [TAB] ++ l ++ [TAB] ++ m)
                   ++ TAB :: kv) as -> by (unfold line, join; simpl; repeat (rewrite <-app_assoc; simpl); done).
    apply trim_end_newlines_app; [|done]. rewrite last_free_cons. by destruct kv. }
  assert (exists rest, line = c :: rest) as [rest Eline] by (eexists; reflexivity).
  assert (is_empty (trim line) = false) as ->.
  { rewrite Eline. destruct (trim (c :: rest)) eqn:E; [|done].
    apply trim_with_nil_iff in E. inversion E. congruence. }
  assert (starts_with [HASH] (trim_start line) = false) as ->.
  { rewrite Eline. unfold trim_start, starts_with. cbn [drop_while]. rewrite Hws. cbn [list_prefix].
    rewrite bool_decide_eq_false in Hhash. rewrite bool_decide_eq_false_2 by congruence. done. }
  assert (split TAB line = [c :: ts; k; s; i; l; m; kv]) as -> by (by apply split_on_join).
  cbn [length Nat.ltb Nat.leb nth].
  assert (is_empty (trim (c :: ts)) = false) as ->.
  { destruct (trim (c :: ts)) eqn:E; [|done]. apply trim_with_nil_iff in E. inversion E. congruence. }
  done.
Qed.

Context {TL : TimeLaws T}.

Lemma format_plain t s :
  odt_format t = Some s ->
  s ≠ [] /\ TAB ∉ s /\ edge_free is_whitespace s = true
  /\ head_free (fun c => is_whitespace c || (c =? HASH)) s = true.
Proof.
  intros H%odt_format_chars. destruct H as [Hn Hc].
  assert (forall c, c ∈ s -> is_whitespace c = false /\ c ≠ TAB /\ c ≠ HASH) as P.
  { intros c Hin. eapply Forall_forall in Hc; [|exact Hin]. apply rfc3339_char_plain in Hc. tauto. }
  split; [done|]. split; [intros Hin; by destruct (P TAB Hin) as (_ & ? & _)|]. split.
  - apply edge_free_forall. intros c Hin. by apply P.
  - assert (edge_free (fun c => is_whitespace c || (c =? HASH)) s = true) as He.
    { apply edge_free_forall. intros c Hin. destruct (P c Hin) as (-> & _ & ?). by apply bool_decide_eq_false_2. }
    by apply andb_true_iff in He as [? _].
Qed.

Lemma frame_columns f now s :
  tidy_frame f -> odt_format (default now (f_ts f)) = Some s ->
  Forall (fun w => TAB ∉ w)
    [s; f_kind f; f_scope f; f_id f; Level.as_str (f_level f); f_msg f; serialize_kv_bag (f_kv f)].
Proof.
  intros (H1 & H2 & H3 & H4 & _ & H5) Hs.
  rewrite clean_field_iff in H1, H2, H3, H4.
  destruct (level_as_str_plain (f_level f)) as (_ & ? & _).
  destruct (format_plain _ _ Hs) as (_ & ? & _ & _).
  repeat constructor; try tauto. by apply tidy_entry_no_tab.
Qed.

Lemma clean_frame_tidy f : clean_frame f -> tidy_frame f /\ named_frame f = f.
Proof.
  intros (H1 & H2 & H3 & H4 & Hw & Hkv). split.
  - repeat split; try done. eapply Forall_impl; [exact Hkv|]. apply clean_entry_tidy.
  - unfold named_frame. rewrite named_kv_id by done. by destruct f.
Qed.

(** A frame, printed and parsed, is the frame with its stamp, less the flag
    without a name. *)
Lemma tsv_round_trip_named f now s :
  tidy_frame f -> odt_format (default now (f_ts f)) = Some s ->
  parse_tsv_line (to_tsv_line f now) = Ok (Some (stamp now (named_frame f))).
Proof.
  intros Hf Hs. pose proof (frame_columns f now s Hf Hs) as Hcols.
  destruct (format_plain _ _ Hs) as (Hne & _ & Hedge & Hhead).
  destruct Hf as (H1 & H2 & H3 & H4 & Hw & Hkv).
  pose proof (serialize_kv_bag_edge _ Hkv) as Hke.
  rewrite clean_field_iff in H1, H2, H3, H4.
  rewrite (to_tsv_line_eq f now s Hs).
  rewrite parse_seven_columns; [|done|done|done|].
  - rewrite (trim_id s), (odt_parse_format _ _ Hs) by done. cbn zeta.
    rewrite level_parse_as_str, !trim_id, kv_round_trip_named by tauto. done.
  - apply last_free_newline. by apply andb_true_iff in Hke as [_ ?].
Qed.

(** A clean frame, printed and parsed, is the frame with its stamp. *)
Lemma tsv_round_trip_aux f now s :
  clean_frame f -> odt_format (default now (f_ts f)) = Some s ->
  parse_tsv_line (to_tsv_line f now) = Ok (Some (stamp now f)).
Proof. intros [Ht E]%clean_frame_tidy Hs. rewrite (tsv_round_trip_named f now s Ht Hs). by rewrite E. Qed.
End Lines.

(** ** Lemmas: what the parser returns *)

Lemma kv_part_clean p e :
  TAB ∉ p -> SEMI ∉ p -> kv_part p = Some e -> clean_key e.1 = true /\ clean_value e.2 = true.
Proof.
  intros Ht Hs. unfold kv_part. destruct (is_empty (trim p)); [done|].
  assert (forall c, c ∉ p -> c ∉ trim p) as Hn by (intros; auto with hawk).
  unfold split_once. destruct (split_first EQUALS (trim p)) as [[k v]|] eqn:E; intros [= <-]; simpl.
  - apply split_first_some in E as [E Hk]. rewrite clean_key_iff, clean_value_iff.
    assert (forall c, c ∉ p -> c ∉ k /\ c ∉ v) as Hkv by (intros c Hc; apply Hn in Hc; rewrite E in Hc; set_solver).
    repeat split; auto with hawk; apply not_elem_of_trim; by apply Hkv.
  - apply split_first_none in E. rewrite clean_key_iff. repeat split; auto with hawk.
Qed.

Lemma parse_kv_bag_clean s e :
  TAB ∉ s -> e ∈ parse_kv_bag s -> clean_key e.1 = true /\ clean_value e.2 = true.
Proof.
  rewrite parse_kv_bag_parts. intros Ht [He|He]%bt_extend_elem; [|by apply elem_of_nil in He].
  apply list_elem_of_omap in He as (p & Hp & He).
  eapply kv_part_clean; [..|exact He].
  - intros Hc. by destruct (elem_of_split_on SEMI s p TAB Hp Hc).
  - intros Hc. by destruct (elem_of_split_on SEMI s p SEMI Hp Hc).
Qed.

Section ParserOutput.
Context {T : TimeLib}.

Lemma nth_column_tab i line : TAB ∉ nth i (split TAB line) [].
Proof.
  destruct (nth_in_or_default i (split TAB line) []) as [H|H]; [|rewrite H; set_solver].
  intros Hc. rewrite <-list_elem_of_In in H. by destruct (elem_of_split_on TAB line _ TAB H Hc).
Qed.

Lemma nth_column_elem i line c : c ∈ nth i (split TAB line) [] -> c ∈ line.
Proof.
  destruct (nth_in_or_default i (split TAB line) []) as [H|H]; [|rewrite H; set_solver].
  rewrite <-list_elem_of_In in H. intros Hc. by destruct (elem_of_split_on TAB line _ c H Hc).
Qed.

(** The fields of an accepted line. *)
Lemma parse_tsv_line_inv line0 f :
  parse_tsv_line line0 = Ok (Some f) ->
  let cols := split TAB (trim_end_newlines line0) in
  7 <= length cols
  /\ f_kind f = trim (nth 1 cols []) /\ f_scope f = trim (nth 2 cols [])
  /\ f_id f = trim (nth 3 cols []) /\ f_level f = Level.parse (nth 4 cols [])
  /\ f_msg f = trim (nth 5 cols []) /\ f_kv f = parse_kv_bag (trim (nth 6 cols []))
  /\ match f_ts f with
     | None => trim (nth 0 cols []) = []
     | Some t => odt_parse (trim (nth 0 cols [])) = Some t
     end.
Proof.
  unfold parse_tsv_line. cbn zeta.
  destruct (is_empty (trim (trim_end_newlines line0))); [done|].
  destruct (starts_with _ _); [done|].
  destruct (Nat.ltb_spec (length (split TAB (trim_end_newlines line0))) 7) as [?|Hlen]; [done|].
  set (cols := split TAB (trim_end_newlines line0)) in *.
  destruct (is_empty (trim (nth 0 cols []))) eqn:E0.
  - intros [= <-]; simpl. repeat split; try done. by destruct (trim (nth 0 cols [])).
  - destruct (odt_parse (trim (nth 0 cols []))) as [t|] eqn:Et; [|done].
    intros [= <-]; simpl. done.
Qed.

Lemma parse_tsv_line_tidy line0 f : parse_tsv_line line0 = Ok (Some f) -> tidy_frame f.
Proof.
  intros H%parse_tsv_line_inv. cbn zeta in H. destruct H as (_ & E1 & E2 & E3 & _ & E5 & E6 & _).
  unfold tidy_frame. rewrite E1, E2, E3, E5.
  repeat split; try (apply clean_field_trim, nth_column_tab); [rewrite E6; apply parse_kv_bag_wf|].
  apply Forall_forall. intros e He. rewrite E6 in He. unfold tidy_entry. apply andb_true_iff.
  apply parse_kv_bag_clean in He; [done|]. apply not_elem_of_trim, nth_column_tab.
Qed.

Lemma parse_tsv_line_wf line0 f :
  parse_tsv_line line0 = Ok (Some f) -> bt_get [] (f_kv f) ≠ Some TRUE -> clean_frame f.
Proof.
  intros (H1 & H2 & H3 & H4 & Hw & Hkv)%parse_tsv_line_tidy Hflag. repeat split; try done.
  apply Forall_forall. intros [k v] He. unfold clean_entry. apply andb_true_iff. split; [by eapply Forall_forall in Hkv|].
  unfold named_entry; cbn [fst snd]. apply negb_true_iff, not_true_iff_false. rewrite andb_true_iff.
  intros [Hk Hv%bool_decide_eq_true]. apply Hflag. apply bt_get_elem; [done|]. destruct k; [|done]. by subst v.
Qed.

(** Every character of a parsed text field comes from the line. *)
Lemma parse_tsv_line_chars line0 f c :
  parse_tsv_line line0 = Ok (Some f) ->
  c ∈ f_kind f \/ c ∈ f_scope f \/ c ∈ f_id f \/ c ∈ f_msg f -> c ∈ line0.
Proof.
  intros H%parse_tsv_line_inv. cbn zeta in H. destruct H as (_ & -> & -> & -> & _ & -> & _).
  intros Hc. apply elem_of_trim_end_newlines.
  destruct Hc as [Hc|[Hc|[Hc|Hc]]]; by eapply nth_column_elem, elem_of_trim.
Qed.

Lemma kv_part_chars p e c :
  kv_part p = Some e -> c ∈ e.1 \/ c ∈ e.2 -> c ∈ p \/ c ∈ TRUE.
Proof.
  unfold kv_part. destruct (is_empty (trim p)); [done|]. unfold split_once.
  destruct (split_first EQUALS (trim p)) as [[k v]|] eqn:E; intros [= <-]; simpl.
  - apply split_first_some in E as [E _]. intros [Hc%elem_of_trim|Hc%elem_of_trim];
      left; apply elem_of_trim; rewrite E; set_solver.
  - intros [Hc%elem_of_trim|Hc]; auto.
Qed.

Lemma parse_kv_bag_chars s e c :
  e ∈ parse_kv_bag s -> c ∈ e.1 \/ c ∈ e.2 -> c ∈ s \/ c ∈ TRUE.
Proof.
  rewrite parse_kv_bag_parts. intros [He|He]%bt_extend_elem Hc; [|by apply elem_of_nil in He].
  apply list_elem_of_omap in He as (p & Hp & He).
  destruct (kv_part_chars p e c He Hc) as [Hin|]; [|by right].
  left. by destruct (elem_of_split_on SEMI s p c Hp Hin).
Qed.
End ParserOutput.

(** ** Lines to be ignored *)

(** A blank line, or white space and then a comment. *)
Definition ignorable (l : rstr) : Prop :=
  Forall (fun c => is_whitespace c = true) l
  \/ exists w r, l = w ++ HASH :: r /\ Forall (fun c => is_whitespace c = true) w.

Lemma drop_while_app p (s t : rstr) :
  Forall (fun c => p c = true) s -> drop_while p (s ++ t) = drop_while p t.
Proof. induction 1 as [|c s Hc _ IH]; simpl; [done|]. by rewrite Hc. Qed.

Lemma drop_while_prefix p (s : rstr) :
  exists w, s = w ++ drop_while p s /\ Forall (fun c => p c = true) w.
Proof.
  induction s as [|c s (w & E & Hw)]; [by exists []|]. cbn [drop_while]. destruct (p c) eqn:Ec.
  - exists (c :: w). split; [simpl; by f_equal|by constructor].
  - by exists [].
Qed.

Lemma ignorable_iff l :
  ignorable l <-> is_empty (trim l) = true \/ starts_with [HASH] (trim_start l) = true.
Proof.
  assert (is_empty (trim l) = true <-> Forall (fun c => is_whitespace c = true) l) as ->.
  { unfold trim. rewrite <-trim_with_nil_iff. by destruct (trim_with is_whitespace l). }
  unfold ignorable, starts_with, trim_start. rewrite list_prefix_iff.
  split; (intros [?|H]; [by left|right]).
  - destruct H as (w & r & -> & Hw). exists r. rewrite drop_while_app by done. done.
  - destruct H as [r Hr]. destruct (drop_while_prefix is_whitespace l) as (w & E & Hw).
    exists w, r. split; [|done]. by rewrite Hr in E.
Qed.

(** More text after a line does not make it ignorable. *)
Lemma ignorable_app l t : ignorable (l ++ t) -> ignorable l.
Proof.
  intros [H|(w & r & E & Hw)]; [left; by apply Forall_app in H as [? _]|].
  apply app_eq_inv in E as [(k & -> & E)|(k & -> & E)].
  - destruct k as [|c k]; [left; by rewrite app_nil_r|]. right. exists w, k. injection E as <- _. done.
  - left. by apply Forall_app in Hw as [? _].
Qed.

#[export] Instance ignorable_dec l : Decision (ignorable l).
Proof.
  refine (cast_if (decide (is_empty (trim l) = true \/ starts_with [HASH] (trim_start l) = true)));
    by rewrite ignorable_iff.
Defined.

(** ** Properties *)

Section Properties.
Context {T : TimeLib} {TL : TimeLaws T}.

(** C2: printing a clean frame as a TSV line and parsing that line gives the
    frame back, with the missing timestamp replaced by the clock reading. *)
Theorem frame_round_trip f now s :
  clean_frame f -> odt_format (default now (f_ts f)) = Some s ->
  parse_tsv_line (to_tsv_line f now) = Ok (Some (stamp now f)).
Proof. apply tsv_round_trip_aux. Qed.

(** C12: whatever line the parser accepted, re-emitting the parsed frame (as the
    daemon does) and parsing again gives the same frame, its missing timestamp
    filled in, less the flag whose name is empty if the bag has it; so a second
    time around nothing changes any more. *)
Theorem frame_reemit line f now s :
  parse_tsv_line line = Ok (Some f) -> odt_format (default now (f_ts f)) = Some s ->
  parse_tsv_line (to_tsv_line f now) = Ok (Some (stamp now (named_frame f)))
  /\ forall now', parse_tsv_line (to_tsv_line (stamp now (named_frame f)) now') = Ok (Some (stamp now (named_frame f))).
Proof.
  intros Hp%parse_tsv_line_tidy Hs. split; [by eapply tsv_round_trip_named|]. intros now'.
  apply (tsv_round_trip_aux (stamp now (named_frame f)) now' s); [|done].
  destruct Hp as (H1 & H2 & H3 & H4 & Hw & Hkv). repeat split; try done; [by apply named_kv_wf|].
  apply Forall_forall. intros e He%list_elem_of_In. apply filter_In in He as [He%list_elem_of_In Hn].
  unfold clean_entry. rewrite Hn, andb_true_r. by eapply Forall_forall in Hkv.
Qed.

(** C13: the outcome of the parser on every line: nothing exactly for blank and
    comment lines, [TooFewColumns] with the number of columns exactly below
    seven, [BadTimestamp] with the trimmed first column exactly when it is
    present and is not RFC 3339, and never [Empty]. *)
Theorem parse_outcome line :
  let l := trim_end_newlines line in
  let cols := split TAB l in
  (parse_tsv_line line = Ok None <-> ignorable l)
  /\ (forall n, parse_tsv_line line = Err (TooFewColumns n)
        <-> ~ ignorable l /\ n = length cols /\ n < 7)
  /\ (forall raw, parse_tsv_line line = Err (BadTimestamp raw)
        <-> ~ ignorable l /\ 7 <= length cols /\ raw = trim (nth 0 cols [])
            /\ raw ≠ [] /\ odt_parse raw = None)
  /\ parse_tsv_line line ≠ Err Empty.
Proof.
  cbn zeta. unfold parse_tsv_line. cbn zeta.
  set (l := trim_end_newlines line). pose proof (ignorable_iff l) as Hig. set (raw := trim (nth 0 (split TAB l) [])).
  assert (is_empty raw = true <-> raw = []) as Hraw by (by destruct raw). clearbody raw.
  destruct (is_empty (trim l)), (starts_with [HASH] (trim_start l));
    destruct (Nat.ltb_spec (length (split TAB l)) 7) as [Hn|Hn];
    destruct (is_empty raw), (odt_parse raw) eqn:Ep;
    repeat split; intros; destruct_and?; simplify_eq; try done; try lia; try congruence;
    naive_solver.
Qed.

(** A printed frame whose texts fit in a line has exactly seven tab-separated
    columns, and they are its fields in order. *)
Theorem seven_columns f now s :
  tidy_frame f -> odt_format (default now (f_ts f)) = Some s ->
  split TAB (to_tsv_line f now) =
    [s; f_kind f; f_scope f; f_id f; Level.as_str (f_level f); f_msg f; serialize_kv_bag (f_kv f)]
  /\ length (split TAB (to_tsv_line f now)) = 7.
Proof.
  intros Hf Hs.
  assert (split TAB (to_tsv_line f now) =
    [s; f_kind f; f_scope f; f_id f; Level.as_str (f_level f); f_msg f; serialize_kv_bag (f_kv f)]) as E.
  { rewrite (to_tsv_line_eq f now s Hs).
    apply split_on_join; [done|]. by eapply frame_columns. }
  by rewrite E.
Qed.

(** The parser accepts lines of more than seven columns: whatever stands in
    further columns is ignored. *)
Theorem extra_columns_ignored line extra f :
  parse_tsv_line line = Ok (Some f) -> last_free newline line = true -> last_free newline extra = true ->
  parse_tsv_line (line ++ [TAB] ++ extra) = Ok (Some f)
  /\ 7 < length (split TAB (line ++ [TAB] ++ extra)).
Proof.
  intros Hp Hl He. pose proof Hp as Hinv. apply parse_tsv_line_inv in Hinv as [Hn _].
  assert (trim_end_newlines line = line) as El
    by (rewrite <-(app_nil_l line); destruct line; [done|by apply trim_end_newlines_app]).
  rewrite El in Hn. cbn [app]. unfold split. rewrite split_on_join_app.
  destruct (split_on_cons TAB extra) as (w & ws & Ews).
  split; [|rewrite length_app, Ews; simpl; unfold split in Hn; lia].
  rewrite <-Hp. unfold parse_tsv_line. rewrite El.
  rewrite trim_end_newlines_app by (done || rewrite last_free_cons; by destruct extra). cbn zeta.
  assert (~ ignorable line) as Hni.
  { intros Hi%ignorable_iff. unfold parse_tsv_line in Hp. rewrite El in Hp. cbn zeta in Hp.
    destruct Hi as [Hi|Hi]; rewrite Hi in Hp; [done|]. by destruct (is_empty (trim line)). }
  assert (forall l, ~ ignorable l -> is_empty (trim l) = false /\ starts_with [HASH] (trim_start l) = false) as Hno.
  { intros l Hni'. rewrite ignorable_iff in Hni'. split; apply not_true_iff_false; tauto. }
  destruct (Hno line Hni) as [-> ->].
  destruct (Hno (line ++ TAB :: extra)) as [-> ->]; [by intros ?%ignorable_app|].
  unfold split in *. rewrite split_on_join_app, Ews.
  rewrite !(proj2 (Nat.ltb_ge _ _)) by (rewrite ?length_app; simpl; lia).
  rewrite !app_nth1 by lia. done.
Qed.

(** A level is read back from its own name, and reading ignores the case and
    the white space around the text. *)
Theorem level_round_trip l s :
  Level.parse (Level.as_str l) = l
  /\ Level.parse (to_ascii_lowercase (trim s)) = Level.parse s.
Proof. split; [apply level_parse_as_str|apply level_parse_normal]. Qed.
End Properties.

(** ** A frame on which the properties are exercised *)

Definition sample_line : rstr :=
  join [TAB] [lit "2026-02-16T12:34:56Z"; lit "HEALTH"; lit "service"; lit "alpha";
              lit "ok"; lit "alive"; lit "pid=123;uptime_s=9"].

Definition sample_frame : @HawkFrame UtcSeconds.utc_lib :=
  @mk_frame UtcSeconds.utc_lib (Some UtcSeconds.t0) (lit "HEALTH") (lit "service") (lit "alpha") Level.Ok
    (lit "alive") [(lit "pid", lit "123"); (lit "uptime_s", lit "9")].

(** The source's unit tests [parses_minimal_line], [ignores_comments] and
    [emits_tsv_with_kv]. *)
Example parses_minimal_line :
  parse_tsv_line (T := UtcSeconds.utc_lib) sample_line = Ok (Some sample_frame).
Proof. reflexivity. Qed.

Example ignores_comments : parse_tsv_line (T := UtcSeconds.utc_lib) (lit "# comment") = Ok None.
Proof. reflexivity. Qed.

Example emits_tsv_with_kv : to_tsv_line (T := UtcSeconds.utc_lib) sample_frame UtcSeconds.t1 = sample_line.
Proof. reflexivity. Qed.

Lemma sample_frame_clean : clean_frame sample_frame.
Proof. repeat split; repeat constructor. Qed.

Lemma frame_round_trip_witness :
  parse_tsv_line (T := UtcSeconds.utc_lib) (to_tsv_line sample_frame UtcSeconds.t1)
  = Ok (Some (stamp (T := UtcSeconds.utc_lib) UtcSeconds.t1 sample_frame)).
Proof.
  apply (frame_round_trip (T := UtcSeconds.utc_lib) sample_frame UtcSeconds.t1 (lit "2026-02-16T12:34:56Z"));
    [apply sample_frame_clean|reflexivity].
Defined.

Lemma frame_reemit_witness :
  parse_tsv_line (T := UtcSeconds.utc_lib) (to_tsv_line sample_frame UtcSeconds.t1)
  = Ok (Some (stamp (T := UtcSeconds.utc_lib) UtcSeconds.t1 sample_frame)).
Proof.
  apply (frame_reemit (T := UtcSeconds.utc_lib) sample_line sample_frame UtcSeconds.t1
           (lit "2026-02-16T12:34:56Z")); reflexivity.
Defined.

Lemma extra_columns_ignored_witness :
  parse_tsv_line (T := UtcSeconds.utc_lib) (sample_line ++ [TAB] ++ lit "more") = Ok (Some sample_frame).
Proof.
  apply (extra_columns_ignored (T := UtcSeconds.utc_lib) sample_line (lit "more") sample_frame); reflexivity.
Defined.

Lemma seven_columns_witness :
  length (split TAB (to_tsv_line (T := UtcSeconds.utc_lib) sample_frame UtcSeconds.t1)) = 7.
Proof.
  apply (seven_columns (T := UtcSeconds.utc_lib) sample_frame UtcSeconds.t1 (lit "2026-02-16T12:34:56Z"));
    [apply (clean_frame_tidy _ sample_frame_clean)|reflexivity].
Defined.

(** The flag with the empty name does not survive: the parser accepts
    [=true] as such a flag, the printer writes it as an empty part, and the next
    parser drops it. *)
Theorem empty_flag_lost :
  exists line (f f' : @HawkFrame UtcSeconds.utc_lib),
    parse_tsv_line line = Ok (Some f)
    /\ parse_tsv_line (to_tsv_line f UtcSeconds.t1) = Ok (Some f')
    /\ f_kv f = [([], TRUE)] /\ f_kv f' = [].
Proof.
  exists (join [TAB] [lit "2026-02-16T12:34:56Z"; lit "HEALTH"; lit "service"; lit "alpha";
                      lit "ok"; lit "alive"; lit "=true"]).
  eexists _, _. repeat split; reflexivity.
Qed.
