(* ===== verification/Io.v ===== *)
(** * [crates/hawk/src/io.rs]: the sources of the mirror

    The messages the user interface ingests and the two reader threads.  A
    thread's behaviour is the list of messages it sends, as a function of what
    its reader delivers.  The theorems: both readers send the same messages for
    the same bytes; [strict] cuts the list right after the first parse error and
    changes nothing else. *)

From S2P Require Import Prelude RustStr RustNum RustMap TimeLib Severity HawkFrame RustPath RustSock.

Section Io.
Context {T : TimeLib}.

Inductive IngestMsg : Type :=
| Frame (f : HawkFrame)
| ParseError (e : HawkFrameParseError)
| IoError (e : rstr).

(** The loop of both readers, over the results of reading one line after the
    other; a read error ends it. *)
Fixpoint reader_loop (strict : bool) (reads : list (result rstr rstr)) : list IngestMsg :=
  match reads with
  | [] => []
  | Err e :: _ => [IoError e]
  | Ok line :: rest =>
      match parse_tsv_line line with
      | Ok (Some f) => Frame f :: reader_loop strict rest
      | Ok None => reader_loop strict rest
      | Err e => ParseError e :: (if strict then [] else reader_loop strict rest)
      end
  end.

Definition spawn_stdin_reader (stdin : byte_stream) (strict : bool) : list IngestMsg :=
  reader_loop strict (read_line_calls stdin).

(** The thread of [spawn_unix_reader]; [connected] is the outcome of
    [UnixStream::connect]: the stream, or the error's text. *)
Definition unix_reader_thread (connected : result byte_stream rstr) (path : rstr) (strict : bool) : list IngestMsg :=
  match connected with
  | Err e => [IoError (lit "connect " ++ path ++ lit " failed: " ++ e)]
  | Ok stream => reader_loop strict (read_lines stream)
  end.

Definition spawn_unix_reader (pf : Platform) (connected : result byte_stream rstr) (socket_path : rstr)
    (strict : bool) : result (list IngestMsg) anyhow :=
  match pf with
  | NotUnix => Err [lit "unix socket source requires a unix platform (WSL, Linux, macOS)"]
  | Unix => Ok (unix_reader_thread connected socket_path strict)
  end.

(** ** Specifications *)

Definition is_parse_error (m : IngestMsg) : bool :=
  match m with ParseError _ => true | _ => false end.

(** The messages up to and including the first parse error. *)
Fixpoint until_parse_error (ms : list IngestMsg) : list IngestMsg :=
  match ms with
  | [] => []
  | m :: ms' => m :: (if is_parse_error m then [] else until_parse_error ms')
  end.

(** What one line contributes when it is read. *)
Definition line_msgs (line : rstr) : list IngestMsg :=
  match parse_tsv_line line with
  | Ok (Some f) => [Frame f]
  | Ok None => []
  | Err e => [ParseError e]
  end.

(** ** Lemmas *)

Lemma reader_loop_ok ls :
  reader_loop false (map Ok ls) = concat (map line_msgs ls).
Proof.
  induction ls as [|l ls IH]; [done|]. simpl. unfold line_msgs at 1. rewrite <-IH.
  by destruct (parse_tsv_line l) as [[f|]|e].
Qed.

(** The parser does not see a line terminator. *)
Lemma parse_tsv_line_newline w c :
  (c =? LF) || (c =? CR) = true -> parse_tsv_line (w ++ [c]) = parse_tsv_line w.
Proof. intros H. unfold parse_tsv_line. by rewrite trim_end_newlines_snoc. Qed.

(** One line read by [lines] and by [read_line] gives the same messages. *)
Lemma reader_loop_line strict w reads1 reads2 :
  reader_loop strict reads1 = reader_loop strict reads2 ->
  reader_loop strict (from_utf8 (strip_cr w) :: reads1)
  = reader_loop strict (from_utf8 (w ++ [LF]) :: reads2).
Proof.
  intros E. rewrite from_utf8_snoc by done.
  destruct w as [|c w _] using rev_ind; [simpl; by rewrite E|].
  rewrite strip_cr_snoc. case_bool_decide as Hc.
  - subst c. rewrite from_utf8_snoc by done. destruct (from_utf8 w) as [s|e]; [|done].
    simpl. by rewrite !parse_tsv_line_newline, E.
  - destruct (from_utf8 (w ++ [c])) as [s|e]; [|done]. simpl. by rewrite parse_tsv_line_newline, E.
Qed.

(** C23: the standard-input reader and the unix-socket reader send the same
    messages for the same bytes and the same end of stream, although one keeps
    the line terminators and the other removes them. *)
Theorem readers_agree stream socket_path strict :
  spawn_unix_reader Unix (Ok stream) socket_path strict = Ok (spawn_stdin_reader stream strict).
Proof.
  unfold spawn_unix_reader, unix_reader_thread, spawn_stdin_reader, read_lines, read_line_calls. f_equal.
  induction (split_on LF (bs_data stream)) as [|w [|v ps] IH]; [done..|].
  cbn [read_lines_go read_line_go] in *. by apply reader_loop_line.
Qed.

(** [strict] ends a reader right after its first parse error: the messages
    are those of the tolerant reader up to and including that error. *)
Theorem strict_stops_at_first_error stdin :
  spawn_stdin_reader stdin true = until_parse_error (spawn_stdin_reader stdin false).
Proof.
  unfold spawn_stdin_reader. induction (read_line_calls stdin) as [|[l|e] rs IH]; simpl; [done| |done].
  destruct (parse_tsv_line l) as [[f|]|e]; simpl; [by f_equal|done|done].
Qed.
End Io.
