(* ===== verification/App.v ===== *)
(** * [crates/hawk/src/app.rs]: the state of the mirror

    Entities keyed by [scope:id], the bounded event tail and the counters;
    ingestion, liveness, counts and the display order.  Every reading of the
    clock is an argument.  The theorems: the representation invariant and its
    preservation; the mirror refines "last frame per key, newest lines first";
    the counts partition the entities; liveness only degrades as time passes;
    the display order is the stable sort by its four criteria. *)

From S2P Require Import Prelude RustStr RustNum RustMap TimeLib Severity HawkFrame Io.

#[local] Open Scope Z_scope.

(** ** State *)

Section State.
Context {T : TimeLib}.

Record EntityState : Type := mk_entity {
  e_scope : rstr;
  e_id : rstr;
  e_last_level : Level.t;
  e_last_msg : rstr;
  e_last_seen : OffsetDateTime;
  e_kind : rstr;
  e_kv : list (rstr * rstr)
}.

Record App : Type := mk_app {
  a_tail : list rstr;
  a_tail_size : nat;
  a_frames_seen : Z;
  a_parse_errors : Z;
  a_io_errors : Z;
  a_entities : list (rstr * EntityState);
  a_stale_s : Z;
  a_dead_s : Z
}.
End State.

Inductive Liveness : Type := Active | Dream | Stale | Dead.

#[export] Instance liveness_eq_dec : EqDecision Liveness.
Proof. solve_decision. Defined.

(** ** Operations *)

Section Ops.
Context {T : TimeLib}.

Definition app_new (tail_size : nat) (stale_s dead_s : Z) : App :=
  mk_app [] tail_size 0 0 0 [] stale_s dead_s.

(** [while self.tail.len() > self.tail_size { self.tail.pop_back(); }], with as
    many turns allowed as there are lines. *)
Fixpoint pop_excess (fuel : nat) (size : nat) (tail : list rstr) : list rstr :=
  match fuel with
  | O => tail
  | S n => if (size <? length tail)%nat then pop_excess n size (removelast tail) else tail
  end.

Definition push_tail (app : App) (line : rstr) : App :=
  let tail := line :: a_tail app in
  mk_app (pop_excess (length tail) (a_tail_size app) tail) (a_tail_size app)
    (a_frames_seen app) (a_parse_errors app) (a_io_errors app)
    (a_entities app) (a_stale_s app) (a_dead_s app).

(** [format!("{}:{}", scope, id)] *)
Definition entity_key (scope id : rstr) : rstr := scope ++ [COLON] ++ id.

Definition ingest_frame (app : App) (f : HawkFrame) (now : OffsetDateTime) : App :=
  let compact := to_compact_line f in
  let seen := default now (f_ts f) in
  let key := entity_key (f_scope f) (f_id f) in
  let st := mk_entity (f_scope f) (f_id f) (f_level f) (f_msg f) seen (f_kind f) (f_kv f) in
  push_tail
    (mk_app (a_tail app) (a_tail_size app) (u64_add (a_frames_seen app) 1)
       (a_parse_errors app) (a_io_errors app) (bt_insert key st (a_entities app))
       (a_stale_s app) (a_dead_s app))
    compact.

Definition ingest (app : App) (msg : IngestMsg) (now : OffsetDateTime) : App :=
  match msg with
  | Frame f => ingest_frame app f now
  | ParseError _ =>
      mk_app (a_tail app) (a_tail_size app) (a_frames_seen app)
        (u64_add (a_parse_errors app) 1) (a_io_errors app) (a_entities app)
        (a_stale_s app) (a_dead_s app)
  | IoError _ =>
      mk_app (a_tail app) (a_tail_size app) (a_frames_seen app)
        (a_parse_errors app) (u64_add (a_io_errors app) 1) (a_entities app)
        (a_stale_s app) (a_dead_s app)
  end.

Definition compute_liveness_with_ttl (last_seen now : OffsetDateTime) (stale_s dead_s : Z) : Liveness :=
  let age_s := whole_seconds (odt_sub now last_seen) in
  if dead_s <=? age_s then Dead
  else if stale_s <=? age_s then Stale
  else if age_s <=? Z.max (Z.quot stale_s 2) 1 then Active
  else Dream.

Definition compute_liveness (app : App) (last_seen now : OffsetDateTime) : Liveness :=
  compute_liveness_with_ttl last_seen now (a_stale_s app) (a_dead_s app).

Definition parse_ttl_from_kv (kv : list (rstr * rstr)) (key : rstr) : option Z :=
  v ← bt_get key kv;
  n ← parse_i64 v;
  if 0 <? n then Some n else None.

Definition compute_entity_liveness (app : App) (st : EntityState) (now : OffsetDateTime) : Liveness :=
  let stale_s := default (a_stale_s app) (parse_ttl_from_kv (e_kv st) (lit "ttl_stale_s")) in
  let dead_s := default (a_dead_s app) (parse_ttl_from_kv (e_kv st) (lit "ttl_dead_s")) in
  compute_liveness_with_ttl (e_last_seen st) now stale_s dead_s.

(** [(total, ok, warn, fail, stale, dead)] *)
Record Counts := mk_counts {
  c_total : Z; c_ok : Z; c_warn : Z; c_fail : Z; c_stale : Z; c_dead : Z
}.

(** One turn of the counting loop. *)
Definition count_step (app : App) (now : OffsetDateTime) (c : Counts) (st : EntityState) : Counts :=
  let '(mk_counts total ok warn fail stale dead) := c in
  match compute_entity_liveness app st now with
  | Stale => mk_counts total ok warn fail (u64_add stale 1) dead
  | Dead => mk_counts total ok warn fail stale (u64_add dead 1)
  | _ => match e_last_level st with
         | Level.Fail => mk_counts total ok warn (u64_add fail 1) stale dead
         | Level.Warn => mk_counts total ok (u64_add warn 1) fail stale dead
         | Level.Ok | Level.Info => mk_counts total (u64_add ok 1) warn fail stale dead
         | Level.Unknown => mk_counts total (u64_add ok 1) warn fail stale dead
         end
  end.

Definition counts_by_state (app : App) (now : OffsetDateTime) : Counts :=
  let total := u64_wrap (Z.of_nat (length (a_entities app))) in
  foldl (count_step app now) (mk_counts total 0 0 0 0 0) (bt_values (a_entities app)).

Definition rank_live (l : Liveness) : Z :=
  match l with Dead => 0 | Stale => 1 | Active => 2 | Dream => 3 end.

(** The closure passed to [sort_by]. *)
Definition entity_cmp (app : App) (now : OffsetDateTime) (a b : EntityState) : comparison :=
  let la := compute_entity_liveness app a now in
  let lb := compute_entity_liveness app b now in
  then_with (then_with (then_with
    (Z.compare (rank_live la) (rank_live lb))
    (Z.compare (LevelRank (e_last_level a)) (LevelRank (e_last_level b))))
    (odt_cmp (e_last_seen b) (e_last_seen a)))
    (str_cmp (e_id a) (e_id b)).

Definition sorted_entities (app : App) (now : OffsetDateTime) : list EntityState :=
  sort_by (entity_cmp app now) (bt_values (a_entities app)).
End Ops.

(** ** Specifications *)

Section Spec.
Context {T : TimeLib}.

(** The representation invariant: entries in key order under their own key, a
    tail within its bound, counters of 64 bits. *)
Definition app_ok (app : App) : Prop :=
  bt_wf (a_entities app)
  /\ Forall (fun e => e.1 = entity_key (e_scope e.2) (e_id e.2)) (a_entities app)
  /\ (length (a_tail app) <= a_tail_size app)%nat
  /\ 0 <= a_frames_seen app <= u64_max
  /\ 0 <= a_parse_errors app <= u64_max
  /\ 0 <= a_io_errors app <= u64_max.

(** A run: messages with the clock reading of their ingestion. *)
Definition run (app : App) (ms : list (IngestMsg * OffsetDateTime)) : App :=
  foldl (fun a m => ingest a m.1 m.2) app ms.

Definition entity_of (f : HawkFrame) (now : OffsetDateTime) : EntityState :=
  mk_entity (f_scope f) (f_id f) (f_level f) (f_msg f) (default now (f_ts f)) (f_kind f) (f_kv f).

(** The abstract mirror: for a key, the last frame of that key. *)
Fixpoint last_entity (key : rstr) (ms : list (IngestMsg * OffsetDateTime)) : option EntityState :=
  match ms with
  | [] => None
  | (m, now) :: ms' =>
      match last_entity key ms' with
      | Some st => Some st
      | None =>
          match m with
          | Frame f => if entity_key (f_scope f) (f_id f) =? key then Some (entity_of f now) else None
          | _ => None
          end
      end
  end%rust.

(** The compact lines of the frames, in the order of their ingestion. *)
Definition frame_lines (ms : list (IngestMsg * OffsetDateTime)) : list rstr :=
  omap (fun m => match m.1 with Frame f => Some (to_compact_line f) | _ => None end) ms.

Definition count_msgs (p : IngestMsg -> bool) (ms : list (IngestMsg * OffsetDateTime)) : Z :=
  Z.of_nat (length (List.filter (fun m => p m.1) ms)).

Definition is_frame (m : IngestMsg) : bool := match m with Frame _ => true | _ => false end.
Definition is_io_error (m : IngestMsg) : bool := match m with IoError _ => true | _ => false end.
End Spec.

(** How far an entity has gone from the live end. *)
Definition decay (l : Liveness) : Z :=
  match l with Active => 0 | Dream => 1 | Stale => 2 | Dead => 3 end.

(** ** Lemmas: the tail *)

Lemma length_removelast {A} (l : list A) : length (removelast l) = (length l - 1)%nat.
Proof.
  destruct l as [|a l _] using rev_ind; [done|].
  rewrite removelast_last, length_app. simpl. lia.
Qed.

Lemma removelast_take {A} (l : list A) : removelast l = take (length l - 1) l.
Proof.
  destruct l as [|a l _] using rev_ind; [done|].
  rewrite removelast_last, length_app. simpl.
  replace (length l + 1 - 1)%nat with (length l) by lia. by rewrite take_app_length.
Qed.

(** The popping loop keeps the newest [size] lines; the fuel is enough. *)
Lemma pop_excess_take fuel size tail :
  (length tail <= fuel)%nat -> pop_excess fuel size tail = take size tail.
Proof.
  revert tail. induction fuel as [|n IH]; intros tail Hl; simpl.
  { destruct tail; [by rewrite take_nil|simpl in Hl; lia]. }
  destruct (Nat.ltb_spec size (length tail)) as [H|H].
  - rewrite IH by (rewrite length_removelast; lia).
    rewrite removelast_take, take_take. f_equal. lia.
  - by rewrite take_ge.
Qed.

Section Lemmas.
Context {T : TimeLib}.
Implicit Types (app : App).

Lemma push_tail_take app line :
  a_tail (push_tail app line) = take (a_tail_size app) (line :: a_tail app).
Proof. unfold push_tail. cbn [a_tail]. by apply pop_excess_take. Qed.

Lemma u64_add_range a b : 0 <= u64_add a b <= u64_max.
Proof.
  unfold u64_add, u64_wrap, u64_max. pose proof (Z.mod_pos_bound (a + b) (2 ^ 64) ltac:(done)). lia.
Qed.

Lemma app_new_ok tail_size stale_s dead_s : app_ok (app_new tail_size stale_s dead_s).
Proof. unfold app_ok; simpl. repeat split; try (by constructor); try lia; done. Qed.

Lemma ingest_ok app msg now : app_ok app -> app_ok (ingest app msg now).
Proof.
  intros (Hw & Hk & Ht & Hf & Hp & Hi). destruct msg as [f|e|e]; simpl.
  - unfold app_ok, ingest_frame. rewrite push_tail_take.
    cbn [push_tail a_entities a_tail_size a_frames_seen a_parse_errors a_io_errors].
    split; [by apply bt_insert_wf|]. split; [|split; [rewrite length_take; lia|]].
    + apply Forall_forall. intros e [->|He]%bt_insert_keys; [done|].
      by eapply Forall_forall in Hk.
    + split; [apply u64_add_range|done].
  - pose proof (u64_add_range (a_parse_errors app) 1). unfold app_ok; simpl. tauto.
  - pose proof (u64_add_range (a_io_errors app) 1). unfold app_ok; simpl. tauto.
Qed.

Lemma run_ok app ms : app_ok app -> app_ok (run app ms).
Proof. revert app. induction ms as [|[m now] ms IH]; intros app H; [done|]. apply IH. by apply ingest_ok. Qed.

Lemma ingest_entity app msg now key :
  bt_wf (a_entities app) ->
  bt_get key (a_entities (ingest app msg now)) =
  match msg with
  | Frame f => if (entity_key (f_scope f) (f_id f) =? key)%rust then Some (entity_of f now)
               else bt_get key (a_entities app)
  | _ => bt_get key (a_entities app)
  end.
Proof.
  intros Hw. destruct msg as [f|e|e]; [|done..]. simpl. case_bool_decide as Hk.
  - rewrite <-Hk. apply bt_get_insert.
  - by apply bt_get_insert_ne.
Qed.

Lemma run_entity app ms key :
  app_ok app ->
  bt_get key (a_entities (run app ms)) =
  match last_entity key ms with Some st => Some st | None => bt_get key (a_entities app) end.
Proof.
  revert app. induction ms as [|[m now] ms IH]; intros app H; [done|].
  change (run app ((m, now) :: ms)) with (run (ingest app m now) ms).
  rewrite IH by (by apply ingest_ok). cbn [last_entity].
  destruct (last_entity key ms); [done|].
  rewrite ingest_entity by apply H. destruct m; try done. by case_match.
Qed.

(** Keeping the newest lines of the newest lines. *)
Lemma run_tail app ms :
  a_tail_size (run app ms) = a_tail_size app
  /\ take (a_tail_size app) (a_tail (run app ms))
     = take (a_tail_size app) (rev (frame_lines ms) ++ a_tail app).
Proof.
  revert app. induction ms as [|[m now] ms IH]; intros app; [done|].
  change (run app ((m, now) :: ms)) with (run (ingest app m now) ms).
  destruct (IH (ingest app m now)) as [E1 E2].
  assert (a_tail_size (ingest app m now) = a_tail_size app) as Es by (by destruct m).
  rewrite Es in E1, E2. split; [done|]. rewrite E2.
  destruct m as [f|e|e]; [|done..].
  change (frame_lines ((Frame f, now) :: ms)) with (to_compact_line f :: frame_lines ms).
  cbn [rev ingest]. unfold ingest_frame. rewrite push_tail_take, <-app_assoc. cbn [Datatypes.app a_tail a_tail_size].
  generalize (rev (frame_lines ms)) as l. generalize (to_compact_line f :: a_tail app) as t.
  intros t l. rewrite !take_app. f_equal. rewrite take_take. f_equal. lia.
Qed.

(** The counters count, modulo their width. *)
Lemma run_counters app ms :
  app_ok app ->
  a_frames_seen (run app ms) = u64_wrap (a_frames_seen app + count_msgs is_frame ms)
  /\ a_parse_errors (run app ms) = u64_wrap (a_parse_errors app + count_msgs is_parse_error ms)
  /\ a_io_errors (run app ms) = u64_wrap (a_io_errors app + count_msgs is_io_error ms).
Proof.
  assert (forall z, 0 <= z <= u64_max -> u64_wrap z = z) as Hs
    by (intros z Hz; unfold u64_wrap, u64_max in *; apply Z.mod_small; lia).
  revert app. induction ms as [|[m now] ms IH]; intros app H.
  { destruct H as (_ & _ & _ & Hf & Hp & Hi). unfold count_msgs; simpl.
    rewrite !Z.add_0_r, !Hs by done. done. }
  change (run app ((m, now) :: ms)) with (run (ingest app m now) ms).
  destruct (IH (ingest app m now) (ingest_ok app m now H)) as (-> & -> & ->).
  assert (forall p, count_msgs p ((m, now) :: ms) = (if p m then 1 else 0) + count_msgs p ms) as Hc
    by (intros p; unfold count_msgs; simpl; case_match; simpl; lia).
  rewrite !Hc. destruct m as [f|e|e]; cbn [ingest ingest_frame push_tail a_frames_seen a_parse_errors a_io_errors
    is_frame is_parse_error is_io_error]; unfold u64_add, u64_wrap; rewrite ?Zplus_mod_idemp_l;
    repeat split; f_equal; lia.
Qed.
End Lemmas.

(** ** Lemmas: counts *)

(** The column of the top bar an entity is counted in. *)
Inductive Bucket : Type := BOk | BWarn | BFail | BStale | BDead.

#[export] Instance bucket_eq_dec : EqDecision Bucket.
Proof. solve_decision. Defined.

Section Counting.
Context {T : TimeLib}.

Definition bucket (app : App) (now : OffsetDateTime) (st : EntityState) : Bucket :=
  match compute_entity_liveness app st now with
  | Stale => BStale
  | Dead => BDead
  | _ => match e_last_level st with
         | Level.Fail => BFail
         | Level.Warn => BWarn
         | _ => BOk
         end
  end.

Definition in_bucket (app : App) (now : OffsetDateTime) (b : Bucket) (l : list EntityState) : Z :=
  Z.of_nat (length (List.filter (fun st => (bucket app now st =? b)%rust) l)).

Lemma in_bucket_cons app now b st l :
  in_bucket app now b (st :: l) = (if (bucket app now st =? b)%rust then 1 else 0) + in_bucket app now b l.
Proof. unfold in_bucket. cbn [List.filter]. case_match; cbn [length]; lia. Qed.

(** Every entity is in exactly one bucket. *)
Lemma buckets_partition app now l :
  in_bucket app now BOk l + in_bucket app now BWarn l + in_bucket app now BFail l
  + in_bucket app now BStale l + in_bucket app now BDead l = Z.of_nat (length l).
Proof.
  induction l as [|st l IH]; [done|]. rewrite !in_bucket_cons. cbn [length].
  destruct (bucket app now st); repeat (case_bool_decide; try done); lia.
Qed.

Lemma count_fold app now l c :
  0 <= c_ok c -> 0 <= c_warn c -> 0 <= c_fail c -> 0 <= c_stale c -> 0 <= c_dead c ->
  c_ok c + c_warn c + c_fail c + c_stale c + c_dead c + Z.of_nat (length l) <= u64_max ->
  foldl (count_step app now) c l =
  mk_counts (c_total c) (c_ok c + in_bucket app now BOk l) (c_warn c + in_bucket app now BWarn l)
    (c_fail c + in_bucket app now BFail l) (c_stale c + in_bucket app now BStale l)
    (c_dead c + in_bucket app now BDead l).
Proof.
  revert c. induction l as [|st l IH]; intros [tot ok warn fail stale dead]; simpl; intros ????? Hs.
  { unfold in_bucket; simpl. by rewrite !Z.add_0_r. }
  rewrite !in_bucket_cons. unfold bucket.
  destruct (compute_entity_liveness app st now); [destruct (e_last_level st)| destruct (e_last_level st)| |];
    (rewrite u64_add_small by lia; rewrite IH by (cbn; lia); cbn;
     repeat (case_bool_decide; try done); f_equal; lia).
Qed.

Lemma counts_by_state_buckets app now :
  Z.of_nat (length (a_entities app)) <= u64_max ->
  let es := bt_values (a_entities app) in
  counts_by_state app now =
  mk_counts (Z.of_nat (length (a_entities app))) (in_bucket app now BOk es)
    (in_bucket app now BWarn es) (in_bucket app now BFail es)
    (in_bucket app now BStale es) (in_bucket app now BDead es).
Proof.
  intros Hn. cbn zeta. unfold counts_by_state.
  assert (length (bt_values (a_entities app)) = length (a_entities app)) as El by apply length_map.
  rewrite count_fold by (cbn [c_ok c_warn c_fail c_stale c_dead]; rewrite ?El; lia).
  cbn [c_total c_ok c_warn c_fail c_stale c_dead]. rewrite !Z.add_0_l.
  assert (u64_wrap (Z.of_nat (length (a_entities app))) = Z.of_nat (length (a_entities app))) as ->
    by (unfold u64_wrap, u64_max in *; apply Z.mod_small; lia).
  done.
Qed.
End Counting.

(** ** Lemmas: display order *)

Section Order.
Context {T : TimeLib} {TL : TimeLaws T}.

Lemma entity_cmp_preorder app now : CmpPreorder (entity_cmp app now).
Proof.
  unfold entity_cmp. repeat apply cmp_then_preorder.
  - apply (cmp_on_preorder (fun e => rank_live (compute_entity_liveness app e now))), Z_compare_preorder.
  - apply (cmp_on_preorder (fun e => LevelRank (e_last_level e))), Z_compare_preorder.
  - apply (cmp_flip_preorder (fun a b => odt_cmp (e_last_seen a) (e_last_seen b))).
    apply (cmp_on_preorder e_last_seen), odt_cmp_preorder.
  - apply (cmp_on_preorder e_id), str_cmp_preorder.
Qed.

(** The documented criteria, written out: dead, stale, active and quiet entities
    in this order; failures first and unknown levels last; the most recent first;
    by id. *)
Definition liveness_order : list Liveness := [Dead; Stale; Active; Dream].
Definition level_order : list Level.t := [Level.Fail; Level.Warn; Level.Info; Level.Ok; Level.Unknown].

Definition display_le (app : App) (now : OffsetDateTime) (a b : EntityState) : Prop :=
  let la := compute_entity_liveness app a now in
  let lb := compute_entity_liveness app b now in
  precedes liveness_order la lb \/ (la = lb /\
    (precedes level_order (e_last_level a) (e_last_level b) \/ (e_last_level a = e_last_level b /\
      (odt_cmp (e_last_seen b) (e_last_seen a) = Lt
       \/ (odt_cmp (e_last_seen b) (e_last_seen a) = Eq /\ str_cmp (e_id a) (e_id b) ≠ Gt))))).

(** Entities that the criteria do not distinguish. *)
Definition tied (app : App) (now : OffsetDateTime) (a b : EntityState) : bool :=
  bool_decide (compute_entity_liveness app a now = compute_entity_liveness app b now)
  && bool_decide (e_last_level a = e_last_level b)
  && match odt_cmp (e_last_seen b) (e_last_seen a), str_cmp (e_id a) (e_id b) with Eq, Eq => true | _, _ => false end.

Lemma rank_live_order l l' :
  match Z.compare (rank_live l) (rank_live l') with
  | Lt => precedes liveness_order l l' | Eq => l = l' | Gt => precedes liveness_order l' l
  end.
Proof. destruct l, l'; cbn; try done; unfold precedes; vm_compute; lia. Qed.

Lemma level_rank_order l l' :
  match Z.compare (LevelRank l) (LevelRank l') with
  | Lt => precedes level_order l l' | Eq => l = l' | Gt => precedes level_order l' l
  end.
Proof. destruct l, l'; cbn; try done; unfold precedes; vm_compute; lia. Qed.

Lemma entity_cmp_display app now a b : cmp_le (entity_cmp app now) a b <-> display_le app now a b.
Proof.
  unfold cmp_le, entity_cmp, display_le, then_with. cbn zeta.
  pose proof (rank_live_order (compute_entity_liveness app a now) (compute_entity_liveness app b now)) as Hl.
  pose proof (level_rank_order (e_last_level a) (e_last_level b)) as Hv.
  destruct (Z.compare (rank_live _) (rank_live _));
    [|naive_solver|apply precedes_asym in Hl as [? ?]; naive_solver].
  rewrite Hl. destruct (Z.compare (LevelRank _) (LevelRank _));
    [|naive_solver|apply precedes_asym in Hv as [? ?]; pose proof (precedes_irrefl liveness_order); naive_solver].
  rewrite Hv. pose proof (precedes_irrefl liveness_order). pose proof (precedes_irrefl level_order).
  destruct (odt_cmp (e_last_seen b) (e_last_seen a)), (str_cmp (e_id a) (e_id b)); naive_solver.
Qed.

Lemma entity_cmp_tied app now a b : cmp_eqb (entity_cmp app now) a b = tied app now a b.
Proof.
  unfold cmp_eqb, entity_cmp, tied, then_with. cbn zeta.
  pose proof (rank_live_order (compute_entity_liveness app a now) (compute_entity_liveness app b now)) as Hl.
  pose proof (level_rank_order (e_last_level a) (e_last_level b)) as Hv.
  destruct (Z.compare (rank_live _) (rank_live _));
    [rewrite bool_decide_eq_true_2 by done|apply precedes_asym in Hl as [? ?]; by rewrite bool_decide_eq_false_2 by congruence..].
  destruct (Z.compare (LevelRank _) (LevelRank _));
    [rewrite bool_decide_eq_true_2 by done|apply precedes_asym in Hv as [? ?]; by rewrite (bool_decide_eq_false_2 (e_last_level a = _)) by congruence..].
  by destruct (odt_cmp (e_last_seen b) (e_last_seen a)), (str_cmp (e_id a) (e_id b)).
Qed.

Lemma filter_tied app now p l :
  List.filter (tied app now p) l = List.filter (cmp_eqb (entity_cmp app now) p) l.
Proof. apply List.filter_ext. intros e. symmetry. apply entity_cmp_tied. Qed.
End Order.

Lemma entity_key_inj s1 i1 s2 i2 :
  COLON ∉ s1 -> COLON ∉ s2 -> entity_key s1 i1 = entity_key s2 i2 -> s1 = s2 /\ i1 = i2.
Proof.
  intros H1 H2 E. apply (f_equal (split_first COLON)) in E. unfold entity_key in E. cbn [app] in E.
  rewrite !split_first_app in E by done. by simplify_eq.
Qed.

(** ** Properties *)

Section Properties.
Context {T : TimeLib}.

(** C17: every state the mirror can reach satisfies the invariant: entries in key
    order, each under the key of its own scope and id, at most [tail_size] lines
    in the tail, counters within 64 bits. *)
Theorem reachable_ok tail_size stale_s dead_s ms :
  app_ok (run (app_new tail_size stale_s dead_s) ms).
Proof. apply run_ok, app_new_ok. Qed.

(** C3: the mirror refines its abstract view: after any run, the entity under a
    key is the last frame ingested with that key (or absent), the tail is the
    newest [tail_size] compact lines, newest first, and each counter is the
    number of its messages, modulo 2^64. *)
Theorem mirror_refines tail_size stale_s dead_s ms :
  let app := run (app_new tail_size stale_s dead_s) ms in
  (forall key, bt_get key (a_entities app) = last_entity key ms)
  /\ a_tail app = take tail_size (rev (frame_lines ms))
  /\ a_frames_seen app = u64_wrap (count_msgs is_frame ms)
  /\ a_parse_errors app = u64_wrap (count_msgs is_parse_error ms)
  /\ a_io_errors app = u64_wrap (count_msgs is_io_error ms).
Proof.
  cbn zeta. pose proof (app_new_ok tail_size stale_s dead_s) as H0.
  destruct (run_counters _ ms H0) as (-> & -> & ->). split.
  { intros key. rewrite run_entity by done. by destruct (last_entity key ms). }
  split; [|done].
  destruct (run_tail (app_new tail_size stale_s dead_s) ms) as [Es Et].
  destruct (run_ok _ ms H0) as (_ & _ & Hl & _). rewrite Es in Hl.
  cbn [a_tail a_tail_size app_new] in *. rewrite app_nil_r in Et.
  by rewrite <-Et, take_ge.
Qed.

(** C16: the top bar partitions the entities: each column is the number of
    entities of its bucket, and the five columns add up to the total. *)
Theorem counts_partition app now :
  Z.of_nat (length (a_entities app)) <= u64_max ->
  let c := counts_by_state app now in
  let es := bt_values (a_entities app) in
  c = mk_counts (Z.of_nat (length (a_entities app))) (in_bucket app now BOk es)
        (in_bucket app now BWarn es) (in_bucket app now BFail es)
        (in_bucket app now BStale es) (in_bucket app now BDead es)
  /\ c_total c = c_ok c + c_warn c + c_fail c + c_stale c + c_dead c.
Proof.
  intros Hn. cbn zeta. rewrite counts_by_state_buckets by done. split; [done|].
  cbn [c_total c_ok c_warn c_fail c_stale c_dead]. rewrite buckets_partition. f_equal. symmetry. apply length_map.
Qed.

(** The time-to-live of an entity: a bag entry that prints a positive [i64]
    overrides the default of the application; zero and negative numbers, text
    that is not a number and a missing entry leave the default. *)
Theorem ttl_from_bag kv key n :
  (in_i64 n = true -> bt_get key kv = Some (int_to_string n) ->
   parse_ttl_from_kv kv key = if 0 <? n then Some n else None)
  /\ (forall z, parse_ttl_from_kv kv key = Some z -> 0 < z <= i64_max)
  /\ (bt_get key kv = None -> parse_ttl_from_kv kv key = None).
Proof.
  unfold parse_ttl_from_kv. split; [|split].
  - intros Hn Hk. rewrite Hk. simpl. by rewrite parse_i64_to_string.
  - intros z. destruct (bt_get key kv) as [v|]; simpl; [|done].
    destruct (parse_i64 v) as [m|] eqn:E; simpl; [|done].
    apply parse_i64_range, in_i64_iff in E. destruct (Z.ltb_spec 0 m); [|done].
    intros [= <-]. lia.
  - by intros ->.
Qed.

(** Two different entities can share a key, so that one hides the other: the
    key joins scope and id with a colon that either may contain; without a colon
    in the scopes the key determines both. *)
Theorem entity_key_ambiguous :
  (exists s1 i1 s2 i2, (s1, i1) ≠ (s2, i2) /\ entity_key s1 i1 = entity_key s2 i2)
  /\ (forall s1 i1 s2 i2, COLON ∉ s1 -> COLON ∉ s2 ->
        entity_key s1 i1 = entity_key s2 i2 -> s1 = s2 /\ i1 = i2).
Proof.
  split; [|apply entity_key_inj].
  by exists (lit "grpc"), (lit "host:443"), (lit "grpc:host"), (lit "443").
Qed.

Context {TL : TimeLaws T}.

(** C14: as the clock advances, an entity that receives no frame only moves from
    active to dream to stale to dead, whatever the two time-to-live values. *)
Theorem liveness_decays app st now1 now2 :
  odt_cmp now1 now2 ≠ Gt ->
  decay (compute_entity_liveness app st now1) <= decay (compute_entity_liveness app st now2).
Proof.
  intros H%(odt_sub_mono _ _ (e_last_seen st)).
  unfold compute_entity_liveness, compute_liveness_with_ttl. cbn zeta.
  set (stale := default _ (parse_ttl_from_kv _ (lit "ttl_stale_s"))).
  set (dead := default _ (parse_ttl_from_kv _ (lit "ttl_dead_s"))).
  repeat match goal with |- context [?a <=? ?b] => destruct (Z.leb_spec a b) end; simpl; lia.
Qed.

(** C15: the entity table is the stable sort of the entities by the documented
    criteria: a permutation; dead, stale, active and dream entities in this order,
    within these failures, warnings, infos, oks and unknown levels in this order,
    within these the most recent first, and then by id; entities that none of this
    tells apart in key order.  No other list has these three properties. *)
Theorem display_order app now :
  let shown := sorted_entities app now in
  let es := bt_values (a_entities app) in
  shown ≡ₚ es
  /\ StronglySorted (display_le app now) shown
  /\ (forall p, List.filter (tied app now p) shown = List.filter (tied app now p) es)
  /\ (forall l, l ≡ₚ es -> StronglySorted (display_le app now) l ->
        (forall p, List.filter (tied app now p) l = List.filter (tied app now p) es) -> l = shown).
Proof.
  cbn zeta. pose proof (entity_cmp_preorder app now) as P. unfold sorted_entities.
  set (es := bt_values (a_entities app)).
  assert (forall l, StronglySorted (display_le app now) l <-> StronglySorted (cmp_le (entity_cmp app now)) l) as Hss.
  { intros l. split; induction 1 as [|a l Hl IH Ha]; constructor; auto;
      (eapply Forall_impl; [exact Ha|]; intros b; apply entity_cmp_display). }
  split; [apply sort_by_perm|]. split; [apply Hss; by apply sort_by_sorted|].
  split; [intros p; rewrite !filter_tied; by apply sort_by_stable|].
  intros l Hp Hs Hf. apply (stable_sort_unique (entity_cmp app now)).
  - by apply Hss.
  - by apply sort_by_sorted.
  - by rewrite sort_by_perm.
  - intros p. by rewrite <-filter_tied, Hf, filter_tied, sort_by_stable.
Qed.
End Properties.

(** ** Witnesses *)

Definition sample_app : @App UtcSeconds.utc_lib :=
  run (app_new 2 10 30) [(Frame sample_frame, UtcSeconds.t0); (ParseError (TooFewColumns 3), UtcSeconds.t1)].

Example sample_app_ingests :
  map fst (a_entities sample_app) = [lit "service:alpha"] /\ a_frames_seen sample_app = 1
  /\ a_parse_errors sample_app = 1.
Proof. repeat split; reflexivity. Qed.

(** Ten seconds after its only frame the entity is stale. *)
Example sample_app_counts :
  counts_by_state sample_app (UtcSeconds.t1 : @OffsetDateTime UtcSeconds.utc_lib) = mk_counts 1 0 0 0 1 0.
Proof. reflexivity. Qed.

Lemma counts_partition_witness :
  let c := counts_by_state sample_app (UtcSeconds.t1 : @OffsetDateTime UtcSeconds.utc_lib) in
  c_total c = c_ok c + c_warn c + c_fail c + c_stale c + c_dead c.
Proof. refine (proj2 (counts_partition sample_app UtcSeconds.t1 _)). by vm_compute. Defined.

Lemma ttl_from_bag_witness :
  parse_ttl_from_kv [(lit "ttl_stale_s", lit "3600")] (lit "ttl_stale_s") = Some 3600.
Proof.
  refine (proj1 (ttl_from_bag [(lit "ttl_stale_s", lit "3600")] (lit "ttl_stale_s") 3600) _ _); reflexivity.
Defined.

Lemma liveness_decays_witness :
  decay (compute_entity_liveness sample_app (entity_of sample_frame UtcSeconds.t0) UtcSeconds.t0)
  <= decay (compute_entity_liveness sample_app (entity_of sample_frame UtcSeconds.t0) UtcSeconds.t1).
Proof.
  apply (liveness_decays sample_app (entity_of sample_frame UtcSeconds.t0) UtcSeconds.t0 UtcSeconds.t1).
  by vm_compute.
Defined.

Lemma display_order_witness :
  bt_values (a_entities sample_app)
  = sorted_entities sample_app (UtcSeconds.t1 : @OffsetDateTime UtcSeconds.utc_lib).
Proof.
  destruct (display_order sample_app (UtcSeconds.t1 : @OffsetDateTime UtcSeconds.utc_lib)) as (_ & _ & _ & H).
  apply H; [done| |done].
  assert (exists e, bt_values (a_entities sample_app) = [e]) as [e ->] by (eexists; reflexivity).
  repeat constructor.
Defined.
