(* ===== verification/RustDebug.v ===== *)
(** * [{:?}] formatting of the Rust standard library

    The [Debug] text of strings (and of paths, which print alike) and of the
    parse error.  Which characters outside ASCII print as themselves depends on
    the Unicode tables of the standard library: they are the class
    [UnicodeTables], and nothing is assumed of them. *)

From S2P Require Import Prelude RustStr RustNum RustMap TimeLib Severity HawkFrame.

Class UnicodeTables := printable_wide : char -> bool.

Definition BACKSLASH : char := 92%N.

Definition hex_digit (d : N) : char := if (d <? 10)%N then (48 + d)%N else (87 + d)%N.

(** Lower-case hexadecimal without leading zeros, in front of [acc]. *)
Fixpoint hex_go (fuel : nat) (n : N) (acc : rstr) : rstr :=
  match fuel with
  | O => acc
  | S f =>
      let acc' := hex_digit (n mod 16) :: acc in
      if (n / 16 =? 0)%N then acc' else hex_go f (n / 16) acc'
  end.
Definition hex_string (n : N) : rstr := hex_go (S (N.size_nat n)) n [].

Section Debug.
Context {U : UnicodeTables}.

(** [char::escape_debug_ext] as [Debug for str] calls it. *)
Definition escape_debug (c : char) : rstr :=
  if (c =? 0)%N then [BACKSLASH; 48%N]
  else if c =? TAB then [BACKSLASH; 116%N]
  else if c =? CR then [BACKSLASH; 114%N]
  else if c =? LF then [BACKSLASH; 110%N]
  else if (c =? QUOTE) || (c =? BACKSLASH) then [BACKSLASH; c]
  else if (if (c <? 128)%N then between 32 126 c else printable_wide c) then [c]
  else [BACKSLASH] ++ lit "u{" ++ hex_string c ++ lit "}".

Definition debug_str (s : rstr) : rstr := [QUOTE] ++ concat (map escape_debug s) ++ [QUOTE].

Definition debug_parse_error (e : HawkFrameParseError) : rstr :=
  match e with
  | Empty => lit "Empty"
  | TooFewColumns found => lit "TooFewColumns { found: " ++ nat_to_string found ++ lit " }"
  | BadTimestamp raw => lit "BadTimestamp { raw: " ++ debug_str raw ++ lit " }"
  end.

(** ** Lemmas: escaped text stays on one line and in one column *)

(** Printable in the sense of the escape: no control character of ASCII. *)
Definition no_control (s : rstr) : Prop := Forall (fun c => (32 <= c)%N) s.

Lemma hex_digit_control d : (32 <= hex_digit d)%N.
Proof. unfold hex_digit. case_match; lia. Qed.

Lemma hex_go_control f n acc : no_control acc -> no_control (hex_go f n acc).
Proof.
  unfold no_control. revert n acc. induction f as [|f IH]; intros n acc H; cbn [hex_go]; [done|].
  assert (Forall (fun c => (32 <= c)%N) (hex_digit (n mod 16) :: acc)) by
    (constructor; [apply hex_digit_control|done]).
  case_match; auto.
Qed.

Lemma escape_debug_control c : no_control (escape_debug c).
Proof.
  unfold escape_debug, no_control.
  destruct (N.eqb_spec c 0); [repeat constructor; done|].
  repeat (case_bool_decide; [repeat constructor; try done; subst; done|]). cbn [orb].
  destruct (N.ltb_spec c 128) as [Hc|Hc].
  - destruct (between 32 126 c) eqn:E.
    + unfold between in E. rewrite andb_true_iff, N.leb_le in E. constructor; [tauto|constructor].
    + repeat (apply Forall_app; split); try (repeat constructor; done). apply hex_go_control. constructor.
  - destruct (printable_wide c); [constructor; [lia|constructor]|].
    repeat (apply Forall_app; split); try (repeat constructor; done). apply hex_go_control. constructor.
Qed.

Lemma debug_str_control s : no_control (debug_str s).
Proof.
  unfold debug_str, no_control. rewrite !Forall_app. repeat split; try (repeat constructor; done).
  induction s as [|c s IH]; simpl; [constructor|]. rewrite Forall_app. split; [apply escape_debug_control|done].
Qed.

Lemma debug_parse_error_control e : no_control (debug_parse_error e).
Proof.
  unfold no_control. destruct e as [|n|raw]; cbn [debug_parse_error]; rewrite ?Forall_app.
  - repeat constructor; done.
  - repeat split; try (repeat constructor; done).
    eapply Forall_impl; [apply dec_string_digits|]. intros c Hc. unfold is_digit, between in Hc.
    rewrite andb_true_iff, N.leb_le in Hc. lia.
  - repeat split; try (repeat constructor; done). apply debug_str_control.
Qed.

Lemma ascii_chars (Q : char -> Prop) l :
  forallb (fun x => (x <? 128)%N) l = true -> Forall (fun x => Q x \/ (x < 128)%N) l.
Proof.
  rewrite forallb_forall. intros H. apply Forall_forall. intros x Hx. right. apply N.ltb_lt, H.
  by apply list_elem_of_In.
Qed.

Lemma hex_go_ascii f n acc :
  forallb (fun x => (x <? 128)%N) acc = true -> forallb (fun x => (x <? 128)%N) (hex_go f n acc) = true.
Proof.
  revert n acc. induction f as [|f IH]; intros n acc H; cbn [hex_go]; [done|].
  assert (hex_digit (n mod 16) <? 128 = true)%N as Hd.
  { apply N.ltb_lt. pose proof (N.mod_lt n 16 ltac:(done)). unfold hex_digit. case_match; lia. }
  assert (forallb (fun x => (x <? 128)%N) (hex_digit (n mod 16) :: acc) = true) by (cbn [forallb]; by rewrite Hd).
  case_match; [done|by apply IH].
Qed.

(** What an escape writes: the character itself or ASCII. *)
Lemma escape_debug_chars c : Forall (fun x => x = c \/ (x < 128)%N) (escape_debug c).
Proof.
  unfold escape_debug.
  destruct (c =? 0)%N; [by apply ascii_chars|].
  repeat (case_bool_decide; [by apply ascii_chars; subst|]). cbn [orb].
  match goal with |- Forall _ (if ?b then _ else _) => destruct b end; [by repeat constructor|].
  apply ascii_chars. rewrite !forallb_app. unfold hex_string. by rewrite hex_go_ascii.
Qed.

Lemma debug_str_chars s : Forall (fun x => x ∈ s \/ (x < 128)%N) (debug_str s).
Proof.
  unfold debug_str. rewrite !Forall_app. split; [by apply ascii_chars|]. split; [|by apply ascii_chars].
  induction s as [|c s IH]; simpl; [constructor|]. rewrite Forall_app. split.
  - eapply Forall_impl; [apply escape_debug_chars|]. intros x [->|?]; [left; constructor|by right].
  - eapply Forall_impl; [exact IH|]. intros x [?|?]; [left; by constructor|by right].
Qed.

Lemma debug_parse_error_chars e :
  Forall (fun x => (exists raw, e = BadTimestamp raw /\ x ∈ raw) \/ (x < 128)%N) (debug_parse_error e).
Proof.
  destruct e as [|n|raw]; cbn [debug_parse_error]; rewrite ?Forall_app.
  - by apply ascii_chars.
  - split; [by apply ascii_chars|]. split; [|by apply ascii_chars].
    eapply Forall_impl; [apply dec_string_digits|]. intros c Hc. right. unfold is_digit, between in Hc.
    rewrite andb_true_iff, !N.leb_le in Hc. lia.
  - split; [by apply ascii_chars|]. split; [|by apply ascii_chars].
    eapply Forall_impl; [apply debug_str_chars|]. intros x [?|?]; [left; eauto|by right].
Qed.

Lemma no_control_lacks c s : no_control s -> (c < 32)%N -> c ∉ s.
Proof. intros H Hc Hin. eapply Forall_forall in H; [|exact Hin]. simpl in H. lia. Qed.
End Debug.
