(* ===== verification/Backoff.v ===== *)
(** * The reconnection back-off of the watchers

    [grpc_health.rs] and [systemd.rs] keep the same two variables: a pause in
    milliseconds that starts at 250 and doubles, as a [u64], up to 15000. *)

From S2P Require Import Prelude RustNum.

Definition initial_backoff_ms : Z := 250.
Definition max_backoff_ms : Z := 15000.

(** [backoff_ms = (backoff_ms * 2).min(max_backoff_ms)] *)
Definition next_backoff (b : Z) : Z := Z.min (u64_mul b 2) max_backoff_ms.

(** The pause after [k] doublings of [b]. *)
Definition doubled (b : Z) (k : nat) : Z := Z.min (b * 2 ^ Z.of_nat k) max_backoff_ms.

Lemma next_backoff_bounds b : (250 <= b <= 15000)%Z -> (250 <= next_backoff b <= 15000)%Z.
Proof.
  intros H. unfold next_backoff, max_backoff_ms. rewrite u64_mul_small by (unfold u64_max; lia). lia.
Qed.

Lemma doubled_0 b : (250 <= b <= 15000)%Z -> doubled b 0 = b.
Proof. intros H. unfold doubled, max_backoff_ms. rewrite Z.mul_1_r. lia. Qed.

(** One step of the variable is one doubling. *)
Lemma doubled_after b k :
  (250 <= b <= 15000)%Z -> doubled (next_backoff b) k = doubled b (S k).
Proof.
  intros H. unfold doubled, next_backoff, max_backoff_ms. rewrite u64_mul_small by (unfold u64_max; lia).
  rewrite Nat2Z.inj_succ, Z.pow_succ_r by lia.
  assert (0 < 2 ^ Z.of_nat k)%Z by (apply Z.pow_pos_nonneg; lia). nia.
Qed.
