(* ===== verification/Spine.v ===== *)
(** * [crates/hawkd/src/main.rs]: the broadcast spine

    Producer threads send byte messages into one channel; the main loop takes
    them out one by one and writes each to every connected client, dropping the
    clients whose write fails; the accept thread adds clients after an optional
    banner.  A client is anything with the interface [Sink] (a unix socket).
    The theorems: the index loop of [broadcast] is "write to all, keep those that
    accept"; in every interleaving each producer's messages stay in order and
    each connected client has received exactly the messages broadcast since it
    joined. *)

From S2P Require Import Prelude RustStr RustNum RustMap TimeLib Severity HawkFrame RustDebug.
From stdpp Require Import relations.

(** ** Clients *)

(** A connected stream: what its peer has been delivered, [write_all] with
    whether it returned [Ok], and [flush]. *)
Class Sink (C : Type) := {
  sink_log : C -> list byte;
  write_all : C -> list byte -> C * bool;
  flush : C -> C
}.

(** [Write::write_all] delivers all the bytes or, on error, some first part. *)
Class SinkLaws (C : Type) `{Sink C} : Prop := {
  write_all_ok : forall c bs c', write_all c bs = (c', true) -> sink_log c' = sink_log c ++ bs;
  write_all_err : forall c bs c', write_all c bs = (c', false) ->
    exists pre post, bs = pre ++ post /\ sink_log c' = sink_log c ++ pre;
  flush_log : forall c, sink_log (flush c) = sink_log c
}.

Definition BANNER : list byte := utf8_encode (lit "# hawkd connected" ++ [LF]).

Section Broadcast.
Context {C : Type} `{Sink C}.

(** The [while i < lock.len()] loop. *)
Fixpoint broadcast_loop (fuel i : nat) (lock : list C) (bytes : list byte) : list C :=
  match fuel with
  | O => lock
  | S n =>
      match lock !! i with
      | None => lock
      | Some c =>
          let '(c', ok) := write_all c bytes in
          if ok then broadcast_loop n (S i) (<[i := flush c']> lock) bytes
          else broadcast_loop n i (delete i (<[i := c']> lock)) bytes
      end
  end.

(** [poisoned]: the result of [clients.lock()] is an error. *)
Definition broadcast (poisoned : bool) (clients : list C) (bytes : list byte) : list C :=
  if poisoned then clients else broadcast_loop (length clients) 0 clients bytes.

(** What the accept thread does to a new stream before it takes the lock. *)
Definition greet (banner : bool) (stream : C) : C :=
  flush (if banner then (write_all stream BANNER).1 else stream).

(** One turn of [accept_loop]. *)
Definition accept_one {E} (banner poisoned : bool) (clients : list C) (incoming : result C E) : list C :=
  match incoming with
  | Ok stream =>
      let stream' := greet banner stream in
      if poisoned then clients else clients ++ [stream']
  | Err _ => clients
  end.

Definition accept_loop {E} (banner poisoned : bool) (incoming : list (result C E)) (clients : list C) : list C :=
  foldl (accept_one banner poisoned) clients incoming.

(** The reference: write to every client, keep those that accepted. *)
Definition deliver (bytes : list byte) (c : C) : option C :=
  let '(c', ok) := write_all c bytes in if ok then Some (flush c') else None.

Lemma broadcast_loop_spec rest kept bytes fuel :
  (length rest <= fuel)%nat ->
  broadcast_loop fuel (length kept) (kept ++ rest) bytes = kept ++ omap (deliver bytes) rest.
Proof.
  revert rest kept. induction fuel as [|n IH]; intros rest kept Hf.
  { destruct rest; [done|simpl in Hf; lia]. }
  cbn [broadcast_loop]. destruct rest as [|c rest].
  { cbn [omap list_omap]. rewrite !app_nil_r, lookup_ge_None_2 by lia. done. }
  rewrite list_lookup_middle by done. cbn [omap list_omap]. unfold deliver at 1.
  destruct (write_all c bytes) as [c' ok].
  assert (forall x, <[length kept := x]> (kept ++ c :: rest) = kept ++ x :: rest) as Ei
    by (intros x; rewrite insert_app_r_alt by lia; by rewrite Nat.sub_diag).
  simpl in Hf. destruct ok.
  - rewrite Ei. replace (kept ++ flush c' :: rest) with ((kept ++ [flush c']) ++ rest)
      by (by rewrite <-app_assoc).
    replace (S (length kept)) with (length (kept ++ [flush c'])) by (rewrite length_app; simpl; lia).
    rewrite IH by lia. by rewrite <-app_assoc.
  - rewrite Ei, delete_middle. apply IH. lia.
Qed.

Lemma broadcast_deliver clients bytes : broadcast false clients bytes = omap (deliver bytes) clients.
Proof. unfold broadcast. by apply (broadcast_loop_spec clients []). Qed.
End Broadcast.

(** ** The stdin source *)

Section StdinSource.
Context {T : TimeLib} {U : UnicodeTables}.

(** A message of the channel: a line as bytes. *)
Definition wire (line : rstr) : list byte := utf8_encode (line ++ [LF]).

(** The loop of [spawn_stdin_source]; [now i] is the clock when line [i] is
    re-emitted. *)
Fixpoint stdin_source_loop (strict : bool) (now : nat -> OffsetDateTime) (i : nat)
    (reads : list (result rstr rstr)) : list (list byte) :=
  match reads with
  | [] => []
  | Err _ :: _ => []
  | Ok line :: rest =>
      match parse_tsv_line line with
      | Ok (Some frame) => wire (to_tsv_line frame (now i)) :: stdin_source_loop strict now (S i) rest
      | Ok None => stdin_source_loop strict now (S i) rest
      | Err e =>
          if strict then [utf8_encode (lit "# hawkd strict parse error: " ++ debug_parse_error e ++ [LF])]
          else stdin_source_loop strict now (S i) rest
      end
  end.

Definition spawn_stdin_source (stdin : byte_stream) (strict : bool) (now : nat -> OffsetDateTime)
    : list (list byte) :=
  stdin_source_loop strict now 0 (read_line_calls stdin).
End StdinSource.

(** ** All interleavings of producers, accept thread and broadcast loop *)

Section World.
Context {C : Type} `{Sink C}.

(** A client with its history: what it had been delivered when it was added,
    and how many messages had been broadcast by then. *)
Record Tracked := mk_tracked { tr_sink : C; tr_base : list byte; tr_joined : nat }.

#[export] Instance tracked_sink : Sink Tracked := {|
  sink_log t := sink_log (tr_sink t);
  write_all t bs :=
    let '(c', ok) := write_all (tr_sink t) bs in (mk_tracked c' (tr_base t) (tr_joined t), ok);
  flush t := mk_tracked (flush (tr_sink t)) (tr_base t) (tr_joined t)
|}.

(** The threads' shared state: what each producer has still to send, the
    channel (each message with its sender), the clients, and the messages the
    main loop has taken out so far. *)
Record World := mk_world {
  w_todo : list (list (list byte));
  w_queue : list (nat * list byte);
  w_clients : list Tracked;
  w_sent : list (nat * list byte)
}.

Definition init_world (producers : list (list (list byte))) : World :=
  mk_world producers [] [] [].

(** [push] of an accepted stream. *)
Definition add_client (banner : bool) (w : World) (c : C) : list Tracked :=
  let c' := greet banner c in
  w_clients w ++ [mk_tracked c' (sink_log c') (length (w_sent w))].

(** A stream that is accepted has been delivered nothing yet. *)
Inductive step (banner : bool) : World -> World -> Prop :=
| step_send w p m rest :
    w_todo w !! p = Some (m :: rest) ->
    step banner w (mk_world (<[p := rest]> (w_todo w)) (w_queue w ++ [(p, m)]) (w_clients w) (w_sent w))
| step_accept w c :
    sink_log c = [] ->
    step banner w (mk_world (w_todo w) (w_queue w) (add_client banner w c) (w_sent w))
| step_accept_error w : step banner w w
| step_broadcast w p m q :
    w_queue w = (p, m) :: q ->
    step banner w
      (mk_world (w_todo w) q (broadcast false (w_clients w) m) (w_sent w ++ [(p, m)])).

Definition reachable (banner : bool) (producers : list (list (list byte))) (w : World) : Prop :=
  rtc (step banner) (init_world producers) w.

(** The messages of producer [p] in a log. *)
Definition messages_of (p : nat) (log : list (nat * list byte)) : list (list byte) :=
  omap (fun e => if bool_decide (e.1 = p) then Some e.2 else None) log.

(** Every message has a producer, and every producer's messages are, in order,
    those broadcast, those waiting and those still to send. *)
Definition fifo (producers : list (list (list byte))) (w : World) : Prop :=
  length (w_todo w) = length producers
  /\ Forall (fun e => e.1 < length producers)%nat (w_sent w ++ w_queue w)
  /\ forall p outs, producers !! p = Some outs ->
       exists todo, w_todo w !! p = Some todo
         /\ messages_of p (w_sent w ++ w_queue w) ++ todo = outs.

(** A connected client has the messages broadcast since it joined. *)
Definition delivered (w : World) (t : Tracked) : Prop :=
  (tr_joined t <= length (w_sent w))%nat
  /\ sink_log t = tr_base t ++ concat (map snd (drop (tr_joined t) (w_sent w))).

(** What a client was given before its first message: the banner if banners are
    on, or only a first part of it when writing it failed, which is ignored. *)
Definition base_ok (banner : bool) (base : list byte) : Prop :=
  if banner then base `prefix_of` BANNER else base = [].

(** ** Lemmas *)

Lemma messages_of_app p l1 l2 : messages_of p (l1 ++ l2) = messages_of p l1 ++ messages_of p l2.
Proof. unfold messages_of. by rewrite omap_app. Qed.

Lemma messages_of_single p q m : messages_of p [(q, m)] = if bool_decide (q = p) then [m] else [].
Proof. unfold messages_of. cbn [omap list_omap fst snd]. by case_bool_decide. Qed.

Lemma step_fifo banner producers w w' : step banner w w' -> fifo producers w -> fifo producers w'.
Proof.
  intros Hs (Hl & Hp & Hf).
  destruct Hs as [w q m rest Hq|w c Hc|w|w q m qs Hq]; unfold fifo; cbn [w_todo w_queue w_clients w_sent]; [|by split..|].
  - rewrite length_insert. split; [done|]. split.
    { rewrite app_assoc, Forall_app. split; [done|]. constructor; [|constructor]. rewrite <-Hl. by eapply lookup_lt_Some. }
    clear Hp. intros p outs Hp.
    destruct (Hf p outs Hp) as (todo & Ht & E).
    rewrite app_assoc, messages_of_app, messages_of_single. case_bool_decide as Hpq.
    + subst q. exists rest. split; [apply list_lookup_insert_eq; by eapply lookup_lt_Some|].
      rewrite <-app_assoc. simpl. congruence.
    + exists todo. rewrite list_lookup_insert_ne by done. by rewrite app_nil_r.
  - split; [done|]. rewrite <-app_assoc. cbn [app]. rewrite <-Hq. by split.
Qed.

Context {SL : SinkLaws C}.

#[export] Instance tracked_laws : SinkLaws Tracked.
Proof.
  split; cbn.
  - intros [c b j] bs c'; cbn. destruct (write_all c bs) as [x ok] eqn:E. intros [= <- ->]; cbn.
    by apply write_all_ok.
  - intros [c b j] bs c'; cbn. destruct (write_all c bs) as [x ok] eqn:E. intros [= <- ->]; cbn.
    by apply write_all_err.
  - intros [c b j]. apply flush_log.
Qed.

Lemma deliver_tracked bytes t t' :
  deliver bytes t = Some t' ->
  sink_log t' = sink_log t ++ bytes /\ tr_base t' = tr_base t /\ tr_joined t' = tr_joined t.
Proof.
  unfold deliver. destruct (write_all t bytes) as [t1 ok] eqn:E. destruct ok; [|done].
  intros Et. apply (inj Some) in Et. subst t'.
  rewrite flush_log, (write_all_ok _ _ _ E). split; [done|].
  destruct t as [c b j]. cbn in E. destruct (write_all c bytes) as [x ok']. by simplify_eq.
Qed.

Lemma step_delivered banner w w' :
  step banner w w' -> Forall (delivered w) (w_clients w) -> Forall (delivered w') (w_clients w').
Proof.
  intros Hs Hd. destruct Hs as [w q m rest Hq|w c Hc|w|w q m qs Hq]; cbn [w_clients]; try done.
  - unfold add_client. apply Forall_app. split; [done|]. constructor; [|constructor].
    unfold delivered; cbn. split; [done|]. by rewrite drop_all, app_nil_r.
  - rewrite broadcast_deliver. apply Forall_forall. intros t' Ht'.
    apply list_elem_of_omap in Ht' as (t & Ht & E). eapply Forall_forall in Hd as [Hj Hlog]; [|exact Ht].
    apply deliver_tracked in E as (El & Eb & Ej). unfold delivered; cbn [w_sent].
    rewrite El, Eb, Ej, Hlog, length_app. split; [simpl; lia|].
    rewrite drop_app_le, map_app, concat_app by done. simpl. by rewrite app_nil_r, app_assoc.
Qed.

Lemma greet_base banner (c : C) : sink_log c = [] -> base_ok banner (sink_log (greet banner c)).
Proof.
  intros Hc. unfold base_ok, greet. rewrite flush_log. destruct banner; [|done].
  destruct (write_all c BANNER) as [c' [|]] eqn:E; cbn [fst].
  - by rewrite (write_all_ok _ _ _ E), Hc.
  - destruct (write_all_err _ _ _ E) as (pre & post & Eb & ->). rewrite Hc. cbn [app]. by exists post.
Qed.

Lemma step_base banner w w' :
  step banner w w' -> Forall (fun t => base_ok banner (tr_base t)) (w_clients w) ->
  Forall (fun t => base_ok banner (tr_base t)) (w_clients w').
Proof.
  intros Hs Hd. destruct Hs as [w q m rest Hq|w c Hc|w|w q m qs Hq]; cbn [w_clients]; try done.
  - unfold add_client. apply Forall_app. split; [done|]. constructor; [|constructor]. cbn [tr_base]. by apply greet_base.
  - rewrite broadcast_deliver. apply Forall_forall. intros t' Ht'.
    apply list_elem_of_omap in Ht' as (t & Ht & E). apply deliver_tracked in E as (_ & Eb & _). rewrite Eb.
    by eapply Forall_forall in Hd.
Qed.

(** The invariants, along every run. *)
Lemma reachable_delivers banner producers w :
  reachable banner producers w -> fifo producers w /\ Forall (delivered w) (w_clients w).
Proof.
  intros Hr. unfold reachable in Hr. revert w Hr.
  apply (rtc_ind_r (R := step banner) (fun w => fifo producers w /\ Forall (delivered w) (w_clients w))).
  - split; [|constructor]. split; [done|]. split; [constructor|]. intros p outs Hp. exists outs. by split.
  - intros w1 w2 _ Hs [Hf Hd]. split; [by eapply step_fifo|by eapply step_delivered].
Qed.

Lemma reachable_base banner producers w :
  reachable banner producers w -> Forall (fun t => base_ok banner (tr_base t)) (w_clients w).
Proof.
  intros Hr. unfold reachable in Hr. revert w Hr.
  apply (rtc_ind_r (R := step banner) (fun w => Forall (fun t => base_ok banner (tr_base t)) (w_clients w))); [constructor|].
  intros w1 w2 _ Hs Hd. by eapply step_base.
Qed.
End World.

(** ** Properties *)

Section Properties.
Context {C : Type} `{SinkLaws C}.

(** C22: the index loop that writes to every client and removes the failed ones
    in place is the simple filter: write to all, keep, in order, exactly the
    clients whose write succeeded. *)
Theorem broadcast_keeps_accepting clients bytes :
  broadcast false clients bytes = omap (deliver bytes) clients.
Proof. apply broadcast_deliver. Qed.

(** C9: in every reachable state of the daemon, under every interleaving of the
    producers, the accept thread and the broadcast loop: each producer's messages
    are broadcast in the order they were sent, without loss or duplication; each
    connected client has received what it had when it joined followed by exactly
    the messages broadcast since; and what it had when it joined is the banner, or
    a first part of it, or nothing when banners are off. *)
Theorem spine_delivers banner producers (w : @World C) :
  reachable banner producers w ->
  fifo producers w /\ Forall (delivered w) (w_clients w)
  /\ Forall (fun t => base_ok banner (tr_base t)) (w_clients w).
Proof.
  intros Hr. destruct (reachable_delivers _ _ _ Hr). split; [done|]. split; [done|by eapply reachable_base].
Qed.
End Properties.

(** ** A concrete client *)

(** A pipe whose peer reads until [room] bytes have been delivered. *)
Record Pipe := mk_pipe { pipe_log : list byte; pipe_room : nat }.

#[export] Instance pipe_sink : Sink Pipe := {|
  sink_log := pipe_log;
  write_all p bs :=
    if (length bs <=? pipe_room p)%nat
    then (mk_pipe (pipe_log p ++ bs) (pipe_room p - length bs), true)
    else (mk_pipe (pipe_log p ++ take (pipe_room p) bs) 0, false);
  flush p := p
|}.

#[export] Instance pipe_laws : SinkLaws Pipe.
Proof.
  split; cbn; [| |done]; intros c bs c'; case_match; intros [= <-]; cbn; [done|].
  exists (take (pipe_room c) bs), (drop (pipe_room c) bs). by rewrite take_drop.
Qed.

(** One producer, one client that joins before the only message. *)
Definition demo_world : @World Pipe :=
  mk_world [[]] [] [mk_tracked (mk_pipe (BANNER ++ wire (lit "x")) 80) BANNER 0] [(0, wire (lit "x"))].

Lemma demo_world_reachable : reachable (C := Pipe) true [[wire (lit "x")]] demo_world.
Proof.
  eapply rtc_l. { apply (step_accept true _ (mk_pipe [] (length (BANNER ++ wire (lit "x")) + 80))). reflexivity. }
  eapply rtc_l. { apply (step_send true _ 0 (wire (lit "x")) []). reflexivity. }
  eapply rtc_l. { eapply (step_broadcast true _ 0 (wire (lit "x")) []). reflexivity. }
  apply rtc_refl.
Qed.

Lemma spine_delivers_witness :
  fifo [[wire (lit "x")]] demo_world /\ Forall (delivered demo_world) (w_clients demo_world).
Proof.
  destruct (spine_delivers true [[wire (lit "x")]] demo_world demo_world_reachable) as (H1 & H2 & _). by split.
Defined.
