(* ===== verification/SpineThreads.v ===== *)
(** * [crates/hawkd/src/main.rs]: the spine, thread by thread

    [Spine.v] takes the writing of a message to all clients as one step.  Here the
    threads are followed call by call: the main thread takes a message, holds the
    lock of the client list and calls [write_all] on one client after the other;
    [write_all] is the loop of the standard library over single [write] calls,
    which may deliver a part, fail, or block until the peer reads; the accept
    thread writes the banner without the lock and then waits for it.

    The lemmas: every run of the threads is, seen between two messages, a run of
    [Spine.step] (so the theorems about it hold here), with clients that know
    beforehand how the writes to them will end; at every moment a client has the
    messages since it joined and at most a first part of the current one; the lock
    excludes the accept thread from the list of clients while a message is
    written.  [SpineLiveness.v] has the theorems that follow. *)

From S2P Require Import Prelude RustStr RustNum RustMap TimeLib Severity HawkFrame RustDebug Spine.
From stdpp Require Import relations.

(** ** Streams that can block *)

Inductive WriteRes := Wrote (n : nat) | Interrupted | Failed.

(** A connected stream: what its peer has been delivered, one call of [write]
    ([None]: it blocks), and what the peer may do meanwhile (read, close). *)
Class Stream (C : Type) := {
  st_log : C -> list byte;
  st_write : C -> list byte -> option (C * WriteRes);
  st_peer : C -> C -> Prop
}.

(** [Write::write]: "the number of bytes written", never more than asked; an
    error means that nothing was written.  The peer does not change what it has
    been delivered. *)
Class StreamLaws (C : Type) `{Stream C} : Prop := {
  write_some : forall c bs c' n, st_write c bs = Some (c', Wrote n) ->
    (n <= length bs)%nat /\ st_log c' = st_log c ++ take n bs;
  write_interrupted : forall c bs c', st_write c bs = Some (c', Interrupted) -> st_log c' = st_log c;
  write_failed : forall c bs c', st_write c bs = Some (c', Failed) -> st_log c' = st_log c;
  peer_log : forall c c', st_peer c c' -> st_log c' = st_log c
}.

(** For progress: no signal handler is installed, so no call is interrupted, and
    a stream that can be written to stays so until it is written to. *)
Class LiveStream (C : Type) `{Stream C} : Prop := {
  never_interrupted : forall c bs c', st_write c bs ≠ Some (c', Interrupted);
  peer_keeps_ready : forall c c' bs,
    st_peer c c' -> is_Some (st_write c bs) -> is_Some (st_write c' bs)
}.

(** ** The threads *)

Section Threads.
Context {C : Type} `{Stream C}.

(** Where the main thread is: waiting in [recv], or in [broadcast] with the
    message [m] of producer [p], the index [i], and the bytes [buf] that
    [write_all] has still to write to client [i]. *)
Inductive MainPc :=
| Receiving
| Writing (p : nat) (m : list byte) (i : nat) (buf : list byte).

(** Where the accept thread is: in [accept], in [write_all] of the banner, or
    waiting for the lock to [push] the stream. *)
Inductive AcceptPc :=
| Accepting
| Greeting (c : C) (buf : list byte)
| Pushing (c : C).

Record Threads := mk_threads {
  th_todo : list (list (list byte));
  th_queue : list (nat * list byte);
  th_main : MainPc;
  th_accept : AcceptPc;
  th_clients : list (@Tracked C);
  th_sent : list (nat * list byte)
}.

Definition init_threads (producers : list (list (list byte))) : Threads :=
  mk_threads producers [] Receiving Accepting [] [].

Definition with_main (s : Threads) (queue : list (nat * list byte)) (pc : MainPc) (clients : list Tracked) : Threads :=
  mk_threads (th_todo s) queue pc (th_accept s) clients (th_sent s).

Definition with_accept (s : Threads) (pc : AcceptPc) : Threads :=
  mk_threads (th_todo s) (th_queue s) (th_main s) pc (th_clients s) (th_sent s).

(** A client whose stream has changed. *)
Definition set_sink (t : @Tracked C) (c : C) : Tracked := mk_tracked c (tr_base t) (tr_joined t).

(** The next action of the main thread: [for bytes in spine_rx], and the loop of
    [broadcast]; [None] while it waits for a message or for a peer.  The lock is
    held exactly while [Writing]. *)
Definition main_turn (s : Threads) : option Threads :=
  match th_main s with
  | Receiving =>
      match th_queue s with
      | [] => None
      | (p, m) :: q => Some (with_main s q (Writing p m 0 m) (th_clients s))
      end
  | Writing p m i buf =>
      match th_clients s !! i with
      | None =>
          Some (mk_threads (th_todo s) (th_queue s) Receiving (th_accept s) (th_clients s) (th_sent s ++ [(p, m)]))
      | Some t =>
          match buf with
          | [] => Some (with_main s (th_queue s) (Writing p m (S i) m) (th_clients s))
          | _ :: _ =>
              match st_write (tr_sink t) buf with
              | None => None
              | Some (c', Wrote (S n)) =>
                  Some (with_main s (th_queue s) (Writing p m i (drop (S n) buf)) (<[i := set_sink t c']> (th_clients s)))
              | Some (c', Interrupted) =>
                  Some (with_main s (th_queue s) (Writing p m i buf) (<[i := set_sink t c']> (th_clients s)))
              | Some (_, Wrote 0) | Some (_, Failed) =>
                  Some (with_main s (th_queue s) (Writing p m i m) (delete i (th_clients s)))
              end
          end
      end
  end.

(** The accept thread gets a stream. *)
Definition accept_stream (banner : bool) (s : Threads) (c : C) : Threads :=
  with_accept s (if banner then Greeting c BANNER else Pushing c).

(** The next action of the accept thread once it has a stream: its errors are
    ignored, and it pushes when the lock is free. *)
Definition accept_turn (s : Threads) : option Threads :=
  match th_accept s with
  | Accepting => None
  | Greeting c [] => Some (with_accept s (Pushing c))
  | Greeting c buf =>
      match st_write c buf with
      | None => None
      | Some (c', Wrote (S n)) => Some (with_accept s (Greeting c' (drop (S n) buf)))
      | Some (c', Interrupted) => Some (with_accept s (Greeting c' buf))
      | Some (c', Wrote 0) | Some (c', Failed) => Some (with_accept s (Pushing c'))
      end
  | Pushing c =>
      match th_main s with
      | Writing _ _ _ _ => None
      | Receiving =>
          Some (mk_threads (th_todo s) (th_queue s) Receiving Accepting
                  (th_clients s ++ [mk_tracked c (st_log c) (length (th_sent s))]) (th_sent s))
      end
  end.

(** Who makes a step.  A stream that is accepted has been delivered nothing yet. *)
Inductive Actor := Main | Acceptor | Producing (p : nat) | Peer | Nobody.

Inductive tstep (banner : bool) : Actor -> Threads -> Threads -> Prop :=
| t_main s s' : main_turn s = Some s' -> tstep banner Main s s'
| t_accept s s' : accept_turn s = Some s' -> tstep banner Acceptor s s'
| t_incoming s c : th_accept s = Accepting -> st_log c = [] -> tstep banner Acceptor s (accept_stream banner s c)
| t_incoming_error s : th_accept s = Accepting -> tstep banner Acceptor s s
| t_send s p m rest :
    th_todo s !! p = Some (m :: rest) ->
    tstep banner (Producing p) s
      (mk_threads (<[p := rest]> (th_todo s)) (th_queue s ++ [(p, m)]) (th_main s) (th_accept s) (th_clients s) (th_sent s))
| t_peer s j t c' :
    th_clients s !! j = Some t -> st_peer (tr_sink t) c' ->
    tstep banner Peer s (with_main s (th_queue s) (th_main s) (<[j := set_sink t c']> (th_clients s)))
| t_peer_new s c c' buf :
    th_accept s = Greeting c buf -> st_peer c c' -> tstep banner Peer s (with_accept s (Greeting c' buf))
| t_peer_pushed s c c' :
    th_accept s = Pushing c -> st_peer c c' -> tstep banner Peer s (with_accept s (Pushing c'))
| t_nobody s : tstep banner Nobody s s.

Definition tstep_any (banner : bool) (s s' : Threads) : Prop := exists a, tstep banner a s s'.

Definition treachable (banner : bool) (producers : list (list (list byte))) (s : Threads) : Prop :=
  rtc (tstep_any banner) (init_threads producers) s.

(** ** Seen between two messages *)

(** What is observable of a client. *)
Definition view (t : @Tracked C) : @Tracked (list byte) := mk_tracked (st_log (tr_sink t)) (tr_base t) (tr_joined t).
End Threads.

(** A client whose calls of [write_all] have a known outcome: [None] delivers
    everything, [Some k] fails after [k] bytes. *)
Record Oracle := mk_oracle { or_log : list byte; or_fate : list (option nat) }.

#[export] Instance oracle_sink : Sink Oracle := {|
  sink_log := or_log;
  write_all o bs :=
    match or_fate o with
    | [] => (mk_oracle (or_log o ++ bs) [], true)
    | None :: f => (mk_oracle (or_log o ++ bs) f, true)
    | Some k :: f => (mk_oracle (or_log o ++ take k bs) f, false)
    end;
  flush o := o
|}.

#[export] Instance oracle_laws : SinkLaws Oracle.
Proof.
  split; cbn; [| |done]; intros [l [|[k|] f]] bs c'; cbn; intros [= <-]; cbn; try done.
  exists (take k bs), (drop k bs). by rewrite take_drop.
Qed.

(** The client [v] with the outcomes [f] ahead of it. *)
Definition fated (f : list (option nat)) (v : @Tracked (list byte)) : @Tracked Oracle :=
  mk_tracked (mk_oracle (tr_sink v) f) (tr_base v) (tr_joined v).

(** The clients that [broadcast] has not finished with: the first has received
    [m] up to [buf], the others nothing of it. *)
Inductive behind (m buf : list byte) :
    list (list (option nat)) -> list (@Tracked (list byte)) -> list (@Tracked Oracle) -> Prop :=
| behind_nil : behind m buf [] [] []
| behind_cons f fs v vs log0 written :
    m = written ++ buf -> tr_sink v = log0 ++ written -> length fs = length vs ->
    behind m buf (f :: fs) (v :: vs)
      (fated f (mk_tracked log0 (tr_base v) (tr_joined v)) :: zip_with fated fs vs).

Section Simulation.
Context {C : Type} `{StreamLaws C}.
Implicit Types s : @Threads C.

(** The main thread against a state of [Spine]: in the middle of [broadcast] the
    message is still at the head of the queue there. *)
Definition main_sim (fates : list (list (option nat))) s (w : @World Oracle) : Prop :=
  match th_main s with
  | Receiving => w_queue w = th_queue s /\ w_clients w = zip_with fated fates (view <$> th_clients s)
  | Writing p m i buf =>
      w_queue w = (p, m) :: th_queue s
      /\ exists dn rest fd fr pre post,
           view <$> th_clients s = dn ++ rest /\ length dn = i /\ fates = fd ++ fr /\ length fd = i
           /\ w_clients w = pre ++ post /\ omap (deliver m) pre = zip_with fated fd dn
           /\ behind m buf fr rest post
  end.

(** The stream in the hands of the accept thread has a part of the banner. *)
Definition accept_sim (banner : bool) s : Prop :=
  match th_accept s with
  | Accepting => True
  | Greeting c buf => banner = true /\ BANNER = st_log c ++ buf
  | Pushing c => base_ok banner (st_log c)
  end.

(** Whatever happens to the clients later, [s] is what a run of [Spine.step]
    shows. *)
Definition simulated (banner : bool) (producers : list (list (list byte))) s : Prop :=
  accept_sim banner s
  /\ forall fates, length fates = length (th_clients s) ->
       exists w, reachable banner producers w /\ w_todo w = th_todo s /\ w_sent w = th_sent s /\ main_sim fates s w.

Lemma behind_length m buf fr rest post : behind m buf fr rest post -> length fr = length rest.
Proof. destruct 1; simpl; congruence. Qed.

Lemma behind_fresh m fr rest : length fr = length rest -> behind m m fr rest (zip_with fated fr rest).
Proof.
  destruct fr as [|f fs], rest as [|[l b j] vs]; intros Hl; [constructor|done|done|]. injection Hl as Hl.
  apply (behind_cons m m f fs (mk_tracked l b j) vs l []); [done|cbn; by rewrite app_nil_r|done].
Qed.

Lemma deliver_fated_ok m f l0 (v : @Tracked (list byte)) :
  tr_sink v = l0 ++ m -> deliver m (fated (None :: f) (mk_tracked l0 (tr_base v) (tr_joined v))) = Some (fated f v).
Proof. destruct v as [l b j]. cbn. by intros ->. Qed.

Lemma views_insert (l : list (@Tracked C)) i t c :
  l !! i = Some t -> st_log c = st_log (tr_sink t) -> view <$> <[i := set_sink t c]> l = view <$> l.
Proof.
  intros Hi E. rewrite list_fmap_insert. apply list_insert_id. rewrite list_lookup_fmap, Hi. cbn. f_equal.
  unfold view, set_sink. cbn. congruence.
Qed.

(** The clients split at the index of the main thread. *)
Lemma views_at dn rest (l : list (@Tracked C)) t :
  view <$> l = dn ++ rest -> l !! length dn = Some t -> exists vs, rest = view t :: vs.
Proof.
  intros E Hi. assert ((dn ++ rest) !! length dn = Some (view t)) as Hv
    by (rewrite <-E, list_lookup_fmap, Hi; done).
  rewrite lookup_app_r, Nat.sub_diag in Hv by done. destruct rest as [|v vs]; [done|]. injection Hv as ->. by exists vs.
Qed.
(** Splitting the outcomes where the clients are split. *)
Lemma fates_at {A} (l : list A) i : (i < length l)%nat -> exists l1 x l2, l = l1 ++ x :: l2 /\ length l1 = i.
Proof.
  intros [x Hx]%lookup_lt_is_Some. exists (take i l), x, (drop (S i) l).
  split; [by rewrite take_drop_middle|]. rewrite length_take. apply lookup_lt_Some in Hx. lia.
Qed.

(** The state of [Spine] for chosen outcomes, in the middle of [broadcast]. *)
Lemma sim_writing banner producers s p m buf fd fr :
  simulated banner producers s -> th_main s = Writing p m (length fd) buf ->
  length (fd ++ fr) = length (th_clients s) ->
  exists w dn rest pre post,
    (reachable banner producers w /\ w_todo w = th_todo s /\ w_sent w = th_sent s)
    /\ w_queue w = (p, m) :: th_queue s
    /\ view <$> th_clients s = dn ++ rest /\ length dn = length fd /\ w_clients w = pre ++ post
    /\ omap (deliver m) pre = zip_with fated fd dn /\ behind m buf fr rest post.
Proof.
  intros [_ Hs] Hm Hl. destruct (Hs _ Hl) as (w & Hr & Ht & Hsent & Hsim). unfold main_sim in Hsim. rewrite Hm in Hsim.
  destruct Hsim as (Hq & dn & rest & fd' & fr' & pre & post & E & Hdn & Ef & Hfd & Ec & Ed & Hb).
  apply app_inj_1 in Ef as [<- <-]; [|done]. exists w, dn, rest, pre, post. by repeat split.
Qed.

Lemma sim_receive banner producers s p m q :
  simulated banner producers s -> th_main s = Receiving -> th_queue s = (p, m) :: q ->
  simulated banner producers (with_main s q (Writing p m 0 m) (th_clients s)).
Proof.
  intros [Ha Hs] Hm Hq. split; [done|]. intros fates Hl. destruct (Hs fates Hl) as (w & Hr & Ht & Hsent & Hsim).
  exists w. split; [done|]. split; [done|]. split; [done|]. unfold main_sim in *. rewrite Hm in Hsim.
  destruct Hsim as [Eq Ec]. cbn. split; [congruence|].
  exists [], (view <$> th_clients s), [], fates, [], (w_clients w). repeat split; try done.
  rewrite Ec. apply behind_fresh. by rewrite length_fmap.
Qed.

Lemma sim_next banner producers s p m i t :
  simulated banner producers s -> th_main s = Writing p m i [] -> th_clients s !! i = Some t ->
  simulated banner producers (with_main s (th_queue s) (Writing p m (S i) m) (th_clients s)).
Proof.
  intros Hsim Hm Hi. split; [apply Hsim|]. intros fates Hl. cbn [with_main th_clients] in Hl.
  destruct (fates_at fates i) as (fd & f & fs & -> & <-); [rewrite Hl; by eapply lookup_lt_Some|].
  rewrite length_app in Hl. cbn [length] in Hl.
  destruct (sim_writing banner producers s p m [] fd ((None :: f) :: fs) Hsim Hm)
    as (w & dn & rest & pre & post & Hw & Hq & E & Hdn & Ec & Ed & Hb); [by rewrite length_app|].
  exists w. split; [apply Hw|]. split; [apply Hw|]. split; [apply Hw|]. cbn. split; [done|].
  rewrite <-Hdn in Hi. destruct (views_at dn rest _ t E Hi) as [vs ->].
  inversion Hb as [|? ? ? ? log0 written Em Ev Hfs]; subst. rewrite app_nil_r in *.
  exists (dn ++ [view t]), vs, (fd ++ [f]), fs, (pre ++ [fated (None :: f) (mk_tracked log0 (tr_base t) (tr_joined t))]),
    (zip_with fated fs vs).
  rewrite <-!app_assoc, !length_app, omap_app, Ed, zip_with_app by done. cbn [app length].
  repeat split; try done; try lia; [|by apply behind_fresh].
  cbn [omap list_omap]. rewrite (deliver_fated_ok written f log0 (view t)) by done. done.
Qed.

(** The main thread goes on with the same client. *)
Lemma sim_chunk banner producers s p m i buf n t c :
  simulated banner producers s -> th_main s = Writing p m i buf -> th_clients s !! i = Some t ->
  st_log c = st_log (tr_sink t) ++ take n buf ->
  simulated banner producers (with_main s (th_queue s) (Writing p m i (drop n buf)) (<[i := set_sink t c]> (th_clients s))).
Proof.
  intros Hsim Hm Hi Hlog. split; [apply Hsim|]. intros fates Hl. cbn [with_main th_clients] in Hl.
  rewrite length_insert in Hl.
  destruct (fates_at fates i) as (fd & f & fs & -> & <-); [rewrite Hl; by eapply lookup_lt_Some|].
  destruct (sim_writing banner producers s p m buf fd (f :: fs) Hsim Hm Hl)
    as (w & dn & rest & pre & post & Hw & Hq & E & Hdn & Ec & Ed & Hb).
  exists w. split; [apply Hw|]. split; [apply Hw|]. split; [apply Hw|]. cbn. split; [done|].
  rewrite <-Hdn in Hi. destruct (views_at dn rest _ t E Hi) as [vs ->].
  inversion Hb as [|? ? ? ? log0 written Em Ev Hfs]; subst.
  exists dn, (view (set_sink t c) :: vs), fd, (f :: fs), pre,
    (fated f (mk_tracked log0 (tr_base t) (tr_joined t)) :: zip_with fated fs vs).
  split; [|repeat split; try done].
  - rewrite list_fmap_insert, E, <-Hdn, insert_app_r_alt, Nat.sub_diag by done. done.
  - apply (behind_cons _ _ f fs (view (set_sink t c)) vs log0 (written ++ take n buf)); [|cbn in *|done].
    + by rewrite <-app_assoc, take_drop.
    + by rewrite Hlog, Ev, app_assoc.
Qed.

Lemma sim_remove banner producers s p m i buf t :
  simulated banner producers s -> th_main s = Writing p m i buf -> th_clients s !! i = Some t ->
  simulated banner producers (with_main s (th_queue s) (Writing p m i m) (delete i (th_clients s))).
Proof.
  intros Hsim Hm Hi. split; [apply Hsim|]. intros fates Hl. cbn [with_main th_clients] in Hl.
  pose proof (lookup_lt_Some _ _ _ Hi) as Hlt. rewrite length_delete in Hl by eauto.
  assert (exists fd fs, fates = fd ++ fs /\ length fd = i) as (fd & fs & -> & <-).
  { exists (take i fates), (drop i fates). rewrite take_drop, length_take. split; [done|lia]. }
  rewrite length_app in Hl.
  destruct (sim_writing banner producers s p m buf fd ([Some 0%nat] :: fs) Hsim Hm)
    as (w & dn & rest & pre & post & Hw & Hq & E & Hdn & Ec & Ed & Hb); [rewrite length_app; cbn [length]; lia|].
  exists w. split; [apply Hw|]. split; [apply Hw|]. split; [apply Hw|]. cbn. split; [done|].
  rewrite <-Hdn in Hi. destruct (views_at dn rest _ t E Hi) as [vs ->].
  inversion Hb as [|? ? ? ? log0 written Em Ev Hfs]; subst.
  exists dn, vs, fd, fs, (pre ++ [fated [Some 0%nat] (mk_tracked log0 (tr_base t) (tr_joined t))]), (zip_with fated fs vs).
  rewrite <-app_assoc, omap_app, Ed. repeat split; try done; [| |by apply behind_fresh].
  - rewrite list_fmap_delete. rewrite E, <-Hdn. apply delete_middle.
  - cbn. by rewrite app_nil_r.
Qed.

(** The loop is over: this is the step of [Spine]. *)
Lemma sim_end banner producers s p m i buf :
  simulated banner producers s -> th_main s = Writing p m i buf -> th_clients s !! i = None ->
  simulated banner producers
    (mk_threads (th_todo s) (th_queue s) Receiving (th_accept s) (th_clients s) (th_sent s ++ [(p, m)])).
Proof.
  intros Hsim Hm Hi. split; [apply Hsim|]. intros fates Hl. cbn [th_clients] in Hl.
  destruct (proj2 Hsim fates Hl) as (w & Hr & Ht & Hsent & Hms). unfold main_sim in Hms. rewrite Hm in Hms.
  destruct Hms as (Hq & dn & rest & fd & fr & pre & post & E & Hdn & -> & Hfd & Ec & Ed & Hb).
  assert (rest = []) as ->.
  { apply lookup_ge_None in Hi. apply (f_equal length) in E. rewrite length_fmap, length_app in E.
    apply length_zero_iff_nil. lia. }
  inversion Hb; subst. rewrite app_nil_r in *.
  eexists. split; [|split; [|split; [|split]]].
  - eapply rtc_r; [exact Hr|]. by eapply step_broadcast.
  - done.
  - cbn. by rewrite Hsent.
  - done.
  - cbn [w_clients th_clients]. by rewrite broadcast_deliver, Ec, Ed, E.
Qed.

Lemma sim_main banner producers s s' :
  simulated banner producers s -> main_turn s = Some s' -> simulated banner producers s'.
Proof.
  intros Hs Ht. unfold main_turn in Ht. destruct (th_main s) as [|p m i buf] eqn:Hm.
  { destruct (th_queue s) as [|[p m] q] eqn:Hq; simplify_eq. by apply sim_receive. }
  destruct (th_clients s !! i) as [t|] eqn:Hi; [|simplify_eq; by eapply sim_end].
  destruct buf as [|b buf]; [simplify_eq; by eapply sim_next|].
  destruct (st_write (tr_sink t) (b :: buf)) as [[c' [[|n]| |]]|] eqn:Hw; simplify_eq.
  - by eapply sim_remove.
  - apply write_some in Hw as [_ Hlog]. by eapply sim_chunk.
  - apply write_interrupted in Hw. apply (sim_chunk _ _ _ _ _ _ (b :: buf) 0 t c'); try done. by rewrite app_nil_r.
  - by eapply sim_remove.
Qed.
(** The accept thread, up to the push, changes nothing the others see. *)
Lemma sim_accept_pc banner producers s pc :
  simulated banner producers s -> accept_sim banner (with_accept s pc) -> simulated banner producers (with_accept s pc).
Proof. intros [_ Hs] Ha. by split. Qed.

Lemma sim_push banner producers s c :
  simulated banner producers s -> th_accept s = Pushing c -> th_main s = Receiving ->
  simulated banner producers
    (mk_threads (th_todo s) (th_queue s) Receiving Accepting
       (th_clients s ++ [mk_tracked c (st_log c) (length (th_sent s))]) (th_sent s)).
Proof.
  intros [Ha Hs] Hpc Hm. split; [done|]. intros fates Hl. cbn [th_clients] in Hl. rewrite length_app in Hl.
  destruct (fates_at fates (length (th_clients s))) as (fs & f & fs' & -> & Hfs); [simpl in Hl; lia|].
  assert (fs' = []) as -> by (apply length_zero_iff_nil; rewrite length_app in Hl; simpl in Hl; lia).
  destruct (Hs fs Hfs) as (w & Hr & Ht & Hsent & Hsim). unfold main_sim in Hsim. rewrite Hm in Hsim.
  destruct Hsim as [Hq Ec]. unfold accept_sim in Ha. rewrite Hpc in Ha.
  assert (exists c0 : Oracle, sink_log c0 = [] /\ greet banner c0 = mk_oracle (st_log c) f) as (c0 & Hc0 & Hg).
  { unfold base_ok in Ha. destruct banner; [|rewrite Ha; by exists (mk_oracle [] f)]. destruct Ha as [post E].
    exists (mk_oracle [] (Some (length (st_log c)) :: f)). split; [done|]. cbn. rewrite E, take_app_length. done. }
  eexists. split; [eapply rtc_r; [exact Hr|by apply (step_accept banner w c0)]|]. split; [done|]. split; [done|].
  split; [done|]. cbn [w_clients th_clients]. unfold add_client. rewrite Hg, Ec, Hsent, fmap_app.
  rewrite zip_with_app by (by rewrite length_fmap). done.
Qed.

Lemma sim_accept banner producers s s' :
  simulated banner producers s -> accept_turn s = Some s' -> simulated banner producers s'.
Proof.
  intros Hs Ht. pose proof (proj1 Hs) as Ha. unfold accept_sim in Ha. unfold accept_turn in Ht.
  destruct (th_accept s) as [|c [|b buf]|c] eqn:Hpc; [done|..].
  - simplify_eq. apply sim_accept_pc; [done|]. destruct Ha as [-> E]. by exists [].
  - destruct Ha as [-> E]. assert (base_ok true (st_log c)) as Hpart by (by eexists).
    destruct (st_write c (b :: buf)) as [[c' [[|n]| |]]|] eqn:Hw; simplify_eq; apply sim_accept_pc; try done.
    + apply write_some in Hw as [_ Hw]. unfold accept_sim. cbn. by rewrite Hw, app_nil_r.
    + split; [done|]. apply write_some in Hw as [_ ->]. by rewrite <-app_assoc, take_drop.
    + split; [done|]. by rewrite (write_interrupted _ _ _ Hw).
    + unfold accept_sim. cbn. by rewrite (write_failed _ _ _ Hw).
  - destruct (th_main s) eqn:Hm; [|done]. simplify_eq. by apply sim_push.
Qed.

Lemma sim_send banner producers s p m rest :
  simulated banner producers s -> th_todo s !! p = Some (m :: rest) ->
  simulated banner producers
    (mk_threads (<[p := rest]> (th_todo s)) (th_queue s ++ [(p, m)]) (th_main s) (th_accept s) (th_clients s) (th_sent s)).
Proof.
  intros [Ha Hs] Hp. split; [done|]. intros fates Hl. destruct (Hs fates Hl) as (w & Hr & Ht & Hsent & Hsim).
  eexists. split; [eapply rtc_r; [exact Hr|apply (step_send banner w p m rest); by rewrite Ht]|].
  split; [cbn; by rewrite Ht|]. split; [done|]. unfold main_sim in *. cbn [th_main th_queue th_clients w_queue w_clients].
  destruct (th_main s); [|destruct Hsim as [Hq Hrest]; rewrite Hq; by split].
  destruct Hsim as [Hq Hc]. rewrite Hq. by split.
Qed.

(** The peers change nothing that is observed. *)
Lemma sim_views banner producers s clients :
  simulated banner producers s -> view <$> clients = view <$> th_clients s ->
  simulated banner producers (with_main s (th_queue s) (th_main s) clients).
Proof.
  intros [Ha Hs] Ev. split; [done|]. intros fates Hl. cbn [with_main th_clients] in Hl.
  rewrite <-(length_fmap view), Ev, length_fmap in Hl. destruct (Hs fates Hl) as (w & Hw).
  exists w. unfold main_sim in *. cbn. by rewrite Ev.
Qed.

Lemma sim_step banner producers s s' :
  tstep_any banner s s' -> simulated banner producers s -> simulated banner producers s'.
Proof.
  intros [a Ht] Hs. destruct Ht as [s s' Ht|s s' Ht|s c Hpc Hnew|s Hpc|s p m rest Hp|s j t c' Hj Hpeer
    |s c c' buf Hpc Hpeer|s c c' Hpc Hpeer|s].
  - by eapply sim_main.
  - by eapply sim_accept.
  - apply sim_accept_pc; [done|]. unfold accept_sim. cbn. destruct banner; cbn; by rewrite Hnew.
  - done.
  - by apply sim_send.
  - apply sim_views; [done|]. apply views_insert; [done|]. by apply peer_log.
  - apply sim_accept_pc; [done|]. destruct Hs as [Ha _]. unfold accept_sim in *. rewrite Hpc in Ha. cbn.
    by rewrite (peer_log _ _ Hpeer).
  - apply sim_accept_pc; [done|]. destruct Hs as [Ha _]. unfold accept_sim in *. rewrite Hpc in Ha. cbn.
    by rewrite (peer_log _ _ Hpeer).
  - done.
Qed.

Lemma reachable_simulated banner producers s : treachable banner producers s -> simulated banner producers s.
Proof.
  intros Hr. unfold treachable in Hr. revert s Hr.
  apply (rtc_ind_r (R := tstep_any banner) (simulated banner producers)).
  - split; [done|]. intros [|] Hl; [|done]. exists (init_world producers). split; [apply rtc_refl|]. by repeat split.
  - intros s s' _ Hs. by apply sim_step.
Qed.

(** Some outcomes, when they do not matter. *)
Lemma any_fates s : exists fates : list (list (option nat)), length fates = length (th_clients s).
Proof. exists (replicate (length (th_clients s)) []). apply length_replicate. Qed.
End Simulation.

(** ** What the clients have at every moment *)

Section Delivery.
Context {C : Type} `{StreamLaws C}.
Implicit Types s : @Threads C.

(** The message that the main thread is writing. *)
Definition in_flight s : list (nat * list byte) :=
  match th_main s with Receiving => [] | Writing p m _ _ => [(p, m)] end.

(** The part of it that client [k] has. *)
Definition current_part s (k : nat) : list byte :=
  match th_main s with
  | Receiving => []
  | Writing _ m i buf =>
      if (k <? i)%nat then m else if bool_decide (k = i) then take (length m - length buf) m else []
  end.

(** Client [k] has what it had when it joined, the messages since, and its part
    of the current one. *)
Definition has_received s (k : nat) (t : Tracked) : Prop :=
  (tr_joined t <= length (th_sent s))%nat
  /\ st_log (tr_sink t) = tr_base t ++ concat (map snd (drop (tr_joined t) (th_sent s))) ++ current_part s k.

Lemma delivered_fated (w : @World Oracle) f (v : @Tracked (list byte)) :
  delivered w (fated f v) ->
  (tr_joined v <= length (w_sent w))%nat
  /\ tr_sink v = tr_base v ++ concat (map snd (drop (tr_joined v) (w_sent w))).
Proof. done. Qed.

Lemma lookup_fated fates vs k (v : @Tracked (list byte)) :
  length fates = length vs -> vs !! k = Some v -> exists f, fated f v ∈ zip_with fated fates vs.
Proof.
  intros Hl Hv. destruct (lookup_lt_is_Some_2 fates k) as [f Hf]; [rewrite Hl; by eapply lookup_lt_Some|].
  exists f. apply list_elem_of_lookup. exists k. rewrite lookup_zip_with, Hf. cbn. by rewrite Hv.
Qed.

(** In the middle of [broadcast]. *)
Lemma writing_received s (w : @World Oracle) fates p m i buf k t :
  Forall (delivered w) (w_clients w) -> w_sent w = th_sent s -> main_sim fates s w ->
  th_main s = Writing p m i buf -> th_clients s !! k = Some t -> has_received s k t.
Proof.
  intros Hd Hsent Hsim Hm Hk. unfold main_sim in Hsim. rewrite Hm in Hsim.
  destruct Hsim as (_ & dn & rest & fd & fr & pre & post & E & Hdn & _ & Hfd & Ec & Ed & Hb).
  assert ((dn ++ rest) !! k = Some (view t)) as Hv by (by rewrite <-E, list_lookup_fmap, Hk).
  rewrite Ec in Hd. apply Forall_app in Hd as [Hpre Hpost]. rewrite Forall_forall in Hpre, Hpost.
  unfold has_received, current_part. rewrite Hm, <-Hsent.
  destruct (Nat.ltb_spec k i) as [Hki|Hki].
  - rewrite lookup_app_l in Hv by lia. destruct (lookup_fated fd dn k (view t)) as [f Hf]; [lia|done|].
    rewrite <-Ed in Hf. apply list_elem_of_omap in Hf as (u & Hu & Eu%deliver_tracked).
    destruct Eu as (El & Eb & Ej). destruct (Hpre u Hu) as [Hj Hlog].
    change (sink_log (fated f (view t))) with (st_log (tr_sink t)) in El. cbn in Eb, Ej. rewrite Eb, Ej, El, Hlog, <-app_assoc. done.
  - rewrite lookup_app_r in Hv by lia. rewrite Hdn in Hv.
    inversion Hb as [|f fs v vs log0 written Em Ev Hl]; subst fr rest; [by rewrite lookup_nil in Hv|]. subst post.
    case_bool_decide as Hki'.
    + subst k. rewrite Nat.sub_diag in Hv. injection Hv as ->.
      destruct (Hpost (fated f (mk_tracked log0 (tr_base t) (tr_joined t)))) as [Hj Hlog]; [by left|]. cbn in Hj, Hlog.
      split; [done|]. cbn in Ev. rewrite Ev, Hlog, <-app_assoc. do 2 f_equal.
      rewrite Em, length_app, Nat.add_sub, take_app_length. done.
    + destruct (k - i)%nat as [|k'] eqn:Ek; [lia|]. cbn in Hv.
      destruct (lookup_fated fs vs k' (view t)) as [f' Hf']; [done..|].
      destruct (delivered_fated w f' (view t)) as [Hj Hlog]; [apply Hpost; by right|]. cbn in Hj, Hlog.
      by rewrite app_nil_r.
Qed.

Lemma threads_received banner producers s k t :
  treachable banner producers s -> th_clients s !! k = Some t -> has_received s k t.
Proof.
  intros [_ Hs]%reachable_simulated Hk. destruct (any_fates s) as [fates Hl].
  destruct (Hs fates Hl) as (w & Hr%reachable_delivers & _ & Hsent & Hsim). destruct Hr as [_ Hd].
  destruct (th_main s) as [|p m i buf] eqn:Hm; [|by eapply writing_received].
  unfold main_sim in Hsim. rewrite Hm in Hsim. destruct Hsim as [_ Ec]. rewrite Ec, Forall_forall in Hd.
  destruct (lookup_fated fates (view <$> th_clients s) k (view t)) as [f Hf];
    [by rewrite length_fmap|by rewrite list_lookup_fmap, Hk|].
  unfold has_received, current_part. rewrite Hm, app_nil_r, <-Hsent. by apply (delivered_fated w f (view t)), Hd.
Qed.

(** The order of the producers, at every moment. *)
Lemma threads_fifo banner producers s p outs :
  treachable banner producers s -> producers !! p = Some outs ->
  exists todo, th_todo s !! p = Some todo
    /\ messages_of p (th_sent s ++ in_flight s ++ th_queue s) ++ todo = outs.
Proof.
  intros [_ Hs]%reachable_simulated Hp. destruct (any_fates s) as [fates Hl].
  destruct (Hs fates Hl) as (w & Hr%reachable_delivers & Ht & Hsent & Hsim). destruct Hr as [(_ & _ & Hf) _].
  assert (w_queue w = in_flight s ++ th_queue s) as Eq.
  { unfold main_sim in Hsim. unfold in_flight. destruct (th_main s); apply Hsim. }
  rewrite <-Ht, <-Hsent, <-Eq. by apply Hf.
Qed.

Lemma todo_length banner producers s : treachable banner producers s -> length (th_todo s) = length producers.
Proof.
  intros [_ Hs]%reachable_simulated. destruct (any_fates s) as [fates Hl].
  destruct (Hs fates Hl) as (w & Hr%reachable_delivers & <- & _). by destruct Hr as [[? _] _].
Qed.

Lemma sent_by_producers banner producers s :
  treachable banner producers s -> Forall (fun e => e.1 < length producers)%nat (th_sent s).
Proof.
  intros [_ Hs]%reachable_simulated. destruct (any_fates s) as [fates Hl].
  destruct (Hs fates Hl) as (w & Hr%reachable_delivers & _ & <- & _). destruct Hr as [(_ & Hp & _) _].
  by apply Forall_app in Hp as [? _].
Qed.

(** [s] and a state of [Spine] show the same to every client. *)
Definition same_spine s (w : @World Oracle) : Prop :=
  w_todo w = th_todo s /\ w_queue w = th_queue s /\ w_sent w = th_sent s
  /\ Forall2 (fun t (t' : @Tracked Oracle) => sink_log t' = st_log (tr_sink t) /\ tr_base t' = tr_base t /\ tr_joined t' = tr_joined t)
       (th_clients s) (w_clients w).

Lemma threads_to_spine banner producers s :
  treachable banner producers s -> th_main s = Receiving ->
  exists w : @World Oracle, reachable banner producers w /\ same_spine s w.
Proof.
  intros [_ Hs]%reachable_simulated Hm. destruct (any_fates s) as [fates Hl].
  destruct (Hs fates Hl) as (w & Hr & Ht & Hsent & Hsim). unfold main_sim in Hsim. rewrite Hm in Hsim.
  destruct Hsim as [Hq Ec]. exists w. repeat split; try done. rewrite Ec. clear -Hl.
  revert fates Hl. induction (th_clients s) as [|t ts IH]; intros [|f fs] Hl; [constructor|done|done|].
  injection Hl as Hl. cbn. constructor; [done|by apply IH].
Qed.

(** The accept thread either works on its own stream or pushes it, and only
    while the main thread does not hold the lock. *)
Lemma accept_turn_inv s s' :
  accept_turn s = Some s' ->
  (exists pc, s' = with_accept s pc)
  \/ (th_main s = Receiving
      /\ exists c, s' = mk_threads (th_todo s) (th_queue s) Receiving Accepting
                         (th_clients s ++ [mk_tracked c (st_log c) (length (th_sent s))]) (th_sent s)).
Proof.
  unfold accept_turn. intros Ht. destruct (th_accept s) as [|c [|b buf]|c]; [done|simplify_eq; eauto|..].
  - destruct (st_write c (b :: buf)) as [[c' [[|]| |]]|]; simplify_eq; eauto.
  - destruct (th_main s); simplify_eq; eauto.
Qed.

(** While the main thread is writing, nobody joins or leaves but by its own
    hand: the accept thread waits for the lock. *)
Lemma lock_excludes banner a s s' p m i buf :
  tstep banner a s s' -> th_main s = Writing p m i buf -> a ≠ Main ->
  th_main s' = Writing p m i buf /\ th_sent s' = th_sent s /\ view <$> th_clients s' = view <$> th_clients s.
Proof.
  intros Ht Hm Ha. destruct Ht as [s s' Ht|s s' Ht|s c Hpc Hnew|s Hpc|s q m' rest Hp|s j t c' Hj Hpeer
    |s c c' buf' Hpc Hpeer|s c c' Hpc Hpeer|s]; try done.
  - destruct (accept_turn_inv _ _ Ht) as [[pc ->]|[? _]]; [done|congruence].
  - split; [done|]. split; [done|]. apply views_insert; [done|by apply peer_log].
Qed.

(** What a client was given before its first message. *)
Lemma threads_base banner producers s :
  treachable banner producers s -> Forall (fun t => base_ok banner (tr_base t)) (th_clients s).
Proof.
  intros Hr. pose proof Hr as [Ha _]%reachable_simulated.
  enough (accept_sim banner s /\ Forall (fun t => base_ok banner (tr_base t)) (th_clients s)) by tauto.
  split; [done|]. clear Ha. unfold treachable in Hr. revert s Hr.
  apply (rtc_ind_r (R := tstep_any banner) (fun s => Forall (fun t => base_ok banner (tr_base t)) (th_clients s))); [constructor|].
  intros s s' Hr [a Ht] Hs. pose proof (proj1 (reachable_simulated banner producers s Hr)) as Ha.
  assert (forall i t c, th_clients s !! i = Some t ->
            Forall (fun t => base_ok banner (tr_base t)) (<[i := set_sink t c]> (th_clients s))) as Hset.
  { intros i t c Hi. apply Forall_insert; [done|]. cbn. by eapply Forall_lookup_1 in Hs. }
  destruct Ht as [s s' Ht|s s' Ht|s c Hpc Hnew|s Hpc|s p m rest Hp|s j t c' Hj Hpeer
    |s c c' buf Hpc Hpeer|s c c' Hpc Hpeer|s]; try done; [| |by apply Hset].
  - unfold main_turn in Ht. destruct (th_main s) as [|p m i buf]; [destruct (th_queue s) as [|[]]; by simplify_eq|].
    destruct (th_clients s !! i) as [t|] eqn:Hi; [|by simplify_eq]. destruct buf as [|b buf]; [by simplify_eq|].
    destruct (st_write _ _) as [[c' [[|n]| |]]|]; simplify_eq; cbn [with_main th_clients];
      [by apply Forall_delete|by apply Hset|by apply Hset|by apply Forall_delete].
  - unfold accept_turn in Ht. unfold accept_sim in Ha. destruct (th_accept s) as [|c [|b buf]|c]; [done|by simplify_eq|..].
    + by destruct (st_write c (b :: buf)) as [[c' [[|n]| |]]|]; simplify_eq.
    + destruct (th_main s); simplify_eq. cbn [th_clients]. apply Forall_app. split; [done|]. by repeat constructor.
Qed.
End Delivery.
