(* ===== verification/SpineLiveness.v ===== *)
(** * The spine makes progress, unless a peer stops reading

    Infinite runs of the threads of [SpineThreads.v], with fairness: a thread that
    can go on does so at some time.  The theorems: when no peer blocks the main
    thread for ever, every message of every producer is broadcast at some time and
    stays delivered; a peer that never reads again stops the broadcast for
    everybody. *)

From S2P Require Import Prelude RustStr RustNum RustMap TimeLib Severity HawkFrame RustDebug Spine SpineThreads.
From stdpp Require Import relations.

(** ** Runs *)

Section Runs.
Context {C : Type} `{SL : StreamLaws C} {LS : LiveStream C}.
Implicit Types s : @Threads C.

Record Run (banner : bool) (producers : list (list (list byte))) := mk_run {
  run_at :> nat -> @Threads C;
  run_actor : nat -> Actor;
  run_start : run_at 0%nat = init_threads producers;
  run_step : forall n, tstep banner (run_actor n) (run_at n) (run_at (S n))
}.
Arguments run_actor {banner producers} r n : rename.
Arguments run_at {banner producers} r n : rename.
Arguments run_start {banner producers} r : rename.
Arguments run_step {banner producers} r n : rename.

Context {banner : bool} {producers : list (list (list byte))}.
Implicit Types r : Run banner producers.

(** The main thread is not passed over for ever when it can go on. *)
Definition main_fair r : Prop :=
  forall n, is_Some (main_turn (r n)) -> exists m, (n <= m)%nat /\ (main_turn (r m) = None \/ run_actor r m = Main).

(** Nor is a producer that has something to send. *)
Definition producers_fair r : Prop :=
  forall p n msg rest, th_todo (r n) !! p = Some (msg :: rest) ->
    exists m, (n <= m)%nat /\ run_actor r m = Producing p.

(** A peer that the main thread waits for reads, or closes, at some time. *)
Definition responsive r : Prop :=
  forall n, main_turn (r n) = None -> th_main (r n) ≠ Receiving ->
    exists m, (n <= m)%nat /\ is_Some (main_turn (r m)).

(** The messages the main thread has or will get, in order. *)
Definition trail s : list (nat * list byte) := th_sent s ++ in_flight s ++ th_queue s.

Lemma run_reachable r n : treachable banner producers (r n).
Proof.
  induction n as [|n IH]; [rewrite run_start; apply rtc_refl|]. eapply rtc_r; [exact IH|].
  eexists. apply run_step.
Qed.

(** ** What the other threads leave alone *)

Definition same_main s s' : Prop :=
  th_main s' = th_main s /\ th_sent s' = th_sent s
  /\ (th_main s ≠ Receiving -> length (th_clients s') = length (th_clients s)).

Lemma same_main_refl s : same_main s s.
Proof. by split. Qed.

Lemma same_main_trans s1 s2 s3 : same_main s1 s2 -> same_main s2 s3 -> same_main s1 s3.
Proof.
  intros (E1 & F1 & L1) (E2 & F2 & L2). split; [congruence|]. split; [congruence|].
  intros Hn. rewrite L2, L1; [done..|congruence].
Qed.

Lemma other_same_main a s s' : tstep banner a s s' -> a ≠ Main -> same_main s s'.
Proof.
  intros Ht Ha. destruct (th_main s) as [|p m i buf] eqn:Hm.
  - enough (th_main s' = th_main s /\ th_sent s' = th_sent s) as [E1 E2] by (split; [congruence|]; by split).
    destruct Ht as [s s' Ht|s s' Ht|s c Hpc Hnew|s Hpc|s q m' rest Hp|s j t c' Hj Hpeer
      |s c c' buf' Hpc Hpeer|s c c' Hpc Hpeer|s]; try done.
    destruct (accept_turn_inv _ _ Ht) as [[pc ->]|[_ [c ->]]]; [done|]. by rewrite Hm.
  - destruct (lock_excludes _ _ _ _ _ _ _ _ Ht Hm Ha) as (Hm' & Hs & Hv). split; [congruence|]. split; [done|].
    intros _. by rewrite <-(length_fmap view), Hv, length_fmap.
Qed.

(** When the main thread can go on. *)
Definition main_ready s : Prop :=
  match th_main s with
  | Receiving => th_queue s ≠ []
  | Writing _ _ i buf =>
      match th_clients s !! i with
      | None => True
      | Some t => buf = [] \/ is_Some (st_write (tr_sink t) buf)
      end
  end.

Lemma main_turn_ready s : is_Some (main_turn s) <-> main_ready s.
Proof.
  unfold main_turn, main_ready. destruct (th_main s) as [|p m i buf].
  { destruct (th_queue s) as [|[]]; [|by split; eauto]. split; [by intros [? ?]|done]. }
  destruct (th_clients s !! i) as [t|]; [|by split; eauto]. destruct buf as [|b buf]; [split; eauto|].
  destruct (st_write (tr_sink t) (b :: buf)) as [[c [[|]| |]]|]; (split; [by eauto|]); eauto.
  by intros [|[? ?]].
Qed.

(** What can go on can still go on. *)
Lemma enabled_stable a s s' :
  tstep banner a s s' -> a ≠ Main -> is_Some (main_turn s) -> is_Some (main_turn s').
Proof.
  rewrite !main_turn_ready. unfold main_ready.
  intros Ht Ha. destruct Ht as [s s' Ht|s s' Ht|s c Hpc Hnew|s Hpc|s q m' rest Hp|s j t c' Hj Hpeer
      |s c c' buf' Hpc Hpeer|s c c' Hpc Hpeer|s]; try done.
  - destruct (accept_turn_inv _ _ Ht) as [[pc ->]|[Hm [c ->]]]; [done|]. cbn. by rewrite Hm.
  - cbn [th_main th_queue th_clients]. destruct (th_main s); [|done]. by destruct (th_queue s).
  - cbn [with_main th_main th_queue th_clients]. destruct (th_main s) as [|p m i buf]; [done|].
    destruct (decide (i = j)) as [<-|Hij]; [|by rewrite list_lookup_insert_ne].
    rewrite Hj, list_lookup_insert_eq by (by eapply lookup_lt_Some).
    intros [->|He]; [by left|]. right. by eapply peer_keeps_ready.
Qed.

(** ** The main thread moves *)

Lemma actor_main_dec r n : {run_actor r n = Main} + {run_actor r n ≠ Main}.
Proof. destruct (run_actor r n); (by left) || (by right). Qed.

(** The first action of the main thread in a stretch of a run, if there is one. *)
Lemma first_main r n k :
  (exists m, (n <= m < n + k)%nat /\ run_actor r m = Main /\ same_main (r n) (r m))
  \/ (same_main (r n) (r (n + k)%nat) /\ (is_Some (main_turn (r n)) -> is_Some (main_turn (r (n + k)%nat)))).
Proof.
  induction k as [|k IH]; [right; rewrite Nat.add_0_r; split; [apply same_main_refl|done]|].
  destruct IH as [(m & Hm & Ha & Hs)|[Hs He]]; [left; exists m; split; [lia|done]|].
  destruct (actor_main_dec r (n + k)) as [Ha|Ha]; [left; exists (n + k)%nat; split; [lia|done]|].
  right. rewrite Nat.add_succ_r. pose proof (run_step r (n + k)) as Hstep. split.
  - eapply same_main_trans; [exact Hs|by eapply other_same_main].
  - intros H1. eapply enabled_stable; [exact Hstep|done|by apply He].
Qed.

Lemma main_acts r n : main_fair r -> is_Some (main_turn (r n)) ->
  exists m, (n <= m)%nat /\ run_actor r m = Main /\ same_main (r n) (r m).
Proof.
  intros Hfair He. destruct (Hfair n He) as (m & Hm & Hor).
  destruct (first_main r n (m - n)) as [(m' & Hm' & Ha & Hs)|[Hs He']]; [exists m'; split; [lia|done]|].
  replace (n + (m - n))%nat with m in * by lia. exists m. split; [done|]. split; [|done].
  destruct Hor as [Hno|?]; [|done]. destruct (He' He) as [? ?]. congruence.
Qed.

Lemma main_actor_turn r n : run_actor r n = Main -> main_turn (r n) = Some (r (S n)).
Proof. intros Ha. pose proof (run_step r n) as Hs. rewrite Ha in Hs. by inversion Hs. Qed.

(** With work before it, the main thread makes its next move. *)
Lemma main_moves r n :
  main_fair r -> responsive r -> (th_main (r n) ≠ Receiving \/ th_queue (r n) ≠ []) ->
  exists m, (n <= m)%nat /\ same_main (r n) (r m) /\ main_turn (r m) = Some (r (S m)).
Proof.
  intros Hfair Hresp Hwork. enough (exists m, (n <= m)%nat /\ run_actor r m = Main /\ same_main (r n) (r m)) as
    (m & Hm & Ha & Hs) by (exists m; split; [done|]; split; [done|]; by apply main_actor_turn).
  destruct (main_turn (r n)) as [s'|] eqn:Et; [by apply main_acts|].
  assert (th_main (r n) ≠ Receiving) as Hbusy.
  { destruct Hwork as [?|Hq]; [done|]. intros Hm. unfold main_turn in Et. rewrite Hm in Et.
    destruct (th_queue (r n)) as [|[]]; done. }
  destruct (Hresp n Et Hbusy) as (m & Hm & He).
  destruct (first_main r n (m - n)) as [(m' & Hm' & Ha & Hs)|[Hs _]]; [exists m'; split; [lia|done]|].
  replace (n + (m - n))%nat with m in * by lia.
  destruct (main_acts r m Hfair He) as (m' & Hm' & Ha & Hs').
  exists m'. split; [lia|]. split; [done|]. by eapply same_main_trans.
Qed.

(** ** A message is finished *)

(** Bytes and clients before the main thread in [broadcast]. *)
Definition effort s : nat :=
  match th_main s with
  | Receiving => 0
  | Writing p m i buf => S ((length (th_clients s) - i) * (length m + 2) + length buf)
  end.

Lemma main_turn_effort s s' p m i buf :
  th_main s = Writing p m i buf -> main_turn s = Some s' ->
  (th_main s' = Receiving /\ th_sent s' = th_sent s ++ [(p, m)])
  \/ (in_flight s' = in_flight s /\ th_main s' ≠ Receiving /\ th_sent s' = th_sent s /\ (effort s' < effort s)%nat).
Proof.
  intros Hm Ht. unfold main_turn in Ht. rewrite Hm in Ht.
  destruct (th_clients s !! i) as [t|] eqn:Hi; [|simplify_eq; by left]. right.
  assert (i < length (th_clients s))%nat as Hlt by (by eapply lookup_lt_Some).
  assert (in_flight s = [(p, m)]) as -> by (unfold in_flight; by rewrite Hm).
  unfold effort. rewrite Hm. destruct buf as [|b buf].
  { simplify_eq. cbn. repeat split; try done.
    replace (length (th_clients s) - i)%nat with (S (length (th_clients s) - S i)) by lia. cbn. lia. }
  destruct (st_write (tr_sink t) (b :: buf)) as [[c' [[|n]| |]]|] eqn:Hw; simplify_eq.
  1, 4: cbn; repeat split; try done; rewrite length_delete by eauto;
    replace (length (th_clients s) - i)%nat with (S (length (th_clients s) - 1 - i)) by lia; cbn; lia.
  - cbn. repeat split; try done. rewrite length_insert, length_drop. lia.
  - by apply never_interrupted in Hw.
Qed.

Lemma message_finishes r k n :
  main_fair r -> responsive r -> (effort (r n) <= k)%nat -> th_main (r n) ≠ Receiving ->
  exists m, (n <= m)%nat /\ th_sent (r m) = th_sent (r n) ++ in_flight (r n).
Proof.
  intros Hfair Hresp. revert n. induction k as [|k IH]; intros n Hk Hn.
  { unfold effort in Hk. destruct (th_main (r n)); [done|by apply Nat.nle_succ_0 in Hk]. }
  destruct (main_moves r n Hfair Hresp (or_introl Hn)) as (m & Hm & (E1 & E2 & E3) & Ht).
  destruct (th_main (r n)) as [|p x i buf] eqn:Hpc; [done|].
  assert (in_flight (r n) = [(p, x)] /\ in_flight (r m) = [(p, x)]) as [F1 F2] by (unfold in_flight; by rewrite Hpc, E1).
  assert (effort (r m) = effort (r n)) as Eeff by (unfold effort; rewrite Hpc, E1, E3; done).
  destruct (main_turn_effort (r m) (r (S m)) p x i buf E1 Ht) as [[H1 H2]|(H1 & H2 & H3 & H4)].
  - exists (S m). split; [lia|]. by rewrite H2, E2, F1.
  - destruct (IH (S m)) as (m' & Hm' & Hs); [lia|done|]. exists m'. split; [lia|]. rewrite Hs, H1, H3, E2. congruence.
Qed.

(** With work before it, the main thread finishes a message. *)
Lemma sent_grows r n :
  main_fair r -> responsive r -> in_flight (r n) ++ th_queue (r n) ≠ [] ->
  exists m, (n <= m)%nat /\ (length (th_sent (r n)) < length (th_sent (r m)))%nat.
Proof.
  intros Hfair Hresp Hwork.
  assert (forall n, th_main (r n) ≠ Receiving ->
            exists m, (n <= m)%nat /\ (length (th_sent (r n)) < length (th_sent (r m)))%nat) as Hbusy.
  { intros k Hk. destruct (message_finishes r _ k Hfair Hresp (le_n _) Hk) as (m & Hm & Hs). exists m. split; [done|].
    rewrite Hs, length_app. unfold in_flight. destruct (th_main (r k)); [done|cbn; lia]. }
  destruct (th_main (r n)) as [|p x i buf] eqn:Hpc; [|apply Hbusy; congruence].
  assert (th_queue (r n) ≠ []) as Hq by (unfold in_flight in Hwork; by rewrite Hpc in Hwork).
  destruct (main_moves r n Hfair Hresp (or_intror Hq)) as (m & Hm & (E1 & E2 & _) & Ht).
  assert (th_main (r (S m)) ≠ Receiving /\ th_sent (r (S m)) = th_sent (r m)) as [H1 H2].
  { unfold main_turn in Ht. rewrite E1, Hpc in Ht. destruct (th_queue (r m)) as [|[]]; [done|].
    apply (inj Some) in Ht. by rewrite <-Ht. }
  destruct (Hbusy (S m) H1) as (m' & Hm' & Hl). exists m'. split; [lia|]. by rewrite <-E2, <-H2.
Qed.

(** ** The order of the messages never changes *)

Lemma main_turn_trail s s' : main_turn s = Some s' -> trail s' = trail s /\ th_sent s `prefix_of` th_sent s'.
Proof.
  unfold main_turn. destruct (th_main s) as [|p m i buf] eqn:Hm.
  { destruct (th_queue s) as [|[p m] q] eqn:Hq; [done|]. intros [= <-]. split; [|done].
    unfold trail, in_flight. cbn. by rewrite Hm, Hq. }
  intros Ht. assert (in_flight s = [(p, m)]) as Ef by (unfold in_flight; by rewrite Hm).
  destruct (th_clients s !! i) as [t|].
  - assert (in_flight s' = in_flight s /\ th_sent s' = th_sent s /\ th_queue s' = th_queue s) as (E1 & E2 & E3).
    { rewrite Ef. destruct buf; [by simplify_eq|]. destruct (st_write (tr_sink t) _) as [[? [[|]| |]]|]; by simplify_eq. }
    split; [unfold trail; congruence|]. by rewrite E2.
  - simplify_eq. split; [|by apply prefix_app_r]. unfold trail. rewrite Ef. cbn. by rewrite <-app_assoc.
Qed.

Lemma step_trail a s s' :
  tstep banner a s s' ->
  th_sent s `prefix_of` th_sent s'
  /\ (trail s' = trail s /\ (forall p, a ≠ Producing p) \/ exists p m, a = Producing p /\ trail s' = trail s ++ [(p, m)]).
Proof.
  intros Ht. destruct Ht as [s s' Ht|s s' Ht|s c Hpc Hnew|s Hpc|s q m' rest Hp|s j t c' Hj Hpeer
      |s c c' buf' Hpc Hpeer|s c c' Hpc Hpeer|s]; try (split; [done|by left]).
  - destruct (main_turn_trail _ _ Ht). split; [done|]. by left.
  - destruct (accept_turn_inv _ _ Ht) as [[pc ->]|[Hm [c ->]]]; (split; [done|]; left; split; [|done]); [done|].
    unfold trail, in_flight. cbn. by rewrite Hm.
  - split; [done|]. right. exists q, m'. split; [done|]. unfold trail, in_flight. cbn. by rewrite <-!app_assoc.
Qed.

Lemma run_mono r n m : (n <= m)%nat -> th_sent (r n) `prefix_of` th_sent (r m) /\ trail (r n) `prefix_of` trail (r m).
Proof.
  induction 1 as [|m Hm [IH1 IH2]]; [done|]. destruct (step_trail _ _ _ (run_step r m)) as [H1 H2].
  split; [by etrans|]. etrans; [exact IH2|]. destruct H2 as [[-> _]|(p & x & _ & ->)]; [done|by apply prefix_app_r].
Qed.

(** Whatever is in the channel is broadcast. *)
Lemma channel_drains r n :
  main_fair r -> responsive r -> exists m, (n <= m)%nat /\ trail (r n) `prefix_of` th_sent (r m).
Proof.
  intros Hfair Hresp.
  assert (forall k n', (n <= n')%nat -> (length (trail (r n)) - length (th_sent (r n')) <= k)%nat ->
            exists m, (n' <= m)%nat /\ (length (trail (r n)) <= length (th_sent (r m)))%nat) as Hall.
  { induction k as [|k IH]; intros n' Hn' Hk; [exists n'; split; [done|lia]|].
    destruct (decide (length (trail (r n)) <= length (th_sent (r n')))%nat); [by exists n'|].
    assert (in_flight (r n') ++ th_queue (r n') ≠ []) as Hwork.
    { intros E. destruct (run_mono r n n' Hn') as [_ Hp%prefix_length]. unfold trail at 2 in Hp.
      rewrite E, app_nil_r in Hp. lia. }
    destruct (sent_grows r n' Hfair Hresp Hwork) as (m & Hm & Hl).
    destruct (IH m) as (m' & Hm' & Hl'); [lia..|]. exists m'. split; [lia|done]. }
  destruct (Hall _ n (le_n _) (le_n _)) as (m & Hm & Hl). exists m. split; [done|].
  destruct (run_mono r n m Hm) as [_ Hp].
  assert (th_sent (r m) `prefix_of` trail (r m)) as Hs by apply prefix_app_r, reflexivity.
  destruct (prefix_weak_total _ _ _ Hp Hs) as [?|[k Hk]]; [done|].
  assert (k = []) as -> by (apply (f_equal length) in Hk; rewrite length_app in Hk; apply length_zero_iff_nil; lia).
  rewrite app_nil_r in Hk. by rewrite Hk.
Qed.

(** Whatever a producer has to send gets into the channel. *)
Lemma producer_sends r p outs k :
  producers_fair r -> producers !! p = Some outs -> (k <= length outs)%nat ->
  exists n, (k <= length (messages_of p (trail (r n))))%nat.
Proof.
  intros Hfair Hp. induction k as [|k IH]; intros Hk; [exists 0%nat; lia|].
  destruct IH as [n Hn]; [lia|]. destruct (threads_fifo _ _ _ _ _ (run_reachable r n) Hp) as (todo & Ht & E).
  destruct todo as [|m rest].
  { rewrite app_nil_r in E. exists n. unfold trail. rewrite E. lia. }
  destruct (Hfair p n m rest Ht) as (n' & Hn' & Ha). exists (S n').
  destruct (step_trail _ _ _ (run_step r n')) as [_ [[_ Hne]|(q & x & Hq & ->)]]; [by destruct (Hne p)|].
  rewrite Ha in Hq. injection Hq as <-. rewrite messages_of_app, messages_of_single, length_app.
  rewrite bool_decide_eq_true_2 by done. cbn.
  destruct (run_mono r n n' Hn') as [_ [ext ->]]. rewrite messages_of_app, length_app. lia.
Qed.

Lemma messages_of_lookup p (l : list (nat * list byte)) j m :
  messages_of p l !! j = Some m ->
  exists q, l !! q = Some (p, m) /\ messages_of p (take q l) = take j (messages_of p l).
Proof.
  revert j. induction l as [|[p' m'] l IH]; intros j; [done|].
  change ((p', m') :: l) with ([(p', m')] ++ l). rewrite messages_of_app, messages_of_single.
  case_bool_decide as Hp.
  - subst p'. destruct j as [|j]; cbn [app lookup list_lookup].
    + intros [= ->]. by exists 0%nat.
    + intros (q & Hq & E)%IH. exists (S q). split; [done|]. cbn [app take].
      change ((p, m') :: take q l) with ([(p, m')] ++ take q l). rewrite messages_of_app, messages_of_single, E.
      by rewrite bool_decide_eq_true_2.
  - intros (q & Hq & E)%IH. exists (S q). split; [done|]. cbn [app take].
    change ((p', m') :: take q l) with ([(p', m')] ++ take q l). rewrite messages_of_app, messages_of_single, E.
    by rewrite bool_decide_eq_false_2.
Qed.

(** Message [j] of producer [p] has a place in the order of the broadcast. *)
Lemma message_is_sent r p outs j msg :
  main_fair r -> producers_fair r -> responsive r ->
  producers !! p = Some outs -> outs !! j = Some msg ->
  exists n q, forall n', (n <= n')%nat ->
    th_sent (r n') !! q = Some (p, msg) /\ messages_of p (take q (th_sent (r n'))) = take j outs.
Proof.
  intros Hmain Hprod Hresp Hp Hj.
  destruct (producer_sends r p outs (S j) Hprod Hp) as [n0 Hn0]; [by eapply lookup_lt_Some|].
  destruct (channel_drains r n0 Hmain Hresp) as (n & Hn & Hpre).
  destruct (threads_fifo _ _ _ _ _ (run_reachable r n) Hp) as (todo & _ & E).
  rewrite messages_of_app, <-app_assoc in E. set (ms := messages_of p (th_sent (r n))) in *.
  assert (j < length ms)%nat as Hlt.
  { destruct Hpre as [ext Hext]. unfold ms. rewrite Hext, messages_of_app, length_app. lia. }
  assert (ms !! j = Some msg) as Hms by (rewrite <-E, lookup_app_l in Hj; done).
  destruct (messages_of_lookup p (th_sent (r n)) j msg Hms) as (q & Hq & Eq). exists n, q. intros n' Hn'.
  destruct (run_mono r n n' Hn') as [[ext ->] _]. split; [by apply lookup_app_l_Some|].
  rewrite take_app_le by (apply Nat.lt_le_incl; by eapply lookup_lt_Some). fold ms in Eq.
  by rewrite Eq, <-E, take_app_le by lia.
Qed.

(** A client that joined before a message has it. *)
Lemma client_has_message r n q p msg t :
  th_sent (r n) !! q = Some (p, msg) -> t ∈ th_clients (r n) -> (tr_joined t <= q)%nat ->
  exists before after, st_log (tr_sink t) = tr_base t ++ before ++ msg ++ after
    /\ before = concat (map snd (drop (tr_joined t) (take q (th_sent (r n))))).
Proof.
  intros Hq [k Hk]%list_elem_of_lookup Hj. destruct (threads_received _ _ _ _ _ (run_reachable r n) Hk) as [_ ->].
  set (sent := th_sent (r n)) in *. eexists _, (concat (map snd (drop (S q) sent)) ++ current_part (r n) k).
  split; [|done]. rewrite <-(take_drop_middle sent q (p, msg)) at 1 by done.
  rewrite drop_app_le by (rewrite length_take; apply lookup_lt_Some in Hq; lia).
  rewrite map_app, concat_app. cbn. by rewrite <-!app_assoc.
Qed.

(** ** Runs that come to rest *)

(** Everything sent, taken and written. *)
Definition quiet s : Prop := th_main s = Receiving /\ th_queue s = [] /\ Forall (eq []) (th_todo s).

Lemma quiet_stays a s s' : tstep banner a s s' -> quiet s -> quiet s'.
Proof.
  intros Ht (Hm & Hq & Hd). destruct Ht as [s s' Ht|s s' Ht|s c Hpc Hnew|s Hpc|s p m rest Hp|s j t c' Hj Hpeer
      |s c c' buf' Hpc Hpeer|s c c' Hpc Hpeer|s]; try by repeat split.
  - unfold main_turn in Ht. by rewrite Hm, Hq in Ht.
  - destruct (accept_turn_inv _ _ Ht) as [[pc ->]|[_ [c ->]]]; by repeat split.
  - eapply Forall_lookup_1 in Hd; [|exact Hp]. done.
Qed.

Lemma quiet_after r N n : quiet (r N) -> (N <= n)%nat -> quiet (r n).
Proof. intros HN. induction 1 as [|n _ IH]; [done|]. eapply quiet_stays; [apply run_step|done]. Qed.

(** Only a producer takes from what it has left. *)
Lemma todo_kept a p s s' : tstep banner a s s' -> a ≠ Producing p -> th_todo s' !! p = th_todo s !! p.
Proof.
  intros Ht Ha. destruct Ht as [s s' Ht|s s' Ht|s c Hpc Hnew|s Hpc|s q m rest Hp|s j t c' Hj Hpeer
      |s c c' buf' Hpc Hpeer|s c c' Hpc Hpeer|s]; try done.
  - unfold main_turn in Ht. by repeat (case_match; simplify_eq).
  - by destruct (accept_turn_inv _ _ Ht) as [[pc ->]|[_ [c ->]]].
  - apply list_lookup_insert_ne. congruence.
Qed.

Lemma producer_acts r p n k :
  th_todo (r (n + k)%nat) !! p ≠ th_todo (r n) !! p -> exists m, (n <= m)%nat /\ run_actor r m = Producing p.
Proof.
  induction k as [|k IH]; [by rewrite Nat.add_0_r|]. rewrite Nat.add_succ_r. intros Hne.
  destruct (decide (th_todo (r (n + k)%nat) !! p = th_todo (r n) !! p)) as [He|He]; [|by apply IH].
  exists (n + k)%nat. split; [lia|]. pose proof (run_step r (n + k)) as Hs.
  assert (run_actor r (n + k) ≠ Producing p -> False) as Hact.
  { intros Ha. apply Hne. rewrite <-He. by eapply todo_kept. }
  destruct (run_actor r (n + k)) as [| |q| |]; try (by destruct Hact).
  destruct (decide (q = p)) as [->|Hqp]; [done|]. destruct Hact. congruence.
Qed.

(** A run that comes to rest is fair, and no peer blocks it. *)
Lemma quiet_run_fair r N : quiet (r N) -> main_fair r /\ producers_fair r /\ responsive r.
Proof.
  intros HN. split; [|split].
  - intros n _. exists (N + n)%nat. split; [lia|]. left. destruct (quiet_after r N (N + n) HN) as (Hm & Hq & _); [lia|].
    unfold main_turn. by rewrite Hm, Hq.
  - intros p n msg rest Ht. destruct (quiet_after r N (n + N) HN) as (_ & _ & Hd); [lia|].
    apply (producer_acts r p n N). rewrite Ht. intros He. eapply Forall_lookup_1 in Hd; [|exact He]. done.
  - intros n _ Hm. destruct (quiet_after r N (n + N) HN) as (Hm' & _ & _); [lia|].
    destruct (first_main r n N) as [(m & Hnm & Ha & _)|[(E & _) _]]; [|congruence].
    exists m. split; [lia|]. rewrite (main_actor_turn r m Ha). by eexists.
Qed.

(** Conversely, a fair run that no peer blocks comes to rest. *)

Lemma exhausted_stays a p s s' : tstep banner a s s' -> th_todo s !! p = Some [] -> th_todo s' !! p = Some [].
Proof.
  intros Ht Hp. enough (a ≠ Producing p) by (by rewrite (todo_kept a p s s')).
  intros ->. inversion Ht; simplify_eq.
Qed.

Lemma exhausted_after r p n m : th_todo (r n) !! p = Some [] -> (n <= m)%nat -> th_todo (r m) !! p = Some [].
Proof. intros Hn. induction 1 as [|m _ IH]; [done|]. eapply exhausted_stays; [apply run_step|done]. Qed.

Lemma producer_exhausted r p outs :
  producers_fair r -> producers !! p = Some outs -> exists n, th_todo (r n) !! p = Some [].
Proof.
  intros Hfair Hp. destruct (producer_sends r p outs (length outs) Hfair Hp (le_n _)) as [n Hn]. exists n.
  destruct (threads_fifo _ _ _ _ _ (run_reachable r n) Hp) as (todo & -> & E). fold (trail (r n)) in E.
  f_equal. apply length_zero_iff_nil. apply (f_equal length) in E. rewrite length_app in E. lia.
Qed.

Lemma all_exhausted r : producers_fair r -> exists n, Forall (eq []) (th_todo (r n)).
Proof.
  intros Hfair. assert (forall K, exists n, forall p outs, (p < K)%nat -> producers !! p = Some outs -> th_todo (r n) !! p = Some []) as Hall.
  { induction K as [|K [n IH]]; [exists 0%nat; lia|]. destruct (producers !! K) as [outs|] eqn:HK.
    - destruct (producer_exhausted r K outs Hfair HK) as [n' Hn']. exists (n + n')%nat. intros p o Hp Ho.
      destruct (decide (p = K)) as [->|]; [eapply exhausted_after; [exact Hn'|lia]|].
      eapply exhausted_after; [eapply IH; [|exact Ho]|]; lia.
    - exists n. intros p o Hp Ho. apply (IH p o); [|done]. destruct (decide (p = K)) as [->|]; [congruence|lia]. }
  destruct (Hall (length producers)) as [n Hn]. exists n. apply Forall_lookup_2. intros p todo Ht.
  destruct (producers !! p) as [outs|] eqn:Ho.
  - rewrite (Hn p outs) in Ht; [congruence|by eapply lookup_lt_Some|done].
  - apply lookup_ge_None in Ho. apply lookup_lt_Some in Ht.
    rewrite (todo_length _ _ _ (run_reachable r n)) in Ht. lia.
Qed.

Lemma trail_settles r n m : Forall (eq []) (th_todo (r n)) -> (n <= m)%nat ->
  Forall (eq []) (th_todo (r m)) /\ trail (r m) = trail (r n).
Proof.
  intros Hd. induction 1 as [|m _ [IH1 IH2]]; [done|]. pose proof (run_step r m) as Hs.
  assert (forall p, run_actor r m ≠ Producing p) as Hno.
  { intros p E. rewrite E in Hs. inversion Hs as [| | | |? ? ? ? Hp| | | |]; subst.
    by eapply Forall_lookup_1 in IH1; [|exact Hp]. }
  split.
  - apply Forall_lookup_2. intros p todo Ht. rewrite (todo_kept _ p _ _ Hs (Hno p)) in Ht. by eapply Forall_lookup_1 in IH1.
  - destruct (step_trail _ _ _ Hs) as [_ [[-> _]|(p & ? & E & _)]]; [done|by destruct (Hno p)].
Qed.

Lemma fair_run_rests r : main_fair r -> producers_fair r -> responsive r -> exists N, quiet (r N).
Proof.
  intros Hmain Hprod Hresp. destruct (all_exhausted r Hprod) as [n Hd].
  destruct (channel_drains r n Hmain Hresp) as (N & HN & Hpre). exists N.
  destruct (trail_settles r n N Hd HN) as [Hd' Et]. rewrite <-Et in Hpre. unfold trail in Hpre.
  apply prefix_length in Hpre. rewrite !length_app in Hpre. unfold in_flight in Hpre.
  destruct (th_main (r N)) eqn:Hm; cbn in Hpre; [|lia]. split; [done|]. split; [|done]. apply length_zero_iff_nil. lia.
Qed.
End Runs.

Arguments run_actor {C H banner producers} r n : rename.

(** ** Properties *)

Section Properties.
Context {C : Type} `{SL : StreamLaws C}.

(** A stream to which nothing can be written any more, whatever its peer does:
    it is not closed, but it is not read either. *)
Definition stalled_for_good (c : C) : Prop :=
  forall c', rtc st_peer c c' -> forall bs, bs ≠ [] -> st_write c' bs = None.

Lemma stalled_peer c c' : stalled_for_good c -> st_peer c c' -> stalled_for_good c'.
Proof. intros Hs Hp c2 Hc2. apply Hs. by eapply rtc_l. Qed.

(** The main thread is in the middle of a message for a stalled client. *)
Definition stuck_on (pc : MainPc) (s : @Threads C) : Prop :=
  th_main s = pc
  /\ exists p m i b buf t, pc = Writing p m i (b :: buf) /\ th_clients s !! i = Some t /\ stalled_for_good (tr_sink t).

Lemma stuck_step banner a pc s s' :
  tstep banner a s s' -> stuck_on pc s ->
  stuck_on pc s' /\ th_sent s' = th_sent s /\ view <$> th_clients s' = view <$> th_clients s.
Proof.
  intros Ht [Hm (p & m & i & b & buf & t & -> & Hi & Hst)].
  assert (main_turn s = None) as Hno.
  { unfold main_turn. rewrite Hm, Hi. by rewrite (Hst (tr_sink t)). }
  assert (a ≠ Main) as Ha by (intros ->; inversion Ht; congruence).
  destruct (lock_excludes _ _ _ _ _ _ _ _ Ht Hm Ha) as (Hm' & Hs & Hv).
  split; [|done]. split; [done|]. exists p, m, i, b, buf.
  enough (exists t', th_clients s' !! i = Some t' /\ stalled_for_good (tr_sink t')) as (t' & ? & ?)
    by (by exists t').
  destruct Ht as [s s' Ht|s s' Ht|s c Hpc Hnew|s Hpc|s q m' rest Hp|s j u c' Hj Hpeer
      |s c c' buf' Hpc Hpeer|s c c' Hpc Hpeer|s]; try (by exists t).
  - destruct (accept_turn_inv _ _ Ht) as [[pc ->]|[? _]]; [by exists t|congruence].
  - cbn [with_main th_clients]. destruct (decide (i = j)) as [<-|Hij].
    + exists (set_sink u c'). rewrite list_lookup_insert_eq by (by eapply lookup_lt_Some). split; [done|].
      simplify_eq. by eapply stalled_peer.
    + exists t. by rewrite list_lookup_insert_ne.
Qed.

(** C5: the threads of the daemon implement the spine: whenever the main thread
    is between two messages, producers, channel, broadcast log and what every
    client has received are those of a run in which every broadcast is one atomic
    step; chunked writes, the lock and the blocking of the peers make no
    difference. *)
Theorem threads_refine_spine banner producers (s : @Threads C) :
  treachable banner producers s -> th_main s = Receiving ->
  exists w : @World Oracle, reachable banner producers w /\ same_spine s w.
Proof. apply threads_to_spine. Qed.

(** C10: at every moment, also in the middle of a [write_all], client number [k]
    has received what it had when it joined, exactly the messages broadcast since,
    and of the current message all if its turn is over, the bytes written so far
    if it is its turn, nothing otherwise. *)
Theorem no_torn_messages banner producers (s : @Threads C) k t :
  treachable banner producers s -> th_clients s !! k = Some t -> has_received s k t.
Proof. apply threads_received. Qed.

(** C11: one client that is connected but never reads again stops the daemon:
    from the moment its write blocks, no message is finished, no client receives
    another byte and nobody can join, whatever the other threads and peers do. *)
Theorem stalled_client_stops_all banner (s s' : @Threads C) :
  stuck_on (th_main s) s -> rtc (tstep_any banner) s s' ->
  th_main s' = th_main s /\ th_sent s' = th_sent s /\ view <$> th_clients s' = view <$> th_clients s.
Proof.
  intros Hs Hr. enough (stuck_on (th_main s) s' /\ th_sent s' = th_sent s /\ view <$> th_clients s' = view <$> th_clients s)
    as ([? _] & ? & ?) by done.
  revert s' Hr. apply (rtc_ind_r (R := tstep_any banner)); [done|].
  intros s1 s2 _ [a Ht] (H1 & H2 & H3). destruct (stuck_step _ _ _ _ _ Ht H1) as (H4 & H5 & H6).
  split; [done|]. split; congruence.
Qed.

Context {LS : LiveStream C}.

(** C4: every message arrives: in every run in which the main thread and the
    producers are not passed over for ever and no peer blocks the main thread for
    ever, message [j] of producer [p] gets, after finitely many steps, a place [q]
    in the broadcast, behind the first [j] messages of [p] and no other of [p];
    and from then on every connected client that joined before that place has
    it. *)
Theorem every_message_arrives banner producers (r : Run (C := C) banner producers) p outs j msg :
  main_fair r -> producers_fair r -> responsive r ->
  producers !! p = Some outs -> outs !! j = Some msg ->
  exists n q, forall n', (n <= n')%nat ->
    th_sent (r n') !! q = Some (p, msg)
    /\ messages_of p (take q (th_sent (r n'))) = take j outs
    /\ Forall (fun t => (tr_joined t <= q)%nat ->
                 exists before after, st_log (tr_sink t) = tr_base t ++ before ++ msg ++ after) (th_clients (r n')).
Proof.
  intros Hm Hpf Hr Hp Hj. destruct (message_is_sent r p outs j msg Hm Hpf Hr Hp Hj) as (n & q & Hq).
  exists n, q. intros n' Hn'. destruct (Hq n' Hn') as [H1 H2]. split; [done|]. split; [done|].
  apply Forall_forall. intros t Ht Hjn.
  destruct (client_has_message r n' q p msg t H1 Ht Hjn) as (before & after & E & _). by exists before, after.
Qed.
End Properties.

(** ** A concrete stream *)

(** A socket with [sk_room] bytes of buffer left; its peer may read (which makes
    room), stop reading, or close. *)
Record Sock := mk_sock { sk_log : list byte; sk_room : nat; sk_open : bool; sk_reading : bool }.

#[export] Instance sock_stream : Stream Sock := {|
  st_log := sk_log;
  st_write c bs :=
    if sk_open c then
      match sk_room c with
      | O => None
      | S _ =>
          let n := Nat.min (sk_room c) (length bs) in
          Some (mk_sock (sk_log c ++ take n bs) (sk_room c - n) true (sk_reading c), Wrote n)
      end
    else Some (c, Failed);
  st_peer c c' :=
    sk_reading c = true /\ sk_log c' = sk_log c /\ (sk_room c <= sk_room c')%nat
    /\ (sk_open c' = true -> sk_open c = true)
|}.

#[export] Instance sock_laws : StreamLaws Sock.
Proof.
  split; cbn.
  - intros c bs c' n. destruct (sk_open c); [|done]. destruct (sk_room c) as [|k]; [done|]. intros [= <- <-].
    split; [apply (Nat.le_min_r (S k))|done].
  - intros c bs c'. destruct (sk_open c); [|done]. by destruct (sk_room c).
  - intros c bs c'. destruct (sk_open c); [by destruct (sk_room c)|]. by intros [= <-].
  - by intros c c' (_ & ? & _).
Qed.

#[export] Instance sock_live : LiveStream Sock.
Proof.
  split; cbn.
  - intros c bs c'. destruct (sk_open c); [|done]. by destruct (sk_room c).
  - intros c c' bs (_ & _ & Hr & Ho) Hs. destruct (sk_open c'); [|eauto]. rewrite Ho in Hs by done.
    destruct (sk_room c) as [|k]; [by destruct Hs|]. destruct (sk_room c'); [lia|eauto].
Qed.

(** ** Runs that are played *)

Section Play.
Context {C : Type} `{Stream C}.

Inductive Move := MoveMain | MoveAccept | MoveIncoming (c : C) | MoveSend (p : nat).

Definition play (banner : bool) (mv : Move) (s : @Threads C) : option Threads :=
  match mv with
  | MoveMain => main_turn s
  | MoveAccept => accept_turn s
  | MoveIncoming c =>
      match th_accept s, st_log c with Accepting, [] => Some (accept_stream banner s c) | _, _ => None end
  | MoveSend p =>
      match th_todo s !! p with
      | Some (m :: rest) =>
          Some (mk_threads (<[p := rest]> (th_todo s)) (th_queue s ++ [(p, m)]) (th_main s) (th_accept s) (th_clients s) (th_sent s))
      | _ => None
      end
  end.

Definition mover (mv : Move) : Actor :=
  match mv with MoveMain => Main | MoveAccept | MoveIncoming _ => Acceptor | MoveSend p => Producing p end.

Lemma play_step banner mv s s' : play banner mv s = Some s' -> tstep banner (mover mv) s s'.
Proof.
  destruct mv as [| |c|p]; cbn [play mover]; [by constructor|by constructor| |].
  - destruct (th_accept s) eqn:E; [|done..]. destruct (st_log c) eqn:El; [|done]. intros [= <-]. by constructor.
  - destruct (th_todo s !! p) as [[|m rest]|] eqn:E; [done| |done]. intros [= <-]. by constructor.
Qed.

(** All moves are possible. *)
Fixpoint playable (banner : bool) (mvs : list Move) (s : @Threads C) : bool :=
  match mvs with
  | [] => true
  | mv :: rest => match play banner mv s with Some s' => playable banner rest s' | None => false end
  end.

(** The state after [n] moves; nothing happens after the last. *)
Fixpoint played (banner : bool) (mvs : list Move) (s : @Threads C) (n : nat) {struct n} : Threads :=
  match n, mvs with
  | S n', mv :: rest => match play banner mv s with Some s' => played banner rest s' n' | None => s end
  | _, _ => s
  end.

Definition played_by (mvs : list Move) (n : nat) : Actor := default Nobody (mover <$> mvs !! n).

Lemma played_step banner mvs s n :
  playable banner mvs s = true ->
  tstep banner (played_by mvs n) (played banner mvs s n) (played banner mvs s (S n)).
Proof.
  revert s n. induction mvs as [|mv rest IH]; intros s n Hp; cbn [playable] in Hp.
  { destruct n; apply t_nobody. }
  destruct (play banner mv s) as [s'|] eqn:E; [|done].
  destruct n as [|n].
  - change (played_by (mv :: rest) 0) with (mover mv). cbn [played]. rewrite E.
    apply play_step in E. by destruct rest.
  - change (played banner (mv :: rest) s (S (S n))) with
      (match play banner mv s with Some s' => played banner rest s' (S n) | None => s end).
    change (played banner (mv :: rest) s (S n)) with
      (match play banner mv s with Some s' => played banner rest s' n | None => s end).
    rewrite E. by apply (IH s' n).
Qed.

Definition play_run banner producers mvs (Hp : playable banner mvs (init_threads producers) = true) : Run banner producers :=
  mk_run banner producers (played banner mvs (init_threads producers)) (played_by mvs) eq_refl
    (fun n => played_step banner mvs (init_threads producers) n Hp).
End Play.

(** ** Witnesses *)

Definition msg_x : list byte := wire (lit "x").

(** A client joins, then the only producer's only message is broadcast. *)
Definition demo_moves : list (@Move Sock) :=
  [MoveIncoming (mk_sock [] 100 true true); MoveAccept; MoveAccept; MoveAccept; MoveSend 0;
   MoveMain; MoveMain; MoveMain; MoveMain].

Definition demo_run : Run (C := Sock) true [[msg_x]] := play_run true [[msg_x]] demo_moves eq_refl.

Lemma demo_run_fair : main_fair demo_run /\ producers_fair demo_run /\ responsive demo_run.
Proof. apply (quiet_run_fair demo_run 9). by repeat constructor. Qed.

Lemma every_message_arrives_witness :
  exists n q, forall n', (n <= n')%nat ->
    th_sent (demo_run n') !! q = Some (0%nat, msg_x)
    /\ Forall (fun t => (tr_joined t <= q)%nat ->
                 exists before after, sk_log (tr_sink t) = tr_base t ++ before ++ msg_x ++ after) (th_clients (demo_run n')).
Proof.
  destruct (every_message_arrives true [[msg_x]] demo_run 0 [msg_x] 0 msg_x) as (n & q & Hq).
  - apply demo_run_fair.
  - apply demo_run_fair.
  - apply demo_run_fair.
  - reflexivity.
  - reflexivity.
  - exists n, q. intros n' Hn'. destruct (Hq n' Hn') as (H1 & _ & H3). split; [exact H1|exact H3].
Defined.

Lemma threads_refine_spine_witness :
  exists w : @World Oracle, reachable true [[msg_x]] w /\ same_spine (demo_run 9%nat) w.
Proof.
  apply (threads_refine_spine true [[msg_x]] (demo_run 9%nat)); [apply run_reachable|reflexivity].
Defined.

(** Between the banner and the end of the message. *)
Lemma no_torn_messages_witness :
  has_received (demo_run 7%nat) 0 (mk_tracked (mk_sock (BANNER ++ msg_x) 80 true true) BANNER 0).
Proof.
  apply (no_torn_messages true [[msg_x]] (demo_run 7%nat) 0); [apply run_reachable|reflexivity].
Defined.

(** The first of two clients has stopped reading and its buffer is full. *)
Definition stalled_sock : Sock := mk_sock BANNER 0 true false.

Definition frozen : @Threads Sock :=
  mk_threads [[msg_x]] [] (Writing 0 msg_x 0 msg_x) Accepting
    [mk_tracked stalled_sock BANNER 0; mk_tracked (mk_sock BANNER 50 true true) BANNER 0] [].

Lemma stalled_sock_stalls : stalled_for_good stalled_sock.
Proof.
  intros c' Hr bs Hbs. inversion Hr as [|? c1 ? Hp]; subst; [done|]. by destruct Hp as [? _].
Qed.

Lemma stalled_client_stops_all_witness :
  exists s', tstep true (Producing 0) frozen s' /\ th_sent s' = [] /\ view <$> th_clients s' = view <$> th_clients frozen.
Proof.
  eexists. split; [by apply (t_send true frozen 0 msg_x [])|].
  apply (stalled_client_stops_all true frozen).
  - split; [reflexivity|]. eexists _, _, _, _, _, _. split; [reflexivity|]. split; [reflexivity|apply stalled_sock_stalls].
  - apply rtc_once. exists (Producing 0). by apply (t_send true frozen 0 msg_x []).
Defined.
