(* ===== verification/Ingest.v ===== *)
(** * [crates/hawkd/src/unix_ingest.rs]: the producer socket

    A connection's thread greets its peer, then re-emits every frame it reads
    and turns every bad line into a warning frame.  A thread's behaviour is what
    it writes to its peer, the messages it sends to the spine, and whether it
    ends by a panic.  The theorems: what each line contributes; [strict]; the
    warning frame and its columns; and the panic of [String::truncate] when the
    240th byte falls inside a character. *)

From stdpp Require Import gmap.
From S2P Require Import Prelude RustStr RustNum RustMap TimeLib Severity HawkFrame RustDebug RustPath RustSock Spine.

Definition GREETING : list byte := utf8_encode (lit "# hawkd ingest connected" ++ [LF]).

(** The clipping of [parse_error_frame]; [None] is the panic. *)
Definition clip_raw (raw : rstr) : option rstr :=
  if (240 <? str_len raw)%nat then
    c ← truncate 240 raw;
    Some (c ++ lit "...")
  else Some raw.

Section Ingest.
Context {T : TimeLib} {U : UnicodeTables}.

Definition parse_error_frame (now : OffsetDateTime) (ingest_path raw err : rstr) : option HawkFrame :=
  let kv := bt_insert (lit "ingest_path") ingest_path [] in
  let kv := bt_insert (lit "error") err kv in
  clipped ← clip_raw raw;
  let kv := bt_insert (lit "raw") clipped kv in
  Some (mk_frame (Some now) (lit "RECEIPT_EVENT") (lit "hawkd") (lit "ingest")
          Level.Warn (lit "ingest parse error") kv).

(** How a thread ends. *)
Inductive Ending := Returned | Panicked.

Fixpoint ingest_loop (strict : bool) (path : rstr) (now : nat -> OffsetDateTime) (i : nat)
    (reads : list (result rstr rstr)) : list (list byte) * Ending :=
  match reads with
  | [] => ([], Returned)
  | Err _ :: _ => ([], Returned)
  | Ok line :: rest =>
      match parse_tsv_line line with
      | Ok (Some frame) =>
          let '(ms, e) := ingest_loop strict path now (S i) rest in
          (wire (to_tsv_line frame (now i)) :: ms, e)
      | Ok None => ingest_loop strict path now (S i) rest
      | Err e =>
          match parse_error_frame (now i) path line (debug_parse_error e) with
          | None => ([], Panicked)
          | Some err_frame =>
              let out := wire (to_tsv_line err_frame (now i)) in
              if strict then ([out], Returned)
              else let '(ms, e) := ingest_loop strict path now (S i) rest in (out :: ms, e)
          end
      end
  end.

(** The stream after the greeting, the messages to the spine, the ending. *)
Definition handle_ingest_client {C} `{Sink C} (stream : C) (input : byte_stream)
    (ingest_path : rstr) (strict : bool) (now : nat -> OffsetDateTime)
    : C * list (list byte) * Ending :=
  let stream' := flush (write_all stream GREETING).1 in
  let '(ms, e) := ingest_loop strict ingest_path now 0 (read_lines input) in
  (stream', ms, e).

(** The accept loop: every accepted connection is a producer of its own; an
    error of [accept] is skipped.  A connection is the stream to its peer with
    what the peer sends. *)
Definition accept_publishers {C E : Type} `{Sink C} (ingest_path : rstr) (strict : bool)
    (now : nat -> nat -> OffsetDateTime) (incoming : list (result (C * byte_stream) E)) : list (list (list byte)) :=
  imap (fun k c => (handle_ingest_client c.1 c.2 ingest_path strict (now k)).1.2)
    (omap (fun r => match r with Ok s => Some s | Err _ => None end) incoming).

Definition spawn_unix_ingest {C E : Type} `{Sink C} (pf : Platform) (os : SockOs) (fs : sockets)
    (ingest_path : rstr) (overwrite strict : bool)
    (now : nat -> nat -> OffsetDateTime) (incoming : list (result (C * byte_stream) E))
    : result (sockets * list (list (list byte))) anyhow :=
  match pf with
  | NotUnix => Err [lit "unix ingest requires a unix platform (WSL, Linux, macOS)"]
  | Unix =>
      let? fs := from_err (listen os fs overwrite ingest_path IngestPort) in
      Ok (fs, accept_publishers ingest_path strict now incoming)
  end.
End Ingest.

(** ** Lemmas *)

Lemma str_len_cons c s : str_len (c :: s) = (length (utf8_char c) + str_len s)%nat.
Proof. unfold str_len. by rewrite utf8_encode_cons, length_app. Qed.

Lemma str_len_app s t : str_len (s ++ t) = (str_len s + str_len t)%nat.
Proof. unfold str_len. by rewrite utf8_encode_app, length_app. Qed.

Lemma utf8_char_len c : (1 <= length (utf8_char c) <= 4)%nat.
Proof. unfold utf8_char. repeat case_match; simpl; lia. Qed.

(** [truncate n] succeeds exactly when the text is a first part of [n] bytes and
    a rest, or is shorter. *)
Lemma truncate_spec n s t :
  truncate n s = Some t <->
  (exists u, s = t ++ u /\ str_len t = n) \/ (t = s /\ (str_len s <= n)%nat).
Proof.
  revert n t. induction s as [|c s IH]; intros n t; cbn [truncate].
  { split; [intros [= <-]; right; split; [done|unfold str_len; simpl; lia]|].
    intros [(u & E & _)|[-> _]]; [|done]. symmetry in E. by apply app_nil in E as [-> _]. }
  destruct (Nat.eqb_spec n 0) as [->|Hn].
  { split.
    - intros [= <-]. left. exists (c :: s). by split.
    - intros [(u & E & H)|[-> H]].
      + destruct t as [|x t]; [done|]. rewrite str_len_cons in H. pose proof (utf8_char_len x). lia.
      + rewrite str_len_cons in H. pose proof (utf8_char_len c). lia. }
  destruct (Nat.leb_spec (length (utf8_char c)) n) as [Hle|Hgt].
  - rewrite fmap_Some. split.
    + intros (t' & [(u & -> & H)|[-> H]]%IH & ->).
      * left. exists u. rewrite str_len_cons. split; [done|lia].
      * right. rewrite str_len_cons. split; [done|lia].
    + intros [(u & E & H)|[-> H]].
      * destruct t as [|x t]; [unfold str_len in H; simpl in H; lia|]. injection E as <- ->.
        exists t. split; [|done]. apply IH. left. exists u. rewrite str_len_cons in H. split; [done|lia].
      * exists s. split; [|done]. apply IH. right. rewrite str_len_cons in H. split; [done|lia].
  - split; [done|]. intros [(u & E & H)|[-> H]].
    + destruct t as [|x t]; [unfold str_len in H; simpl in H; lia|]. injection E as <- ->.
      rewrite str_len_cons in H. lia.
    + rewrite str_len_cons in H. lia.
Qed.

(** The text has a character boundary at byte [n]. *)
Definition boundary_at (n : nat) (s : rstr) : Prop := exists t u, s = t ++ u /\ str_len t = n.

Lemma clip_raw_total raw :
  (str_len raw <= 240)%nat \/ boundary_at 240 raw <-> is_Some (clip_raw raw).
Proof.
  unfold clip_raw. destruct (Nat.ltb_spec 240 (str_len raw)) as [H|H].
  - split.
    + intros [?|(t & u & E & Ht)]; [lia|].
      assert (truncate 240 raw = Some t) as -> by (apply truncate_spec; left; eauto). simpl. eauto.
    + intros [c Hc]. right. destruct (truncate 240 raw) as [t|] eqn:E; [|done].
      apply truncate_spec in E as [(u & E & Ht)|[-> ?]]; [|lia]. by exists t, u.
  - split; [eauto|]. intros _. by left.
Qed.

Lemma clip_raw_none raw : clip_raw raw = None -> (240 < str_len raw)%nat /\ ~ boundary_at 240 raw.
Proof.
  intros E. assert (~ ((str_len raw <= 240)%nat \/ boundary_at 240 raw)) as Hn
    by (rewrite clip_raw_total, E; by intros [? ?]).
  split; [|tauto]. apply Nat.nle_gt. tauto.
Qed.

(** ASCII text has a boundary at every byte. *)
Lemma ascii_boundary n s : Forall (fun c => (c < 128)%N) s -> (n <= str_len s)%nat -> boundary_at n s.
Proof.
  intros Hs Hn. exists (take n s), (drop n s). split; [by rewrite take_drop|].
  assert (forall t, Forall (fun c => (c < 128)%N) t -> str_len t = length t) as El.
  { induction 1 as [|c t Hc _ IH]; [done|]. rewrite str_len_cons, utf8_char_ascii, IH by done. done. }
  rewrite El in Hn by done. rewrite El by (by apply Forall_take). rewrite length_take. lia.
Qed.

Definition tabs (s : rstr) : nat := length (filter (fun c => c = TAB) s).

Lemma tabs_app s t : tabs (s ++ t) = (tabs s + tabs t)%nat.
Proof. unfold tabs. by rewrite filter_app, length_app. Qed.

Lemma tabs_lacks s : TAB ∉ s -> tabs s = 0%nat.
Proof.
  intros H. unfold tabs. induction s as [|c s IH]; [done|]. rewrite filter_cons.
  case_decide; [set_solver|]. apply IH. set_solver.
Qed.

Lemma columns_tabs s : length (split TAB s) = S (tabs s).
Proof. apply length_split_on. Qed.

Section ErrorFrame.
Context {T : TimeLib} {TL : TimeLaws T} {U : UnicodeTables}.

Lemma parse_error_frame_some now path raw err clipped :
  clip_raw raw = Some clipped ->
  parse_error_frame now path raw err =
  Some (mk_frame (Some now) (lit "RECEIPT_EVENT") (lit "hawkd") (lit "ingest") Level.Warn
          (lit "ingest parse error")
          [(lit "error", err); (lit "ingest_path", path); (lit "raw", clipped)]).
Proof. intros H. unfold parse_error_frame. rewrite H. reflexivity. Qed.

Lemma tabs_serialize_part k v : TAB ∉ k -> tabs (serialize_kv_part (k, v)) = tabs v.
Proof.
  intros Hk. unfold serialize_kv_part; cbn [fst snd]. case_bool_decide as Hv.
  - subst v. rewrite tabs_lacks by done. done.
  - rewrite !tabs_app, (tabs_lacks k) by done. done.
Qed.
End ErrorFrame.

(** ** Properties *)

Section Properties.
Context {T : TimeLib} {U : UnicodeTables}.

(** A rejected line that cannot be clipped. *)
Definition fatal (line : rstr) : Prop :=
  exists e, parse_tsv_line line = Err e /\ (240 < str_len line)%nat /\ ~ boundary_at 240 line.

(** A line after which the loop reads the next. *)
Definition goes_on (strict : bool) (line : rstr) : Prop :=
  match parse_tsv_line line with Err _ => strict = false /\ is_Some (clip_raw line) | Ok _ => True end.

(** The loop goes through the lines [pre] and reads a fatal one. *)
Definition fatal_at (strict : bool) (reads : list (result rstr rstr)) (pre : list rstr) : Prop :=
  exists line rest, reads = map Ok pre ++ Ok line :: rest /\ Forall (goes_on strict) pre /\ fatal line.

Lemma fatal_panics strict path now i line rest :
  fatal line -> ingest_loop strict path now i (Ok line :: rest) = ([], Panicked).
Proof.
  intros (e & Ep & Hl & Hb). cbn [ingest_loop]. rewrite Ep. unfold parse_error_frame.
  destruct (clip_raw line) as [c|] eqn:Ec; [|done].
  destruct (clip_raw_total line) as [_ []]; [by rewrite Ec|lia|done].
Qed.

Lemma goes_on_prefix strict path now pre rest i :
  Forall (goes_on strict) pre ->
  ingest_loop strict path now i (map Ok pre ++ rest) =
  ((ingest_loop strict path now i (map Ok pre)).1 ++ (ingest_loop strict path now (i + length pre) rest).1,
   (ingest_loop strict path now (i + length pre) rest).2).
Proof.
  intros H. revert i. induction H as [|line pre Hl _ IH]; intros i.
  - cbn [map app length]. rewrite Nat.add_0_r. by destruct (ingest_loop _ _ _ _ _).
  - cbn [map app length ingest_loop]. rewrite <- Nat.add_succ_comm, (IH (S i)). unfold goes_on in Hl.
    destruct (parse_tsv_line line) as [[f|]|e]; [|done|].
    + by destruct (ingest_loop _ _ _ _ (map Ok pre)).
    + destruct Hl as [-> [c Hc]]. rewrite (parse_error_frame_some _ _ _ _ _ Hc).
      by destruct (ingest_loop _ _ _ _ (map Ok pre)).
Qed.

Lemma panicked_fatal_at strict path now i reads :
  (ingest_loop strict path now i reads).2 = Panicked -> exists pre, fatal_at strict reads pre.
Proof.
  revert i. induction reads as [|[line|e] reads IH]; intros i; cbn [ingest_loop]; [done| |done].
  assert (goes_on strict line -> (ingest_loop strict path now (S i) reads).2 = Panicked ->
    exists pre, fatal_at strict (Ok line :: reads) pre) as Hstep.
  { intros Hl Hp. destruct (IH (S i) Hp) as (pre & l & rest & -> & Hpre & Hf).
    exists (line :: pre), l, rest. split; [done|]. split; [by constructor|done]. }
  unfold goes_on in Hstep. destruct (parse_tsv_line line) as [[f|]|e] eqn:Ep.
  - destruct (ingest_loop _ _ _ _ reads) as [ms en]. by apply Hstep.
  - by apply Hstep.
  - destruct (clip_raw line) as [c|] eqn:Ec.
    + rewrite (parse_error_frame_some _ _ _ _ _ Ec). destruct strict; [done|].
      destruct (ingest_loop _ _ _ _ reads) as [ms en]. apply Hstep. eauto.
    + intros _. exists [], line, reads. split; [done|]. split; [constructor|].
      apply clip_raw_none in Ec as [? ?]. by exists e.
Qed.

(** C25: exactly one thing makes a publisher's thread panic: a rejected line
    longer than 240 bytes with no character boundary at byte 240, reached before a
    read error and, under [strict], before any other rejected line.  The panic
    sends no warning for that line and loses every line after it; what was sent
    before stays sent. *)
Theorem ingest_panics_iff strict path now i reads :
  ((ingest_loop strict path now i reads).2 = Panicked <-> exists pre, fatal_at strict reads pre)
  /\ (forall pre, fatal_at strict reads pre ->
        ingest_loop strict path now i reads = ((ingest_loop strict path now i (map Ok pre)).1, Panicked)).
Proof.
  assert (forall pre, fatal_at strict reads pre ->
    ingest_loop strict path now i reads = ((ingest_loop strict path now i (map Ok pre)).1, Panicked)) as H.
  { intros pre (line & rest & -> & Hpre & Hf).
    by rewrite goes_on_prefix, fatal_panics, app_nil_r. }
  split; [|done]. split; [apply panicked_fatal_at|]. intros [pre Hp]. by rewrite (H _ Hp).
Qed.

(** A line of ASCII characters is never fatal. *)
Lemma ascii_never_fatal line : Forall (fun c => (c < 128)%N) line -> ~ fatal line.
Proof. intros H (e & _ & Hl & Hb). apply Hb, ascii_boundary; [done|lia]. Qed.

(** C24: on lines without parse errors the producer socket and the standard input
    relay the same messages. *)
Theorem ingest_relays_like_stdin strict path now i reads :
  Forall (fun r => forall line e, r = Ok line -> parse_tsv_line line ≠ Err e) reads ->
  ingest_loop strict path now i reads = (stdin_source_loop strict now i reads, Returned).
Proof.
  intros H. revert i. induction H as [|[line|?] rest Hr _ IH]; intros i; cbn [ingest_loop stdin_source_loop]; try done.
  destruct (parse_tsv_line line) as [[f|]|e] eqn:Hp.
  - by rewrite IH.
  - apply IH.
  - by destruct (Hr line e eq_refl).
Qed.

Context {TL : TimeLaws T}.

(** The warning emitted for a bad line has seven columns plus one for every
    tab of the socket path and of the clipped raw line, which is copied into the
    bag unescaped: a rejected line with tabs yields a line that is not a
    seven-column frame. *)
Theorem error_frame_columns now s path raw e clipped f :
  clip_raw raw = Some clipped -> odt_format now = Some s ->
  parse_error_frame now path raw (debug_parse_error e) = Some f ->
  length (split TAB (to_tsv_line f now)) = (7 + tabs path + tabs clipped)%nat.
Proof.
  intros Hc Hs Hf. rewrite (parse_error_frame_some _ _ _ _ _ Hc) in Hf.
  apply (inj Some) in Hf. subst f. rewrite columns_tabs.
  rewrite (to_tsv_line_eq _ now s) by done.
  cbn [f_kind f_scope f_id f_level f_msg f_kv]. unfold join. cbn [join_with].
  destruct (format_plain _ _ Hs) as (_ & Hst & _).
  rewrite !tabs_app, (tabs_lacks s) by done.
  unfold serialize_kv_bag. rewrite bool_decide_eq_false_2 by done.
  unfold join. cbn [map join_with]. rewrite !tabs_app, !tabs_serialize_part by (vm_compute; set_solver).
  rewrite (tabs_lacks (debug_parse_error e)) by (by apply no_control_lacks; [apply debug_parse_error_control|]).
  vm_compute (tabs (lit _)). vm_compute (tabs [_]).
  vm_compute (tabs (Level.as_str _)). lia.
Qed.
End Properties.

(** ** Witnesses *)

#[local] Instance ascii_tables : UnicodeTables := fun _ => false.

(** 239 letters and a character of two bytes: 241 bytes, byte 240 inside. *)
Definition long_line : rstr := replicate 239 97%N ++ [233%N].

Lemma long_line_fatal : fatal (T := UtcSeconds.utc_lib) long_line.
Proof.
  eexists. split; [reflexivity|]. apply clip_raw_none. reflexivity.
Qed.

(** The publisher's good line after the long one is lost, the one before it was sent. *)
Lemma ingest_panics_iff_witness :
  let loop reads := ingest_loop (T := UtcSeconds.utc_lib) false (lit "/tmp/in.sock") (fun _ => UtcSeconds.t0) 0 reads in
  loop [Ok sample_line; Ok long_line; Ok sample_line] = ((loop [Ok sample_line]).1, Panicked)
  /\ length (loop [Ok sample_line]).1 = 1%nat.
Proof.
  split; [|reflexivity].
  refine (proj2 (ingest_panics_iff (T := UtcSeconds.utc_lib) false (lit "/tmp/in.sock") (fun _ => UtcSeconds.t0) 0
           [Ok sample_line; Ok long_line; Ok sample_line]) [sample_line] _).
  exists long_line, [Ok sample_line]. split; [reflexivity|]. split; [|apply long_line_fatal].
  constructor; [|constructor]. unfold goes_on. by rewrite parses_minimal_line.
Defined.

Lemma ingest_relays_like_stdin_witness :
  ingest_loop (T := UtcSeconds.utc_lib) true (lit "/tmp/in.sock") (fun _ => UtcSeconds.t0) 0 [Ok sample_line]
  = (stdin_source_loop (T := UtcSeconds.utc_lib) true (fun _ => UtcSeconds.t0) 0 [Ok sample_line], Returned).
Proof.
  apply (ingest_relays_like_stdin (T := UtcSeconds.utc_lib) true (lit "/tmp/in.sock") (fun _ => UtcSeconds.t0) 0
           [Ok sample_line]).
  apply Forall_forall. intros r Hr%list_elem_of_singleton line e -> Hp.
  injection Hr as ->. by rewrite parses_minimal_line in Hp.
Defined.

(** A line of eight columns with a bad timestamp: its warning has fourteen. *)
Definition bad_line : rstr := join [TAB] (replicate 8 (lit "x")).

Lemma error_frame_columns_witness :
  exists f,
    parse_error_frame (T := UtcSeconds.utc_lib) UtcSeconds.t0 (lit "/tmp/in.sock") bad_line
      (debug_parse_error (BadTimestamp (lit "x"))) = Some f
    /\ length (split TAB (to_tsv_line f UtcSeconds.t0)) = 14.
Proof.
  eexists. split; [reflexivity|].
  refine (error_frame_columns (T := UtcSeconds.utc_lib) UtcSeconds.t0 (lit "2026-02-16T12:34:56Z")
            (lit "/tmp/in.sock") bad_line (BadTimestamp (lit "x")) bad_line _ _ _ _); reflexivity.
Defined.
