(* ===== verification/GrpcHealth.v ===== *)
(** * [crates/hawkd/src/grpc_health.rs]: the gRPC health watcher

    Watch specifications, endpoint and TLS configuration, the frames emitted for
    statuses and errors, and the reconnecting watch loop.  The transport and the
    generated health client belong to [tonic] and [tonic-health]: what they
    answer in one round of the loop is a record of outcomes, an argument of the
    model.  The theorems: the specification parser; where a connection goes, the
    host name and which files TLS needs; the emitted frames reach the mirror with level and time-to-live;
    the back-off stays within its bounds, doubles on failed connections and is
    reset by a successful one. *)

From S2P Require Import Prelude RustStr RustNum RustMap TimeLib Severity HawkFrame RustDebug Backoff Spine.

(** ** Data *)

Record WatchSpec := mk_watch_spec { ws_endpoint : rstr; ws_service : rstr; ws_id : rstr }.

Inductive GrpcTlsMode := Off | Tls | Mtls.

Record GrpcTlsFiles := mk_tls_files {
  tls_mode : GrpcTlsMode;
  tls_ca_pem : option rstr;
  tls_client_cert_pem : option rstr;
  tls_client_key_pem : option rstr;
  tls_domain_name : option rstr
}.

Record GrpcWatchConfig := mk_grpc_cfg { g_ttl_stale_s : Z; g_ttl_dead_s : Z }.

(** ** Specifications *)

(** The id of a specification that names none. *)
Definition generated_id (endpoint service : rstr) : rstr :=
  let base := replace (lit "https://") [] (replace (lit "http://") [] endpoint) in
  let base := replace [COLON] [UNDERSCORE] (replace [SLASH] [UNDERSCORE] base) in
  if is_empty service then lit "grpc." ++ base
  else
    let svc := replace [COLON] [UNDERSCORE] (replace [SLASH] [UNDERSCORE] service) in
    lit "grpc." ++ base ++ lit "." ++ svc.

Definition parse_watch_spec (s : rstr) : result WatchSpec rstr :=
  let parts := split COMMA s in
  let endpoint := default [] (trim <$> parts !! 0%nat) in
  if is_empty endpoint then Err (lit "watch spec missing endpoint")
  else
    let service := default [] (trim <$> parts !! 1%nat) in
    let id :=
      match trim <$> parts !! 2%nat with
      | Some v => if is_empty v then generated_id endpoint service else v
      | None => generated_id endpoint service
      end in
    Ok (mk_watch_spec endpoint service id).

Definition normalize_endpoint_uri (raw : rstr) (mode : GrpcTlsMode) : rstr :=
  let s := trim raw in
  if starts_with (lit "http://") s || starts_with (lit "https://") s then s
  else match mode with
       | Off => lit "http://" ++ s
       | Tls | Mtls => lit "https://" ++ s
       end.

Definition derive_host_from_uri (uri : rstr) : option rstr :=
  s ← split_str (lit "://") uri !! 1%nat;
  let host_port := default s (split SLASH s !! 0%nat) in
  let host := default host_port (split COLON host_port !! 0%nat) in
  if is_empty host then None else Some host.

(** ** TLS *)

(** What the client is configured with. *)
Record ClientTlsConfig := mk_client_tls {
  ct_ca : list byte;
  ct_domain : rstr;
  ct_identity : option (list byte * list byte)
}.

Section Connect.
Context {U : UnicodeTables}.
(** [std::fs::read] at this moment. *)
Context (read : rstr -> result (list byte) rstr).

Definition build_tls_config (uri : rstr) (tls : GrpcTlsFiles) : result ClientTlsConfig rstr :=
  let? ca_path := ok_or (tls_ca_pem tls) (lit "tls requires --grpc-ca <path>") in
  let? ca_pem := map_err (fun e => lit "read ca pem " ++ debug_str ca_path ++ lit ": " ++ e) (read ca_path) in
  let? domain :=
    match tls_domain_name tls with
    | Some d => Ok d
    | None => ok_or (derive_host_from_uri uri) (lit "unable to derive domain name, pass --grpc-domain")
    end in
  let cfg := mk_client_tls ca_pem domain None in
  match tls_mode tls with
  | Mtls =>
      let? cert_path := ok_or (tls_client_cert_pem tls) (lit "mtls requires --grpc-cert <path>") in
      let? key_path := ok_or (tls_client_key_pem tls) (lit "mtls requires --grpc-key <path>") in
      let? cert := map_err (fun e => lit "read client cert " ++ debug_str cert_path ++ lit ": " ++ e) (read cert_path) in
      let? key := map_err (fun e => lit "read client key " ++ debug_str key_path ++ lit ": " ++ e) (read key_path) in
      Ok (mk_client_tls ca_pem domain (Some (cert, key)))
  | _ => Ok cfg
  end.

(** What the transport answers, step by step. *)
Record Transport := mk_transport {
  tp_from_shared : rstr -> result unit rstr;
  tp_tls_config : ClientTlsConfig -> result unit rstr;
  tp_connect : result unit rstr
}.

(** The channel is determined by its address and its TLS configuration. *)
Definition connect_channel (tp : Transport) (spec : WatchSpec) (tls : GrpcTlsFiles)
    : result (rstr * option ClientTlsConfig) rstr :=
  let uri := normalize_endpoint_uri (ws_endpoint spec) (tls_mode tls) in
  let? _ := map_err (fun e => lit "bad endpoint uri " ++ uri ++ lit ": " ++ e) (tp_from_shared tp uri) in
  let? tls_cfg :=
    match tls_mode tls with
    | Off => Ok None
    | Tls | Mtls =>
        let? cfg := build_tls_config uri tls in
        let? _ := map_err (fun e => lit "tls_config: " ++ e) (tp_tls_config tp cfg) in
        Ok (Some cfg)
    end in
  let? _ := map_err (fun e => lit "connect: " ++ e) (tp_connect tp) in
  Ok (uri, tls_cfg).
End Connect.

(** ** Frames *)

Inductive ServingStatus := Unknown | Serving | NotServing | ServiceUnknown.

(** The generated enum of [tonic-health]: conversion from the wire number and
    its [Debug] text. *)
Class HealthPb := {
  status_try_from : Z -> option ServingStatus;
  status_debug : ServingStatus -> rstr
}.

Section Frames.
Context {T : TimeLib} {P : HealthPb}.

Definition status_level (st : ServingStatus) : Level.t * rstr :=
  match st with
  | Serving => (Level.Ok, lit "SERVING")
  | NotServing => (Level.Fail, lit "NOT_SERVING")
  | ServiceUnknown => (Level.Warn, lit "SERVICE_UNKNOWN")
  | Unknown => (Level.Unknown, lit "UNKNOWN")
  end.

Definition status_frame (spec : WatchSpec) (cfg : GrpcWatchConfig) (st : ServingStatus)
    (now : OffsetDateTime) : HawkFrame :=
  let '(level, msg) := status_level st in
  let kv := bt_insert (lit "endpoint") (ws_endpoint spec) [] in
  let kv := bt_insert (lit "service") (ws_service spec) kv in
  let kv := bt_insert (lit "grpc_status") (status_debug st) kv in
  let kv := bt_insert (lit "ttl_stale_s") (int_to_string (g_ttl_stale_s cfg)) kv in
  let kv := bt_insert (lit "ttl_dead_s") (int_to_string (g_ttl_dead_s cfg)) kv in
  mk_frame (Some now) (lit "HEALTH") (lit "grpc") (ws_id spec) level msg kv.

(** The message sent to the spine; the clock is read twice. *)
Definition emit_status_frame (spec : WatchSpec) (cfg : GrpcWatchConfig) (st : ServingStatus)
    (now now' : OffsetDateTime) : list byte :=
  wire (to_tsv_line (status_frame spec cfg st now) now').

Definition error_frame (spec : WatchSpec) (cfg : GrpcWatchConfig) (msg err : rstr)
    (now : OffsetDateTime) : HawkFrame :=
  let kv := bt_insert (lit "endpoint") (ws_endpoint spec) [] in
  let kv := bt_insert (lit "service") (ws_service spec) kv in
  let kv := bt_insert (lit "error") err kv in
  let kv := bt_insert (lit "ttl_stale_s") (int_to_string (g_ttl_stale_s cfg)) kv in
  let kv := bt_insert (lit "ttl_dead_s") (int_to_string (g_ttl_dead_s cfg)) kv in
  mk_frame (Some now) (lit "HEALTH") (lit "grpc") (ws_id spec) Level.Fail msg kv.

Definition emit_error_frame (spec : WatchSpec) (cfg : GrpcWatchConfig) (msg err : rstr)
    (now now' : OffsetDateTime) : list byte :=
  wire (to_tsv_line (error_frame spec cfg msg err now) now').
End Frames.

(** ** The watch loop *)

Section Watch.
Context {T : TimeLib} {P : HealthPb} {U : UnicodeTables}.

(** What the outside answers in one round: files and transport, the [watch]
    call, the items of the stream, the clock. *)
Record Round := mk_round {
  r_read : rstr -> result (list byte) rstr;
  r_transport : Transport;
  r_watch : result unit rstr;
  r_items : list (result Z rstr);
  r_now : nat -> OffsetDateTime
}.

(** [while let Some(item) = stream.next().await]; an error item ends it. *)
Fixpoint stream_loop (spec : WatchSpec) (cfg : GrpcWatchConfig) (now : nat -> OffsetDateTime)
    (i : nat) (items : list (result Z rstr)) : list (list byte) :=
  match items with
  | [] => []
  | Ok status :: rest =>
      let st := default Unknown (status_try_from status) in
      emit_status_frame spec cfg st (now i) (now (S i)) :: stream_loop spec cfg now (S (S i)) rest
  | Err e :: _ => [emit_error_frame spec cfg (lit "stream error") e (now i) (now (S i))]
  end.

(** One turn of the loop of [watch_one]: the messages sent, the pause at its
    end in milliseconds, the next back-off. *)
Definition watch_round (spec : WatchSpec) (cfg : GrpcWatchConfig) (tls : GrpcTlsFiles)
    (backoff_ms : Z) (r : Round) : list (list byte) * Z * Z :=
  match connect_channel (r_read r) (r_transport r) spec tls with
  | Err err =>
      ([emit_error_frame spec cfg (lit "connect failed") err (r_now r 0) (r_now r 1)],
       backoff_ms, next_backoff backoff_ms)
  | Ok _ =>
      let backoff_ms := initial_backoff_ms in
      match r_watch r with
      | Err status =>
          ([emit_error_frame spec cfg (lit "watch failed") status (r_now r 0) (r_now r 1)],
           backoff_ms, next_backoff backoff_ms)
      | Ok _ =>
          (stream_loop spec cfg (r_now r) 0 (r_items r), backoff_ms, next_backoff backoff_ms)
      end
  end.

(** The first rounds of [watch_one]: per round, its messages and its pause. *)
Fixpoint watch_one (spec : WatchSpec) (cfg : GrpcWatchConfig) (tls : GrpcTlsFiles)
    (backoff_ms : Z) (rounds : list Round) : list (list (list byte) * Z) :=
  match rounds with
  | [] => []
  | r :: rest =>
      let '(ms, pause, b) := watch_round spec cfg tls backoff_ms r in
      (ms, pause) :: watch_one spec cfg tls b rest
  end.

(** One task per specification, each from the initial back-off; no runtime
    without specifications. *)
Definition spawn_watchers (specs : list WatchSpec) (cfg : GrpcWatchConfig) (tls : GrpcTlsFiles)
    (rounds : nat -> list Round) : list (list (list byte)) :=
  if bool_decide (specs = []) then []
  else imap (fun k spec => concat (map fst (watch_one spec cfg tls initial_backoff_ms (rounds k)))) specs.
End Watch.

(** ** Lemmas *)

Lemma replace_char a b s : replace [a] [b] s = map (fun c => if bool_decide (c = a) then b else c) s.
Proof.
  unfold replace. induction s as [|c s IH]; [done|]. cbn [replace_go list_prefix map].
  rewrite andb_true_r. case_bool_decide as H1; case_bool_decide as H2; try congruence; cbn [app length Nat.sub];
    by rewrite IH.
Qed.

Lemma replace_char_lacks a b s : a ≠ b -> a ∉ replace [a] [b] s.
Proof.
  intros H. rewrite replace_char, list_elem_of_In, in_map_iff. intros (c & E & _).
  case_bool_decide; congruence.
Qed.

Lemma replace_char_keeps a b c s : c ≠ b -> c ∉ s -> c ∉ replace [a] [b] s.
Proof.
  intros H Hs. rewrite replace_char, list_elem_of_In, in_map_iff. intros (x & E & Hx%list_elem_of_In).
  case_bool_decide; [congruence|]. by subst.
Qed.

Lemma underscored_plain s :
  SLASH ∉ replace [COLON] [UNDERSCORE] (replace [SLASH] [UNDERSCORE] s)
  /\ COLON ∉ replace [COLON] [UNDERSCORE] (replace [SLASH] [UNDERSCORE] s).
Proof.
  split; [|by apply replace_char_lacks].
  apply replace_char_keeps; [done|]. by apply replace_char_lacks.
Qed.

Lemma generated_id_plain e sv :
  starts_with (lit "grpc.") (generated_id e sv) = true
  /\ SLASH ∉ generated_id e sv /\ COLON ∉ generated_id e sv.
Proof.
  unfold generated_id. cbn zeta. split; [apply list_prefix_iff; case_match; by eexists|].
  pose proof (underscored_plain (replace (lit "https://") [] (replace (lit "http://") [] e))) as [? ?].
  pose proof (underscored_plain sv) as [? ?].
  assert (SLASH ∉ lit "grpc." /\ COLON ∉ lit "grpc." /\ SLASH ∉ lit "." /\ COLON ∉ lit ".")
    by (repeat split; vm_compute; set_solver).
  destruct (is_empty sv); rewrite !elem_of_app; tauto.
Qed.

Lemma split_str_plain s : SLASH ∉ s -> split_str (lit "://") s = [s].
Proof.
  unfold split_str. induction s as [|c s IH]; [done|]. intros [H1 H2]%not_elem_of_cons.
  cbn [split_str_go].
  assert (list_prefix (lit "://") (c :: s) = false) as ->.
  { apply not_true_iff_false. rewrite list_prefix_iff. intros [t E].
    change (lit "://") with [COLON; SLASH; SLASH] in E. cbn [app] in E. simplify_eq. set_solver. }
  by rewrite IH.
Qed.

(** The scheme is what stands before [://]. *)
Lemma split_str_scheme (tls : bool) s :
  SLASH ∉ s -> split_str (lit "://") ((if tls then lit "https://" else lit "http://") ++ s)
  = [if tls then lit "https" else lit "http"; s].
Proof.
  intros Hs. pose proof (split_str_plain s Hs) as E. unfold split_str in *.
  change (lit "://") with [58; 47; 47]%N in *.
  destruct tls; [change (lit "https://") with [104; 116; 116; 112; 115; 58; 47; 47]%N
                |change (lit "http://") with [104; 116; 116; 112; 58; 47; 47]%N]; cbn; by rewrite E.
Qed.

Section Lemmas.
Context {T : TimeLib} {P : HealthPb} {U : UnicodeTables}.

Lemma watch_round_pause spec cfg tls b r ms pause b' :
  watch_round spec cfg tls b r = (ms, pause, b') ->
  pause = (if is_ok (connect_channel (r_read r) (r_transport r) spec tls) then initial_backoff_ms else b)
  /\ b' = next_backoff pause.
Proof.
  unfold watch_round. destruct (connect_channel _ _ _ _) as [ch|err]; simpl.
  - destruct (r_watch r); intros; by simplify_eq.
  - intros; by simplify_eq.
Qed.

(** The values in the frames of the watcher, as sorted bags. *)
Lemma status_frame_kv spec cfg st now :
  f_kv (status_frame spec cfg st now) =
  [(lit "endpoint", ws_endpoint spec); (lit "grpc_status", status_debug st); (lit "service", ws_service spec);
   (lit "ttl_dead_s", int_to_string (g_ttl_dead_s cfg)); (lit "ttl_stale_s", int_to_string (g_ttl_stale_s cfg))].
Proof. unfold status_frame. destruct (status_level st). reflexivity. Qed.

Lemma error_frame_kv spec cfg msg err now :
  f_kv (error_frame spec cfg msg err now) =
  [(lit "endpoint", ws_endpoint spec); (lit "error", err); (lit "service", ws_service spec);
   (lit "ttl_dead_s", int_to_string (g_ttl_dead_s cfg)); (lit "ttl_stale_s", int_to_string (g_ttl_stale_s cfg))].
Proof. reflexivity. Qed.

(** A specification whose texts fit in a frame. *)
Definition clean_spec (spec : WatchSpec) : Prop :=
  clean_value (ws_endpoint spec) = true /\ clean_value (ws_service spec) = true
  /\ clean_field (ws_id spec) = true.

Lemma status_frame_clean spec cfg st now :
  clean_spec spec -> clean_value (status_debug st) = true -> clean_frame (status_frame spec cfg st now).
Proof.
  intros (He & Hs & Hi) Hst. unfold clean_frame. rewrite status_frame_kv.
  repeat split; try (by destruct st); try (by repeat constructor).
  repeat (apply Forall_cons; split); [..|constructor];
    apply clean_entry_named; done || apply int_to_string_clean.
Qed.

Lemma error_frame_clean spec cfg msg err now :
  clean_spec spec -> clean_field msg = true -> clean_value err = true ->
  clean_frame (error_frame spec cfg msg err now).
Proof.
  intros (He & Hs & Hi) Hm Herr. unfold clean_frame. rewrite error_frame_kv.
  repeat split; try done; try (by repeat constructor).
  repeat (apply Forall_cons; split); [..|constructor];
    apply clean_entry_named; done || apply int_to_string_clean.
Qed.
End Lemmas.

(** ** Properties *)

(** The watch specification parser: it fails exactly on a blank endpoint;
    otherwise endpoint and service are the first two comma-separated parts,
    trimmed, and the id is the third part, or, when that is blank, a generated
    name that starts with [grpc.] and has no slash and no colon. *)
Theorem parse_watch_spec_spec s :
  let parts := split COMMA s in
  let part k := trim (nth k parts []) in
  (part 0%nat = [] <-> parse_watch_spec s = Err (lit "watch spec missing endpoint"))
  /\ forall w, parse_watch_spec s = Ok w ->
       ws_endpoint w = part 0%nat /\ part 0%nat ≠ [] /\ ws_service w = part 1%nat
       /\ (if is_empty (part 2%nat)
           then starts_with (lit "grpc.") (ws_id w) = true /\ SLASH ∉ ws_id w /\ COLON ∉ ws_id w
           else ws_id w = part 2%nat).
Proof.
  cbn zeta. unfold parse_watch_spec. cbn zeta.
  rewrite !trimmed_part. set (e := trim (nth 0 (split COMMA s) [])).
  set (sv := trim (nth 1 (split COMMA s) [])).
  pose proof (trimmed_part (split COMMA s) 2) as H2. set (third := trim (nth 2 (split COMMA s) [])) in *.
  assert (is_empty e = true <-> e = []) as He by (by destruct e).
  destruct (is_empty e) eqn:Ee; [split; [split; [done|by intros _; apply He]|done]|].
  assert (e ≠ []) as Hne by (intros E; apply He in E; done).
  split; [done|]. intros w Hw. apply (inj Ok) in Hw. subst w. cbn [ws_endpoint ws_service ws_id].
  split; [done|]. split; [done|]. split; [done|].
  destruct (trim <$> split COMMA s !! 2%nat) as [v|]; cbn in H2; rewrite <-H2;
    [destruct (is_empty v)|]; cbn [is_empty]; done || apply generated_id_plain.
Qed.

(** The address of an endpoint, by its scheme. *)
Lemma normalize_spec raw mode :
  let e := trim raw in
  ((exists s, e = lit "http://" ++ s \/ e = lit "https://" ++ s) /\ normalize_endpoint_uri raw mode = e)
  \/ ((forall s, e ≠ lit "http://" ++ s /\ e ≠ lit "https://" ++ s)
      /\ normalize_endpoint_uri raw mode = match mode with Off => lit "http://" | Tls | Mtls => lit "https://" end ++ e).
Proof.
  cbn zeta. unfold normalize_endpoint_uri, starts_with. cbn zeta. set (e := trim raw).
  pose proof (list_prefix_iff (lit "http://") e) as H1. pose proof (list_prefix_iff (lit "https://") e) as H2.
  destruct (list_prefix (lit "http://") e) eqn:E1.
  { left. split; [|done]. destruct (proj1 H1 eq_refl) as [s Es]. exists s. by left. }
  destruct (list_prefix (lit "https://") e) eqn:E2.
  { left. split; [|done]. destruct (proj1 H2 eq_refl) as [s Es]. exists s. by right. }
  right. split; [|by destruct mode]. intros s. split; intros Es.
  - by discriminate (proj2 H1 (ex_intro _ s Es)).
  - by discriminate (proj2 H2 (ex_intro _ s Es)).
Qed.

(** The host of an address: what stands between its scheme and the first colon or
    slash after it. *)
Definition host_of (uri host : rstr) : Prop :=
  host ≠ [] /\ COLON ∉ host /\ SLASH ∉ host
  /\ exists scheme more, (scheme = lit "http://" \/ scheme = lit "https://") /\ uri = scheme ++ host ++ more
       /\ (more = [] \/ head more = Some COLON \/ head more = Some SLASH).

Lemma split_str_first pat s :
  exists w ws u, split_str pat s = w :: ws /\ s = w ++ u /\ (u = [] \/ exists v, u = pat ++ v).
Proof.
  unfold split_str. induction s as [|c s (w & ws & u & E & -> & Hu)]; [exists [], [], []; auto|]. cbn [split_str_go].
  destruct (list_prefix pat (c :: w ++ u)) eqn:Ep.
  - apply list_prefix_iff in Ep. exists [], (split_str_go pat (length pat - 1) (w ++ u)), (c :: w ++ u). auto.
  - rewrite E. exists (c :: w), ws, u. auto.
Qed.

Lemma derive_host_spec scheme s host :
  scheme = lit "http://" \/ scheme = lit "https://" ->
  derive_host_from_uri (scheme ++ s) = Some host -> host_of (scheme ++ s) host.
Proof.
  intros Hs. unfold derive_host_from_uri. destruct (split_str_first (lit "://") s) as (w & ws & u & E & Eu & Hu).
  assert (split_str (lit "://") (scheme ++ s) !! 1%nat = Some w) as ->.
  { unfold split_str in *. change (lit "://") with [58; 47; 47]%N in *.
    destruct Hs as [-> | ->]; [change (lit "http://") with [104; 116; 116; 112; 58; 47; 47]%N
                             |change (lit "https://") with [104; 116; 116; 112; 115; 58; 47; 47]%N]; cbn; by rewrite E. }
  cbn [mbind option_bind]. unfold split. subst s.
  destruct (split_on_first SLASH w) as (x & xs & v & -> & Hx & -> & Hv). cbn [lookup list_lookup from_option id].
  destruct (split_on_first COLON x) as (y & ys & z & -> & Hy & -> & Hz). cbn [lookup list_lookup from_option id].
  destruct y as [|y0 y]; [done|]. cbn [is_empty]. intros [= <-]. split; [done|]. split; [done|]. split; [set_solver|].
  exists scheme, (z ++ v ++ u). split; [done|]. split; [by rewrite <-!app_assoc|].
  destruct Hz as [-> | Hz]; [|right; left; by destruct z]. destruct Hv as [-> | Hv]; [|right; right; by destruct v].
  destruct Hu as [-> | [t ->]]; [by left|right; by left].
Qed.

Lemma derived_host raw mode host :
  derive_host_from_uri (normalize_endpoint_uri raw mode) = Some host -> host_of (normalize_endpoint_uri raw mode) host.
Proof.
  destruct (normalize_spec raw mode) as [[[s [Es|Es]] ->]|[_ ->]]; [rewrite Es; apply derive_host_spec; auto..|].
  destruct mode; apply derive_host_spec; auto.
Qed.

(** For an endpoint [host:port] without a scheme, the name verified by TLS is
    the host, in every mode. *)
Theorem host_of_endpoint host port mode :
  host ≠ [] -> edge_free is_whitespace (host ++ [COLON] ++ port) = true ->
  COLON ∉ host -> SLASH ∉ host -> SLASH ∉ port ->
  derive_host_from_uri (normalize_endpoint_uri (host ++ [COLON] ++ port) mode) = Some host.
Proof.
  intros Hne Hedge Hc Hs Hp. set (e := host ++ [COLON] ++ port) in *.
  assert (SLASH ∉ e) as He by (unfold e; set_solver).
  assert (normalize_endpoint_uri e mode =
          (if match mode with Off => false | _ => true end then lit "https://" else lit "http://") ++ e) as ->.
  { unfold normalize_endpoint_uri. rewrite trim_id by done.
    assert (forall p, SLASH ∈ p -> starts_with p e = false) as Hno.
    { intros p Hin. apply not_true_iff_false. unfold starts_with. rewrite list_prefix_iff.
      intros [t E]. apply He. rewrite E. set_solver. }
    rewrite !Hno by (vm_compute; set_solver). by destruct mode. }
  unfold derive_host_from_uri. rewrite split_str_scheme by done. cbn [lookup list_lookup mbind option_bind].
  unfold split. rewrite (split_on_no_delim SLASH e) by done. cbn.
  unfold e. cbn [app]. rewrite split_on_app by done. cbn. by destruct host.
Qed.

(** For an endpoint that is an IPv6 literal the derived name is only its
    opening bracket. *)
Theorem ipv6_host_truncated :
  derive_host_from_uri (normalize_endpoint_uri (lit "[::1]:50051") Tls) = Some (lit "[").
Proof. reflexivity. Qed.

Section Properties.
Context {T : TimeLib} {P : HealthPb} {U : UnicodeTables}.

(** C33: a connection follows its TLS mode: it goes to the endpoint without the
    blanks around it, as it is if it begins with [http://] or [https://], and with
    [http://] before it without TLS, [https://] before it with TLS otherwise; so an
    endpoint that says [http://] keeps that scheme with TLS too.  Without TLS the
    connection carries no TLS configuration; with it, the configuration holds the
    bytes of the given CA file, the given domain or else the host in the address
    (what stands between the scheme and the first colon or slash), and a client
    identity exactly in mutual mode, read from the given certificate and key
    files. *)
Theorem connect_follows_tls_mode read tp spec tls uri c :
  connect_channel read tp spec tls = Ok (uri, c) ->
  let e := trim (ws_endpoint spec) in
  (((exists s, e = lit "http://" ++ s \/ e = lit "https://" ++ s) /\ uri = e)
   \/ ((forall s, e ≠ lit "http://" ++ s /\ e ≠ lit "https://" ++ s)
       /\ uri = match tls_mode tls with Off => lit "http://" | Tls | Mtls => lit "https://" end ++ e))
  /\ match tls_mode tls, c with
     | Off, None => True
     | Off, Some _ => False
     | _, None => False
     | m, Some cfg =>
         (exists ca, tls_ca_pem tls = Some ca /\ read ca = Ok (ct_ca cfg))
         /\ match tls_domain_name tls with Some d => ct_domain cfg = d | None => host_of uri (ct_domain cfg) end
         /\ match m, ct_identity cfg with
            | Mtls, Some (cert, key) =>
                exists cp kp, tls_client_cert_pem tls = Some cp /\ tls_client_key_pem tls = Some kp
                  /\ read cp = Ok cert /\ read kp = Ok key
            | Mtls, None => False
            | _, Some _ => False
            | _, None => True
            end
     end.
Proof.
  intros Hc. cbn zeta. assert (uri = normalize_endpoint_uri (ws_endpoint spec) (tls_mode tls)) as Eu
    by (unfold connect_channel in Hc; cbn zeta in Hc; repeat (case_match; simplify_eq/=; try done)).
  split; [rewrite Eu; apply normalize_spec|]. pose proof (derived_host (ws_endpoint spec) (tls_mode tls)) as Hh. rewrite <-Eu in Hh.
  revert Hc. unfold connect_channel, build_tls_config, map_err, ok_or. cbn zeta. rewrite <-Eu.
  intros Hc. repeat (case_match; simplify_eq/=; try done); eauto 12.
Qed.

(** C32: every pause of the watcher is between 250 and 15000 milliseconds; a round
    whose connection succeeds always pauses 250, whatever failed before; and
    while connections keep failing the pauses are 250, 500, 1000, ... doubled up
    to 15000. *)
Theorem watch_backoff spec cfg tls rounds :
  let pauses := map snd (watch_one spec cfg tls initial_backoff_ms rounds) in
  let connects r := is_ok (connect_channel (r_read r) (r_transport r) spec tls) in
  Forall (fun p => (250 <= p <= 15000)%Z) pauses
  /\ (forall k r, rounds !! k = Some r -> connects r = true -> pauses !! k = Some initial_backoff_ms)
  /\ (Forall (fun r => connects r = false) rounds ->
      forall k, (k < length rounds)%nat -> pauses !! k = Some (Z.min (250 * 2 ^ Z.of_nat k) 15000)).
Proof.
  cbn zeta. unfold initial_backoff_ms.
  enough (forall b, (250 <= b <= 15000)%Z ->
    let pauses := map snd (watch_one spec cfg tls b rounds) in
    Forall (fun p => (250 <= p <= 15000)%Z) pauses
    /\ (forall k r, rounds !! k = Some r ->
          is_ok (connect_channel (r_read r) (r_transport r) spec tls) = true -> pauses !! k = Some 250%Z)
    /\ (Forall (fun r => is_ok (connect_channel (r_read r) (r_transport r) spec tls) = false) rounds ->
        forall k, (k < length rounds)%nat -> pauses !! k = Some (doubled b k))) as H
    by (apply H; lia).
  induction rounds as [|r rounds IH]; intros b Hb; cbn zeta.
  { repeat split; [constructor|done|]. intros _ k Hk. simpl in Hk. lia. }
  cbn [watch_one]. destruct (watch_round spec cfg tls b r) as [[ms pause] b'] eqn:E.
  apply watch_round_pause in E as [-> ->]. cbn [map snd].
  set (ok := is_ok _) in *. unfold initial_backoff_ms.
  assert (250 <= (if ok then 250 else b) <= 15000)%Z as Hp by (destruct ok; lia).
  destruct (IH _ (next_backoff_bounds _ Hp)) as (H1 & H2 & H3).
  split; [by constructor|]. split.
  - intros [|k] r' Hr Hok; cbn in Hr |- *; [|by apply (H2 k r')]. simplify_eq. unfold ok. by rewrite Hok.
  - intros Hall k Hk. apply Forall_cons in Hall as [Hr Hall]. fold ok in Hr. rewrite Hr in *.
    destruct k as [|k]; [cbn; f_equal; by rewrite doubled_0|].
    etransitivity; [exact (H3 Hall k ltac:(simpl in Hk; lia))|]. f_equal.
    by apply doubled_after.
Qed.

Context {TL : TimeLaws T}.

(** An error of the watcher whose texts fit in a frame is one line that parses to
    a failure of the watched entity. *)
Theorem watch_error_read_back spec cfg msg err now now' s :
  clean_spec spec -> clean_field msg = true -> clean_value err = true -> odt_format now = Some s ->
  exists line,
    emit_error_frame spec cfg msg err now now' = wire line
    /\ parse_tsv_line line = Ok (Some (error_frame spec cfg msg err now))
    /\ f_level (error_frame spec cfg msg err now) = Level.Fail.
Proof.
  intros Hu Hm He Hs. exists (to_tsv_line (error_frame spec cfg msg err now) now'). split; [done|].
  split; [|done]. rewrite (tsv_round_trip_aux _ now' s); [done|by apply error_frame_clean|done].
Qed.
End Properties.

(** ** Witnesses *)

#[local] Instance no_wide : UnicodeTables := fun _ => false.

(** The numbering of the health protocol, and names for its values. *)
#[local] Instance demo_pb : HealthPb := {|
  status_try_from z :=
    if Z.eqb z 0 then Some Unknown else if Z.eqb z 1 then Some Serving
    else if Z.eqb z 2 then Some NotServing else if Z.eqb z 3 then Some ServiceUnknown else None;
  status_debug st := (status_level st).2
|}.

Definition demo_spec : WatchSpec :=
  mk_watch_spec (lit "localhost:50051") (lit "hawk.Health") (lit "grpc.local").

Definition demo_tls : GrpcTlsFiles :=
  mk_tls_files Mtls (Some (lit "ca.pem")) (Some (lit "c.pem")) (Some (lit "k.pem")) None.

(** Every file holds its own name; the connection is accepted or refused. *)
Definition demo_read (p : rstr) : result (list byte) rstr := Ok p.
Definition demo_transport (up : bool) : Transport :=
  mk_transport (fun _ => Ok tt) (fun _ => Ok tt) (if up then Ok tt else Err (lit "refused")).
Definition demo_round (up : bool) : @Round UtcSeconds.utc_lib :=
  @mk_round UtcSeconds.utc_lib demo_read (demo_transport up) (Ok tt) [Ok 1%Z] (fun _ => UtcSeconds.t0).

Lemma parse_watch_spec_spec_witness :
  parse_watch_spec (lit " localhost:50051 ,hawk.Health, grpc.local") = Ok demo_spec
  /\ ws_endpoint demo_spec = lit "localhost:50051".
Proof.
  assert (parse_watch_spec (lit " localhost:50051 ,hawk.Health, grpc.local") = Ok demo_spec) as E
    by reflexivity.
  split; [exact E|].
  destruct (parse_watch_spec_spec (lit " localhost:50051 ,hawk.Health, grpc.local")) as [_ H].
  exact (proj1 (H demo_spec E)).
Defined.

Lemma host_of_endpoint_witness :
  derive_host_from_uri (normalize_endpoint_uri (lit "localhost" ++ [COLON] ++ lit "50051") Tls)
  = Some (lit "localhost").
Proof.
  apply (host_of_endpoint (lit "localhost") (lit "50051") Tls); [done|reflexivity|..];
    by apply (bool_decide_unpack _).
Defined.

Lemma connect_follows_tls_mode_witness :
  connect_channel demo_read (demo_transport true) demo_spec demo_tls
  = Ok (lit "https://localhost:50051", Some (mk_client_tls (lit "ca.pem") (lit "localhost") (Some (lit "c.pem", lit "k.pem"))))
  /\ host_of (lit "https://localhost:50051") (lit "localhost").
Proof.
  split; [reflexivity|].
  destruct (connect_follows_tls_mode demo_read (demo_transport true) demo_spec demo_tls
              (lit "https://localhost:50051")
              (Some (mk_client_tls (lit "ca.pem") (lit "localhost") (Some (lit "c.pem", lit "k.pem")))))
    as (_ & _ & Hhost & _); [reflexivity|]. exact Hhost.
Defined.

(** With TLS on, an endpoint that says [http://] is connected to as it is. *)
Example tls_keeps_http :
  fst <$> (match connect_channel demo_read (demo_transport true) (mk_watch_spec (lit "http://h:1") [] []) demo_tls with
           | Ok x => Some x | Err _ => None end) = Some (lit "http://h:1").
Proof. reflexivity. Qed.

Lemma watch_backoff_witness :
  map snd (watch_one (T := UtcSeconds.utc_lib) demo_spec (mk_grpc_cfg 10 20) demo_tls initial_backoff_ms
             [demo_round false; demo_round false]) !! 1%nat = Some 500%Z.
Proof.
  destruct (watch_backoff (T := UtcSeconds.utc_lib) demo_spec (mk_grpc_cfg 10 20) demo_tls
              [demo_round false; demo_round false]) as (_ & _ & H).
  apply (H ltac:(repeat constructor) 1%nat). simpl. lia.
Defined.
