(* ===== verification/Systemd.v ===== *)
(** * [crates/hawkd/src/systemd.rs]: the systemd unit watcher

    Unit specifications, the level of a unit's state, the frames emitted for
    snapshots and errors, one watching session and the loop around it.  The bus
    belongs to [zbus]: what it answers during one session is a record of
    outcomes, an argument of the model.  The theorems: the specification parser;
    the precedence of the states in the level; what a description can do to the
    bag; a session that starts well still ends in an error, so the back-off only
    ever grows.  What a reader gets of a snapshot is in [Sources.v]. *)

From S2P Require Import Prelude RustStr RustNum RustMap TimeLib Severity HawkFrame RustDebug Backoff Spine.

(** ** Data *)

Record UnitSpec := mk_unit_spec { us_unit : rstr; us_id : rstr }.

Record SystemdWatchConfig := mk_systemd_cfg { s_ttl_stale_s : Z; s_ttl_dead_s : Z }.

Definition parse_unit_spec (s : rstr) : result UnitSpec rstr :=
  let parts := split COMMA s in
  let unit := default [] (trim <$> parts !! 0%nat) in
  if is_empty unit then Err (lit "unit spec missing unit name")
  else
    let id :=
      match trim <$> parts !! 1%nat with
      | Some v => if is_empty v then unit else v
      | None => unit
      end in
    Ok (mk_unit_spec unit id).

Definition map_systemd_level (active sub load : rstr) : Level.t :=
  let a := to_ascii_lowercase active in
  let s := to_ascii_lowercase sub in
  let l := to_ascii_lowercase load in
  if l =? lit "not-found" then Level.Fail
  else if (a =? lit "failed") || (s =? lit "failed") then Level.Fail
  else if a =? lit "active" then Level.Ok
  else if (a =? lit "activating") || (a =? lit "reloading") then Level.Info
  else if (a =? lit "deactivating") || (a =? lit "inactive") then Level.Warn
  else Level.Unknown.

(** ** Frames *)

(** What the unit's proxy answers when its properties are read. *)
Record UnitProps := mk_props {
  up_active : result rstr rstr;
  up_sub : result rstr rstr;
  up_load : result rstr rstr;
  up_desc : result rstr rstr
}.

Section Frames.
Context {T : TimeLib}.

Definition snapshot_frame (spec : UnitSpec) (cfg : SystemdWatchConfig) (now : OffsetDateTime)
    (active sub load desc : rstr) : HawkFrame :=
  let level := map_systemd_level active sub load in
  let kv := bt_insert (lit "unit") (us_unit spec) [] in
  let kv := bt_insert (lit "active") active kv in
  let kv := bt_insert (lit "sub") sub kv in
  let kv := bt_insert (lit "load") load kv in
  let kv := if is_empty desc then kv else bt_insert (lit "desc") desc kv in
  let kv := bt_insert (lit "ttl_stale_s") (int_to_string (s_ttl_stale_s cfg)) kv in
  let kv := bt_insert (lit "ttl_dead_s") (int_to_string (s_ttl_dead_s cfg)) kv in
  mk_frame (Some now) (lit "HEALTH") (lit "systemd") (us_id spec) level
    (active ++ lit ":" ++ sub) kv.

(** The message sent to the spine, or the error of the first property that
    cannot be read; the description is optional. *)
Definition emit_snapshot_frame (spec : UnitSpec) (cfg : SystemdWatchConfig) (now : OffsetDateTime)
    (unit : UnitProps) : result (list byte) rstr :=
  let? active := map_err (fun e => lit "ActiveState: " ++ e) (up_active unit) in
  let? sub := map_err (fun e => lit "SubState: " ++ e) (up_sub unit) in
  let? load := map_err (fun e => lit "LoadState: " ++ e) (up_load unit) in
  let desc := match up_desc unit with Ok d => d | Err _ => [] end in
  Ok (wire (to_tsv_line (snapshot_frame spec cfg now active sub load desc) now)).

Definition error_frame (spec : UnitSpec) (cfg : SystemdWatchConfig) (msg err : rstr)
    (now : OffsetDateTime) : HawkFrame :=
  let kv := bt_insert (lit "unit") (us_unit spec) [] in
  let kv := bt_insert (lit "error") err kv in
  let kv := bt_insert (lit "ttl_stale_s") (int_to_string (s_ttl_stale_s cfg)) kv in
  let kv := bt_insert (lit "ttl_dead_s") (int_to_string (s_ttl_dead_s cfg)) kv in
  mk_frame (Some now) (lit "HEALTH") (lit "systemd") (us_id spec) Level.Fail msg kv.

(** The frame's own stamp is the clock reading it is printed with. *)
Definition emit_error_frame (spec : UnitSpec) (cfg : SystemdWatchConfig) (msg err : rstr)
    (now : OffsetDateTime) : list byte :=
  wire (to_tsv_line (error_frame spec cfg msg err now) now).

(** ** One session *)

(** What the bus answers, step by step, then the unit's properties when the
    session starts and after each change signal, until the stream ends. *)
Record Session := mk_session {
  ss_connect : result unit rstr;
  ss_manager : result unit rstr;
  ss_get_unit : rstr -> result rstr rstr;
  ss_unit_path : rstr -> result unit rstr;
  ss_unit_build : result unit rstr;
  ss_props_destination : result unit rstr;
  ss_props_path : rstr -> result unit rstr;
  ss_props_build : result unit rstr;
  ss_first : UnitProps;
  ss_receive : result unit rstr;
  ss_changes : list UnitProps;
  ss_now : nat -> OffsetDateTime
}.

(** [while let Some(_sig) = stream.next().await], and the error after it. *)
Fixpoint changes_loop (spec : UnitSpec) (cfg : SystemdWatchConfig) (now : nat -> OffsetDateTime)
    (i : nat) (changes : list UnitProps) : list (list byte) * result unit rstr :=
  match changes with
  | [] => ([], Err (lit "properties stream ended"))
  | p :: rest =>
      match emit_snapshot_frame spec cfg (now i) p with
      | Err e => ([], Err e)
      | Ok m => let '(ms, r) := changes_loop spec cfg now (S i) rest in (m :: ms, r)
      end
  end.

(** The calls before the first snapshot. *)
Definition open_unit (spec : UnitSpec) (ss : Session) : result unit rstr :=
  let? _ := map_err (fun e => lit "connect system bus: " ++ e) (ss_connect ss) in
  let? _ := map_err (fun e => lit "manager proxy: " ++ e) (ss_manager ss) in
  let? unit_path := map_err (fun e => lit "GetUnit " ++ us_unit spec ++ lit ": " ++ e)
                      (ss_get_unit ss (us_unit spec)) in
  let? _ := map_err (fun e => lit "unit proxy builder: " ++ e) (ss_unit_path ss unit_path) in
  let? _ := map_err (fun e => lit "unit proxy build: " ++ e) (ss_unit_build ss) in
  let? _ := map_err (fun e => lit "properties destination: " ++ e) (ss_props_destination ss) in
  let? _ := map_err (fun e => lit "properties path: " ++ e) (ss_props_path ss unit_path) in
  let? _ := map_err (fun e => lit "properties proxy: " ++ e) (ss_props_build ss) in
  Ok tt.

Definition watch_one_unit_once (spec : UnitSpec) (cfg : SystemdWatchConfig) (ss : Session)
    : list (list byte) * result unit rstr :=
  match open_unit spec ss with
  | Err e => ([], Err e)
  | Ok _ =>
      match emit_snapshot_frame spec cfg (ss_now ss 0) (ss_first ss) with
      | Err e => ([], Err e)
      | Ok m =>
          match map_err (fun e => lit "receive PropertiesChanged: " ++ e) (ss_receive ss) with
          | Err e => ([m], Err e)
          | Ok _ => let '(ms, r) := changes_loop spec cfg (ss_now ss) 1 (ss_changes ss) in (m :: ms, r)
          end
      end
  end.

(** The first turns of [watch_one_unit]: per turn, its messages and its pause.
    A turn is a session with the clock reading of the error frame after it. *)
Fixpoint watch_one_unit (spec : UnitSpec) (cfg : SystemdWatchConfig) (backoff_ms : Z)
    (sessions : list (Session * OffsetDateTime)) : list (list (list byte) * Z) :=
  match sessions with
  | [] => []
  | (ss, now) :: rest =>
      let '(ms, r) := watch_one_unit_once spec cfg ss in
      match r with
      | Ok _ =>
          let backoff_ms := initial_backoff_ms in
          (ms, backoff_ms) :: watch_one_unit spec cfg backoff_ms rest
      | Err err =>
          (ms ++ [emit_error_frame spec cfg (lit "systemd watch failed") err now], backoff_ms)
          :: watch_one_unit spec cfg (next_backoff backoff_ms) rest
      end
  end.

(** One task per unit, each from the initial back-off. *)
Definition spawn_unit_watchers (units : list UnitSpec) (cfg : SystemdWatchConfig)
    (sessions : nat -> list (Session * OffsetDateTime)) : list (list (list byte)) :=
  if bool_decide (units = []) then []
  else imap (fun k spec => concat (map fst (watch_one_unit spec cfg initial_backoff_ms (sessions k)))) units.
End Frames.

(** ** Lemmas *)

(** A specification whose texts fit in a frame. *)
Definition clean_unit (spec : UnitSpec) : Prop :=
  clean_value (us_unit spec) = true /\ clean_field (us_id spec) = true.

Section Lemmas.
Context {T : TimeLib}.

Lemma snapshot_frame_kv spec cfg now active sub load desc :
  f_kv (snapshot_frame spec cfg now active sub load desc) =
  (lit "active", active) :: (if is_empty desc then [] else [(lit "desc", desc)])
  ++ [(lit "load", load); (lit "sub", sub); (lit "ttl_dead_s", int_to_string (s_ttl_dead_s cfg));
      (lit "ttl_stale_s", int_to_string (s_ttl_stale_s cfg)); (lit "unit", us_unit spec)].
Proof. unfold snapshot_frame. destruct (is_empty desc); reflexivity. Qed.

Lemma clean_field_colon a b :
  clean_field a = true -> clean_field b = true -> clean_field (a ++ lit ":" ++ b) = true.
Proof.
  change (lit ":") with [COLON]. rewrite !clean_field_iff. intros [Ha Ta] [Hb Tb].
  split; [|rewrite !elem_of_app, list_elem_of_singleton; intros [?|[?|?]]; done].
  by apply edge_free_glue.
Qed.

Lemma clean_value_field s : clean_value s = true -> clean_field s = true.
Proof. unfold clean_value. by intros [? _]%andb_true_iff. Qed.

Lemma snapshot_frame_clean spec cfg now active sub load desc :
  clean_unit spec -> Forall (fun s => clean_value s = true) [active; sub; load; desc] ->
  clean_frame (snapshot_frame spec cfg now active sub load desc).
Proof.
  intros [Hu Hi] Hall. repeat (apply Forall_cons in Hall as [? Hall]).
  unfold clean_frame. rewrite snapshot_frame_kv.
  repeat split; try done; [by apply clean_field_colon; apply clean_value_field|by destruct desc; repeat constructor|].
  apply Forall_cons; split; [by apply clean_entry_named|]. apply Forall_app; split.
  - destruct (is_empty desc); repeat constructor. by apply clean_entry_named.
  - repeat (apply Forall_cons; split); [..|constructor];
      apply clean_entry_named; done || apply int_to_string_clean.
Qed.

Lemma unit_error_frame_clean spec cfg msg err now :
  clean_unit spec -> clean_field msg = true -> clean_value err = true ->
  clean_frame (error_frame spec cfg msg err now).
Proof.
  intros [Hu Hi] Hm Herr.
  repeat split; try done; try (by repeat constructor).
  repeat (apply Forall_cons; split); [..|constructor];
    apply clean_entry_named; done || apply int_to_string_clean.
Qed.

Lemma changes_loop_err spec cfg now i changes : is_ok (changes_loop spec cfg now i changes).2 = false.
Proof.
  revert i. induction changes as [|p rest IH]; intros i; [done|]. cbn [changes_loop].
  destruct (emit_snapshot_frame spec cfg (now i) p); [|done].
  specialize (IH (S i)). by destruct (changes_loop spec cfg now (S i) rest).
Qed.

(** A session never ends well. *)
Lemma session_err spec cfg ss : is_ok (watch_one_unit_once spec cfg ss).2 = false.
Proof.
  unfold watch_one_unit_once. destruct (open_unit spec ss); [|done].
  destruct (emit_snapshot_frame _ _ _ _); [|done]. destruct (map_err _ _); [|done].
  pose proof (changes_loop_err spec cfg (ss_now ss) 1 (ss_changes ss)).
  by destruct (changes_loop _ _ _ _ _).
Qed.
End Lemmas.

(** ** Properties *)

(** The unit specification parser: it fails exactly on a blank unit name;
    otherwise the unit is the first comma-separated part, trimmed, and the id is
    the second, or the unit's name when that is blank. *)
Theorem parse_unit_spec_spec s :
  let part k := trim (nth k (split COMMA s) []) in
  parse_unit_spec s =
  if is_empty (part 0%nat) then Err (lit "unit spec missing unit name")
  else Ok (mk_unit_spec (part 0%nat) (if is_empty (part 1%nat) then part 0%nat else part 1%nat)).
Proof.
  cbn zeta. unfold parse_unit_spec. cbn zeta. rewrite trimmed_part.
  pose proof (trimmed_part (split COMMA s) 1) as H1. rewrite <-H1.
  destruct (is_empty _); [done|]. by destruct (trim <$> split COMMA s !! 1%nat).
Qed.

(** C34: the level of a unit, in the letters' lower case: a unit that is not
    found, or failed in its state or sub-state, is [Fail] whatever else is
    reported; otherwise the active state alone decides, and states that are not
    listed are [Unknown]. *)
Theorem systemd_level_precedence active sub load :
  let a := to_ascii_lowercase active in
  let failed := to_ascii_lowercase load = lit "not-found" \/ a = lit "failed"
                \/ to_ascii_lowercase sub = lit "failed" in
  let level := map_systemd_level active sub load in
  (level = Level.Fail <-> failed)
  /\ (level = Level.Ok <-> ~ failed /\ a = lit "active")
  /\ (level = Level.Info <-> ~ failed /\ (a = lit "activating" \/ a = lit "reloading"))
  /\ (level = Level.Warn <-> ~ failed /\ (a = lit "deactivating" \/ a = lit "inactive"))
  /\ (level = Level.Unknown <->
      ~ failed /\ a ∉ [lit "active"; lit "activating"; lit "reloading"; lit "deactivating"; lit "inactive"]).
Proof.
  cbn zeta. unfold map_systemd_level. cbn zeta.
  set (failed := _ \/ _). assert (Decision failed) as Hdec by (unfold failed; apply _).
  destruct Hdec as [Hf|Hf].
  - assert (forall l1 l2, (if to_ascii_lowercase load =? lit "not-found" then l1
              else if (to_ascii_lowercase active =? lit "failed") || (to_ascii_lowercase sub =? lit "failed")
                   then l1 else l2) = l1 :> Level.t) as ->
      by (intros; unfold failed in Hf; repeat case_bool_decide; cbn; tauto).
    clearbody failed. intuition discriminate.
  - rewrite !bool_decide_eq_false_2 by (unfold failed in Hf; tauto). cbn [orb].
    clearbody failed. generalize (to_ascii_lowercase active). intros a. rewrite !not_elem_of_cons.
    repeat (case_bool_decide; [subst a; cbn [orb]; intuition discriminate|]). cbn [orb].
    pose proof (not_elem_of_nil a). intuition discriminate.
Qed.

(** C35: while the watcher runs every session ends in an error, also those that
    delivered snapshots, so the pause after session [k] is 250 doubled [k]
    times and capped at 15000: it never returns to 250. *)
Theorem systemd_backoff_never_resets {T : TimeLib} spec cfg sessions k :
  map snd (watch_one_unit spec cfg initial_backoff_ms sessions) !! k =
  if (k <? length sessions)%nat then Some (doubled initial_backoff_ms k) else None.
Proof.
  unfold initial_backoff_ms.
  enough (forall b, (250 <= b <= 15000)%Z ->
    map snd (watch_one_unit spec cfg b sessions) !! k =
    if (k <? length sessions)%nat then Some (doubled b k) else None) as H by (apply H; lia).
  revert k. induction sessions as [|[ss now] rest IH]; intros k b Hb; [done|].
  cbn [watch_one_unit]. pose proof (session_err spec cfg ss) as He.
  destruct (watch_one_unit_once spec cfg ss) as [ms [u|e]]; [done|]. cbn [map snd].
  destruct k as [|k]; [cbn; by rewrite doubled_0|].
  etransitivity; [apply (IH k (next_backoff b)), next_backoff_bounds, Hb|]. rewrite doubled_after by done. done.
Qed.

Section Properties.
Context {T : TimeLib} {TL : TimeLaws T}.

(** The frame sent after a failed session, when its texts fit in a frame, parses
    to a failure of the unit. *)
Theorem unit_error_read_back spec cfg msg err now s :
  clean_unit spec -> clean_field msg = true -> clean_value err = true -> odt_format now = Some s ->
  exists line,
    emit_error_frame spec cfg msg err now = wire line
    /\ parse_tsv_line line = Ok (Some (error_frame spec cfg msg err now))
    /\ f_level (error_frame spec cfg msg err now) = Level.Fail.
Proof.
  intros Hu Hm He Hs. exists (to_tsv_line (error_frame spec cfg msg err now) now). split; [done|].
  split; [|done]. rewrite (tsv_round_trip_aux _ now s); [done|by apply unit_error_frame_clean|done].
Qed.
End Properties.

(** ** Witnesses *)

Definition demo_unit : UnitSpec := mk_unit_spec (lit "hawkd.service") (lit "spine.hawkd").

(** The description of a unit is not escaped: one with a semicolon adds
    entries to the bag, and they can replace the state the watcher reported. *)
Theorem description_overwrites_state :
  exists line (f : @HawkFrame UtcSeconds.utc_lib),
    emit_snapshot_frame (T := UtcSeconds.utc_lib) demo_unit (mk_systemd_cfg 10 20) UtcSeconds.t0
      (mk_props (Ok (lit "failed")) (Ok (lit "failed")) (Ok (lit "loaded"))
         (Ok (lit "Spine;active=active;sub=running"))) = Ok (wire line)
    /\ parse_tsv_line line = Ok (Some f)
    /\ bt_get (lit "active") (f_kv f) = Some (lit "active")
    /\ bt_get (lit "desc") (f_kv f) = Some (lit "Spine").
Proof.
  eexists _, _. split; [reflexivity|]. split; [reflexivity|]. split; reflexivity.
Qed.
