(* ===== verification/EndToEnd.v ===== *)
(** * From a producer through the spine to the mirror

    The pieces together: a producer of the daemon sends texts as messages, the
    spine writes them to its clients after the banner, and a mirror connected to
    the spine's socket reads lines back.  [Producer] is what a source of the
    daemon promises to the spine: every message is a text and a line feed.  The
    text may itself contain line feeds, then the mirror reads several lines.  The
    theorems: a mirror reads exactly the lines of the messages broadcast since it
    joined, but for the first one if its banner was cut short; behind the spine it
    sees the frames a mirror on the same input would see, stamped. *)

From S2P Require Import Prelude RustStr RustNum RustMap TimeLib Severity HawkFrame Io App RustDebug Backoff Spine.
From S2P Require Import Ingest GrpcHealth Systemd.

(** ** The promise of a producer *)

(** A Unicode scalar value, which is what a [char] of a [String] is, and one that
    stays inside its line. *)
Definition scalar_char (c : char) : Prop := is_scalar c = true.
Definition line_char (c : char) : Prop := is_scalar c = true /\ c ≠ LF.

(** Kinds of characters that the printers can use. *)
Class TextChars (P : char -> Prop) : Prop := {
  text_ascii : forall c, (c < 128)%N -> c ≠ LF -> P c;
  text_scalar : forall c, P c -> is_scalar c = true
}.

Lemma ascii_scalar c : (c < 128)%N -> is_scalar c = true.
Proof. intros Hc. unfold is_scalar. apply orb_true_iff. left. apply N.ltb_lt. lia. Qed.

#[export] Instance scalar_text : TextChars scalar_char.
Proof. split; [|done]. intros c Hc _. by apply ascii_scalar. Qed.
#[export] Instance line_text_chars : TextChars line_char.
Proof. split; [|by intros c []]. intros c Hc Hn. split; [by apply ascii_scalar|done]. Qed.

(** Text of such characters; a text of line characters is one line for a reader
    of lines, up to a carriage return at its end, which the parser of frames does
    not notice. *)
Definition text (P : char -> Prop) (l : rstr) : Prop := Forall P l.
Definition line_ok : rstr -> Prop := text line_char.

Class Producer (ms : list (list byte)) (ts : list rstr) : Prop := {
  producer_messages : ms = map wire ts;
  producer_texts : Forall (text scalar_char) ts
}.

(** The lines that a reader finds in messages made of these texts. *)
Definition text_lines (ts : list rstr) : list rstr := concat (map (split LF) ts).

(** ** Lemmas: lines come back *)

Lemma text_is_scalar {P} `{!TextChars P} l : text P l -> text scalar_char l.
Proof. intros H. eapply Forall_impl; [exact H|]. apply text_scalar. Qed.

Lemma line_ok_text l : line_ok l -> text scalar_char l.
Proof. apply text_is_scalar. Qed.

Lemma line_ok_no_lf l : line_ok l -> LF ∉ l.
Proof. intros H Hin. eapply Forall_forall in H as [_ Hn]; [|exact Hin]. by apply Hn. Qed.

Lemma text_app P l1 l2 : text P (l1 ++ l2) <-> text P l1 /\ text P l2.
Proof. apply Forall_app. Qed.

Lemma text_lines_app ts ts' : text_lines (ts ++ ts') = text_lines ts ++ text_lines ts'.
Proof. unfold text_lines. by rewrite map_app, concat_app. Qed.

(** Texts without a line feed are their own lines. *)
Lemma text_lines_ok ls : Forall line_ok ls -> text_lines ls = ls.
Proof.
  unfold text_lines. induction 1 as [|l ls Hl _ IH]; [done|]. cbn [map concat]. unfold split at 1.
  rewrite split_on_no_delim, IH by (by apply line_ok_no_lf). done.
Qed.

(** Whatever comes after the messages. *)
Lemma read_wire ts rest err :
  Forall (text scalar_char) ts ->
  read_lines (mk_stream (concat (map wire ts) ++ rest) err)
  = map Ok (map strip_cr (text_lines ts)) ++ read_lines (mk_stream rest err).
Proof.
  induction 1 as [|t ts Ht _ IH]; [done|]. cbn [map concat]. rewrite <-app_assoc.
  unfold wire at 1. rewrite read_lines_text, IH by done.
  change (t :: ts) with ([t] ++ ts). rewrite text_lines_app, !map_app, app_assoc. unfold text_lines. cbn [map concat].
  by rewrite app_nil_r.
Qed.

(** The parser does not see that the reader took off a carriage return. *)
Lemma parse_strip_cr {T : TimeLib} l : parse_tsv_line (strip_cr l) = parse_tsv_line l.
Proof.
  destruct l as [|c l _] using rev_ind; [done|]. rewrite strip_cr_snoc. case_bool_decide as Hc; [|done].
  subst c. by rewrite parse_tsv_line_newline.
Qed.

Lemma reader_loop_strip {T : TimeLib} strict ls rest :
  reader_loop strict (map Ok (map strip_cr ls) ++ rest) = reader_loop strict (map Ok ls ++ rest).
Proof. induction ls as [|l ls IH]; [done|]. cbn [map app reader_loop]. by rewrite parse_strip_cr, IH. Qed.

(** ** Lemmas: the banner *)

(** The banner without its line feed. *)
Definition banner_line : rstr := lit "# hawkd connected".

Lemma banner_wire : BANNER = wire banner_line.
Proof. reflexivity. Qed.

(** Writing the banner failed in the middle. *)
Definition torn (base : list byte) : bool := negb (bool_decide (base = [])) && negb (bool_decide (base = BANNER)).

(** After a torn banner the first line is read as a part of it, and lost. *)
Definition skip_line (reads : list (result rstr rstr)) : list (result rstr rstr) :=
  match reads with Ok _ :: rest => rest | _ => reads end.

Definition heard (base : list byte) (reads : list (result rstr rstr)) : list (result rstr rstr) :=
  if torn base then skip_line reads else reads.

Lemma heard_greeted base reads : torn base = false -> heard base reads = reads.
Proof. unfold heard. by intros ->. Qed.

Lemma parse_comment {T : TimeLib} l : parse_tsv_line (HASH :: l) = Ok None.
Proof.
  assert (exists l', trim_end_newlines (HASH :: l) = HASH :: l') as [l' E].
  { induction l as [|c l IH] using rev_ind; [by exists []|]. change (HASH :: l ++ [c]) with ((HASH :: l) ++ [c]).
    destruct ((c =? LF) || (c =? CR)) eqn:Hc; [by rewrite trim_end_newlines_snoc|].
    rewrite trim_end_newlines_app; [by exists (l ++ [c])|by unfold last_free; cbn; rewrite Hc|done]. }
  unfold parse_tsv_line. rewrite E. assert (ignorable (HASH :: l')) as [->| ->]%ignorable_iff; [|done|].
  - right. exists [], l'. split; [done|constructor].
  - cbn zeta. by destruct (is_empty (trim (HASH :: l'))).
Qed.

(** A line that begins with the start of the banner. *)
Lemma from_utf8_behind {T : TimeLib} strict (u w : list byte) rest :
  Forall (fun c => (c < 128)%N) u -> head u = Some HASH ->
  reader_loop strict (from_utf8 (u ++ w) :: rest)
  = match from_utf8 w with Ok _ => reader_loop strict rest | Err e => [IoError e] end.
Proof.
  intros Hu Hh. unfold from_utf8. rewrite utf8_decode_ascii_app by done.
  destruct (utf8_decode w) as [l|]; cbn [fmap option_fmap option_map ok_or reader_loop]; [|done].
  destruct u as [|c u]; [done|]. injection Hh as ->. cbn [app]. by rewrite parse_comment.
Qed.

Lemma torn_heard {T : TimeLib} strict u data err :
  Forall (fun c => (c < 128)%N) u -> head u = Some HASH -> LF ∉ u -> last_free (fun c => c =? CR) u = true ->
  reader_loop strict (read_lines (mk_stream (u ++ data) err))
  = reader_loop strict (skip_line (read_lines (mk_stream data err))).
Proof.
  intros Hu Hh Hlf Hcr. unfold read_lines. cbn [bs_data bs_err].
  destruct (split_on_cons LF data) as (w & ws & E).
  assert (split_on LF (u ++ data) = (u ++ w) :: ws) as ->.
  { clear Hu Hh Hcr. induction u as [|c u IH]; [done|]. apply not_elem_of_cons in Hlf as [Hc Hlf].
    cbn [app split_on]. rewrite bool_decide_eq_false_2, IH by (congruence || done). done. }
  rewrite E. assert (u ≠ []) as Hne by (by destruct u). clear E. destruct ws as [|v ws].
  - cbn [read_lines_go]. destruct err as [e|]; [done|].
    assert (is_empty (u ++ w) = false) as -> by (by destruct u). rewrite from_utf8_behind by done.
    destruct w as [|b w]; cbn [is_empty]; [done|]. by destruct (from_utf8 (b :: w)).
  - change (read_lines_go err ((u ++ w) :: v :: ws)) with (from_utf8 (strip_cr (u ++ w)) :: read_lines_go err (v :: ws)).
    change (read_lines_go err (w :: v :: ws)) with (from_utf8 (strip_cr w) :: read_lines_go err (v :: ws)).
    assert (strip_cr (u ++ w) = u ++ strip_cr w) as ->.
    { destruct w as [|b w]; [rewrite app_nil_r; cbn; rewrite app_nil_r; by apply strip_cr_id|by apply strip_cr_app]. }
    rewrite from_utf8_behind by done. by destruct (from_utf8 (strip_cr w)).
Qed.

(** Whatever part of the banner a client has, and whatever comes after it. *)
Lemma banner_heard {T : TimeLib} banner strict base data err :
  base_ok banner base ->
  reader_loop strict (read_lines (mk_stream (base ++ data) err))
  = reader_loop strict (heard base (read_lines (mk_stream data err))).
Proof.
  intros Hb. unfold heard, torn. case_bool_decide as H0; [by subst base|]. cbn [negb andb].
  case_bool_decide as H1; cbn [negb].
  - subst base. rewrite banner_wire. change (wire banner_line) with (concat (map wire [banner_line])).
    rewrite read_wire by (constructor; [by repeat constructor|constructor]). rewrite reader_loop_strip.
    cbn [text_lines map concat]. rewrite app_nil_r. change (split LF banner_line) with [banner_line]. cbn [map app reader_loop].
    change banner_line with (HASH :: tl banner_line). by rewrite parse_comment.
  - destruct banner; [|done]. destruct Hb as [post E].
    assert (base = take (length base) (utf8_encode banner_line)) as Eb.
    { destruct post as [|x post _] using rev_ind; [by rewrite app_nil_r in E|]. change BANNER with (utf8_encode banner_line ++ [LF]) in E.
      rewrite app_assoc in E. apply app_inj_2 in E as [E _]; [|done]. by rewrite E, take_app_length. }
    assert (Forall (fun c => (c < 128)%N) (utf8_encode banner_line)) as Ha by (by repeat constructor).
    assert (LF ∉ utf8_encode banner_line /\ CR ∉ utf8_encode banner_line) as [Hlf Hcr]
      by (split; intros Hin; vm_compute in Hin; set_solver).
    assert (forall c, c ∈ base -> c ∈ utf8_encode banner_line) as Hin
      by (intros c Hc; rewrite Eb in Hc; by apply elem_of_take in Hc as (i & ? & _); eapply list_elem_of_lookup_2).
    apply torn_heard.
    + rewrite Eb. by apply Forall_take.
    + rewrite Eb. by destruct (length base) eqn:El; [destruct base|].
    + intros Hc. by apply Hlf, Hin.
    + destruct base as [|c base _] using rev_ind; [done|]. unfold last_free. rewrite rev_app_distr. cbn.
      rewrite bool_decide_eq_false_2; [done|]. intros ->. apply Hcr, Hin. set_solver.
Qed.

(** The whole log of a client: banner, messages, and what comes later. *)
Lemma log_reads_back {T : TimeLib} banner strict base ts rest err :
  base_ok banner base -> Forall (text scalar_char) ts ->
  reader_loop strict (read_lines (mk_stream ((base ++ concat (map wire ts)) ++ rest) err))
  = reader_loop strict (heard base (map Ok (text_lines ts) ++ read_lines (mk_stream rest err))).
Proof.
  intros Hb Hts. rewrite <-app_assoc, (banner_heard banner) by done. rewrite read_wire by done. unfold heard.
  destruct (torn base); [|apply reader_loop_strip].
  destruct (text_lines ts) as [|l ls]; [done|]. cbn [map app]. apply reader_loop_strip.
Qed.

(** ** Lemmas: printed frames are lines *)

Section FrameLines.
Context {T : TimeLib}.

(** Every text of the frame satisfies [P], whether it stands in a column or in
    the bag. *)
Definition frame_texts (P : rstr -> Prop) (f : HawkFrame) : Prop :=
  Forall P [f_kind f; f_scope f; f_id f; f_msg f] /\ Forall (fun e => P e.1 /\ P e.2) (f_kv f).

Lemma parsed_texts line f (P : char -> Prop) :
  Forall P (trim_end_newlines line) -> Forall P TRUE -> parse_tsv_line line = Ok (Some f) ->
  frame_texts (Forall P) f.
Proof.
  intros HP HT H%parse_tsv_line_inv. cbn zeta in H.
  unfold frame_texts. destruct H as (_ & -> & -> & -> & _ & -> & -> & _).
  assert (forall i, Forall P (nth i (split TAB (trim_end_newlines line)) [])) as Hcol.
  { intros i. apply Forall_forall. intros c Hc%nth_column_elem. by eapply Forall_forall in HP. }
  assert (forall s, Forall P s -> Forall P (trim s)) as Htrim.
  { intros s Hs. apply Forall_forall. intros c Hc%elem_of_trim. by eapply Forall_forall in Hs. }
  split; [repeat constructor; apply Htrim, Hcol|].
  apply Forall_forall. intros e He.
  split; apply Forall_forall; intros c Hc;
    (destruct (parse_kv_bag_chars _ e c He) as [Hin|Hin]; [tauto| |by eapply Forall_forall in HT]);
    (eapply Forall_forall in Hin; [exact Hin|apply Htrim, Hcol]).
Qed.

Context {TL : TimeLaws T}.

Lemma format_or_default_chars t : Forall (fun c => rfc3339_char c = true) (format_or_default t).
Proof.
  unfold format_or_default. destruct (odt_format t) as [s|] eqn:E; [|constructor].
  by apply odt_format_chars in E as [_ ?].
Qed.

Lemma rfc3339_ascii c : rfc3339_char c = true -> (c < 128)%N /\ c ≠ LF.
Proof.
  unfold rfc3339_char. rewrite orb_true_iff, bool_decide_eq_true. intros [Hd|Hin].
  - unfold is_digit, between in Hd. rewrite andb_true_iff, !N.leb_le in Hd. unfold LF. lia.
  - vm_compute in Hin. repeat (apply elem_of_cons in Hin as [->|Hin]; [done|]). by apply elem_of_nil in Hin.
Qed.

(** A frame is printed with no other characters than those of its texts. *)
Lemma to_tsv_line_ok {P} `{!TextChars P} f now : frame_texts (text P) f -> text P (to_tsv_line f now).
Proof.
  intros [Hc Hkc]. unfold to_tsv_line. cbn zeta. pose proof (format_or_default_chars (default now (f_ts f))) as Hf.
  set (ts := format_or_default _) in *. unfold text in *.
  assert (P TAB /\ P SEMI /\ P EQUALS) as (Lt & Ls & Le) by (repeat split; by apply text_ascii).
  repeat (apply Forall_cons in Hc as [? Hc]).
  assert (Forall P (Level.as_str (f_level f))) as Hlev by (destruct (f_level f); repeat constructor; by apply text_ascii).
  assert (forall sep l, Forall P sep -> Forall (Forall P) l -> Forall P (join_with sep l)) as Hj.
  { intros sep l Hs Hl. apply Forall_forall. intros c [Hin|(w & Hw & Hin)]%elem_of_join_with.
    - by eapply Forall_forall in Hs.
    - eapply Forall_forall in Hl; [|exact Hw]. by eapply Forall_forall in Hl. }
  apply Hj; [by repeat constructor|]. repeat (apply Forall_cons; split); try done; [|clear -Hkc Hj Ls Le].
  - eapply Forall_impl; [exact Hf|]. intros c [? ?]%rfc3339_ascii. by apply text_ascii.
  - unfold serialize_kv_bag. case_bool_decide; [constructor|]. apply Hj; [by repeat constructor|].
    apply Forall_map. eapply Forall_impl; [exact Hkc|]. intros [k v] [Hk Hv]. cbn [fst snd] in *.
    unfold serialize_kv_part; cbn [fst snd]. case_bool_decide; [done|].
    rewrite !Forall_app. repeat split; [done|by repeat constructor|done].
Qed.

(** A frame read from a line and printed is a line. *)
Lemma reemitted_line_ok l w f now :
  l = w \/ l = w ++ [LF] -> Forall line_char w -> parse_tsv_line l = Ok (Some f) ->
  line_ok (to_tsv_line f now).
Proof.
  intros Hl Hw Hp. assert (parse_tsv_line w = Ok (Some f)) as Hp'.
  { destruct Hl as [->| ->]; [done|]. by rewrite parse_tsv_line_newline in Hp. }
  apply to_tsv_line_ok. eapply parsed_texts; [|by repeat constructor|exact Hp'].
  apply Forall_forall. intros c Hc%elem_of_trim_end_newlines. by eapply Forall_forall in Hw.
Qed.
End FrameLines.

(** ** The stdin source keeps the promise *)

Section Stdin.
Context {T : TimeLib} {U : UnicodeTables}.

(** The lines of the loop of [spawn_stdin_source]. *)
Fixpoint source_lines (strict : bool) (now : nat -> OffsetDateTime) (i : nat)
    (reads : list (result rstr rstr)) : list rstr :=
  match reads with
  | [] => []
  | Err _ :: _ => []
  | Ok line :: rest =>
      match parse_tsv_line line with
      | Ok (Some f) => to_tsv_line f (now i) :: source_lines strict now (S i) rest
      | Ok None => source_lines strict now (S i) rest
      | Err e => if strict then [lit "# hawkd strict parse error: " ++ debug_parse_error e]
                 else source_lines strict now (S i) rest
      end
  end.

Lemma stdin_source_lines strict now i reads :
  stdin_source_loop strict now i reads = map wire (source_lines strict now i reads).
Proof.
  revert i. induction reads as [|[l|e] rest IH]; intros i; [done| |done]. cbn [stdin_source_loop source_lines].
  destruct (parse_tsv_line l) as [[f|]|e]; [cbn [map]; by rewrite IH|apply IH|].
  destruct strict; [|apply IH]. cbn [map]. unfold wire. by rewrite <-app_assoc.
Qed.

(** The text of a parse error is one line. *)
Lemma debug_parse_error_line l w e :
  l = w \/ l = w ++ [LF] -> line_ok w -> parse_tsv_line l = Err e -> line_ok (debug_parse_error e).
Proof.
  intros Hl Hw Hp. assert (forall raw c, e = BadTimestamp raw -> c ∈ raw -> c ∈ w) as Hraw.
  { intros raw c -> Hc. assert (parse_tsv_line w = Err (BadTimestamp raw)) as Hp'.
    { destruct Hl as [->| ->]; [done|]. by rewrite parse_tsv_line_newline in Hp. }
    clear Hp. unfold parse_tsv_line in Hp'. cbn zeta in Hp'. repeat (case_match; simplify_eq; try done).
    apply elem_of_trim, nth_column_elem, elem_of_trim_end_newlines in Hc. done. }
  pose proof (debug_parse_error_chars e) as Hch. pose proof (debug_parse_error_control e) as Hco.
  apply Forall_forall. intros c Hc.
  unfold no_control in Hco. eapply Forall_forall in Hch; [|exact Hc]. eapply Forall_forall in Hco; [|exact Hc].
  cbn beta in *. split; [|intros ->; done]. destruct Hch as [(raw & E & Hin)|Hlt].
  - eapply Forall_forall in Hw as [Hs _]; [exact Hs|by eapply Hraw].
  - unfold is_scalar. apply orb_true_iff. left. apply N.ltb_lt. lia.
Qed.

Context {TL : TimeLaws T}.

Lemma source_lines_ok stdin strict now : Forall line_ok (source_lines strict now 0 (read_line_calls stdin)).
Proof.
  assert (forall l, Ok l ∈ read_line_calls stdin ->
    exists w, (l = w \/ l = w ++ [LF]) /\ Forall line_char w) as Hshape by apply read_line_calls_shape.
  revert Hshape. generalize 0%nat. induction (read_line_calls stdin) as [|[l|e] rest IH]; intros i Hs; [constructor| |constructor].
  destruct (Hs l) as (w & Hl & Hw); [constructor|].
  assert (forall j, Forall line_ok (source_lines strict now j rest)) as Hrest
    by (intros j; apply IH; intros l' ?; apply Hs; by constructor).
  cbn [source_lines]. destruct (parse_tsv_line l) as [[f|]|e] eqn:Ep; [|done|].
  - constructor; [by eapply reemitted_line_ok|done].
  - destruct strict; [|done]. constructor; [|constructor].
    apply text_app. split; [by repeat constructor|by eapply debug_parse_error_line].
Qed.

#[export] Instance stdin_producer stdin strict now :
  Producer (spawn_stdin_source stdin strict now) (source_lines strict now 0 (read_line_calls stdin)).
Proof.
  split; [apply stdin_source_lines|]. eapply Forall_impl; [apply source_lines_ok|]. intros l. apply line_ok_text.
Qed.

(** A frame that survives the relay: its stamp has an RFC 3339 text. *)
Definition relayable (now : nat -> OffsetDateTime) (f : HawkFrame) : Prop :=
  forall i, is_Some (odt_format (default (now i) (f_ts f))).

(** [m'] is [m] with a missing stamp filled in by the clock, and without the flag
    that has no name. *)
Definition stamped (now : nat -> OffsetDateTime) (m m' : IngestMsg) : Prop :=
  exists f i, m = Frame f /\ m' = Frame (stamp (now i) (named_frame f)).

Lemma parse_strict_comment e :
  parse_tsv_line (lit "# hawkd strict parse error: " ++ debug_parse_error e) = Ok None.
Proof. apply (parse_comment (tl (lit "# hawkd strict parse error: ") ++ debug_parse_error e)). Qed.

Lemma relay_lines strict strict' now i reads :
  Forall (fun m => forall f, m = Frame f -> relayable now f) (reader_loop strict reads) ->
  Forall2 (stamped now) (List.filter is_frame (reader_loop strict reads))
    (reader_loop strict' (map Ok (source_lines strict now i reads))).
Proof.
  revert i. induction reads as [|[l|e] rest IH]; intros i Hf; [constructor| |constructor].
  cbn [reader_loop source_lines] in *. destruct (parse_tsv_line l) as [[f|]|e] eqn:Ep.
  - apply Forall_cons in Hf as [Hf Hrest]. destruct (Hf f eq_refl i) as [s Hs]. cbn [map reader_loop List.filter is_frame].
    rewrite (tsv_round_trip_named f (now i) s) by (done || by eapply parse_tsv_line_tidy).
    constructor; [by exists f, i|]. by apply IH.
  - by apply IH.
  - apply Forall_cons in Hf as [_ Hf]. destruct strict; cbn [map reader_loop List.filter is_frame].
    + rewrite parse_strict_comment. constructor.
    + by apply IH.
Qed.

(** What is left of the frames behind a torn banner. *)
Definition missed (base : list byte) (frames : list IngestMsg) : list IngestMsg :=
  if torn base then tl frames else frames.

Lemma relay_heard strict strict' now i base reads :
  Forall (fun m => forall f, m = Frame f -> relayable now f) (reader_loop strict reads) ->
  Forall2 (stamped now) (missed base (List.filter is_frame (reader_loop strict reads)))
    (reader_loop strict' (heard base (map Ok (source_lines strict now i reads)))).
Proof.
  intros Hf. unfold missed, heard. destruct (torn base); [|by apply relay_lines].
  revert i Hf. induction reads as [|[l|e] rest IH]; intros i Hf; [constructor| |constructor].
  cbn [reader_loop source_lines] in *. destruct (parse_tsv_line l) as [[f|]|e].
  - apply Forall_cons in Hf as [_ Hf]. cbn [map skip_line List.filter is_frame tl]. by apply relay_lines.
  - by apply IH.
  - apply Forall_cons in Hf as [_ Hf]. destruct strict; [constructor|by apply IH].
Qed.
End Stdin.

(** ** Behind the spine *)

Section World.
Context {T : TimeLib} {C : Type} `{SinkLaws C}.

(** A broadcast log as texts, each with the source it comes from. *)
Definition wired (e : nat * rstr) : nat * list byte := (e.1, wire e.2).

Definition texts_of (k : nat) (log : list (nat * rstr)) : list rstr :=
  omap (fun e => if bool_decide (e.1 = k) then Some e.2 else None) log.

Lemma texts_of_app k l1 l2 : texts_of k (l1 ++ l2) = texts_of k l1 ++ texts_of k l2.
Proof. unfold texts_of. by rewrite omap_app. Qed.

Lemma messages_of_wired k log : messages_of k (map wired log) = map wire (texts_of k log).
Proof.
  unfold messages_of, texts_of. induction log as [|[p l] log IH]; [done|].
  cbn [map wired omap list_omap fst snd]. case_bool_decide; [cbn [map]; by rewrite <-IH|done].
Qed.

(** Texts are different when their bytes are. *)
Lemma map_wire_inj l1 l2 :
  Forall (text scalar_char) l1 -> Forall (text scalar_char) l2 -> map wire l1 = map wire l2 -> l1 = l2.
Proof.
  intros H1. revert l2. induction H1 as [|x l1 Hx _ IH]; intros [|y l2] H2 E; try done.
  apply Forall_cons in H2 as [Hy H2]. cbn [map] in E. injection E as Exy E. f_equal; [|by apply IH].
  assert (forall l, text scalar_char l -> utf8_decode (wire l) = Some (l ++ [LF])) as Hdec.
  { intros l Hl. apply utf8_decode_encode. apply Forall_app. split; [done|by repeat constructor]. }
  assert (Some (x ++ [LF]) = Some (y ++ [LF])) as Es by (rewrite <-!Hdec, Exy by done; done).
  apply (inj Some), app_inj_2 in Es; [by destruct Es|done].
Qed.

(** Messages of producers that keep their promise are texts. *)
Lemma wired_messages producers lss (l : list (nat * list byte)) :
  Forall2 Producer producers lss ->
  Forall (fun e => exists outs, producers !! e.1 = Some outs /\ e.2 ∈ outs) l ->
  exists log, l = map wired log /\ Forall (text scalar_char) (map snd log).
Proof.
  intros HP. induction 1 as [|[p m] l (outs & Ho & Hm) _ (log & -> & Hok)]; [by exists []|].
  cbn [fst snd] in *. destruct (Forall2_lookup_l _ _ _ _ _ HP Ho) as (pl & Hpl & [-> Hlines]).
  apply list_elem_of_In, in_map_iff in Hm as (x & <- & Hx%list_elem_of_In).
  exists ((p, x) :: log). split; [done|]. cbn. constructor; [|done]. by eapply Forall_forall in Hlines.
Qed.

Lemma texts_of_ok k log : Forall (text scalar_char) (map snd log) -> Forall (text scalar_char) (texts_of k log).
Proof.
  intros Hok. apply Forall_forall. intros x ((p & l) & Hin & E)%list_elem_of_omap. case_bool_decide; simplify_eq.
  rewrite Forall_map, Forall_forall in Hok. by apply (Hok (p, l)).
Qed.

(** The log since place [n] is a merge of the sources: every entry is one of a
    source, and each source's are in its order, without gap, and from its first
    one on if [n] is the beginning. *)
Definition merges (lss : list (list rstr)) (n : nat) (log : list (nat * rstr)) : Prop :=
  Forall (fun e => e.1 < length lss)%nat log
  /\ forall k pl, lss !! k = Some pl ->
       exists before after, pl = before ++ texts_of k log ++ after /\ (n = 0%nat -> before = []).

Lemma sent_merges producers lss (w : @World C) n :
  Forall2 Producer producers lss -> fifo producers w ->
  exists log, drop n (w_sent w) = map wired log /\ Forall (text scalar_char) (map snd log) /\ merges lss n log.
Proof.
  intros HP Hf. destruct (wired_messages producers lss (w_sent w ++ w_queue w) HP) as (log & E & Hok).
  { destruct Hf as (_ & Hp & Hf). apply Forall_forall. intros [p m] Hin.
    assert (p < length producers)%nat as [outs Ho]%lookup_lt_is_Some by (rewrite Forall_forall in Hp; by apply (Hp (p, m))).
    exists outs. split; [done|]. destruct (Hf p outs Ho) as (todo & _ & <-). apply elem_of_app. left.
    unfold messages_of. apply list_elem_of_omap. exists (p, m). split; [done|]. cbn. by rewrite bool_decide_eq_true_2. }
  set (a := length (w_sent w)). assert (w_sent w = map wired (take a log)) as Es.
  { unfold a. rewrite <-firstn_map, <-E, take_app_length. done. }
  pose proof Hok as Hok'. rewrite <-(take_drop a log), <-(take_drop n (take a log)), !map_app, !Forall_app in Hok.
  destruct Hok as [[_ Hok2] _].
  exists (drop n (take a log)). split; [by rewrite Es, skipn_map|]. split; [done|]. split.
  - destruct Hf as (_ & Hp & _). rewrite E in Hp. apply Forall_map in Hp.
    rewrite <-(Forall2_length _ _ _ HP). by apply Forall_drop, Forall_take.
  - intros k pl Hpl. destruct (Forall2_lookup_r _ _ _ _ _ HP Hpl) as (outs & Ho & [-> Hlines]).
    destruct Hf as (_ & _ & Hf). destruct (Hf k _ Ho) as (todo & _ & Et).
    rewrite E, messages_of_wired in Et. symmetry in Et. apply map_eq_app in Et as (p1 & p2 & -> & E1 & E2).
    assert (p1 = texts_of k log) as ->
      by (apply map_wire_inj; [by apply Forall_app in Hlines as [? _]|by apply texts_of_ok|done]).
    exists (texts_of k (take n (take a log))), (texts_of k (drop a log) ++ p2). split.
    + rewrite <-(take_drop a log) at 1. rewrite <-(take_drop n (take a log)) at 1. by rewrite !texts_of_app, <-!app_assoc.
    + intros ->. by rewrite take_0.
Qed.

Lemma map_snd_wired log : map snd (map wired log) = map wire (map snd log).
Proof. by rewrite !map_map. Qed.

(** What is read from a client's log and whatever comes after it. *)
Definition reads_log strict (base : list byte) (log : list (nat * rstr)) (rest : byte_stream) : list IngestMsg :=
  reader_loop strict (heard base (map Ok (text_lines (map snd log)) ++ read_lines rest)).

Lemma spine_log_read banner producers lss (w : @World C) t path strict rest err :
  Forall2 Producer producers lss -> reachable banner producers w -> t ∈ w_clients w ->
  exists log,
    drop (tr_joined t) (w_sent w) = map wired log /\ merges lss (tr_joined t) log
    /\ unix_reader_thread (Ok (mk_stream (sink_log t ++ rest) err)) path strict
       = reads_log strict (tr_base t) log (mk_stream rest err).
Proof.
  intros HP Hr Ht. pose proof (reachable_base _ _ _ Hr) as Hb. apply reachable_delivers in Hr as [Hf Hd].
  rewrite Forall_forall in Hb. specialize (Hb t Ht). eapply Forall_forall in Hd as [_ Hlog]; [|exact Ht].
  destruct (sent_merges producers lss w (tr_joined t) HP Hf) as (log & E & Hok & Hm).
  exists log. split; [done|]. split; [done|]. cbn [unix_reader_thread].
  rewrite Hlog, E, map_snd_wired. by apply (log_reads_back banner).
Qed.

(** C8: a mirror connected to the spine, in every reachable state of the daemon:
    when every source keeps the producer's promise (its messages are texts ended
    by a line feed), then the messages broadcast since the mirror joined are a
    merge of the sources' texts, each source's in its order, without gap, and from
    its first one on when the mirror was there from the start; and whatever is
    written to the mirror later, and however its connection ends, it reads the
    lines of these texts and then the rest.  The banner is skipped; only if
    writing the banner failed in the middle the first line is lost. *)
Theorem mirror_reads_spine banner producers lss (w : @World C) t path strict rest err :
  Forall2 Producer producers lss -> reachable banner producers w -> t ∈ w_clients w ->
  exists log,
    drop (tr_joined t) (w_sent w) = map wired log /\ merges lss (tr_joined t) log
    /\ unix_reader_thread (Ok (mk_stream (sink_log t ++ rest) err)) path strict
       = reader_loop strict (heard (tr_base t) (map Ok (text_lines (map snd log)) ++ read_lines (mk_stream rest err))).
Proof. apply spine_log_read. Qed.
End World.

Section StdinToMirror.
Context {T : TimeLib} {TL : TimeLaws T} {U : UnicodeTables} {C : Type} `{SinkLaws C}.

(** With one producer, its messages are all there is. *)
Lemma messages_of_only (l : list (nat * list byte)) :
  Forall (fun e => e.1 < 1)%nat l -> messages_of 0 l = map snd l.
Proof.
  induction 1 as [|[p m] l Hp _ IH]; [done|]. cbn [fst] in Hp. assert (p = 0%nat) as -> by lia.
  change ((0%nat, m) :: l) with ([(0%nat, m)] ++ l). rewrite messages_of_app, IH, messages_of_single. done.
Qed.

Lemma stdin_through_spine banner stdin strict strict' now (w : @World C) t path :
  reachable banner [spawn_stdin_source stdin strict now] w ->
  w_todo w = [[]] -> w_queue w = [] -> t ∈ w_clients w -> tr_joined t = 0%nat ->
  Forall (fun m => forall f, m = Frame f -> relayable now f) (spawn_stdin_reader stdin strict) ->
  Forall2 (stamped now) (missed (tr_base t) (List.filter is_frame (spawn_stdin_reader stdin strict)))
    (unix_reader_thread (Ok (mk_stream (sink_log t) None)) path strict').
Proof.
  intros Hr Ht Hq Hc Hj Hfr. pose proof (reachable_base _ _ _ Hr) as Hb. rewrite Forall_forall in Hb. specialize (Hb t Hc).
  apply reachable_delivers in Hr as [(_ & Hp & Hf) Hd].
  destruct (Hf 0%nat _ eq_refl) as (todo & Htodo & E). rewrite Ht in Htodo. injection Htodo as <-.
  rewrite Hq, !app_nil_r in *. rewrite messages_of_only in E by done.
  eapply Forall_forall in Hd as [_ Hlog]; [|exact Hc]. rewrite Hj, drop_0, E in Hlog.
  destruct (stdin_producer stdin strict now) as [Em Hok]. rewrite Em in Hlog. cbn [unix_reader_thread].
  rewrite <-(app_nil_r (sink_log t)), Hlog, (log_reads_back banner) by done.
  rewrite text_lines_ok by apply source_lines_ok. change (read_lines (mk_stream [] None)) with (@nil (result rstr rstr)).
  rewrite app_nil_r. by apply relay_heard.
Qed.

(** C6: input to frame table: once the daemon has relayed its whole standard
    input and nothing else, a mirror that was connected from the start has read,
    in order, exactly the frames that a reader of the daemon's strictness finds in
    that input, each with its missing timestamp filled in by the daemon's clock
    and without a flag that has no name, and no parse or I/O error, whether the
    mirror is strict or not.  Only if writing the banner to this mirror failed in
    the middle, the first frame is missing.  Assumed of the frames: the timestamp
    of each, its own or the clock's, has an RFC 3339 text. *)
Theorem spine_to_mirror banner stdin strict strict' now (w : @World C) t path :
  reachable banner [spawn_stdin_source stdin strict now] w ->
  w_todo w = [[]] -> w_queue w = [] -> t ∈ w_clients w -> tr_joined t = 0%nat ->
  Forall (fun m => forall f, m = Frame f -> relayable now f) (spawn_stdin_reader stdin strict) ->
  Forall2 (stamped now) (missed (tr_base t) (List.filter is_frame (spawn_stdin_reader stdin strict)))
    (unix_reader_thread (Ok (mk_stream (sink_log t) None)) path strict').
Proof. apply stdin_through_spine. Qed.
End StdinToMirror.

(** ** Watchers and the mirror *)

Section Watchers.
Context {T : TimeLib} {TL : TimeLaws T} {P : HealthPb}.

(** A frame that carries both times-to-live. *)
Lemma ttl_governs app f now t stale dead :
  bt_get (lit "ttl_stale_s") (f_kv f) = Some (int_to_string stale) ->
  bt_get (lit "ttl_dead_s") (f_kv f) = Some (int_to_string dead) ->
  in_i64 stale = true -> in_i64 dead = true ->
  compute_entity_liveness app (entity_of f now) t =
  compute_liveness_with_ttl (default now (f_ts f)) t
    (if 0 <? stale then stale else a_stale_s app)%Z (if 0 <? dead then dead else a_dead_s app)%Z.
Proof.
  intros Hs Hd Is Id. unfold compute_entity_liveness, parse_ttl_from_kv. cbn [e_kv e_last_seen entity_of].
  rewrite Hs, Hd. cbn [mbind option_bind]. rewrite !parse_i64_to_string by done. cbn [mbind option_bind].
  by destruct (0 <? stale)%Z, (0 <? dead)%Z.
Qed.

End Watchers.

(** ** Witnesses *)

#[local] Instance plain_tables : UnicodeTables := fun _ => false.

Definition sample_stdin : byte_stream := mk_stream (wire sample_line) None.

Definition sample_outs : list (list byte) :=
  spawn_stdin_source (T := UtcSeconds.utc_lib) sample_stdin false (fun _ => UtcSeconds.t0).

Definition sample_lines : list rstr :=
  source_lines (T := UtcSeconds.utc_lib) false (fun _ => UtcSeconds.t0) 0 (read_line_calls sample_stdin).

(** A client that joined first and has received the whole input. *)
Definition sample_client : @Tracked Pipe := mk_tracked (mk_pipe (BANNER ++ wire sample_line) 50) BANNER 0.

Definition sample_world : @World Pipe :=
  mk_world [[]] [] [sample_client] [(0%nat, wire sample_line)].

Lemma sample_outs_eq : sample_outs = [wire sample_line].
Proof. reflexivity. Qed.

Lemma sample_world_reachable : reachable (C := Pipe) true [sample_outs] sample_world.
Proof.
  rewrite sample_outs_eq.
  eapply relations.rtc_l. { apply (step_accept true _ (mk_pipe [] (length (BANNER ++ wire sample_line) + 50))). reflexivity. }
  eapply relations.rtc_l. { apply (step_send true _ 0 (wire sample_line) []). reflexivity. }
  eapply relations.rtc_l. { eapply (step_broadcast true _ 0 (wire sample_line) []). reflexivity. }
  apply relations.rtc_refl.
Qed.

Lemma sample_relayable :
  Forall (fun m => forall f, m = Frame f -> relayable (T := UtcSeconds.utc_lib) (fun _ => UtcSeconds.t0) f)
    (spawn_stdin_reader sample_stdin false).
Proof.
  change (spawn_stdin_reader (T := UtcSeconds.utc_lib) sample_stdin false) with [Frame sample_frame].
  constructor; [|constructor]. intros f E. injection E as <-. intros i. by eexists.
Qed.

(** After the only line the connection is reset in the middle of another. *)
Lemma mirror_reads_spine_witness :
  exists log, w_sent sample_world = map wired log /\ merges [sample_lines] 0 log
    /\ unix_reader_thread (T := UtcSeconds.utc_lib) (Ok (mk_stream (sink_log sample_client ++ lit "20") (Some (lit "reset")))) (lit "s") true
       = reader_loop true (heard BANNER (map Ok (text_lines (map snd log)) ++ [Err (lit "reset")])).
Proof.
  apply (mirror_reads_spine (T := UtcSeconds.utc_lib) true [sample_outs] [sample_lines] sample_world
           sample_client (lit "s") true (lit "20") (Some (lit "reset"))).
  - constructor; [|constructor]. apply (stdin_producer (T := UtcSeconds.utc_lib) sample_stdin false).
  - apply sample_world_reachable.
  - apply list_elem_of_singleton. reflexivity.
Defined.

Lemma spine_to_mirror_witness :
  Forall2 (stamped (T := UtcSeconds.utc_lib) (fun _ => UtcSeconds.t0)) [Frame sample_frame]
    (unix_reader_thread (Ok (mk_stream (sink_log sample_client) None)) (lit "s") true).
Proof.
  refine (spine_to_mirror (T := UtcSeconds.utc_lib) true sample_stdin false true (fun _ => UtcSeconds.t0) sample_world
            sample_client (lit "s") _ _ _ _ _ _).
  - apply sample_world_reachable.
  - reflexivity.
  - reflexivity.
  - apply list_elem_of_singleton. reflexivity.
  - reflexivity.
  - apply sample_relayable.
Defined.

(** A client whose banner was cut after two bytes, but that goes on reading: the
    line broadcast first is lost. *)
Example torn_banner_swallows_line :
  unix_reader_thread (T := UtcSeconds.utc_lib) (Ok (mk_stream (take 2 BANNER ++ wire sample_line) None)) (lit "s") false = [].
Proof. reflexivity. Qed.

#[local] Instance names_pb : HealthPb := {|
  status_try_from z := if Z.eqb z 1 then Some Serving else None;
  status_debug st := (status_level st).2
|}.
