(* ===== verification/Sources.v ===== *)
(** * The other sources keep the producer's promise

    [EndToEnd.v] has the promise of a source to the spine, [Producer], and the
    standard input as its first instance.  Here are the publishers of the ingest
    socket, the gRPC watches and the systemd units.  They copy texts of other code
    (error messages, states, descriptions) into their messages.  [text Q] says that
    a text has only characters of the kind [Q]: with Unicode scalar values, which
    is what Rust's strings consist of, the sources keep the promise; with
    characters that stay in their line, a message is one line.  The theorems: what
    a mirror reads of a status of a gRPC watch and of the state of a unit. *)

From S2P Require Import Prelude RustStr RustNum RustMap TimeLib Severity HawkFrame Io App RustDebug Backoff Spine.
From S2P Require Import Ingest GrpcHealth Systemd EndToEnd.

(** ** Texts, by rule *)

Lemma text_check {Q} `{!TextChars Q} l : forallb (fun c => (c <? 128)%N && negb (c =? LF)) l = true -> text Q l.
Proof.
  intros H. apply Forall_forall. intros c Hc. rewrite forallb_forall in H.
  apply list_elem_of_In in Hc. specialize (H c Hc). cbn beta in H. to_prop. apply text_ascii; [by apply N.ltb_lt|done].
Qed.

Lemma text_incl {Q} l l' : (forall c, c ∈ l -> c ∈ l') -> text Q l' -> text Q l.
Proof. intros Hin H. apply Forall_forall. intros c Hc. eapply Forall_forall in H; [exact H|by apply Hin]. Qed.

Lemma text_trim {Q} l : text Q l -> text Q (trim l).
Proof. apply text_incl. intros c. apply elem_of_trim. Qed.

Lemma text_int {Q} `{!TextChars Q} z : text Q (int_to_string z).
Proof.
  apply Forall_forall. intros c [Hd| ->]%int_to_string_chars; [|by apply text_ascii]. unfold is_digit, between in Hd.
  rewrite andb_true_iff, !N.leb_le in Hd. apply text_ascii; unfold LF; lia.
Qed.

Lemma text_debug {Q} `{!TextChars Q} `{UnicodeTables} l : text Q l -> text Q (debug_str l).
Proof.
  intros Hl. pose proof (debug_str_chars l) as Hch. pose proof (debug_str_control l) as Hco.
  apply Forall_forall. intros c Hc. eapply Forall_forall in Hch; [|exact Hc]. destruct Hch as [Hin|Hlt].
  - by eapply Forall_forall in Hl.
  - apply text_ascii; [done|]. intros ->. by apply (no_control_lacks LF (debug_str l)).
Qed.

#[export] Hint Resolve text_trim text_int text_debug : hawk.

(** Texts put together from texts. *)
Ltac text_solve :=
  repeat match goal with |- text _ (_ ++ _) => apply text_app; split end;
  first [assumption | by apply text_check | by eauto with hawk].

Ltac texts_solve :=
  cbn [f_kind f_scope f_id f_msg f_kv app];
  repeat match goal with
  | |- Forall _ (_ :: _) => apply Forall_cons_2
  | |- Forall _ [] => apply Forall_nil_2
  | |- _ /\ _ => split
  end; cbn [fst snd]; text_solve.

(** The error text of a result, if there is one. *)
Definition err_text (Q : char -> Prop) {A} (r : result A rstr) : Prop := match r with Err e => text Q e | Ok _ => True end.

(** A text or an error. *)
Definition any_text (Q : char -> Prop) (r : result rstr rstr) : Prop := match r with Ok s | Err s => text Q s end.

Lemma err_text_map {Q A} pre (r : result A rstr) : text Q pre -> err_text Q r -> err_text Q (map_err (fun e => pre ++ e) r).
Proof. destruct r; [done|]. intros Hp He. by apply text_app. Qed.

Lemma err_text_ok_or {Q A} (o : option A) e : text Q e -> err_text Q (ok_or o e).
Proof. by destruct o. Qed.

Lemma err_text_bind {Q A B} (r : result A rstr) (k : A -> result B rstr) :
  err_text Q r -> (forall a, r = Ok a -> err_text Q (k a)) -> err_text Q (let? x := r in k x).
Proof. destruct r as [a|e]; [|done]. intros _ H. by apply H. Qed.

(** ** Messages, by rule *)

Definition sends (ms : list (list byte)) : Prop := exists ls, Producer ms ls.

Lemma sends_nil : sends [].
Proof. exists []. by split. Qed.

Lemma sends_cons {Q} `{!TextChars Q} l ms : text Q l -> sends ms -> sends (wire l :: ms).
Proof. intros Hl%text_is_scalar (ls & -> & Hls). exists (l :: ls). split; [done|by constructor]. Qed.

Lemma sends_app ms1 ms2 : sends ms1 -> sends ms2 -> sends (ms1 ++ ms2).
Proof.
  intros (l1 & -> & H1) (l2 & -> & H2). exists (l1 ++ l2). split; [by rewrite map_app|by apply Forall_app].
Qed.

Lemma sends_concat mss : Forall sends mss -> sends (concat mss).
Proof. induction 1; [apply sends_nil|by apply sends_app]. Qed.

#[export] Hint Resolve sends_nil sends_app : hawk.

(** ** The ingest socket *)

Section IngestSource.
Context {T : TimeLib} {TL : TimeLaws T} {U : UnicodeTables}.

Lemma clip_raw_text raw clipped : text scalar_char raw -> clip_raw raw = Some clipped -> text scalar_char clipped.
Proof.
  intros Hr. unfold clip_raw. case_match; [|by intros [= <-]].
  destruct (truncate 240 raw) as [t|] eqn:Et; [|done]. intros [= <-]. apply text_app.
  split; [|by apply text_check]. eapply text_incl; [|exact Hr]. intros c Hc.
  apply truncate_spec in Et as [(u & -> & _)|[-> _]]; [apply elem_of_app; by left|done].
Qed.

Lemma error_frame_text now now' path raw err f :
  text scalar_char path -> text scalar_char raw -> text scalar_char err -> parse_error_frame now path raw err = Some f ->
  text scalar_char (to_tsv_line f now').
Proof.
  intros Hp Hr He Hf. destruct (clip_raw raw) as [clipped|] eqn:Ec; [|unfold parse_error_frame in Hf; by rewrite Ec in Hf].
  rewrite (parse_error_frame_some _ _ _ _ _ Ec) in Hf. apply (inj Some) in Hf. subst f.
  pose proof (clip_raw_text raw clipped Hr Ec). apply to_tsv_line_ok; split; texts_solve.
Qed.

Lemma ingest_sends strict path now i reads :
  text scalar_char path -> (forall l, Ok l ∈ reads -> line_ok l) -> sends (ingest_loop strict path now i reads).1.
Proof.
  intros Hp. revert i. induction reads as [|[l|e] rest IH]; intros i Hr; cbn [ingest_loop]; [apply sends_nil| |apply sends_nil].
  assert (line_ok l) as Hl by (apply Hr; constructor).
  assert (forall j, sends (ingest_loop strict path now j rest).1) as Hrest
    by (intros j; apply IH; intros l' Hl'; apply Hr; by constructor).
  destruct (parse_tsv_line l) as [[f|]|e] eqn:Ep.
  - specialize (Hrest (S i)). destruct (ingest_loop strict path now (S i) rest). apply (sends_cons (Q := scalar_char)); [|done].
    apply line_ok_text. eapply reemitted_line_ok; [by left|exact Hl|done].
  - apply Hrest.
  - destruct (parse_error_frame _ _ _ _) as [g|] eqn:Eg; [|apply sends_nil].
    assert (text scalar_char (to_tsv_line g (now i))) as Hg.
    { eapply error_frame_text; [exact Hp|by apply line_ok_text| |exact Eg]. apply line_ok_text. eapply debug_parse_error_line; [by left|exact Hl|done]. }
    specialize (Hrest (S i)). destruct strict; [cbn [fst]; apply (sends_cons (Q := scalar_char)); auto with hawk|].
    destruct (ingest_loop false path now (S i) rest). cbn [fst] in *. by apply (sends_cons (Q := scalar_char)).
Qed.

Lemma ingest_client_sends {C} `{Sink C} (stream : C) input path strict now :
  text scalar_char path -> sends (handle_ingest_client stream input path strict now).1.2.
Proof.
  intros Hp. unfold handle_ingest_client.
  pose proof (ingest_sends strict path now 0 (read_lines input) Hp) as Hs.
  destruct (ingest_loop strict path now 0 (read_lines input)). apply Hs. intros line. apply read_lines_shape.
Qed.
End IngestSource.

(** ** The gRPC watches *)

Section GrpcSource.
Context {T : TimeLib} {TL : TimeLaws T} {P : HealthPb} {U : UnicodeTables}.
Context (Q : char -> Prop) {HQ : TextChars Q}.

(** What the watcher is configured with. *)
Definition spec_texts (spec : WatchSpec) : Prop :=
  text Q (ws_endpoint spec) /\ text Q (ws_service spec) /\ text Q (ws_id spec).

Definition tls_texts (tls : GrpcTlsFiles) : Prop :=
  forall p, Some p ∈ [tls_ca_pem tls; tls_client_cert_pem tls; tls_client_key_pem tls] -> text Q p.

(** What files, transport and server answer in one round. *)
Definition round_texts (r : Round) : Prop :=
  (forall p, err_text Q (r_read r p))
  /\ (forall u, err_text Q (tp_from_shared (r_transport r) u))
  /\ (forall c, err_text Q (tp_tls_config (r_transport r) c))
  /\ err_text Q (tp_connect (r_transport r)) /\ err_text Q (r_watch r) /\ Forall (err_text Q) (r_items r).

Definition status_texts : Prop := forall st, text Q (status_debug st).

Lemma build_tls_lines read uri tls :
  tls_texts tls -> (forall p, err_text Q (read p)) -> err_text Q (build_tls_config read uri tls).
Proof.
  intros Ht Hr. unfold build_tls_config.
  assert (forall o e, text Q e -> err_text Q (ok_or o e : result rstr rstr)) as Hor by (intros; by apply err_text_ok_or).
  assert (forall what p, text Q what -> text Q p ->
            err_text Q (map_err (fun e => what ++ debug_str p ++ lit ": " ++ e) (read p))) as Hread.
  { intros what p Hw Hp. specialize (Hr p). destruct (read p); [done|]. cbn [err_text map_err any_text fst snd] in *. text_solve. }
  apply err_text_bind; [apply Hor; text_solve|]. intros ca Hca.
  assert (text Q ca) by (apply Ht; destruct (tls_ca_pem tls); [injection Hca as ->; set_solver|done]).
  apply err_text_bind; [apply Hread; text_solve|]. intros pem _.
  apply err_text_bind; [destruct (tls_domain_name tls); [done|apply Hor; text_solve]|]. intros dom _. cbn zeta.
  destruct (tls_mode tls); [done..|].
  apply err_text_bind; [apply Hor; text_solve|]. intros cert Hcert.
  apply err_text_bind; [apply Hor; text_solve|]. intros key Hkey.
  assert (text Q cert) by (apply Ht; destruct (tls_client_cert_pem tls); [injection Hcert as ->; set_solver|done]).
  assert (text Q key) by (apply Ht; destruct (tls_client_key_pem tls); [injection Hkey as ->; set_solver|done]).
  apply err_text_bind; [apply Hread; text_solve|]. intros ? _.
  apply err_text_bind; [apply Hread; text_solve|]. done.
Qed.

Lemma connect_lines spec tls r :
  spec_texts spec -> tls_texts tls -> round_texts r ->
  err_text Q (connect_channel (r_read r) (r_transport r) spec tls).
Proof.
  intros (He & _) Ht (Hread & Hsh & Htls & Hc & _). unfold connect_channel. cbn zeta.
  assert (text Q (normalize_endpoint_uri (ws_endpoint spec) (tls_mode tls))) as Hu.
  { unfold normalize_endpoint_uri. cbn zeta. case_match; [text_solve|]. destruct (tls_mode tls); text_solve. }
  set (uri := normalize_endpoint_uri _ _) in *.
  apply err_text_bind; [specialize (Hsh uri); destruct (tp_from_shared _ uri); cbn [err_text map_err any_text fst snd] in *; [done|text_solve]|]. intros _ _.
  apply err_text_bind.
  - destruct (tls_mode tls); [done|..]; (apply err_text_bind; [by apply build_tls_lines|]; intros cfg _;
      apply err_text_bind; [|done]; apply err_text_map; [by apply text_check|apply Htls]).
  - intros o _. apply err_text_bind; [apply err_text_map; [by apply text_check|done]|done].
Qed.

Lemma status_line spec cfg st now now' :
  spec_texts spec -> text Q (status_debug st) -> text Q (to_tsv_line (status_frame spec cfg st now) now').
Proof.
  intros (He & Hs & Hi) Hst. pose proof (status_frame_kv spec cfg st now) as Ekv.
  apply to_tsv_line_ok. split; [|rewrite Ekv; texts_solve].
  unfold status_frame. destruct st; cbn [status_level]; texts_solve.
Qed.

Lemma grpc_error_line spec cfg msg err now now' :
  spec_texts spec -> text Q msg -> text Q err ->
  text Q (to_tsv_line (GrpcHealth.error_frame spec cfg msg err now) now').
Proof.
  intros (He & Hs & Hi) Hm Herr. apply to_tsv_line_ok.
  split; [unfold GrpcHealth.error_frame|rewrite error_frame_kv]; texts_solve.
Qed.

Lemma stream_sends spec cfg now i items :
  spec_texts spec -> status_texts -> Forall (err_text Q) items -> sends (stream_loop spec cfg now i items).
Proof.
  intros Hspec Hst Hi. revert i. induction Hi as [|[z|e] items He _ IH]; intros i; cbn [stream_loop]; [apply sends_nil|..].
  - apply (sends_cons (Q := Q)); [by apply status_line; [|apply Hst]|apply IH].
  - apply (sends_cons (Q := Q)); [|apply sends_nil]. apply grpc_error_line; [done|by apply text_check|done].
Qed.

Lemma watch_sends spec cfg tls backoff rounds :
  spec_texts spec -> tls_texts tls -> status_texts -> Forall round_texts rounds ->
  sends (concat (map fst (watch_one spec cfg tls backoff rounds))).
Proof.
  intros Hspec Htls Hst Hr. revert backoff. induction Hr as [|r rounds Hr _ IH]; intros b; cbn [watch_one]; [apply sends_nil|].
  destruct (watch_round spec cfg tls b r) as [[ms pause] b'] eqn:E. cbn [map concat fst].
  apply sends_app; [|apply IH]. unfold watch_round in E. pose proof (connect_lines spec tls r Hspec Htls Hr) as Hc.
  assert (forall msg err, text Q msg -> text Q err ->
    sends [GrpcHealth.emit_error_frame spec cfg msg err (r_now r 0) (r_now r 1)]) as Herr.
  { intros msg err Hm He. apply (sends_cons (Q := Q)); [by apply grpc_error_line|apply sends_nil]. }
  destruct Hr as (_ & _ & _ & _ & Hw & Hit).
  destruct (connect_channel _ _ _ _); [|simplify_eq; apply Herr; [by apply text_check|done]].
  destruct (r_watch r); simplify_eq; [by apply stream_sends|apply Herr; [by apply text_check|done]].
Qed.
End GrpcSource.

(** ** The systemd units *)

Section SystemdSource.
Context {T : TimeLib} {TL : TimeLaws T}.
Context (Q : char -> Prop) {HQ : TextChars Q}.

Definition unit_texts (spec : UnitSpec) : Prop := text Q (us_unit spec) /\ text Q (us_id spec).

Definition props_texts (p : UnitProps) : Prop :=
  any_text Q (up_active p) /\ any_text Q (up_sub p) /\ any_text Q (up_load p) /\ any_text Q (up_desc p).

(** What the bus answers in one session. *)
Definition session_texts (ss : Session) : Prop :=
  err_text Q (ss_connect ss) /\ err_text Q (ss_manager ss) /\ (forall u, err_text Q (ss_get_unit ss u))
  /\ (forall p, err_text Q (ss_unit_path ss p)) /\ err_text Q (ss_unit_build ss) /\ err_text Q (ss_props_destination ss)
  /\ (forall p, err_text Q (ss_props_path ss p)) /\ err_text Q (ss_props_build ss)
  /\ props_texts (ss_first ss) /\ err_text Q (ss_receive ss) /\ Forall props_texts (ss_changes ss).

Lemma snapshot_line spec cfg now active sub load desc :
  unit_texts spec -> text Q active -> text Q sub -> text Q load -> text Q desc ->
  text Q (to_tsv_line (snapshot_frame spec cfg now active sub load desc) now).
Proof.
  intros [Hu Hi] Ha Hs Hl Hd. pose proof (snapshot_frame_kv spec cfg now active sub load desc) as Ekv.
  apply to_tsv_line_ok. split; [|rewrite Ekv]; [unfold snapshot_frame; texts_solve|].
  destruct (is_empty desc); texts_solve.
Qed.

Lemma unit_error_line spec cfg msg err now :
  unit_texts spec -> text Q msg -> text Q err ->
  text Q (to_tsv_line (Systemd.error_frame spec cfg msg err now) now).
Proof.
  intros [Hu Hi] Hm He. apply to_tsv_line_ok. split; [unfold Systemd.error_frame; texts_solve|].
  change (f_kv (Systemd.error_frame spec cfg msg err now)) with
    [(lit "error", err); (lit "ttl_dead_s", int_to_string (s_ttl_dead_s cfg));
     (lit "ttl_stale_s", int_to_string (s_ttl_stale_s cfg)); (lit "unit", us_unit spec)].
  texts_solve.
Qed.

(** A snapshot is a line, and so is the error in its place. *)
Lemma snapshot_sends spec cfg now p :
  unit_texts spec -> props_texts p ->
  match emit_snapshot_frame spec cfg now p with Ok m => sends [m] | Err e => text Q e end.
Proof.
  intros Hu (Ha & Hs & Hl & Hd). unfold emit_snapshot_frame.
  destruct (up_active p) as [a|e]; cbn [err_text map_err any_text fst snd] in *; [|text_solve].
  destruct (up_sub p) as [s|e]; cbn [err_text map_err any_text fst snd] in *; [|text_solve].
  destruct (up_load p) as [l|e]; cbn [err_text map_err any_text fst snd] in *; [|text_solve].
  apply (sends_cons (Q := Q)); [|apply sends_nil]. apply snapshot_line; try done.
  destruct (up_desc p); [done|by apply text_check].
Qed.

Lemma changes_sends spec cfg now i changes :
  unit_texts spec -> Forall props_texts changes ->
  sends (changes_loop spec cfg now i changes).1 /\ err_text Q (changes_loop spec cfg now i changes).2.
Proof.
  intros Hu Hc. revert i. induction Hc as [|p changes Hp _ IH]; intros i; cbn [changes_loop].
  { split; [apply sends_nil|]. by apply text_check. }
  pose proof (snapshot_sends spec cfg (now i) p Hu Hp) as Hs.
  destruct (emit_snapshot_frame spec cfg (now i) p) as [m|e]; [|split; [apply sends_nil|done]].
  destruct (IH (S i)) as [H1 H2]. destruct (changes_loop spec cfg now (S i) changes) as [ms r].
  split; [by apply (sends_app [m])|done].
Qed.

Lemma session_sends spec cfg ss :
  unit_texts spec -> session_texts ss ->
  sends (watch_one_unit_once spec cfg ss).1 /\ err_text Q (watch_one_unit_once spec cfg ss).2.
Proof.
  intros Hu (H1 & H2 & H3 & H4 & H5 & H6 & H7 & H8 & Hf & Hr & Hc).
  assert (err_text Q (open_unit spec ss)) as Ho.
  { unfold open_unit. destruct Hu as [Hunit _].
    repeat (apply err_text_bind; [|intros ? _]); try done;
      try (apply err_text_map; [by apply text_check|done]).
    specialize (H3 (us_unit spec)). destruct (ss_get_unit ss _); [done|]. cbn [err_text map_err any_text fst snd] in *. text_solve. }
  unfold watch_one_unit_once. destruct (open_unit spec ss); [|split; [apply sends_nil|done]].
  pose proof (snapshot_sends spec cfg (ss_now ss 0) (ss_first ss) Hu Hf) as Hs.
  destruct (emit_snapshot_frame _ _ _ _) as [m|e]; [|split; [apply sends_nil|done]].
  destruct (ss_receive ss) as [[]|e]; cbn [map_err]; [|split; [done|]; cbn [err_text map_err any_text fst snd] in *; text_solve].
  destruct (changes_sends spec cfg (ss_now ss) 1 (ss_changes ss) Hu Hc) as [G1 G2].
  destruct (changes_loop _ _ _ _ _) as [ms r]. split; [by apply (sends_app [m])|done].
Qed.

Lemma unit_sends spec cfg backoff sessions :
  unit_texts spec -> Forall (fun x => session_texts x.1) sessions ->
  sends (concat (map fst (watch_one_unit spec cfg backoff sessions))).
Proof.
  intros Hu Hs. revert backoff. induction Hs as [|[ss now] sessions Hss _ IH]; intros b; cbn [watch_one_unit]; [apply sends_nil|].
  destruct (session_sends spec cfg ss Hu Hss) as [H1 H2]. destruct (watch_one_unit_once spec cfg ss) as [ms [[]|e]].
  - apply sends_app; [done|apply IH].
  - cbn [map concat fst]. apply sends_app; [|apply IH]. apply sends_app; [done|].
    apply (sends_cons (Q := Q)); [|apply sends_nil]. apply unit_error_line; [done|by apply text_check|done].
Qed.
End SystemdSource.

(** ** Properties *)

(** One message, read back. *)
Lemma one_line_read {T : TimeLib} l f path strict :
  line_ok l -> parse_tsv_line l = Ok (Some f) ->
  unix_reader_thread (Ok (mk_stream (wire l) None)) path strict = [Frame f].
Proof.
  intros Hl Hp. cbn [unix_reader_thread].
  replace (wire l) with (concat (map wire [l]) ++ []) by (cbn; by rewrite !app_nil_r).
  rewrite (read_wire [l]) by (constructor; [by apply line_ok_text|constructor]).
  rewrite reader_loop_strip, text_lines_ok by (by constructor). cbn. by rewrite Hp.
Qed.

Section Properties.
Context {T : TimeLib} {TL : TimeLaws T} {P : HealthPb}.

(** C21: a status of the gRPC watcher is one line, and a mirror that reads it has
    under the key [grpc:id] an entity with the level and the text of the status
    (serving is ok, not serving fails, an unknown service warns, unknown is
    unknown), seen at the time of the status; its liveness follows the watcher's
    times-to-live, where they are positive, instead of the mirror's own.  Assumed:
    endpoint, service, id and the name of the status fit in a frame (no tab,
    semicolon or line feed, no blanks at the ends), the time has an RFC 3339 text,
    the times-to-live are 64-bit integers. *)
Theorem grpc_status_in_mirror spec cfg st now now' s app t0 t path strict :
  clean_spec spec -> spec_texts line_char spec ->
  clean_value (status_debug st) = true -> line_ok (status_debug st) -> odt_format now = Some s ->
  in_i64 (g_ttl_stale_s cfg) = true -> in_i64 (g_ttl_dead_s cfg) = true -> app_ok app ->
  exists f ent,
    unix_reader_thread (Ok (mk_stream (emit_status_frame spec cfg st now now') None)) path strict = [Frame f]
    /\ bt_get (lit "grpc:" ++ ws_id spec) (a_entities (ingest app (Frame f) t0)) = Some ent
    /\ (e_last_level ent, e_last_msg ent) =
       match st with
       | Serving => (Level.Ok, lit "SERVING")
       | NotServing => (Level.Fail, lit "NOT_SERVING")
       | ServiceUnknown => (Level.Warn, lit "SERVICE_UNKNOWN")
       | Unknown => (Level.Unknown, lit "UNKNOWN")
       end
    /\ e_last_seen ent = now
    /\ compute_entity_liveness (ingest app (Frame f) t0) ent t =
       compute_liveness_with_ttl now t
         (if 0 <? g_ttl_stale_s cfg then g_ttl_stale_s cfg else a_stale_s app)%Z
         (if 0 <? g_ttl_dead_s cfg then g_ttl_dead_s cfg else a_dead_s app)%Z.
Proof.
  intros Hspec Hlines Hst Hstl Hs Is Id Happ. set (f := status_frame spec cfg st now).
  assert (f_ts f = Some now /\ f_scope f = lit "grpc" /\ f_id f = ws_id spec) as (Ets & Esc & Eid) by (by destruct st).
  exists (stamp now' f), (entity_of (stamp now' f) t0). split.
  { apply one_line_read; [by apply (status_line line_char)|].
    apply (tsv_round_trip_aux f now' s); [by apply status_frame_clean|by rewrite Ets]. }
  split; [|split; [|split]].
  - rewrite ingest_entity by apply Happ. cbn [stamp f_scope f_id]. rewrite Esc, Eid.
    by rewrite bool_decide_eq_true_2.
  - by destruct st.
  - cbn [entity_of e_last_seen stamp f_ts]. by rewrite Ets.
  - rewrite (ttl_governs _ _ _ _ (g_ttl_stale_s cfg) (g_ttl_dead_s cfg)); try done;
      cbn [stamp f_kv f_ts]; unfold f; rewrite ?status_frame_kv; try reflexivity.
    fold f. by rewrite Ets.
Qed.

(** The level of a unit's state (in lower case): a missing or failed unit fails;
    otherwise the activity decides. *)
Inductive unit_level (active sub load : rstr) : Level.t -> Prop :=
| level_fail :
    load = lit "not-found" \/ active = lit "failed" \/ sub = lit "failed" -> unit_level active sub load Level.Fail
| level_other level :
    load ≠ lit "not-found" -> active ≠ lit "failed" -> sub ≠ lit "failed" ->
    (active, level) ∈ [(lit "active", Level.Ok); (lit "activating", Level.Info); (lit "reloading", Level.Info);
                       (lit "deactivating", Level.Warn); (lit "inactive", Level.Warn)]
    \/ level = Level.Unknown
       /\ active ∉ [lit "active"; lit "activating"; lit "reloading"; lit "deactivating"; lit "inactive"] ->
    unit_level active sub load level.

Lemma unit_level_mapped active sub load :
  unit_level (to_ascii_lowercase active) (to_ascii_lowercase sub) (to_ascii_lowercase load) (map_systemd_level active sub load).
Proof.
  unfold map_systemd_level. cbn zeta. generalize (to_ascii_lowercase active) (to_ascii_lowercase sub) (to_ascii_lowercase load).
  intros a s l. case_bool_decide as Hl; [constructor; auto|].
  case_bool_decide as Ha; [constructor; auto|]. case_bool_decide as Hs; [constructor; auto|]. cbn [orb].
  apply level_other; [done..|]. rewrite !not_elem_of_cons.
  repeat (case_bool_decide; [left; subst a; cbn [orb]; rewrite !elem_of_cons; tauto|]). cbn [orb].
  pose proof (not_elem_of_nil a). tauto.
Qed.

(** C36: the state of a unit, when all its properties are read, is one line, and a
    mirror reads from it exactly one frame: a health frame of the unit's id with
    the level of the state (fail for a missing or failed unit, else ok for active,
    info for activating and reloading, warn for deactivating and inactive, unknown
    for the rest, whatever the case of the letters), the message [active:sub], and a bag with the
    state, the description unless it is empty, the unit and the configured
    times-to-live.  Assumed: the texts fit in a frame (no tab, semicolon or line
    feed, no blanks at the ends) and the time has an RFC 3339 text. *)
Theorem snapshot_read_back spec cfg now s active sub load desc path strict :
  clean_unit spec -> unit_texts line_char spec ->
  Forall (fun s => clean_value s = true /\ line_ok s) [active; sub; load; desc] ->
  odt_format now = Some s ->
  exists line level,
    unit_level (to_ascii_lowercase active) (to_ascii_lowercase sub) (to_ascii_lowercase load) level
    /\ emit_snapshot_frame spec cfg now (mk_props (Ok active) (Ok sub) (Ok load) (Ok desc)) = Ok (wire line)
    /\ LF ∉ line
    /\ unix_reader_thread (Ok (mk_stream (wire line) None)) path strict
       = [Frame (mk_frame (Some now) (lit "HEALTH") (lit "systemd") (us_id spec) level
                   (active ++ lit ":" ++ sub)
                   ([(lit "active", active)] ++ (if desc =? [] then [] else [(lit "desc", desc)])
                    ++ [(lit "load", load); (lit "sub", sub); (lit "ttl_dead_s", int_to_string (s_ttl_dead_s cfg));
                        (lit "ttl_stale_s", int_to_string (s_ttl_stale_s cfg)); (lit "unit", us_unit spec)]))].
Proof.
  intros Hu Hul Hall Hs. set (f := snapshot_frame spec cfg now active sub load desc).
  assert (Forall (fun s => clean_value s = true) [active; sub; load; desc]) as Hclean
    by (eapply Forall_impl; [exact Hall|]; by intros ? []).
  repeat (apply Forall_cons in Hall as [[_ ?] Hall]).
  assert (line_ok (to_tsv_line f now)) as Hl by (by apply (snapshot_line line_char)).
  exists (to_tsv_line f now), (map_systemd_level active sub load). split; [apply unit_level_mapped|].
  split; [done|]. split; [by apply line_ok_no_lf|].
  rewrite (one_line_read _ f); [|done|rewrite (tsv_round_trip_aux f now s); [done|by apply snapshot_frame_clean|done]].
  do 2 f_equal. unfold f. pose proof (snapshot_frame_kv spec cfg now active sub load desc) as Ek.
  destruct (snapshot_frame spec cfg now active sub load desc) eqn:E. cbn in Ek. unfold snapshot_frame in E.
  injection E as <- <- <- <- <- <- _. subst. do 2 f_equal. by destruct desc.
Qed.
End Properties.

(** ** Witnesses *)

#[local] Existing Instance names_pb.

Lemma grpc_status_in_mirror_witness :
  exists f ent,
    unix_reader_thread (Ok (mk_stream (emit_status_frame (T := UtcSeconds.utc_lib) GrpcHealth.demo_spec (mk_grpc_cfg 3600 0) NotServing
                                         UtcSeconds.t0 UtcSeconds.t1) None)) (lit "s") true = [Frame f]
    /\ e_last_level ent = Level.Fail
    /\ compute_entity_liveness (T := UtcSeconds.utc_lib) (ingest (T := UtcSeconds.utc_lib) (app_new 5 10 30) (Frame f) UtcSeconds.t1)
         ent UtcSeconds.t1
       = compute_liveness_with_ttl (T := UtcSeconds.utc_lib) UtcSeconds.t0 UtcSeconds.t1 3600 30.
Proof.
  destruct (grpc_status_in_mirror (T := UtcSeconds.utc_lib) GrpcHealth.demo_spec (mk_grpc_cfg 3600 0) NotServing
              UtcSeconds.t0 UtcSeconds.t1 (lit "2026-02-16T12:34:56Z") (app_new 5 10 30) UtcSeconds.t1 UtcSeconds.t1 (lit "s") true)
    as (f & ent & H1 & _ & H2 & _ & H3);
    [by repeat split|repeat split; by apply text_check|reflexivity|by apply text_check|reflexivity|reflexivity|reflexivity|apply app_new_ok|].
  exists f, ent. split; [exact H1|]. split; [by injection H2|exact H3].
Defined.

Lemma snapshot_read_back_witness :
  exists line level,
    emit_snapshot_frame (T := UtcSeconds.utc_lib) demo_unit (mk_systemd_cfg 10 20) UtcSeconds.t0
      (mk_props (Ok (lit "active")) (Ok (lit "running")) (Ok (lit "loaded")) (Ok (lit "Hawk spine"))) = Ok (wire line)
    /\ LF ∉ line
    /\ unix_reader_thread (T := UtcSeconds.utc_lib) (Ok (mk_stream (wire line) None)) (lit "s") true
       = [Frame (@mk_frame UtcSeconds.utc_lib (Some UtcSeconds.t0) (lit "HEALTH") (lit "systemd") (us_id demo_unit) level
                   (lit "active:running")
                   [(lit "active", lit "active"); (lit "desc", lit "Hawk spine"); (lit "load", lit "loaded"); (lit "sub", lit "running");
                    (lit "ttl_dead_s", lit "20"); (lit "ttl_stale_s", lit "10"); (lit "unit", us_unit demo_unit)])].
Proof.
  destruct (snapshot_read_back (T := UtcSeconds.utc_lib) demo_unit (mk_systemd_cfg 10 20) UtcSeconds.t0
              (lit "2026-02-16T12:34:56Z") (lit "active") (lit "running") (lit "loaded") (lit "Hawk spine") (lit "s") true)
    as (line & level & _ & H1 & H2 & Hr);
    [by repeat split|split; by apply text_check
    |repeat (apply Forall_cons_2; [split; [reflexivity|by apply text_check]|]); apply Forall_nil_2|reflexivity|].
  exists line, level. split; [exact H1|]. split; [exact H2|]. exact Hr.
Defined.
