(* ===== verification/HawkdMain.v ===== *)
(** * [crates/hawkd/src/main.rs]: the daemon put together

    The command line of the daemon and its [main]: the two sockets, the sources
    it starts and the spine they feed.  What the outside delivers to each source
    is a record.  The theorems: when start-up succeeds, who then answers at which
    path and how many producers run; in every configuration and in every state of
    the threads, what a mirror on the daemon's socket reads are the lines of a merge
    of the texts of all sources; and in every fair run that no peer blocks, it has at
    some time read all of them.  The sources copy texts of other code, and nothing
    is assumed of these but what Rust's [String] guarantees, [outside_texts]. *)

From stdpp Require Import gmap.
From S2P Require Import Prelude RustStr RustNum RustMap RustPath RustSock TimeLib Severity HawkFrame Io App RustDebug.
From S2P Require Import Backoff Spine SpineThreads SpineLiveness Ingest GrpcHealth Systemd EndToEnd Sources.

Module Source.
Inductive t := Stdin | None.
End Source.

Record Cli := mk_cli {
  c_socket_path : rstr;
  c_overwrite : bool;
  c_ingest_path : option rstr;
  c_ingest_overwrite : bool;
  c_strict : bool;
  c_source : Source.t;
  c_client_banner : bool;
  c_watches : list WatchSpec;
  c_units : list UnitSpec;
  c_grpc_tls_mode : GrpcTlsMode;
  c_grpc_ca : option rstr;
  c_grpc_domain : option rstr;
  c_grpc_cert : option rstr;
  c_grpc_key : option rstr;
  c_systemd_ttl_stale_s : Z;
  c_systemd_ttl_dead_s : Z;
  c_grpc_ttl_stale_s : Z;
  c_grpc_ttl_dead_s : Z
}.

Section Main.
Context {T : TimeLib} {P : HealthPb} {U : UnicodeTables} {D : Type} `{Sink D}.

(** What the outside delivers: the socket files at start and what the system
    allows, the standard input, the publishers of the ingest socket (their
    streams are of type [D]), the rounds of each watcher, and the clocks. *)
Record Outside := mk_outside {
  ou_os : SockOs;
  ou_sockets : sockets;
  ou_stdin : byte_stream;
  ou_stdin_now : nat -> OffsetDateTime;
  ou_incoming : list (result (D * byte_stream) rstr);
  ou_ingest_now : nat -> nat -> OffsetDateTime;
  ou_rounds : nat -> list Round;
  ou_sessions : nat -> list (Session * OffsetDateTime)
}.

Definition grpc_config (cli : Cli) : GrpcWatchConfig :=
  mk_grpc_cfg (c_grpc_ttl_stale_s cli) (c_grpc_ttl_dead_s cli).

Definition grpc_tls (cli : Cli) : GrpcTlsFiles :=
  mk_tls_files (c_grpc_tls_mode cli) (c_grpc_ca cli) (c_grpc_cert cli) (c_grpc_key cli) (c_grpc_domain cli).

Definition systemd_config (cli : Cli) : SystemdWatchConfig :=
  mk_systemd_cfg (c_systemd_ttl_stale_s cli) (c_systemd_ttl_dead_s cli).

(** The socket files and the producers, in the order in which [main] starts them,
    or the error it returns.  The accept loop and the broadcast loop over their
    messages are [SpineThreads.tstep]; the broadcast loop has no end, since [main]
    keeps a sender of its own. *)
Definition main (pf : Platform) (cli : Cli) (ou : Outside) : result (sockets * list (list (list byte))) anyhow :=
  match pf with
  | NotUnix => Err [lit "hawkd requires a unix platform (WSL, Linux, macOS) for Unix sockets"]
  | Unix =>
      let? fs := with_context (lit "bind broadcast socket at " ++ debug_str (c_socket_path cli))
                   (from_err (listen (ou_os ou) (ou_sockets ou) (c_overwrite cli) (c_socket_path cli) Broadcast)) in
      let? started :=
        match c_ingest_path cli with
        | Some ingest_path =>
            spawn_unix_ingest pf (ou_os ou) fs ingest_path (c_ingest_overwrite cli) (c_strict cli)
              (ou_ingest_now ou) (ou_incoming ou)
        | None => Ok (fs, [])
        end in
      let '(fs, ingest) := started in
      let stdin :=
        match c_source cli with
        | Source.Stdin => [spawn_stdin_source (ou_stdin ou) (c_strict cli) (ou_stdin_now ou)]
        | Source.None => []
        end in
      let grpc :=
        if bool_decide (c_watches cli = []) then []
        else spawn_watchers (c_watches cli) (grpc_config cli) (grpc_tls cli) (ou_rounds ou) in
      let systemd :=
        if bool_decide (c_units cli = []) then []
        else spawn_unit_watchers (c_units cli) (systemd_config cli) (ou_sessions ou) in
      Ok (fs, ingest ++ stdin ++ grpc ++ systemd)
  end.

(** ** What [main] starts *)

(** The producers of each kind. *)
Definition ingest_sources (cli : Cli) (ou : Outside) : list (list (list byte)) :=
  match c_ingest_path cli with
  | Some p => accept_publishers p (c_strict cli) (ou_ingest_now ou) (ou_incoming ou)
  | None => []
  end.

Definition stdin_sources (cli : Cli) (ou : Outside) : list (list (list byte)) :=
  match c_source cli with
  | Source.Stdin => [spawn_stdin_source (ou_stdin ou) (c_strict cli) (ou_stdin_now ou)]
  | Source.None => []
  end.

Definition grpc_sources (cli : Cli) (ou : Outside) : list (list (list byte)) :=
  imap (fun k spec => concat (map fst (watch_one spec (grpc_config cli) (grpc_tls cli) initial_backoff_ms (ou_rounds ou k))))
    (c_watches cli).

Definition systemd_sources (cli : Cli) (ou : Outside) : list (list (list byte)) :=
  imap (fun k spec => concat (map fst (watch_one_unit spec (systemd_config cli) initial_backoff_ms (ou_sessions ou k))))
    (c_units cli).

(** The broadcast socket is up. *)
Definition broadcast_up (cli : Cli) (ou : Outside) : sockets := <[c_socket_path cli := Broadcast]> (ou_sockets ou).

Definition can_start (cli : Cli) (ou : Outside) : bool :=
  available (ou_os ou) (ou_sockets ou) (c_overwrite cli) (c_socket_path cli)
  && match c_ingest_path cli with
     | Some p => available (ou_os ou) (broadcast_up cli ou) (c_ingest_overwrite cli) p
     | None => true
     end.

Definition sockets_up (cli : Cli) (ou : Outside) : sockets :=
  match c_ingest_path cli with Some p => <[p := IngestPort]> (broadcast_up cli ou) | None => broadcast_up cli ou end.

Lemma main_unix cli ou :
  if can_start cli ou
  then main Unix cli ou =
       Ok (sockets_up cli ou, ingest_sources cli ou ++ stdin_sources cli ou ++ grpc_sources cli ou ++ systemd_sources cli ou)
  else is_ok (main Unix cli ou) = false.
Proof.
  unfold can_start, main, with_context, from_err, spawn_unix_ingest, ingest_sources, sockets_up, grpc_sources, systemd_sources,
    spawn_watchers, spawn_unit_watchers.
  rewrite listen_ok. destruct (available _ _ (c_overwrite cli) _); cbn [andb map_err is_ok]; [|done].
  fold (broadcast_up cli ou).
  destruct (c_ingest_path cli) as [p|].
  - unfold from_err. rewrite listen_ok. destruct (available _ _ (c_ingest_overwrite cli) _); cbn [map_err is_ok]; [|done].
    destruct (c_watches cli), (c_units cli); by rewrite ?bool_decide_eq_true_2, ?bool_decide_eq_false_2 by done.
  - destruct (c_watches cli), (c_units cli); by rewrite ?bool_decide_eq_true_2, ?bool_decide_eq_false_2 by done.
Qed.

Lemma main_inv pf cli ou fs producers :
  main pf cli ou = Ok (fs, producers) ->
  pf = Unix /\ can_start cli ou = true /\ fs = sockets_up cli ou
  /\ producers = ingest_sources cli ou ++ stdin_sources cli ou ++ grpc_sources cli ou ++ systemd_sources cli ou.
Proof.
  intros Hm. destruct pf; [|done]. pose proof (main_unix cli ou) as Hu. destruct (can_start cli ou).
  - rewrite Hu in Hm. apply (inj Ok) in Hm. by simplify_eq.
  - by rewrite Hm in Hu.
Qed.

(** ** Every source keeps its promise *)

(** The texts that other code gives to the sources are [String]s: they consist of
    Unicode scalar values.  They may contain line feeds. *)
Record outside_texts (cli : Cli) (ou : Outside) : Prop := {
  ot_ingest : forall p, c_ingest_path cli = Some p -> text scalar_char p;
  ot_specs : Forall (spec_texts scalar_char) (c_watches cli);
  ot_tls : tls_texts scalar_char (grpc_tls cli);
  ot_status : status_texts scalar_char;
  ot_rounds : forall k, Forall (round_texts scalar_char) (ou_rounds ou k);
  ot_units : Forall (unit_texts scalar_char) (c_units cli);
  ot_sessions : forall k, Forall (fun x => session_texts scalar_char x.1) (ou_sessions ou k)
}.

Context {TL : TimeLaws T}.

Lemma imap_sends {X} (f : nat -> X -> list (list byte)) l :
  (forall k x, x ∈ l -> sends (f k x)) -> Forall sends (imap f l).
Proof.
  intros Hf. apply Forall_lookup_2. intros k ms Hk. rewrite list_lookup_imap in Hk.
  apply fmap_Some in Hk as (x & Hx & ->). apply Hf. by eapply list_elem_of_lookup_2.
Qed.

Lemma daemon_sends cli ou :
  outside_texts cli ou ->
  Forall sends (ingest_sources cli ou ++ stdin_sources cli ou ++ grpc_sources cli ou ++ systemd_sources cli ou).
Proof.
  intros Hol. rewrite !Forall_app. repeat split.
  - unfold ingest_sources. destruct (c_ingest_path cli) as [p|] eqn:Ep; [|constructor]. apply imap_sends. intros k c _.
    apply ingest_client_sends. by eapply ot_ingest.
  - unfold stdin_sources. destruct (c_source cli); [|constructor]. constructor; [|constructor]. by eexists; apply stdin_producer.
  - apply imap_sends. intros k spec Hs. apply (watch_sends scalar_char); [|apply Hol..].
    pose proof (ot_specs _ _ Hol) as Hw. by eapply Forall_forall in Hw.
  - apply imap_sends. intros k spec Hs. apply (unit_sends scalar_char); [|apply Hol].
    pose proof (ot_units _ _ Hol) as Hw. by eapply Forall_forall in Hw.
Qed.

Lemma sends_producers mss : Forall sends mss -> exists lss, Forall2 Producer mss lss.
Proof.
  induction 1 as [|ms mss [ls Hls] _ [lss IH]]; [by exists []|]. exists (ls :: lss). by constructor.
Qed.

(** ** The daemon and a mirror *)

Context {C : Type} `{SL : StreamLaws C} {LS : LiveStream C}.

(** What a mirror reads, at every moment of the threads, and whatever comes
    later: the messages it has in full, and its part of the current one. *)
Lemma daemon_log_read banner producers lss (s : @Threads C) k t path strict rest err :
  Forall2 Producer producers lss -> treachable banner producers s -> th_clients s !! k = Some t ->
  exists log,
    drop (tr_joined t) (th_sent s) = map wired log /\ Forall (text scalar_char) (map snd log)
    /\ merges lss (tr_joined t) log
    /\ unix_reader_thread (Ok (mk_stream (st_log (tr_sink t) ++ rest) err)) path strict
       = reads_log strict (tr_base t) log (mk_stream (current_part s k ++ rest) err).
Proof.
  intros HP Hr Hk. pose proof (Forall_lookup_1 _ _ _ _ (threads_base _ _ _ Hr) Hk) as Hb.
  destruct (threads_received _ _ _ _ _ Hr Hk) as [_ Hlog].
  destruct (reachable_simulated _ _ _ Hr) as [_ Hs]. destruct (any_fates s) as [fates Hl].
  destruct (Hs fates Hl) as (w & [Hf _]%reachable_delivers & _ & Hsent & _).
  destruct (sent_merges producers lss w (tr_joined t) HP Hf) as (log & E & Hok & Hm). rewrite Hsent in E.
  exists log. split; [done|]. split; [done|]. split; [done|]. cbn [unix_reader_thread]. unfold reads_log.
  rewrite Hlog, E, map_snd_wired, app_assoc, <-(app_assoc _ _ rest). by apply (log_reads_back banner).
Qed.

(** A log that holds every text of every source, each source's in order. *)
Definition complete_merge (lss : list (list rstr)) (log : list (nat * rstr)) : Prop :=
  Forall (fun e => e.1 < length lss)%nat log /\ forall k pl, lss !! k = Some pl -> texts_of k log = pl.

(** At rest a mirror that was there from the start has read everything. *)
Lemma quiet_log_read banner producers lss (s : @Threads C) t path strict :
  Forall2 Producer producers lss -> treachable banner producers s -> quiet s ->
  t ∈ th_clients s -> tr_joined t = 0%nat ->
  exists log, complete_merge lss log
    /\ unix_reader_thread (Ok (mk_stream (st_log (tr_sink t)) None)) path strict
       = reader_loop strict (heard (tr_base t) (map Ok (text_lines (map snd log)))).
Proof.
  intros HP Hr (Hm & Hq & Hd) [k0 Ht]%list_elem_of_lookup Hj.
  destruct (daemon_log_read _ _ lss s k0 t path strict [] None HP Hr Ht) as (log & Es & Hok & Hmg & Er).
  rewrite Hj, drop_0 in Es. exists log. split; [split; [apply Hmg|]|].
  - intros k pl Hk. destruct (Forall2_lookup_r _ _ _ _ _ HP Hk) as (outs & Ho & [-> Hl]).
    destruct (threads_fifo _ _ _ _ _ Hr Ho) as (todo & Htodo & E).
    assert ([] = todo) as <- by (by eapply Forall_lookup_1 in Hd). unfold in_flight in E.
    rewrite Hm, Hq, !app_nil_r, Es, messages_of_wired in E. apply map_wire_inj in E; [done|by apply texts_of_ok|done].
  - rewrite app_nil_r in Er. rewrite Er. unfold reads_log, current_part. rewrite Hm.
    change (read_lines (mk_stream ([] ++ []) None)) with (@nil (result rstr rstr)). by rewrite app_nil_r.
Qed.

(** ** Properties *)

(** C39: start-up succeeds exactly on a unix platform and when the broadcast
    socket, and then the ingest socket if one is configured, can be bound: the
    path is bindable and free, or occupied by a file that may be removed while
    overwriting is on.  Then the ingest port answers at its path, the broadcast
    socket at its own unless that is the same path, and nothing changed
    elsewhere; and the daemon has one producer per accepted publisher, one for
    the standard input if it is the source, one per gRPC watch and one per
    systemd unit. *)
Theorem daemon_starts pf cli ou :
  is_ok (main pf cli ou) = bool_decide (pf = Unix) && can_start cli ou
  /\ forall fs producers, main pf cli ou = Ok (fs, producers) ->
       (forall path, fs !! path =
          if bool_decide (c_ingest_path cli = Some path) then Some IngestPort
          else if bool_decide (c_socket_path cli = path) then Some Broadcast else ou_sockets ou !! path)
       /\ length producers =
            ((if c_ingest_path cli then length (omap (fun r => match r with Ok x => Some x | Err _ => None end) (ou_incoming ou)) else 0)
             + (if c_source cli then 1 else 0) + length (c_watches cli) + length (c_units cli))%nat.
Proof.
  split.
  { pose proof (main_unix cli ou) as Hu. destruct pf; [|done]. rewrite bool_decide_eq_true_2 by done.
    destruct (can_start cli ou); [by rewrite Hu|done]. }
  intros fs producers (_ & _ & -> & ->)%main_inv. split.
  - intros path. unfold sockets_up, broadcast_up. destruct (c_ingest_path cli) as [p|].
    + destruct (decide (p = path)) as [->|Hne].
      { rewrite lookup_insert_eq, bool_decide_eq_true_2 by done. done. }
      rewrite lookup_insert_ne, (bool_decide_eq_false_2 (Some p = Some path)) by congruence.
      case_bool_decide as Hs; [subst path; apply lookup_insert_eq|by apply lookup_insert_ne].
    + rewrite bool_decide_eq_false_2 by done.
      case_bool_decide as Hs; [subst path; apply lookup_insert_eq|by apply lookup_insert_ne].
  - rewrite !length_app. unfold ingest_sources, stdin_sources, grpc_sources, systemd_sources, accept_publishers.
    destruct (c_ingest_path cli), (c_source cli); rewrite ?length_imap; simpl; lia.
Qed.

(** When the ingest path is the broadcast path and both may be overwritten (the
    default), the daemon starts without an error, but its own broadcast socket is
    gone: a mirror that connects to the path reaches the ingest port. *)
Theorem ingest_takes_broadcast_path cli ou :
  c_ingest_path cli = Some (c_socket_path cli) -> c_overwrite cli = true -> c_ingest_overwrite cli = true ->
  os_removable (ou_os ou) (c_socket_path cli) = true -> os_unbindable (ou_os ou) (c_socket_path cli) = None ->
  exists fs producers, main Unix cli ou = Ok (fs, producers) /\ fs !! c_socket_path cli = Some IngestPort
    /\ forall path, fs !! path ≠ Some Broadcast \/ ou_sockets ou !! path = Some Broadcast.
Proof.
  intros Hi Ho Hio Hr Hb. pose proof (main_unix cli ou) as Hu.
  assert (can_start cli ou = true) as Hc.
  { unfold can_start, available. by rewrite Hi, Ho, Hio, Hb, Hr, !orb_true_r. }
  rewrite Hc in Hu. eexists _, _. split; [exact Hu|]. unfold sockets_up, broadcast_up. rewrite Hi.
  split; [apply lookup_insert_eq|]. intros path. destruct (decide (path = c_socket_path cli)) as [->|Hne].
  - left. by rewrite lookup_insert_eq.
  - rewrite !lookup_insert_ne by done. destruct (ou_sockets ou !! path) as [[]|]; auto.
Qed.

(** C20: every configuration of the daemon that starts, and every state that its
    threads can reach, in the middle of a broadcast too: the messages broadcast to
    the end since a mirror joined are a merge of the texts of all sources
    (publishers, standard input, gRPC watches, systemd units), nothing else, each
    source's in order and without gap; and whatever is written to the mirror later,
    and however its connection ends, it reads the lines of these texts and then what
    it has of the message that is being written.  The banner is skipped; only if
    writing the banner failed in the middle the first line is lost.  Texts that the
    sources copy may contain line feeds, then they are several lines; they are only
    assumed to be Unicode text. *)
Theorem daemon_feeds_mirror pf cli ou fs producers (s : @Threads C) k t path strict rest err :
  main pf cli ou = Ok (fs, producers) -> outside_texts cli ou ->
  treachable (c_client_banner cli) producers s -> th_clients s !! k = Some t ->
  exists lss log,
    Forall2 Producer producers lss /\ drop (tr_joined t) (th_sent s) = map wired log /\ merges lss (tr_joined t) log
    /\ unix_reader_thread (Ok (mk_stream (st_log (tr_sink t) ++ rest) err)) path strict
       = reader_loop strict (heard (tr_base t)
           (map Ok (text_lines (map snd log)) ++ read_lines (mk_stream (current_part s k ++ rest) err))).
Proof.
  intros (_ & _ & _ & ->)%main_inv Hol Hr Ht. destruct (sends_producers _ (daemon_sends cli ou Hol)) as [lss HP].
  exists lss. destruct (daemon_log_read _ _ lss s k t path strict rest err HP Hr Ht) as (log & H1 & _ & H2 & H3). by exists log.
Qed.

(** C7: the daemon delivers: in every configuration that starts, in every run in
    which neither the main thread nor a producer is passed over for ever and no peer
    blocks for ever, there is a time from which on every mirror that was connected
    from the start has read the lines of every text of every source, each source's
    in order and nothing else (but for the first line, if writing the banner to this
    mirror failed in the middle).  If the standard input is a source, a mirror,
    strict or not, finds in its lines exactly the frames that a reader of the
    daemon's strictness finds in that input, in order, each with its missing
    timestamp filled in and without a flag that has no name, provided that each
    frame's timestamp, its own or the clock's, has an RFC 3339 text.  The texts that
    the sources copy are only assumed to be Unicode text. *)
Theorem daemon_delivers pf cli ou fs producers (r : Run (C := C) (c_client_banner cli) producers) :
  main pf cli ou = Ok (fs, producers) -> outside_texts cli ou ->
  main_fair r -> producers_fair r -> responsive r ->
  let direct := spawn_stdin_reader (ou_stdin ou) (c_strict cli) in
  exists N lss, Forall2 Producer producers lss
    /\ (forall n t path strict, (N <= n)%nat -> t ∈ th_clients (r n) -> tr_joined t = 0%nat ->
          exists log, complete_merge lss log
            /\ unix_reader_thread (Ok (mk_stream (st_log (tr_sink t)) None)) path strict
               = reader_loop strict (heard (tr_base t) (map Ok (text_lines (map snd log)))))
    /\ (c_source cli = Source.Stdin -> Forall (fun m => forall f, m = Frame f -> relayable (ou_stdin_now ou) f) direct ->
          exists ls, lss !! length (ingest_sources cli ou) = Some ls
            /\ forall strict, Forall2 (stamped (ou_stdin_now ou)) (List.filter is_frame direct)
                                (reader_loop strict (map Ok (text_lines ls)))).
Proof.
  intros Hmain Hol H1 H2 H3. cbn zeta. destruct (main_inv _ _ _ _ _ Hmain) as (_ & _ & _ & Ep).
  assert (Forall sends producers) as [lss HP]%sends_producers by (rewrite Ep; by apply daemon_sends).
  destruct (fair_run_rests r H1 H2 H3) as [N HN]. exists N, lss. split; [done|]. split.
  - intros n t path strict Hn Ht Hj. eapply (quiet_log_read _ _ _ (r n)); try done; [apply run_reachable|by eapply quiet_after].
  - intros Hsrc Hf. assert (producers !! length (ingest_sources cli ou)
      = Some (spawn_stdin_source (ou_stdin ou) (c_strict cli) (ou_stdin_now ou))) as Ho.
    { rewrite Ep. unfold stdin_sources. rewrite Hsrc. by apply list_lookup_middle. }
    destruct (Forall2_lookup_l _ _ _ _ _ HP Ho) as (ls & Hls & [E Hok]). exists ls. split; [done|]. intros strict.
    destruct (stdin_producer (ou_stdin ou) (c_strict cli) (ou_stdin_now ou)) as [Em Hok']. rewrite Em in E.
    apply map_wire_inj in E as <-; [|done..]. rewrite text_lines_ok by apply source_lines_ok. by apply relay_lines.
Qed.
End Main.

(** ** Witnesses *)

#[local] Existing Instance plain_tables.
#[local] Existing Instance names_pb.

(** The standard input and one systemd unit. *)
Definition demo_cli : Cli :=
  mk_cli (lit "/tmp/hawk.sock") true None true false Source.Stdin true [] [mk_unit_spec (lit "a.service") (lit "a")]
    Off None None None None 3600 21600 3600 21600.

(** A bus that cannot be reached. *)
Definition no_bus : @Session UtcSeconds.utc_lib :=
  @mk_session UtcSeconds.utc_lib (Err (lit "no bus")) (Ok tt) (fun _ => Ok []) (fun _ => Ok tt) (Ok tt) (Ok tt) (fun _ => Ok tt) (Ok tt)
    (mk_props (Ok []) (Ok []) (Ok []) (Ok [])) (Ok tt) [] (fun _ => UtcSeconds.t0).

(** A socket file is left over at the broadcast path. *)
Definition demo_outside : @Outside UtcSeconds.utc_lib Pipe :=
  @mk_outside UtcSeconds.utc_lib Pipe (mk_sock_os (fun _ => true) (fun _ => None) (lit "Address already in use"))
    {[ lit "/tmp/hawk.sock" := Leftover ]} sample_stdin (fun _ => UtcSeconds.t0) [] (fun _ _ => UtcSeconds.t0)
    (fun _ => []) (fun _ => [(no_bus, UtcSeconds.t0)]).

Definition demo_producers : list (list (list byte)) :=
  stdin_sources (T := UtcSeconds.utc_lib) demo_cli demo_outside ++ systemd_sources demo_cli demo_outside.

Lemma demo_main :
  main (T := UtcSeconds.utc_lib) Unix demo_cli demo_outside
  = Ok ({[ lit "/tmp/hawk.sock" := Broadcast ]}, demo_producers).
Proof. reflexivity. Qed.

Lemma demo_texts : outside_texts (T := UtcSeconds.utc_lib) demo_cli demo_outside.
Proof.
  split.
  - done.
  - constructor.
  - intros p Hp. cbn in Hp. set_solver.
  - intros []; by apply text_check.
  - intros k. constructor.
  - constructor; [|constructor]. split; by apply text_check.
  - intros k. constructor; [|constructor]. repeat split; try done; try (by apply text_check).
Qed.

(** A mirror joins, then both messages are broadcast. *)
Definition daemon_moves : list (@Move Sock) :=
  [MoveIncoming (mk_sock [] 1000 true true); MoveAccept; MoveAccept; MoveAccept; MoveSend 0; MoveSend 1;
   MoveMain; MoveMain; MoveMain; MoveMain; MoveMain; MoveMain; MoveMain; MoveMain].

Definition daemon_run : Run (C := Sock) true demo_producers := play_run true demo_producers daemon_moves eq_refl.

(** The mirror while the second message is written. *)
Definition mid_client : @Tracked Sock :=
  default (mk_tracked (mk_sock [] 0 true true) [] 0) (th_clients (daemon_run 11%nat) !! 0%nat).

Lemma mid_client_connected :
  th_clients (daemon_run 11%nat) !! 0%nat = Some mid_client /\ tr_base mid_client = BANNER /\ tr_joined mid_client = 0%nat.
Proof. split; [|split]; vm_compute; reflexivity. Qed.

Lemma daemon_starts_witness :
  ({[ lit "/tmp/hawk.sock" := Broadcast ]} : sockets) !! lit "/tmp/hawk.sock" = Some Broadcast /\ length demo_producers = 2%nat.
Proof.
  destruct (proj2 (daemon_starts (T := UtcSeconds.utc_lib) Unix demo_cli demo_outside) _ _ demo_main) as [H1 H2].
  split; [exact (H1 (lit "/tmp/hawk.sock"))|exact H2].
Defined.

(** In the middle of the second message the connection is reset. *)
Lemma daemon_feeds_mirror_witness :
  th_main (daemon_run 11%nat) ≠ Receiving
  /\ exists lss log,
    Forall2 Producer demo_producers lss /\ th_sent (daemon_run 11%nat) = map wired log /\ merges lss 0 log
    /\ unix_reader_thread (T := UtcSeconds.utc_lib) (Ok (mk_stream (sk_log (tr_sink mid_client) ++ []) (Some (lit "reset")))) (lit "s") true
       = reader_loop true (heard BANNER
           (map Ok (text_lines (map snd log)) ++ read_lines (mk_stream (current_part (daemon_run 11%nat) 0 ++ []) (Some (lit "reset"))))).
Proof.
  split; [vm_compute; discriminate|]. destruct mid_client_connected as (Ht & Eb & Ej).
  destruct (daemon_feeds_mirror (T := UtcSeconds.utc_lib) Unix demo_cli demo_outside _ demo_producers (daemon_run 11%nat) 0
            mid_client (lit "s") true [] (Some (lit "reset")) demo_main) as (lss & log & H1 & H2 & H3 & H4).
  - apply demo_texts.
  - apply run_reachable.
  - exact Ht.
  - rewrite Ej in H2, H3. rewrite Eb in H4. exists lss, log.
    split; [exact H1|]. split; [exact H2|]. split; [exact H3|exact H4].
Defined.

Lemma daemon_run_fair : main_fair daemon_run /\ producers_fair daemon_run /\ responsive daemon_run.
Proof. apply (quiet_run_fair daemon_run 14). split; [|split]; vm_compute; by repeat constructor. Qed.

(** From some step on, the mirror has read the frame of the standard input. *)
Lemma daemon_delivers_witness :
  exists N lss, Forall2 Producer demo_producers lss
    /\ (forall n t, (N <= n)%nat -> t ∈ th_clients (daemon_run n) -> tr_joined t = 0%nat ->
          exists log, complete_merge lss log
            /\ unix_reader_thread (T := UtcSeconds.utc_lib) (Ok (mk_stream (sk_log (tr_sink t)) None)) (lit "s") true
               = reader_loop true (heard (tr_base t) (map Ok (text_lines (map snd log)))))
    /\ exists ls, lss !! 0%nat = Some ls
         /\ Forall2 (stamped (T := UtcSeconds.utc_lib) (fun _ => UtcSeconds.t0)) [Frame sample_frame]
              (reader_loop true (map Ok (text_lines ls))).
Proof.
  destruct (daemon_delivers (T := UtcSeconds.utc_lib) Unix demo_cli demo_outside _ demo_producers daemon_run demo_main)
    as (N & lss & H1 & H2 & H3).
  - apply demo_texts.
  - apply daemon_run_fair.
  - apply daemon_run_fair.
  - apply daemon_run_fair.
  - exists N, lss. split; [exact H1|]. split; [intros n t; apply H2|].
    destruct (H3 eq_refl sample_relayable) as (ls & Hls & Hf). exists ls. split; [exact Hls|apply Hf].
Defined.
