(* ===== verification/Packs.v ===== *)
(** * [crates/hawk/src/packs.rs]: the pack loader

    The model of packs, threads and arguments, the manifest, its validation, the
    index of all packs and the checking of transform variables.  The file system
    is [Fs]; the TOML library is the class [Toml].  A [HashMap] is a [gmap].  The
    theorems: what an accepted manifest guarantees; a thread's script stays under
    its pack; the index resolves exactly the threads of the loaded packs, whose
    ids are distinct; when variables are accepted; when the declared defaults
    are. *)

From stdpp Require Import gmap.
From S2P Require Import Prelude RustStr RustNum RustMap TimeLib Severity HawkFrame RustDebug RustPath.

#[local] Open Scope rust_scope.

(** ** Model *)

Module ArgType.
Inductive t := String | Int | Bool.

#[global] Instance eq_dec : EqDecision t.
Proof. solve_decision. Defined.
End ArgType.

Record ArgSpec := mk_arg { arg_name : rstr; arg_ty : ArgType.t; arg_default : rstr; arg_help : rstr }.

Record Thread := mk_thread {
  th_id : rstr;
  th_title : rstr;
  th_kind : rstr;
  th_file : rstr;
  th_description : rstr;
  th_args : list ArgSpec
}.

Record Pack := mk_pack {
  pk_id : rstr;
  pk_name : rstr;
  pk_version : rstr;
  pk_author : rstr;
  pk_description : rstr;
  pk_root_dir : rstr;
  pk_threads : list Thread
}.

Record ThreadResolved := mk_resolved {
  tr_pack_id : rstr;
  tr_thread_id : rstr;
  tr_title : rstr;
  tr_kind : rstr;
  tr_description : rstr;
  tr_script_path : rstr;
  tr_args : list ArgSpec
}.

Record PackIndex := mk_index { ix_packs : list Pack; ix_threads : gmap rstr ThreadResolved }.

(** ** The manifest *)

(** [toml]: its value types beyond the basic ones with their text, and the
    deserializer. *)
Class TomlValues := {
  toml_float : Type;
  float_to_string : toml_float -> rstr;
  toml_other : Type;
  other_to_string : toml_other -> rstr
}.

Section Manifest.
Context {V : TomlValues}.

Inductive TomlValue :=
| VString (s : rstr)
| VInteger (i : Z)
| VFloat (f : toml_float)
| VBoolean (b : bool)
| VOther (o : toml_other).

Record ManifestArg := mk_marg { ma_name : rstr; ma_ty : rstr; ma_default : option TomlValue; ma_help : rstr }.

Record ManifestThread := mk_mthread {
  mt_id : rstr;
  mt_title : rstr;
  mt_kind : rstr;
  mt_file : rstr;
  mt_description : rstr;
  mt_arg : list ManifestArg
}.

Record ManifestPack := mk_mpack {
  mp_id : rstr;
  mp_name : rstr;
  mp_version : rstr;
  mp_author : rstr;
  mp_description : rstr
}.

Record Manifest := mk_manifest { m_pack : ManifestPack; m_thread : list ManifestThread }.

Definition toml_value_to_string (v : option TomlValue) : rstr :=
  match v with
  | Some (VString s) => s
  | Some (VInteger i) => int_to_string i
  | Some (VFloat f) => float_to_string f
  | Some (VBoolean b) => if b then lit "true" else lit "false"
  | Some (VOther o) => other_to_string o
  | None => []
  end.
End Manifest.

Class Toml := {
  toml_values :: TomlValues;
  toml_from_str : rstr -> result Manifest rstr
}.

(** ** Arguments and variables *)

Definition parse_arg_type (s : rstr) : result ArgType.t rstr :=
  let w := to_ascii_lowercase (trim s) in
  if w =? lit "string" then Ok ArgType.String
  else if w =? lit "int" then Ok ArgType.Int
  else if w =? lit "bool" then Ok ArgType.Bool
  else Err (lit "unknown arg type: " ++ s).

(** [vv == "true" || vv == "false" || vv == "1" || vv == "0"] *)
Definition is_bool_word (vv : rstr) : bool :=
  (vv =? lit "true") || (vv =? lit "false") || (vv =? lit "1") || (vv =? lit "0").

Definition validate_arg_default (spec : ArgSpec) : result unit rstr :=
  match arg_ty spec with
  | ArgType.String => Ok tt
  | ArgType.Int =>
      if is_empty (trim (arg_default spec)) then Ok tt
      else match parse_i64 (arg_default spec) with
           | Some _ => Ok tt
           | None => Err (lit "default expects int, got " ++ arg_default spec)
           end
  | ArgType.Bool =>
      let vv := to_ascii_lowercase (arg_default spec) in
      if is_empty vv || is_bool_word vv then Ok tt
      else Err (lit "default expects bool, got " ++ arg_default spec)
  end.

(** One turn of the loop of [validate_tvars]. *)
Definition check_tvar (allowed : gmap rstr ArgSpec) (k v : rstr) : result unit rstr :=
  let? spec := ok_or (allowed !! k) (lit "unknown tvar: " ++ k) in
  match arg_ty spec with
  | ArgType.String => Ok tt
  | ArgType.Int =>
      match parse_i64 v with
      | Some _ => Ok tt
      | None => Err (lit "tvar " ++ k ++ lit " expects int, got " ++ v)
      end
  | ArgType.Bool =>
      if is_bool_word (to_ascii_lowercase v) then Ok tt
      else Err (lit "tvar " ++ k ++ lit " expects bool, got " ++ v)
  end.

Fixpoint check_tvars (allowed : gmap rstr ArgSpec) (tvars : list (rstr * rstr)) : result unit rstr :=
  match tvars with
  | [] => Ok tt
  | (k, v) :: rest => let? _ := check_tvar allowed k v in check_tvars allowed rest
  end.

Definition allowed_args (args : list ArgSpec) : gmap rstr ArgSpec :=
  foldl (fun m a => <[arg_name a := a]> m) ∅ args.

Definition validate_tvars (args : list ArgSpec) (tvars : list (rstr * rstr)) : result unit rstr :=
  check_tvars (allowed_args args) tvars.

Definition default_tvars (args : list ArgSpec) : list (rstr * rstr) :=
  foldl (fun out a => bt_insert (arg_name a) (arg_default a) out) [] args.

(** ** Path safety *)

Definition ensure_safe_rel_path (file : rstr) : result unit rstr :=
  if is_absolute file then Err (lit "absolute paths are not allowed")
  else if existsb (fun c => c =? ParentDir) (components file)
       then Err (lit "parent dir '..' is not allowed")
  else Ok tt.

(** ** Loading *)

Section Load.
Context {F : Fs} {TM : Toml} {U : UnicodeTables}.

Definition parse_arg (t_id : rstr) (a : ManifestArg) : result ArgSpec anyhow :=
  let at_arg (e : rstr) : anyhow := [lit "thread " ++ t_id ++ lit " arg " ++ ma_name a ++ lit ": " ++ e] in
  let? ty := map_err at_arg (parse_arg_type (ma_ty a)) in
  let spec := mk_arg (ma_name a) ty (toml_value_to_string (ma_default a)) (ma_help a) in
  let? _ := map_err at_arg (validate_arg_default spec) in
  Ok spec.

Fixpoint parse_args (t_id : rstr) (l : list ManifestArg) : result (list ArgSpec) anyhow :=
  match l with
  | [] => Ok []
  | a :: rest =>
      let? spec := parse_arg t_id a in
      let? args := parse_args t_id rest in
      Ok (spec :: args)
  end.

(** One turn of the thread loop of [parse_pack_manifest]. *)
Definition parse_thread (pack_dir : rstr) (t : ManifestThread) : result Thread anyhow :=
  let? _ := map_err (fun e => [lit "thread " ++ mt_id t ++ lit " file path unsafe: " ++ e])
              (ensure_safe_rel_path (mt_file t)) in
  if is_empty (trim (mt_id t)) then Err [lit "thread id cannot be empty"]
  else if is_empty (trim (mt_kind t)) then Err [lit "thread " ++ mt_id t ++ lit " kind cannot be empty"]
  else
    let script_path := path_join pack_dir (mt_file t) in
    if negb (fs_exists script_path)
    then Err [lit "thread " ++ mt_id t ++ lit " references missing file " ++ debug_str script_path]
    else
      let? args := parse_args (mt_id t) (mt_arg t) in
      Ok (mk_thread (mt_id t) (mt_title t) (mt_kind t) (mt_file t) (mt_description t) args).

Fixpoint parse_threads (pack_dir : rstr) (l : list ManifestThread) : result (list Thread) anyhow :=
  match l with
  | [] => Ok []
  | t :: rest =>
      let? th := parse_thread pack_dir t in
      let? ths := parse_threads pack_dir rest in
      Ok (th :: ths)
  end.

Definition parse_pack_manifest (pack_dir manifest_path : rstr) : result Pack anyhow :=
  let? raw := with_context (lit "read manifest " ++ debug_str manifest_path)
                (from_err (fs_read_to_string manifest_path)) in
  let? man := with_context (lit "toml deserialize") (from_err (toml_from_str raw)) in
  let? threads := parse_threads pack_dir (m_thread man) in
  Ok (mk_pack (mp_id (m_pack man)) (mp_name (m_pack man)) (mp_version (m_pack man))
        (mp_author (m_pack man)) (mp_description (m_pack man)) pack_dir threads).

Definition resolved_of (pack : Pack) (th : Thread) : ThreadResolved :=
  mk_resolved (pk_id pack) (th_id th) (th_title th) (th_kind th) (th_description th)
    (path_join (pk_root_dir pack) (th_file th)) (th_args th).

Fixpoint index_threads (pack : Pack) (l : list Thread) (threads : gmap rstr ThreadResolved)
    : result (gmap rstr ThreadResolved) anyhow :=
  match l with
  | [] => Ok threads
  | th :: rest =>
      match threads !! th_id th with
      | Some _ => Err [lit "thread id collision: " ++ th_id th]
      | None => index_threads pack rest (<[th_id th := resolved_of pack th]> threads)
      end
  end.

(** The loop over the entries of the directory: the sub-directories, or the
    first error. *)
Fixpoint sub_dirs (entries : list (result rstr rstr)) : result (list rstr) anyhow :=
  match entries with
  | [] => Ok []
  | Err e :: _ => Err [e]
  | Ok path :: rest =>
      let? dirs := sub_dirs rest in
      Ok (if fs_is_dir path then path :: dirs else dirs)
  end.

Definition manifest_of (dir : rstr) : rstr := path_join dir (lit "pack.toml").

(** The loop over the directories. *)
Fixpoint load_dirs (dirs : list rstr) (packs : list Pack) (threads : gmap rstr ThreadResolved)
    : result PackIndex anyhow :=
  match dirs with
  | [] => Ok (mk_index packs threads)
  | dir :: rest =>
      let manifest_path := manifest_of dir in
      if negb (fs_exists manifest_path) then load_dirs rest packs threads
      else
        let? pack := with_context (lit "parse pack " ++ debug_str manifest_path)
                       (parse_pack_manifest dir manifest_path) in
        let? threads' := index_threads pack (pk_threads pack) threads in
        load_dirs rest (packs ++ [pack]) threads'
  end.

Definition load_packs (packs_dir : rstr) : result PackIndex anyhow :=
  if negb (fs_exists packs_dir) then Ok (mk_index [] ∅)
  else
    let? entries := with_context (lit "read packs dir " ++ debug_str packs_dir)
                      (from_err (fs_read_dir packs_dir)) in
    let? dirs := sub_dirs entries in
    load_dirs (sort_by path_cmp dirs) [] ∅.

Definition resolve_thread (idx : PackIndex) (thread_id : rstr) : option ThreadResolved :=
  ix_threads idx !! thread_id.
End Load.

(** ** Specifications *)

(** A value of a declared type, as the command line accepts it. *)
Definition value_fits (ty : ArgType.t) (v : rstr) : Prop :=
  match ty with
  | ArgType.String => True
  | ArgType.Int => is_Some (parse_i64 v)
  | ArgType.Bool => is_bool_word (to_ascii_lowercase v) = true
  end.

(** The declaration that counts for a name: the last one. *)
Definition declared (args : list ArgSpec) (name : rstr) : option ArgSpec :=
  last (filter (fun a => arg_name a = name) args).

(** What an accepted thread satisfies. *)
Definition thread_ok `{Fs} (dir : rstr) (th : Thread) : Prop :=
  ensure_safe_rel_path (th_file th) = Ok tt
  /\ trim (th_id th) ≠ [] /\ trim (th_kind th) ≠ []
  /\ fs_exists (path_join dir (th_file th)) = true
  /\ Forall (fun a => validate_arg_default a = Ok tt) (th_args th).

(** Every thread of every pack under its id. *)
Definition all_threads (packs : list Pack) : list (rstr * ThreadResolved) :=
  concat (map (fun p => map (fun th => (th_id th, resolved_of p th)) (pk_threads p)) packs).

(** ** Lemmas *)

Lemma is_empty_trim s : is_empty (trim s) = false -> trim s ≠ [].
Proof. by destruct (trim s). Qed.

Section Loading.
Context {F : Fs} {TM : Toml} {U : UnicodeTables}.

Lemma parse_args_ok id l args :
  parse_args id l = Ok args ->
  Forall (fun a => validate_arg_default a = Ok tt) args /\ map arg_name args = map ma_name l.
Proof.
  revert args. induction l as [|a l IH]; intros args; cbn [parse_args].
  { intros E. apply (inj Ok) in E. by subst. }
  unfold parse_arg. cbn zeta. destruct (parse_arg_type (ma_ty a)) as [ty|]; cbn [map_err]; [|done].
  set (spec := mk_arg _ _ _ _). destruct (validate_arg_default spec) as [[]|] eqn:Ev; cbn [map_err]; [|done].
  destruct (parse_args id l) as [rest|]; [|done]. intros <-%(inj Ok).
  destruct (IH rest eq_refl) as [H1 H2]. split; [by constructor|]. cbn [map]. by rewrite H2.
Qed.

Lemma parse_thread_ok dir t th : parse_thread dir t = Ok th -> thread_ok dir th /\ th_id th = mt_id t.
Proof.
  unfold parse_thread. destruct (ensure_safe_rel_path (mt_file t)) as [[]|] eqn:Es; cbn [map_err]; [|done].
  destruct (is_empty (trim (mt_id t))) eqn:Ei; [done|].
  destruct (is_empty (trim (mt_kind t))) eqn:Ek; [done|]. cbn zeta.
  destruct (fs_exists (path_join dir (mt_file t))) eqn:Ee; cbn [negb]; [|done].
  destruct (parse_args (mt_id t) (mt_arg t)) as [args|] eqn:Ea; [|done].
  intros <-%(inj Ok). apply parse_args_ok in Ea as [Ha _].
  split; [|done]. repeat split; try done; by apply is_empty_trim.
Qed.

Lemma parse_threads_ok dir l ths :
  parse_threads dir l = Ok ths -> Forall (thread_ok dir) ths /\ map th_id ths = map mt_id l.
Proof.
  revert ths. induction l as [|t l IH]; intros ths; cbn [parse_threads].
  { intros E. apply (inj Ok) in E. by subst. }
  destruct (parse_thread dir t) as [th|] eqn:Et; [|done].
  destruct (parse_threads dir l) as [rest|]; [|done]. intros <-%(inj Ok).
  apply parse_thread_ok in Et as [H1 H2]. destruct (IH rest eq_refl) as [H3 H4].
  split; [by constructor|]. cbn [map]. by rewrite H2, H4.
Qed.

Lemma parse_pack_manifest_ok dir mp pack :
  parse_pack_manifest dir mp = Ok pack -> pk_root_dir pack = dir /\ Forall (thread_ok dir) (pk_threads pack).
Proof.
  unfold parse_pack_manifest, with_context, from_err.
  destruct (fs_read_to_string mp) as [raw|]; cbn [map_err]; [|done].
  destruct (toml_from_str raw) as [man|]; cbn [map_err]; [|done].
  destruct (parse_threads dir (m_thread man)) as [ths|] eqn:E; [|done].
  intros <-%(inj Ok). split; [done|]. by apply parse_threads_ok in E as [? _].
Qed.

(** Indexing succeeds exactly when no id repeats, and adds the threads. *)
Lemma index_threads_spec pack l all :
  NoDup all.*1 ->
  let new := map (fun th => (th_id th, resolved_of pack th)) l in
  if decide (NoDup (all ++ new).*1)
  then index_threads pack l (list_to_map all) = Ok (list_to_map (all ++ new))
  else is_ok (index_threads pack l (list_to_map all)) = false.
Proof.
  cbn zeta. revert all. induction l as [|th l IH]; intros all Hnd; cbn [map index_threads].
  { rewrite app_nil_r. by rewrite decide_True. }
  destruct (list_to_map all !! th_id th) as [r|] eqn:E.
  - rewrite decide_False; [done|]. rewrite fmap_app, NoDup_app. intros (_ & Hx & _).
    apply (Hx (th_id th)); [|by left].
    apply elem_of_list_to_map_2 in E. apply list_elem_of_fmap. by exists (th_id th, r).
  - apply not_elem_of_list_to_map_2 in E.
    assert (NoDup (all ++ [(th_id th, resolved_of pack th)]).*1) as Hnd'.
    { rewrite fmap_app. apply NoDup_app. split; [done|]. cbn. split; [set_solver|]. repeat constructor; set_solver. }
    rewrite <-list_to_map_snoc by done. specialize (IH _ Hnd'). by rewrite <-app_assoc in IH.
Qed.

Lemma index_threads_ok pack l all threads :
  NoDup all.*1 -> index_threads pack l (list_to_map all) = Ok threads ->
  let new := map (fun th => (th_id th, resolved_of pack th)) l in
  NoDup (all ++ new).*1 /\ threads = list_to_map (all ++ new).
Proof.
  intros Hnd E. pose proof (index_threads_spec pack l all Hnd) as H. cbn zeta in *.
  rewrite E in H. case_decide; [|done]. by apply (inj Ok) in H.
Qed.

Lemma all_threads_snoc packs p :
  all_threads (packs ++ [p]) = all_threads packs ++ map (fun th => (th_id th, resolved_of p th)) (pk_threads p).
Proof. unfold all_threads. rewrite map_app, concat_app. cbn. by rewrite app_nil_r. Qed.

(** The invariant of the loading loop. *)
Lemma load_dirs_ok dirs packs idx :
  NoDup (all_threads packs).*1 ->
  load_dirs dirs packs (list_to_map (all_threads packs)) = Ok idx ->
  NoDup (all_threads (ix_packs idx)).*1
  /\ ix_threads idx = list_to_map (all_threads (ix_packs idx))
  /\ exists more, ix_packs idx = packs ++ more
       /\ Forall (fun p => pk_root_dir p ∈ dirs /\ Forall (thread_ok (pk_root_dir p)) (pk_threads p)) more.
Proof.
  revert packs. induction dirs as [|dir dirs IH]; intros packs Hnd; cbn [load_dirs].
  { intros <-%(inj Ok). cbn. split; [done|]. split; [done|]. exists []. by rewrite app_nil_r. }
  assert (forall more, Forall (fun p => pk_root_dir p ∈ dirs /\ Forall (thread_ok (pk_root_dir p)) (pk_threads p)) more ->
    Forall (fun p => pk_root_dir p ∈ dir :: dirs /\ Forall (thread_ok (pk_root_dir p)) (pk_threads p)) more) as Hmore.
  { intros more Hm. eapply Forall_impl; [exact Hm|]. intros p [? ?]. split; [by right|done]. }
  cbn zeta. destruct (fs_exists (manifest_of dir)); cbn [negb].
  - unfold with_context. destruct (parse_pack_manifest dir (manifest_of dir)) as [pack|] eqn:Ep; cbn [map_err]; [|done].
    destruct (index_threads pack (pk_threads pack) _) as [threads'|] eqn:Ei; [|done].
    apply index_threads_ok in Ei as [Hn ->]; [|done]. rewrite <-all_threads_snoc in *.
    intros (H1 & H2 & more & H3 & H4)%IH; [|done]. split; [done|]. split; [done|].
    apply parse_pack_manifest_ok in Ep as [Er Et]. exists (pack :: more). rewrite H3, <-app_assoc.
    split; [done|]. constructor; [|by apply Hmore]. rewrite Er. split; [by left|done].
  - intros (H1 & H2 & more & H3 & H4)%IH; [|done]. split; [done|]. split; [done|]. exists more. auto.
Qed.
End Loading.

(** ** Lemmas: variables *)

Lemma declared_snoc args a name :
  declared (args ++ [a]) name = if arg_name a =? name then Some a else declared args name.
Proof.
  unfold declared. rewrite filter_app, filter_cons, filter_nil. case_bool_decide as H.
  - rewrite decide_True by done. by rewrite last_snoc.
  - rewrite decide_False by done. by rewrite app_nil_r.
Qed.

Lemma allowed_args_declared args name : allowed_args args !! name = declared args name.
Proof.
  unfold allowed_args. induction args as [|a args IH] using rev_ind; [done|].
  rewrite foldl_app, declared_snoc. cbn [foldl]. case_bool_decide as H.
  - subst. by rewrite lookup_insert_eq.
  - by rewrite lookup_insert_ne, IH.
Qed.

Lemma default_tvars_declared args :
  bt_wf (default_tvars args)
  /\ forall name, bt_get name (default_tvars args) = arg_default <$> declared args name.
Proof.
  unfold default_tvars. induction args as [|a args [Hw IH]] using rev_ind; [by split; [constructor|]|].
  rewrite foldl_app. cbn [foldl]. split; [by apply bt_insert_wf|]. intros name. rewrite declared_snoc.
  case_bool_decide as H.
  - subst. apply bt_get_insert.
  - rewrite bt_get_insert_ne by done. apply IH.
Qed.

Lemma check_tvar_ok allowed k v :
  check_tvar allowed k v = Ok tt <-> exists a, allowed !! k = Some a /\ value_fits (arg_ty a) v.
Proof.
  unfold check_tvar, ok_or. destruct (allowed !! k) as [a|]; [|naive_solver].
  unfold value_fits. destruct (arg_ty a) eqn:Et.
  - split; [|done]. intros _. exists a. by rewrite Et.
  - destruct (parse_i64 v) eqn:E; split; [|done|done|]; intros.
    + exists a. rewrite Et. split; [done|]. by eexists.
    + destruct H as (a' & [= <-] & H). rewrite Et in H. by destruct H.
  - destruct (is_bool_word (to_ascii_lowercase v)) eqn:E; split; [|done|done|]; intros.
    + exists a. by rewrite Et.
    + destruct H as (a' & [= <-] & H). by rewrite Et in H.
Qed.

Lemma check_tvars_ok allowed tvars :
  check_tvars allowed tvars = Ok tt <-> Forall (fun e => check_tvar allowed e.1 e.2 = Ok tt) tvars.
Proof.
  induction tvars as [|[k v] tvars IH]; cbn [check_tvars]; [by split; [constructor|]|].
  rewrite Forall_cons, <-IH. cbn [fst snd]. destruct (check_tvar allowed k v) as [[]|]; naive_solver.
Qed.

(** Blank text is no value of a typed argument. *)
Lemma blank_unfit ty v : ty ≠ ArgType.String -> trim v = [] -> ~ value_fits ty v.
Proof.
  intros Hty Hb. apply trim_with_nil_iff in Hb.
  assert (forall c, is_whitespace c = true -> is_digit c = false /\ c ≠ MINUS /\ c ≠ PLUS /\ ascii_lower c = c) as Hw.
  { intros c Hc. assert (is_digit c = false /\ is_upper c = false) as [Hd Hu].
    { unfold is_whitespace, is_digit, is_upper, RustStr.between in *. split; apply not_true_iff_false; intros Hx;
        apply andb_true_iff in Hx as [?%N.leb_le ?%N.leb_le];
        repeat match type of Hc with _ || _ = true => apply orb_true_iff in Hc as [Hc|Hc] end;
        try (apply andb_true_iff in Hc as [?%N.leb_le ?%N.leb_le]); try apply bool_decide_eq_true in Hc;
        try apply N.eqb_eq in Hc; lia. }
    unfold ascii_lower. rewrite Hu. repeat split; try done; intros ->; done. }
  destruct v as [|c v]; [by destruct ty; cbn; [done|intros []|]|].
  apply Forall_cons in Hb as [Hc Hb]. destruct (Hw c Hc) as (Hd & Hm & Hp & Hl).
  destruct ty; [done|..]; cbn [value_fits].
  - unfold parse_i64. rewrite !bool_decide_eq_false_2 by done. cbn [parse_digits]. rewrite Hd. by intros [].
  - unfold is_bool_word. cbn [to_ascii_lowercase map]. rewrite Hl, !orb_true_iff, !bool_decide_eq_true.
    intros [[[E|E]|E]|E]; injection E as -> _; by vm_compute in Hc.
Qed.

(** ** Properties *)

(** C28: path safety: a thread's file is accepted exactly when it is relative and
    has no parent component, and then its script lies below the pack's
    directory: joining appends only ordinary names to the directory's own
    components. *)
Theorem script_stays_in_pack dir file :
  (ensure_safe_rel_path file = Ok tt <-> is_absolute file = false /\ ParentDir ∉ components file)
  /\ (ensure_safe_rel_path file = Ok tt -> dir ≠ [] ->
      exists names, components (path_join dir file) = components dir ++ map Normal names).
Proof.
  assert (ensure_safe_rel_path file = Ok tt <-> is_absolute file = false /\ ParentDir ∉ components file) as Hiff.
  { unfold ensure_safe_rel_path. destruct (is_absolute file); [naive_solver|].
    destruct (existsb _ (components file)) eqn:E.
    - apply existsb_exists in E as (c & Hc & ->%bool_decide_eq_true). rewrite <-list_elem_of_In in Hc. naive_solver.
    - split; [|done]. intros _. split; [done|]. intros Hin%list_elem_of_In.
      assert (existsb (fun c => c =? ParentDir) (components file) = true) as H
        by (apply existsb_exists; exists ParentDir; by rewrite bool_decide_eq_true_2).
      by rewrite E in H. }
  split; [done|]. intros [Hrel Hnp]%Hiff Hne. rewrite components_join by done.
  assert (ParentDir ∉ omap comp_of_piece (split SLASH file)) as Hnp'
    by (destruct (relative_components file Hrel) as [E|E]; rewrite E in Hnp; set_solver).
  enough (exists names, omap comp_of_piece (split SLASH file) = map Normal names) as [names ->] by eauto.
  revert Hnp'. clear. generalize (split SLASH file) as l. intros l. induction l as [|w l IH]; [by exists []|].
  cbn [omap list_omap]. destruct (comp_of_piece_cases w) as [->|[->| ->]]; [exact IH|set_solver|].
  intros H'. destruct IH as [names E]; [set_solver|]. exists (w :: names). cbn [map]. by f_equal.
Qed.

Section Properties.
Context {F : Fs} {TM : Toml} {U : UnicodeTables}.

(** C27: the index of loaded packs: thread ids are distinct across all packs, a
    thread id resolves exactly to the thread of that id in one of the packs, and
    every thread of every pack was validated: a safe path to an existing file, an
    id and a kind that are not blank, defaults of the declared types. *)
Theorem packs_indexed packs_dir idx :
  load_packs packs_dir = Ok idx ->
  NoDup (all_threads (ix_packs idx)).*1
  /\ (forall id r, resolve_thread idx id = Some r <->
        exists p th, p ∈ ix_packs idx /\ th ∈ pk_threads p /\ th_id th = id /\ r = resolved_of p th)
  /\ Forall (fun p => Forall (thread_ok (pk_root_dir p)) (pk_threads p)) (ix_packs idx).
Proof.
  unfold load_packs. destruct (fs_exists packs_dir); cbn [negb]; last first.
  { intros <-%(inj Ok). cbn. split; [constructor|]. split; [|constructor].
    intros id r. unfold resolve_thread; cbn. rewrite lookup_empty. set_solver. }
  unfold with_context, from_err. destruct (fs_read_dir packs_dir) as [entries|]; cbn [map_err]; [|done].
  destruct (sub_dirs entries) as [dirs|]; [|done].
  intros (Hnd & Ht & more & Em & Hok)%(load_dirs_ok _ [] idx); [|constructor].
  split; [done|]. split.
  - intros id r. unfold resolve_thread. rewrite Ht, <-elem_of_list_to_map by done.
    unfold all_threads. rewrite list_elem_of_In, in_concat. setoid_rewrite in_map_iff. split.
    + intros (l & (p & <- & Hp) & (th & E & Hth)%in_map_iff). injection E as <- <-.
      exists p, th. rewrite !list_elem_of_In. done.
    + intros (p & th & Hp%list_elem_of_In & Hth%list_elem_of_In & <- & ->).
      eexists. split; [exists p; done|]. apply in_map_iff. by exists th.
  - rewrite Em. cbn [app]. eapply Forall_impl; [exact Hok|]. by intros p [_ ?].
Qed.

(** Variables are accepted exactly when each has a declaration of its name
    (the last one counts) and its value is of the declared type: any text, an
    [i64] literal, or one of the four words for truth values in any case. *)
Theorem validate_tvars_spec args tvars :
  validate_tvars args tvars = Ok tt <->
  Forall (fun e => exists a, declared args e.1 = Some a /\ value_fits (arg_ty a) e.2) tvars.
Proof.
  unfold validate_tvars. rewrite check_tvars_ok. apply Forall_proper; [|done]. intros [k v]; cbn [fst snd].
  rewrite check_tvar_ok. by setoid_rewrite allowed_args_declared.
Qed.

(** The declared defaults of an accepted manifest pass the check of the
    command line exactly when no integer or truth-value argument has a blank
    default (the manifest allows one). *)
Theorem defaults_accepted args :
  Forall (fun a => validate_arg_default a = Ok tt) args ->
  (validate_tvars args (default_tvars args) = Ok tt <->
   forall name a, declared args name = Some a -> arg_ty a = ArgType.String \/ trim (arg_default a) ≠ []).
Proof.
  intros Hargs. destruct (default_tvars_declared args) as [Hw Hget].
  unfold validate_tvars. rewrite check_tvars_ok, Forall_forall.
  assert (forall a, a ∈ args -> value_fits (arg_ty a) (arg_default a) <->
            arg_ty a = ArgType.String \/ trim (arg_default a) ≠ []) as Hfit.
  { intros a Ha. eapply Forall_forall in Hargs; [|exact Ha]. unfold validate_arg_default in Hargs.
    pose proof (blank_unfit (arg_ty a) (arg_default a)) as Hb.
    destruct (decide (arg_ty a = ArgType.String)) as [Es|Es]; [rewrite Es; cbn; tauto|].
    split; [right; intros E; by apply Hb|]. intros [?|Hnb]; [done|].
    assert (arg_default a ≠ []) as Hne by (intros E; by rewrite E in Hnb).
    destruct (arg_ty a); [done|..]; cbn [value_fits].
    - destruct (trim (arg_default a)); [done|]. cbn in Hargs. destruct (parse_i64 (arg_default a)); [by eexists|done].
    - destruct (arg_default a); [done|]. cbn in Hargs |- *. by destruct (is_bool_word _). }
  assert (forall name a, declared args name = Some a -> a ∈ args) as Hin.
  { intros name a Hd. unfold declared in Hd. apply last_Some_elem_of, list_elem_of_filter in Hd. tauto. }
  split.
  - intros H name a Hd. apply Hfit; [by eapply Hin|].
    assert ((name, arg_default a) ∈ default_tvars args) as He by (apply bt_get_elem; [done|]; by rewrite Hget, Hd).
    apply H, check_tvar_ok in He as (a' & Ha' & Hv). rewrite allowed_args_declared in Ha'.
    cbn [fst snd] in *. by simplify_eq.
  - intros H [name v] He%bt_get_elem; [|done]. rewrite Hget in He. apply fmap_Some in He as (a & Hd & ->).
    apply check_tvar_ok. exists a. rewrite allowed_args_declared. split; [done|].
    apply Hfit; [by eapply Hin|]. by eapply H.
Qed.

(** An integer argument declared without a default is accepted by the
    manifest, and the thread then cannot be run without giving the variable: its
    own default is refused. *)
Theorem blank_default_unusable t_id name help :
  exists spec,
    parse_arg t_id (mk_marg name (lit "int") None help) = Ok spec
    /\ validate_tvars [spec] (default_tvars [spec]) = Err (lit "tvar " ++ name ++ lit " expects int, got ").
Proof.
  eexists. split; [reflexivity|]. unfold validate_tvars, allowed_args, default_tvars. cbn [foldl bt_insert arg_name].
  cbn [check_tvars]. unfold check_tvar. rewrite lookup_insert_eq. cbn [ok_or arg_ty arg_default].
  cbn [toml_value_to_string ma_default parse_i64 map_err]. by rewrite !app_nil_r.
Qed.
End Properties.

(** ** Witnesses *)

#[local] Instance no_wide_tables : UnicodeTables := fun _ => false.

(** A directory with one pack of one thread. *)
#[local] Instance demo_values : TomlValues := {|
  toml_float := rstr; float_to_string f := f; toml_other := rstr; other_to_string o := o
|}.

Definition demo_manifest : Manifest :=
  mk_manifest (mk_mpack (lit "hawk.core") (lit "Core") (lit "1") (lit "hawk") [])
    [mk_mthread (lit "fail_only") (lit "Failures") (lit "awk") (lit "fail_only.awk") []
       [mk_marg (lit "window") (lit "int") (Some (VInteger 5)) []]].

#[local] Instance demo_toml : Toml := {|
  toml_values := demo_values;
  toml_from_str _ := Ok demo_manifest
|}.

Definition demo_files : list rstr :=
  [lit "packs"; lit "packs/hawk.core"; lit "packs/hawk.core/pack.toml"; lit "packs/hawk.core/fail_only.awk"].

#[local] Instance demo_fs : Fs := {|
  fs_exists p := bool_decide (p ∈ demo_files);
  fs_is_dir p := bool_decide (p = lit "packs/hawk.core");
  fs_read_dir _ := Ok [Ok (lit "packs/README"); Ok (lit "packs/hawk.core")];
  fs_read_to_string p := if bool_decide (p ∈ demo_files) then Ok [] else Err (lit "not found")
|}.

Definition demo_arg : ArgSpec := mk_arg (lit "window") ArgType.Int (lit "5") [].

Definition demo_thread : Thread :=
  mk_thread (lit "fail_only") (lit "Failures") (lit "awk") (lit "fail_only.awk") [] [demo_arg].

Definition demo_pack : Pack :=
  mk_pack (lit "hawk.core") (lit "Core") (lit "1") (lit "hawk") [] (lit "packs/hawk.core") [demo_thread].

Definition demo_index : PackIndex := mk_index [demo_pack] (list_to_map (all_threads [demo_pack])).

Example demo_loads : load_packs (lit "packs") = Ok demo_index.
Proof. vm_compute. reflexivity. Qed.

Lemma script_stays_in_pack_witness :
  exists names, components (path_join (lit "packs/hawk.core") (lit "sub/fail_only.awk"))
                = components (lit "packs/hawk.core") ++ map Normal names.
Proof.
  apply (proj2 (script_stays_in_pack (lit "packs/hawk.core") (lit "sub/fail_only.awk"))); [reflexivity|done].
Defined.

Lemma packs_indexed_witness :
  exists r, resolve_thread demo_index (lit "fail_only") = Some r
    /\ tr_script_path r = lit "packs/hawk.core/fail_only.awk".
Proof.
  destruct (packs_indexed (lit "packs") demo_index demo_loads) as (_ & H & _).
  exists (resolved_of demo_pack demo_thread). split; [|reflexivity]. apply H.
  exists demo_pack, demo_thread. repeat split; by left.
Defined.

Lemma defaults_accepted_witness : validate_tvars [demo_arg] (default_tvars [demo_arg]) = Ok tt.
Proof.
  apply (defaults_accepted [demo_arg]); [by repeat constructor|].
  intros name a. unfold declared. rewrite filter_cons, filter_nil.
  case_decide; [|done]. intros [= <-]. right. discriminate.
Defined.
