(* ===== verification/Doctor.v ===== *)
(** * [crates/hawk/src/doctor.rs]: the pack doctor

    The report, the walk over the packs, the style and schema checks, the
    security scan of awk scripts and the smoke test.  The [awk] program is the
    class [Awk]: what a run with given arguments and input answers.  The
    theorems: what the loader does after a clean report; what the scan
    reports, rule by rule and mode by mode; the word search; the smoke test. *)

From stdpp Require Import gmap.
From S2P Require Import Prelude RustStr RustNum RustMap TimeLib Severity HawkFrame RustDebug RustPath Packs.

#[local] Open Scope rust_scope.

(** ** Data *)

Module SecurityMode.
Inductive t := Strict | Warn | Off.
End SecurityMode.

Module FindingSeverity.
Inductive t := Error | Warning.
End FindingSeverity.

Record DoctorOptions := mk_options { o_smoke : bool; o_security : SecurityMode.t }.

Record DoctorReport := mk_report { d_errors : list rstr; d_warnings : list rstr }.

Definition report_new : DoctorReport := mk_report [] [].

Definition report_ok (rep : DoctorReport) : bool := bool_decide (d_errors rep = []).

(** [rep.errors.push] and [rep.warnings.push]. *)
Definition push_error (rep : DoctorReport) (e : rstr) : DoctorReport :=
  mk_report (d_errors rep ++ [e]) (d_warnings rep).
Definition push_warning (rep : DoctorReport) (w : rstr) : DoctorReport :=
  mk_report (d_errors rep) (d_warnings rep ++ [w]).

Record SecurityFinding := mk_finding { sf_severity : FindingSeverity.t; sf_message : rstr }.

(** ** Style and schema checks *)

Definition is_ident_char (c : char) : bool := is_ascii_alphanumeric c || (c =? UNDERSCORE).

(** The [while] loop of [contains_word] on one line; [bytes[i] as char] is the
    character with the byte's number. *)
Fixpoint word_loop (fuel i : nat) (bytes n : list byte) : bool :=
  match fuel with
  | O => false
  | S f =>
      if (i + length n <=? length bytes)%nat then
        if (take (length n) (drop i bytes) =? n)
           && ((i =? 0)%nat || negb (is_ident_char (nth (i - 1) bytes 0%N)))
           && ((i + length n =? length bytes)%nat || negb (is_ident_char (nth (i + length n) bytes 0%N)))
        then true
        else word_loop f (S i) bytes n
      else false
  end.

(** One turn of the line loop. *)
Definition line_has_word (n : list byte) (line : rstr) : bool :=
  let t := trim line in
  if starts_with [HASH] t then false
  else
    let bytes := utf8_encode t in
    if (length bytes <? length n)%nat then false
    else word_loop (S (length bytes)) 0 bytes n.

Definition contains_word (hay needle : rstr) : bool :=
  if is_empty needle then false
  else existsb (line_has_word (utf8_encode needle)) (lines hay).

Section Checks.
Context {F : Fs} {U : UnicodeTables}.

(** The last line that is not blank, trimmed. *)
Definition last_line (raw : rstr) : rstr :=
  foldl (fun last line => let t := trim line in if is_empty t then last else t) [] (lines raw).

Definition check_header_and_terminator (script_path : rstr) : result unit rstr :=
  let? raw := map_err (fun e => lit "read " ++ debug_str script_path ++ lit ": " ++ e)
                (fs_read_to_string script_path) in
  let header_ok := existsb (contains (lit "▛▞//")) (take 20 (lines raw)) in
  if negb header_ok then Err (lit "missing ▛▞// header in first 20 lines")
  else if negb (last_line raw =? lit "# :: ∎")
       then Err (lit "missing terminator '# :: ∎' as last non-empty line")
  else Ok tt.

Definition scan_declared_arg_usage (script_path : rstr) (args : list ArgSpec) : list rstr :=
  if bool_decide (length args = 0%nat) then []
  else match fs_read_to_string script_path with
       | Err e => [lit "read " ++ debug_str script_path ++ lit ": " ++ e]
       | Ok raw =>
           omap (fun a => if contains_word raw (arg_name a) then None
                          else Some (lit "declared arg '" ++ arg_name a ++ lit "' is never referenced")) args
       end.

(** ** The security scan *)

Definition MSG_SYSTEM : rstr := lit "command execution via system() is not allowed".
Definition MSG_PIPE_IN : rstr := lit "command pipe into getline is not allowed".
Definition MSG_PIPE_OUT : rstr := lit "piping output to a command is not allowed".
Definition MSG_REDIRECT : rstr := lit "file redirection is not allowed (only stderr debug is allowed)".
Definition MSG_GETLINE : rstr :=
  lit "getline file input detected, treat as high risk unless explicitly allowed".

Definition has_system (t : rstr) : bool := contains (lit "system(") t.
Definition has_pipe_in (t : rstr) : bool := contains (lit "| getline") t || contains (lit "|getline") t.
Definition has_print (t : rstr) : bool := contains (lit "print") t || contains (lit "printf") t.
Definition has_pipe_out (t : rstr) : bool :=
  has_print t && (contains (lit "|" ++ [QUOTE]) t || contains (lit "| " ++ [QUOTE]) t).
Definition has_redirect (t : rstr) : bool :=
  has_print t && (contains (lit ">>") t || contains (lit ">") t)
  && negb (contains (lit "/dev/stderr") t || contains (lit "/dev/fd/2") t).
Definition has_getline (t : rstr) : bool := contains (lit "getline <") t || contains (lit "getline<") t.

Definition getline_severity (mode : SecurityMode.t) : FindingSeverity.t :=
  match mode with
  | SecurityMode.Strict => FindingSeverity.Error
  | SecurityMode.Warn => FindingSeverity.Warning
  | SecurityMode.Off => FindingSeverity.Warning
  end.

(** The set of messages, as the ordered map to [unit]. *)
Definition note (cond : bool) (msg : rstr) (seen : list (rstr * unit)) : list (rstr * unit) :=
  if cond then bt_insert msg tt seen else seen.

(** One turn of the line loop. *)
Definition scan_step (mode : SecurityMode.t) (acc : list SecurityFinding * list (rstr * unit)) (line : rstr)
    : list SecurityFinding * list (rstr * unit) :=
  let '(findings, seen) := acc in
  let t := trim line in
  if is_empty t || starts_with [HASH] t then acc
  else
    let seen := note (has_system t) MSG_SYSTEM seen in
    let seen := note (has_pipe_in t) MSG_PIPE_IN seen in
    let seen := note (has_pipe_out t) MSG_PIPE_OUT seen in
    let seen := note (has_redirect t) MSG_REDIRECT seen in
    let findings := if has_getline t
                    then findings ++ [mk_finding (getline_severity mode) MSG_GETLINE] else findings in
    (findings, seen).

Definition security_scan_awk (script_path : rstr) (mode : SecurityMode.t)
    : result (list SecurityFinding) rstr :=
  match mode with
  | SecurityMode.Off => Ok []
  | _ =>
      let? raw := map_err (fun e => lit "read " ++ debug_str script_path ++ lit ": " ++ e)
                    (fs_read_to_string script_path) in
      let '(findings, seen) := foldl (scan_step mode) ([], []) (lines raw) in
      Ok (findings ++ map (fun e => mk_finding FindingSeverity.Error e.1) seen)
  end.
End Checks.

(** ** The smoke test *)

(** What one run of [awk] answers: whether it was started, whether its pipes are
    there, the results of the successive writes, its output, its exit. *)
Record AwkOutcome := mk_outcome {
  aw_spawn : result unit rstr;
  aw_stdin : bool;
  aw_stdout : bool;
  aw_write : nat -> result unit rstr;
  aw_read : result rstr rstr;
  aw_wait : result bool rstr
}.

Class Awk := awk_run : list rstr -> list byte -> AwkOutcome.

Definition SAMPLE : list rstr :=
  [join [TAB] [lit "2026-02-16T00:00:00Z"; lit "HEALTH"; lit "systemd"; lit "spine.hawkd"; lit "ok";
               lit "active"; lit "unit=hawkd.service"];
   join [TAB] [lit "2026-02-16T00:00:01Z"; lit "HEALTH"; lit "grpc"; lit "proto.alpha"; lit "fail";
               lit "NOT_SERVING"; lit "endpoint=svc:443;service=;error=x"];
   join [TAB] [lit "2026-02-16T00:00:02Z"; lit "RECEIPT_EVENT"; lit "hawkd"; lit "ingest"; lit "warn";
               lit "ingest parse error"; lit "error=bad;raw=clip"]].

(** The loop over the sample: two writes per line. *)
Fixpoint write_sample (write : nat -> result unit rstr) (i : nat) (sample : list rstr) : result unit rstr :=
  match sample with
  | [] => Ok tt
  | _ :: rest =>
      let? _ := map_err (fun e => lit "write stdin: " ++ e) (write i) in
      let? _ := map_err (fun e => lit "write newline: " ++ e) (write (S i)) in
      write_sample write (S (S i)) rest
  end.

(** The command line of [awk]. *)
Definition awk_args (tvars : list (rstr * rstr)) (script_path : rstr) : list rstr :=
  concat (map (fun e => [lit "-v"; e.1 ++ lit "=" ++ e.2]) tvars) ++ [lit "-f"; script_path].

Section Smoke.
Context {T : TimeLib} {A : Awk}.

(** The loop over the output. *)
Fixpoint check_output (l : list rstr) : result unit rstr :=
  match l with
  | [] => Ok tt
  | line :: rest =>
      let t := trim line in
      if is_empty t || starts_with [HASH] t then check_output rest
      else match parse_tsv_line t with
           | Ok _ => check_output rest
           | Err _ => Err (lit "invalid output line (not HawkFrame TSV): " ++ t)
           end
  end.

Definition smoke_test_awk (script_path : rstr) (tvars : list (rstr * rstr)) : result unit rstr :=
  let input := utf8_encode (concat (map (fun l => l ++ [LF]) SAMPLE)) in
  let child := awk_run (awk_args tvars script_path) input in
  let? _ := map_err (fun e => lit "spawn awk: " ++ e) (aw_spawn child) in
  if negb (aw_stdin child) then Err (lit "awk stdin missing")
  else if negb (aw_stdout child) then Err (lit "awk stdout missing")
  else
    let? _ := write_sample (aw_write child) 0 SAMPLE in
    let? out := map_err (fun e => lit "read stdout: " ++ e) (aw_read child) in
    let? success := map_err (fun e => lit "wait awk: " ++ e) (aw_wait child) in
    if negb success then Err (lit "awk exited nonzero")
    else check_output (lines out).
End Smoke.

(** ** The walk *)

Section Doctor.
Context {T : TimeLib} {A : Awk} {F : Fs} {TM : Toml} {U : UnicodeTables}.

(** [format!("thread '{}' <what>: {}", id, text)] *)
Definition about_thread (id what text : rstr) : rstr :=
  lit "thread '" ++ id ++ lit "' " ++ what ++ lit ": " ++ text.

Definition push_finding (id : rstr) (rep : DoctorReport) (f : SecurityFinding) : DoctorReport :=
  match sf_severity f with
  | FindingSeverity.Error => push_error rep (about_thread id (lit "security") (sf_message f))
  | FindingSeverity.Warning => push_warning rep (about_thread id (lit "security") (sf_message f))
  end.

(** The checks of a script that exists. *)
Definition check_script (opts : DoctorOptions) (th : Thread) (script_path : rstr) (rep : DoctorReport)
    : DoctorReport :=
  let rep := match check_header_and_terminator script_path with
             | Err e => push_warning rep (about_thread (th_id th) (lit "style") e)
             | Ok _ => rep
             end in
  let rep := foldl (fun r w => push_warning r (about_thread (th_id th) (lit "schema") w)) rep
               (scan_declared_arg_usage script_path (th_args th)) in
  let rep := match security_scan_awk script_path (o_security opts) with
             | Ok findings => foldl (push_finding (th_id th)) rep findings
             | Err e => push_error rep (about_thread (th_id th) (lit "security scan failed") e)
             end in
  if o_smoke opts then
    match smoke_test_awk script_path (default_tvars (th_args th)) with
    | Err e => push_error rep (about_thread (th_id th) (lit "smoke") e)
    | Ok _ => rep
    end
  else rep.

(** One turn of the thread loop. *)
Definition doctor_thread (opts : DoctorOptions) (pack : Pack) (manifest : rstr)
    (acc : DoctorReport * list (rstr * rstr)) (th : Thread) : DoctorReport * list (rstr * rstr) :=
  let '(rep, seen) := acc in
  let '(rep, seen) :=
    match bt_get (th_id th) seen with
    | Some prev =>
        (push_error rep (lit "thread id collision '" ++ th_id th ++ lit "' between " ++ debug_str prev
                         ++ lit " and " ++ debug_str manifest), seen)
    | None => (rep, bt_insert (th_id th) manifest seen)
    end in
  let script_path := path_join (pk_root_dir pack) (th_file th) in
  if negb (fs_exists script_path)
  then (push_error rep (lit "thread '" ++ th_id th ++ lit "' missing file " ++ debug_str script_path), seen)
  else (check_script opts th script_path rep, seen).

(** One turn of the pack loop. *)
Definition doctor_pack (opts : DoctorOptions) (acc : DoctorReport * list (rstr * rstr)) (pack_dir : rstr)
    : DoctorReport * list (rstr * rstr) :=
  let manifest := manifest_of pack_dir in
  if negb (fs_exists manifest) then acc
  else
    let '(rep, seen) := acc in
    match parse_pack_manifest pack_dir manifest with
    | Err e =>
        (push_error rep (lit "pack parse failed " ++ debug_str manifest ++ lit ": " ++ anyhow_display e), seen)
    | Ok pack =>
        let rep := if bool_decide (length (pk_threads pack) = 0%nat)
                   then push_warning rep (lit "pack " ++ debug_str manifest ++ lit " has zero threads")
                   else rep in
        foldl (doctor_thread opts pack manifest) (rep, seen) (pk_threads pack)
    end.

Definition run_pack_doctor (packs_dir : rstr) (opts : DoctorOptions) : DoctorReport :=
  let rep := report_new in
  if negb (fs_exists packs_dir)
  then push_warning rep (lit "packs dir missing: " ++ debug_str packs_dir)
  else match fs_read_dir packs_dir with
       | Err e => push_error rep (lit "cannot read packs dir " ++ debug_str packs_dir ++ lit ": " ++ e)
       | Ok rd =>
           let entries := List.filter fs_is_dir (omap (fun r => match r with Ok p => Some p | Err _ => None end) rd) in
           (foldl (doctor_pack opts) (rep, []) (sort_by path_cmp entries)).1
       end.
End Doctor.

(** ** Specifications *)

(** A line that is neither blank nor a comment. *)
Definition code_line (line : rstr) : Prop :=
  trim line ≠ [] /\ starts_with [HASH] (trim line) = false.

(** What is denied on a line of code, with the message of the finding. *)
Inductive denied (t : rstr) : rstr -> Prop :=
| denied_system : occurs (lit "system(") t -> denied t (lit "command execution via system() is not allowed")
| denied_pipe_in p :
    p ∈ [lit "| getline"; lit "|getline"] -> occurs p t -> denied t (lit "command pipe into getline is not allowed")
| denied_pipe_out p :
    occurs (lit "print") t -> p ∈ [lit "|" ++ [QUOTE]; lit "| " ++ [QUOTE]] -> occurs p t ->
    denied t (lit "piping output to a command is not allowed")
| denied_redirect :
    occurs (lit "print") t -> occurs (lit ">") t -> ~ occurs (lit "/dev/stderr") t -> ~ occurs (lit "/dev/fd/2") t ->
    denied t (lit "file redirection is not allowed (only stderr debug is allowed)").

(** What depends on the mode. *)
Definition reads_file (t : rstr) : Prop := occurs (lit "getline <") t \/ occurs (lit "getline<") t.

(** Some line of code of the script. *)
Definition hit (raw : rstr) (rule : rstr -> Prop) : Prop :=
  exists line, line ∈ lines raw /\ code_line line /\ rule (trim line).

(** [n] stands in [bytes] as a word: not inside a longer identifier. *)
Definition word_in (n bytes : list byte) : Prop :=
  exists u v, bytes = u ++ n ++ v /\ last_free is_ident_char u = true /\ head_free is_ident_char v = true.

(** ** Lemmas: the word search *)

(** The condition of the loop at one position. *)
Definition word_at (j : nat) (bytes n : list byte) : Prop :=
  exists u v, bytes = u ++ n ++ v /\ length u = j
    /\ last_free is_ident_char u = true /\ head_free is_ident_char v = true.

Lemma last_free_nth (u w : list byte) :
  u ≠ [] -> last_free is_ident_char u = negb (is_ident_char (nth (length u - 1) (u ++ w) 0%N)).
Proof.
  intros Hu. destruct u as [|c u _] using rev_ind; [done|].
  rewrite last_free_app. unfold last_free. cbn [rev app head_free].
  rewrite length_app, <-app_assoc, app_nth2 by (simpl; lia).
  replace (length u + length [c] - 1 - length u)%nat with 0%nat by (simpl; lia). done.
Qed.

Lemma word_at_test i bytes n :
  (i + length n <= length bytes)%nat ->
  word_at i bytes n <->
  (take (length n) (drop i bytes) =? n)
  && ((i =? 0)%nat || negb (is_ident_char (nth (i - 1) bytes 0%N)))
  && ((i + length n =? length bytes)%nat || negb (is_ident_char (nth (i + length n) bytes 0%N))) = true.
Proof.
  intros Hl. set (u := take i bytes). set (v := drop (i + length n) bytes).
  assert (length u = i) as Hu by (unfold u; rewrite length_take; lia).
  assert (bytes = u ++ take (length n) (drop i bytes) ++ v) as E.
  { unfold u, v. rewrite <-drop_drop, take_drop, take_drop. done. }
  assert (((i =? 0)%nat || negb (is_ident_char (nth (i - 1) bytes 0%N))) = last_free is_ident_char u) as ->.
  { destruct (Nat.eqb_spec i 0) as [->|Hi]; [by rewrite (nil_length_inv u) by done|]. cbn [orb].
    rewrite (last_free_nth u (drop i bytes)) by (intros ->; simpl in Hu; lia).
    unfold u at 2. rewrite take_drop, Hu. done. }
  assert (((i + length n =? length bytes)%nat || negb (is_ident_char (nth (i + length n) bytes 0%N)))
          = head_free is_ident_char v) as ->.
  { unfold v. destruct (Nat.eqb_spec (i + length n) (length bytes)) as [->|Hi]; [by rewrite drop_all|]. cbn [orb].
    destruct (lookup_lt_is_Some_2 bytes (i + length n)) as [c Hc]; [lia|].
    rewrite (nth_lookup_Some _ _ 0%N c Hc), (drop_S _ _ _ Hc). done. }
  rewrite !andb_true_iff, bool_decide_eq_true. split.
  - intros (u' & v' & E' & Hu' & H1 & H2). assert (u' = u) as ->.
    { unfold u. rewrite E', take_app_length' by done. done. }
    assert (v' = v) as ->.
    { unfold v. rewrite E', app_assoc, drop_app_length' by (rewrite length_app; lia). done. }
    split; [|done]. split; [|done]. rewrite E' at 1. rewrite drop_app_length' by done. by rewrite take_app_length.
  - intros [[En H1] H2]. exists u, v. rewrite En in E. done.
Qed.

Lemma word_loop_spec fuel i bytes n :
  (length bytes < fuel + i)%nat -> n ≠ [] ->
  word_loop fuel i bytes n = true <-> exists j, (i <= j)%nat /\ word_at j bytes n.
Proof.
  intros Hf Hn. assert (forall j, word_at j bytes n -> (j + length n <= length bytes)%nat) as Hb.
  { intros j (u & v & -> & <- & _). rewrite !length_app. lia. }
  revert i Hf. induction fuel as [|f IH]; intros i Hf; cbn [word_loop].
  { split; [done|]. intros (j & Hj & Hw%Hb). destruct n; [done|]. simpl in Hw. lia. }
  destruct (Nat.leb_spec (i + length n) (length bytes)) as [Hle|Hgt].
  - pose proof (word_at_test i bytes n Hle) as Ht.
    match goal with |- (if ?b then _ else _) = true <-> _ => destruct b eqn:E end.
    + split; [|done]. intros _. exists i. split; [lia|]. by apply Ht.
    + rewrite IH by lia. split; intros (j & Hj & Hw); exists j; (split; [|done]); [lia|].
      destruct (decide (i = j)) as [->|]; [by apply Ht in Hw|lia].
  - split; [done|]. intros (j & Hj & Hw%Hb). lia.
Qed.

Lemma line_has_word_spec n line :
  n ≠ [] -> line_has_word n line = true <->
  starts_with [HASH] (trim line) = false /\ word_in n (utf8_encode (trim line)).
Proof.
  intros Hn. unfold line_has_word. cbn zeta. destruct (starts_with [HASH] (trim line)); [naive_solver|].
  set (bytes := utf8_encode (trim line)).
  assert (word_in n bytes <-> exists j, (0 <= j)%nat /\ word_at j bytes n) as ->.
  { split.
    - intros (u & v & E & H1 & H2). exists (length u). split; [lia|]. by exists u, v.
    - intros (j & _ & u & v & E & _ & H1 & H2). by exists u, v. }
  destruct (Nat.ltb_spec (length bytes) (length n)) as [Hlt|Hge].
  - split; [done|]. intros (_ & j & _ & u & v & E & _). rewrite E, !length_app in Hlt. lia.
  - rewrite word_loop_spec by (done || lia). tauto.
Qed.

(** ** Lemmas: the scan *)

(** The rules as they are tested. *)
Definition deny_rules : list (rstr * (rstr -> bool)) :=
  [(MSG_SYSTEM, has_system); (MSG_PIPE_IN, has_pipe_in); (MSG_PIPE_OUT, has_pipe_out);
   (MSG_REDIRECT, has_redirect)].

Lemma occurs_trans {X} (p q s : list X) : occurs p q -> occurs q s -> occurs p s.
Proof. intros (u & v & ->) (u' & v' & ->). exists (u' ++ u), (v ++ v'). by rewrite <-!app_assoc. Qed.

Lemma has_print_spec t : has_print t = true <-> occurs (lit "print") t.
Proof.
  unfold has_print, contains. rewrite orb_true_iff, !list_infix_spec. split; [|by left].
  intros [?|H]; [done|]. eapply occurs_trans; [|exact H]. by exists [], (lit "f").
Qed.

Lemma has_redirect_spec t :
  has_redirect t = true <->
  occurs (lit "print") t /\ occurs (lit ">") t /\ ~ occurs (lit "/dev/stderr") t /\ ~ occurs (lit "/dev/fd/2") t.
Proof.
  unfold has_redirect, contains.
  rewrite !andb_true_iff, negb_true_iff, orb_true_iff, orb_false_iff, has_print_spec, !list_infix_spec.
  rewrite <-!not_true_iff_false, !list_infix_spec.
  assert (occurs (lit ">>") t -> occurs (lit ">") t) by (apply occurs_trans; by exists [], (lit ">")). tauto.
Qed.

Lemma deny_rules_denied t msg : (exists rule, (msg, rule) ∈ deny_rules /\ rule t = true) <-> denied t msg.
Proof.
  unfold deny_rules. split.
  - intros (rule & Hin & Hr). repeat (apply elem_of_cons in Hin as [[= -> ->]|Hin]); [..|by apply elem_of_nil in Hin].
    + apply denied_system. by apply list_infix_spec.
    + unfold has_pipe_in, contains in Hr. rewrite orb_true_iff, !list_infix_spec in Hr.
      destruct Hr as [Hr|Hr]; (eapply denied_pipe_in; [|exact Hr]); set_solver.
    + unfold has_pipe_out, contains in Hr. rewrite andb_true_iff, orb_true_iff, !list_infix_spec, has_print_spec in Hr.
      destruct Hr as [Hp [Hr|Hr]]; (eapply denied_pipe_out; [done| |exact Hr]); set_solver.
    + apply has_redirect_spec in Hr as (? & ? & ? & ?). by apply denied_redirect.
  - intros [H|p Hp H|p Hpr Hp H|H1 H2 H3 H4].
    + exists has_system. split; [left|by apply list_infix_spec].
    + exists has_pipe_in. split; [right; left|]. unfold has_pipe_in, contains. rewrite orb_true_iff, !list_infix_spec.
      apply elem_of_cons in Hp as [->|Hp%list_elem_of_singleton]; [by left|subst p; by right].
    + exists has_pipe_out. split; [do 2 right; left|]. unfold has_pipe_out, contains.
      rewrite andb_true_iff, orb_true_iff, !list_infix_spec, has_print_spec. split; [done|].
      apply elem_of_cons in Hp as [->|Hp%list_elem_of_singleton]; [by left|subst p; by right].
    + exists has_redirect. split; [do 3 right; left|by apply has_redirect_spec].
Qed.

Lemma has_getline_spec t : has_getline t = true <-> reads_file t.
Proof. unfold has_getline, contains. by rewrite orb_true_iff, !list_infix_spec. Qed.

Lemma note_wf c msg seen : bt_wf seen -> bt_wf (note c msg seen).
Proof. unfold note. destruct c; [apply bt_insert_wf|done]. Qed.

Lemma note_elem c msg seen m :
  bt_wf seen -> (m, tt) ∈ note c msg seen <-> (m, tt) ∈ seen \/ (c = true /\ m = msg).
Proof.
  intros Hw. unfold note. destruct c; [|naive_solver].
  rewrite <-!bt_get_elem by (done || by apply bt_insert_wf).
  destruct (decide (msg = m)) as [->|Hne]; [rewrite bt_get_insert; naive_solver|].
  rewrite bt_get_insert_ne by done. naive_solver.
Qed.

Lemma scan_step_spec mode fs seen line :
  bt_wf seen ->
  let '(fs', seen') := scan_step mode (fs, seen) line in
  bt_wf seen'
  /\ (forall m, (m, tt) ∈ seen' <->
        (m, tt) ∈ seen \/ exists rule, (m, rule) ∈ deny_rules /\ code_line line /\ rule (trim line) = true)
  /\ (forall f, f ∈ fs' <->
        f ∈ fs \/ (f = mk_finding (getline_severity mode) MSG_GETLINE /\ code_line line /\ has_getline (trim line) = true)).
Proof.
  intros Hw. unfold scan_step, code_line. cbn zeta.
  assert (is_empty (trim line) = true <-> trim line = []) as He by (by destruct (trim line)).
  destruct (is_empty (trim line)), (starts_with [HASH] (trim line)); cbn [orb]; [naive_solver..|].
  split; [by repeat apply note_wf|]. split.
  - intros m. rewrite !note_elem by (by repeat apply note_wf).
    unfold deny_rules. setoid_rewrite elem_of_cons. setoid_rewrite elem_of_cons. setoid_rewrite elem_of_cons.
    setoid_rewrite list_elem_of_singleton. naive_solver.
  - intros f. destruct (has_getline (trim line)); [rewrite elem_of_app, list_elem_of_singleton|]; naive_solver.
Qed.

Lemma scan_fold_spec mode l fs seen :
  bt_wf seen ->
  let '(fs', seen') := foldl (scan_step mode) (fs, seen) l in
  (forall m, (m, tt) ∈ seen' <->
     (m, tt) ∈ seen \/ exists rule line, (m, rule) ∈ deny_rules /\ line ∈ l /\ code_line line /\ rule (trim line) = true)
  /\ (forall f, f ∈ fs' <->
     f ∈ fs \/ (f = mk_finding (getline_severity mode) MSG_GETLINE
                /\ exists line, line ∈ l /\ code_line line /\ has_getline (trim line) = true)).
Proof.
  revert fs seen. induction l as [|line l IH]; intros fs seen Hw; cbn [foldl].
  { split; [intros m|intros f]; set_solver. }
  pose proof (scan_step_spec mode fs seen line Hw) as Hs.
  destruct (scan_step mode (fs, seen) line) as [fs1 seen1]. destruct Hs as (Hw1 & Hm1 & Hf1).
  specialize (IH fs1 seen1 Hw1). destruct (foldl (scan_step mode) (fs1, seen1) l) as [fs2 seen2].
  destruct IH as [Hm2 Hf2]. split.
  - intros m. rewrite Hm2, Hm1. split.
    + intros [[H|(rule & Hr & Hc)]|(rule & x & Hr & Hx & Hc)]; [by left|right; exists rule, line|right; exists rule, x];
        (split; [done|split; [by constructor|done]]).
    + intros [H|(rule & x & Hr & Hx%elem_of_cons & Hc)]; [by left; left|].
      destruct Hx as [->|Hx]; [left; right; by exists rule|right; by exists rule, x].
  - intros f. rewrite Hf2, Hf1. split.
    + intros [[H|[Ef Hc]]|[Ef (x & Hx & Hc)]]; [by left|right; split; [done|]..]; [exists line|exists x];
        (split; [by constructor|done]).
    + intros [H|[Ef (x & Hx%elem_of_cons & Hc)]]; [by left; left|].
      destruct Hx as [->|Hx]; [left; by right|right; split; [done|]; by exists x].
Qed.

(** All findings of a readable script. *)
Lemma scan_lines_rules mode raw :
  mode ≠ SecurityMode.Off ->
  exists findings,
    (let '(findings, seen) := foldl (scan_step mode) ([], []) (lines raw) in
     Ok (findings ++ map (fun e => mk_finding FindingSeverity.Error e.1) seen)) = Ok (E := rstr) findings
    /\ forall severity msg, mk_finding severity msg ∈ findings <->
         (severity = FindingSeverity.Error /\ hit raw (fun t => denied t msg))
         \/ (severity = match mode with SecurityMode.Strict => FindingSeverity.Error | _ => FindingSeverity.Warning end
             /\ msg = MSG_GETLINE /\ hit raw reads_file).
Proof.
  intros Hmode. pose proof (scan_fold_spec mode (lines raw) [] [] ltac:(constructor)) as Hs.
  destruct (foldl (scan_step mode) ([], []) (lines raw)) as [fs seen]. destruct Hs as [Hm Hf].
  eexists. split; [reflexivity|]. intros severity msg. rewrite elem_of_app, Hf. unfold hit.
  assert (mk_finding severity msg ∈ map (fun e => mk_finding FindingSeverity.Error e.1) seen <->
          severity = FindingSeverity.Error /\ (msg, tt) ∈ seen) as ->.
  { rewrite list_elem_of_In, in_map_iff. split.
    - intros ([m []] & [= <- <-] & Hin%list_elem_of_In). done.
    - intros (-> & Hin%list_elem_of_In). by exists (msg, tt). }
  rewrite Hm. setoid_rewrite <-deny_rules_denied. setoid_rewrite <-has_getline_spec.
  assert (getline_severity mode = match mode with SecurityMode.Strict => FindingSeverity.Error | _ => FindingSeverity.Warning end)
    as -> by (by destruct mode).
  split.
  - intros [[H|[[= -> ->] H]]|[-> [H|(rule & line & Hr & Hl & Hc & Ht)]]]; [by apply elem_of_nil in H|by right|by apply elem_of_nil in H|].
    left. split; [done|]. exists line. eauto.
  - intros [[-> (line & Hl & Hc & rule & Hr & Ht)]|(-> & -> & H)]; [right|left; by right].
    split; [done|]. right. by exists rule, line.
Qed.

(** ** Lemmas: the walk *)

Section Walk.
Context {T : TimeLib} {A : Awk} {F : Fs} {TM : Toml} {U : UnicodeTables}.

(** Errors are only ever added. *)
Definition grows (rep rep' : DoctorReport) : Prop := exists more, d_errors rep' = d_errors rep ++ more.

#[local] Instance grows_preorder : PreOrder grows.
Proof.
  split; [intros rep; exists []; by rewrite app_nil_r|].
  intros r1 r2 r3 [m1 E1] [m2 E2]. exists (m1 ++ m2). by rewrite E2, E1, app_assoc.
Qed.

Lemma grows_quiet rep rep' : grows rep rep' -> d_errors rep' = [] -> d_errors rep = [].
Proof. intros [m ->] E. by apply app_nil in E as [? _]. Qed.

Lemma grows_push_error rep e : grows rep (push_error rep e).
Proof. by exists [e]. Qed.

Lemma grows_push_warning rep w : grows rep (push_warning rep w).
Proof. exists []. by rewrite app_nil_r. Qed.

Lemma grows_foldl {B} (f : DoctorReport -> B -> DoctorReport) l rep :
  (forall r b, grows r (f r b)) -> grows rep (foldl f rep l).
Proof.
  intros Hf. revert rep. induction l as [|b l IH]; intros rep; cbn [foldl]; [done|].
  etransitivity; [apply Hf|apply IH].
Qed.

Lemma grows_check_script opts th path rep : grows rep (check_script opts th path rep).
Proof.
  unfold check_script. cbn zeta.
  set (r1 := match check_header_and_terminator path with Err e => _ | Ok _ => _ end).
  assert (grows rep r1) as H1 by (unfold r1; case_match; [done|apply grows_push_warning]).
  set (r2 := foldl _ r1 _). assert (grows r1 r2) as H2 by (apply grows_foldl; intros; apply grows_push_warning).
  set (r3 := match security_scan_awk path _ with Ok _ => _ | Err _ => _ end).
  assert (grows r2 r3) as H3.
  { unfold r3. case_match; [|apply grows_push_error]. apply grows_foldl. intros r f. unfold push_finding.
    case_match; [apply grows_push_error|apply grows_push_warning]. }
  transitivity r3; [by transitivity r2; [transitivity r1|]|].
  destruct (o_smoke opts); [|done]. case_match; [done|apply grows_push_error].
Qed.

Lemma grows_doctor_thread opts pack mf rep seen th :
  grows rep (doctor_thread opts pack mf (rep, seen) th).1.
Proof.
  unfold doctor_thread. destruct (bt_get (th_id th) seen); cbn zeta beta iota;
    (destruct (fs_exists _); cbn [negb fst];
     [etransitivity; [|apply grows_check_script]|etransitivity; [|apply grows_push_error]]);
    done || apply grows_push_error.
Qed.

Lemma grows_doctor_threads opts pack mf l acc : grows acc.1 (foldl (doctor_thread opts pack mf) acc l).1.
Proof.
  revert acc. induction l as [|th l IH]; intros [rep seen]; cbn [foldl]; [done|].
  etransitivity; [apply (grows_doctor_thread opts pack mf rep seen th)|apply IH].
Qed.

Lemma grows_doctor_packs opts l acc : grows acc.1 (foldl (doctor_pack opts) acc l).1.
Proof.
  revert acc. induction l as [|dir l IH]; intros [rep seen]; cbn [foldl]; [done|].
  etransitivity; [|apply IH]. unfold doctor_pack. cbn zeta. destruct (fs_exists _); cbn [negb fst]; [|done].
  destruct (parse_pack_manifest _ _) as [pack|e]; cbn [fst]; [|apply grows_push_error].
  etransitivity; [|apply grows_doctor_threads]. cbn [fst]. case_match; [apply grows_push_warning|done].
Qed.

(** The ids seen so far. *)
Definition seen_ids (seen : list (rstr * rstr)) (ids : list rstr) : Prop :=
  bt_wf seen /\ forall id, is_Some (bt_get id seen) <-> id ∈ ids.

(** A quiet walk over threads met only fresh ids. *)
Lemma quiet_threads opts pack mf l rep seen ids :
  seen_ids seen ids -> NoDup ids ->
  d_errors (foldl (doctor_thread opts pack mf) (rep, seen) l).1 = [] ->
  NoDup (ids ++ map th_id l) /\ seen_ids (foldl (doctor_thread opts pack mf) (rep, seen) l).2 (ids ++ map th_id l).
Proof.
  revert rep seen ids. induction l as [|th l IH]; intros rep seen ids [Hw Hs] Hnd Hq; cbn [foldl map] in *.
  { by rewrite app_nil_r. }
  destruct (doctor_thread opts pack mf (rep, seen) th) as [rep1 seen1] eqn:E.
  pose proof (grows_quiet _ _ (grows_doctor_threads opts pack mf l (rep1, seen1)) Hq) as Hq1. cbn [fst] in Hq1.
  assert (bt_get (th_id th) seen = None /\ seen1 = bt_insert (th_id th) mf seen) as [Hnone ->].
  { unfold doctor_thread in E. destruct (bt_get (th_id th) seen) as [prev|] eqn:Eg.
    - exfalso. revert E. cbn zeta beta iota.
      set (r := push_error rep _). assert (d_errors r ≠ []) as Hr by (unfold r; cbn; by destruct (d_errors rep)).
      destruct (fs_exists _); cbn [negb]; intros [= E _]; subst rep1; apply Hr;
        (eapply grows_quiet; [|exact Hq1]); [apply grows_check_script|apply grows_push_error].
    - split; [done|]. cbn zeta beta iota in E. destruct (fs_exists _); cbn [negb] in E; by injection E. }
  assert (th_id th ∉ ids) as Hfresh by (intros Hin%Hs; rewrite Hnone in Hin; by destruct Hin).
  replace (ids ++ th_id th :: map th_id l) with ((ids ++ [th_id th]) ++ map th_id l) by (by rewrite <-app_assoc).
  apply IH; [|apply NoDup_app; split; [done|]; split; [set_solver|by repeat constructor; set_solver]|done].
  split; [by apply bt_insert_wf|]. intros id. destruct (decide (th_id th = id)) as [<-|Hne].
  - rewrite bt_get_insert. split; [set_solver|by eexists].
  - rewrite bt_get_insert_ne, Hs by done. set_solver.
Qed.

Lemma all_threads_ids packs p :
  (all_threads (packs ++ [p])).*1 = (all_threads packs).*1 ++ map th_id (pk_threads p).
Proof. rewrite all_threads_snoc, fmap_app. f_equal. induction (pk_threads p); cbn; by f_equal. Qed.

(** What the doctor passes, the loader loads. *)
Lemma quiet_loads opts dirs rep seen packs :
  seen_ids seen (all_threads packs).*1 -> NoDup (all_threads packs).*1 ->
  d_errors (foldl (doctor_pack opts) (rep, seen) dirs).1 = [] ->
  exists idx, load_dirs dirs packs (list_to_map (all_threads packs)) = Ok idx.
Proof.
  revert rep seen packs. induction dirs as [|dir dirs IH]; intros rep seen packs Hs Hnd Hq; cbn [foldl load_dirs] in *.
  { by eexists. }
  destruct (doctor_pack opts (rep, seen) dir) as [rep1 seen1] eqn:E. unfold doctor_pack in E. cbn zeta in *.
  destruct (fs_exists (manifest_of dir)); cbn [negb] in *; [|simplify_eq; by eapply IH].
  pose proof (grows_quiet _ _ (grows_doctor_packs opts dirs (rep1, seen1)) Hq) as Hq1. cbn [fst] in Hq1.
  destruct (parse_pack_manifest dir (manifest_of dir)) as [pack|e]; cbn [with_context map_err].
  - match type of E with foldl _ (?r, _) _ = _ => set (r0 := r) in E end.
    destruct (quiet_threads opts pack (manifest_of dir) (pk_threads pack) r0 seen (all_threads packs).*1)
      as [Hn' Hs']; [done|done|by rewrite E|]. rewrite E in Hs'. cbn [snd] in Hs'.
    rewrite <-all_threads_ids in Hn', Hs'.
    pose proof (index_threads_spec pack (pk_threads pack) (all_threads packs) Hnd) as Hi. cbn zeta in Hi.
    rewrite <-all_threads_snoc, decide_True in Hi by done. rewrite Hi. by eapply IH.
  - exfalso. injection E as <- _. cbn in Hq1. by destruct (d_errors rep).
Qed.

Lemma sub_dirs_all_ok rd :
  Forall (fun r => is_ok r = true) rd ->
  sub_dirs rd = Ok (List.filter fs_is_dir (omap (fun r => match r with Ok p => Some p | Err _ => None end) rd)).
Proof.
  induction 1 as [|[p|e] rd Hr _ IH]; [done| |done]. cbn [sub_dirs omap list_omap List.filter]. rewrite IH.
  by destruct (fs_is_dir p).
Qed.
End Walk.

(** ** Properties *)

Section Properties.
Context {T : TimeLib} {A : Awk} {F : Fs} {TM : Toml} {U : UnicodeTables}.

(** Every entry of the packs directory can be read, or there is no such directory. *)
Definition listable (packs_dir : rstr) : bool :=
  negb (fs_exists packs_dir)
  || match fs_read_dir packs_dir with Ok rd => forallb is_ok rd | Err _ => false end.

Lemma sub_dirs_fails rd : forallb is_ok rd = false -> is_ok (sub_dirs rd) = false.
Proof.
  induction rd as [|[p|e] rd IH]; cbn [forallb is_ok andb sub_dirs]; [done| |done].
  intros H%IH. by destruct (sub_dirs rd).
Qed.

Lemma quiet_report_loads packs_dir opts :
  report_ok (run_pack_doctor packs_dir opts) = true -> is_ok (load_packs packs_dir) = listable packs_dir.
Proof.
  intros Hok. apply bool_decide_eq_true in Hok. unfold run_pack_doctor, load_packs, listable in *.
  destruct (fs_exists packs_dir); cbn [negb orb] in *; [|done].
  destruct (fs_read_dir packs_dir) as [rd|e]; [|done]. cbn [with_context from_err map_err].
  destruct (forallb is_ok rd) eqn:Hall.
  - rewrite sub_dirs_all_ok by (by apply Forall_forall; intros r Hr%list_elem_of_In; eapply forallb_forall in Hall).
    destruct (quiet_loads opts _ report_new [] [] ltac:(split; [constructor|]; intros id; cbn; split; [by intros []|set_solver])
                ltac:(constructor) Hok) as [idx E]. exact (f_equal is_ok E).
  - apply sub_dirs_fails in Hall. by destruct (sub_dirs rd).
Qed.

(** C30: the security scan, rule by rule: with the scan off there are no findings,
    and otherwise a script that cannot be read is an error.  A readable script
    yields exactly these findings: an error for every denied pattern (a call of
    [system(], a command piped into [getline], output piped to a quoted command,
    output redirected with [>] on a line that names neither standard error path)
    that occurs in a line that is neither blank nor a comment; and for [getline <]
    on such a line a finding that is an error in strict mode and a warning in warn
    mode. *)
Theorem security_scan_rules script_path mode :
  match mode with
  | SecurityMode.Off => security_scan_awk script_path mode = Ok []
  | _ =>
      match fs_read_to_string script_path with
      | Err _ => is_ok (security_scan_awk script_path mode) = false
      | Ok raw =>
          exists findings,
            security_scan_awk script_path mode = Ok findings
            /\ forall severity msg, mk_finding severity msg ∈ findings <->
                 (severity = FindingSeverity.Error /\ hit raw (fun t => denied t msg))
                 \/ (severity = match mode with SecurityMode.Strict => FindingSeverity.Error | _ => FindingSeverity.Warning end
                     /\ msg = lit "getline file input detected, treat as high risk unless explicitly allowed"
                     /\ hit raw reads_file)
      end
  end.
Proof.
  destruct mode; [..|done]; unfold security_scan_awk; (destruct (fs_read_to_string script_path) as [raw|e]; [|done]);
    by apply scan_lines_rules.
Qed.

(** C40: a declared argument counts as referenced exactly when its name occurs in
    some line that is not a comment, neither preceded nor followed by a
    character of an identifier. *)
Theorem contains_word_spec hay needle :
  contains_word hay needle = true <->
  needle ≠ [] /\ exists line, line ∈ lines hay /\ starts_with [HASH] (trim line) = false
                   /\ word_in (utf8_encode needle) (utf8_encode (trim line)).
Proof.
  unfold contains_word. destruct needle as [|c needle]; [naive_solver|].
  assert (utf8_encode (c :: needle) ≠ []) as Hn.
  { rewrite utf8_encode_cons. by destruct (utf8_char_nonempty c) as (b & bs & ->). }
  cbn [is_empty]. rewrite existsb_exists. setoid_rewrite line_has_word_spec; [|done].
  setoid_rewrite list_elem_of_In. naive_solver.
Qed.
End Properties.

(** The scan looks for [system(] without a space, so a call written with one
    passes the strict scan. *)
Theorem spaced_system_passes {F : Fs} {U : UnicodeTables} script_path :
  fs_read_to_string script_path = Ok (lit "BEGIN { system (cmd) }") ->
  security_scan_awk script_path SecurityMode.Strict = Ok [].
Proof. intros H. unfold security_scan_awk. rewrite H. reflexivity. Qed.

(** The smoke test trims an output line before it parses it, which removes
    the tabs of an empty first or last column: valid frames without a timestamp
    are refused. *)
Theorem smoke_refuses_valid_line :
  exists line : rstr,
    is_ok (parse_tsv_line (T := UtcSeconds.utc_lib) line) = true
    /\ is_ok (check_output (T := UtcSeconds.utc_lib) [line]) = false.
Proof.
  exists (join [TAB] [[]; lit "HEALTH"; lit "svc"; lit "a"; lit "ok"; lit "m"; lit "k=v"]).
  split; reflexivity.
Qed.

(** ** Witnesses *)

#[local] Instance no_tables : UnicodeTables := fun _ => false.

(** An awk that prints nothing. *)
#[local] Instance silent_awk : Awk :=
  fun _ _ => mk_outcome (Ok tt) true true (fun _ => Ok tt) (Ok []) (Ok true).

(** The demonstration directory with a real script. *)
Definition demo_script : rstr :=
  lit "# ▛▞// fail_only" ++ [LF] ++ lit "{ print window > out }" ++ [LF] ++ lit "# :: ∎" ++ [LF].

#[local] Instance script_fs : Fs := {|
  fs_exists := @fs_exists demo_fs;
  fs_is_dir := @fs_is_dir demo_fs;
  fs_read_dir := @fs_read_dir demo_fs;
  fs_read_to_string p := Ok (if bool_decide (p = lit "packs/hawk.core/fail_only.awk") then demo_script else [])
|}.

(** In strict mode the redirection of the demonstration script is an error. *)
Lemma security_scan_rules_witness :
  exists findings,
    security_scan_awk (lit "packs/hawk.core/fail_only.awk") SecurityMode.Strict = Ok findings
    /\ mk_finding FindingSeverity.Error MSG_REDIRECT ∈ findings.
Proof.
  destruct (security_scan_rules (lit "packs/hawk.core/fail_only.awk") SecurityMode.Strict) as (fs & E & H).
  exists fs. split; [exact E|]. apply H. left. split; [reflexivity|].
  exists (lit "{ print window > out }"). split; [right; by left|]. split; [done|].
  apply deny_rules_denied. exists has_redirect. split; [do 3 right; by left|reflexivity].
Defined.

Lemma spaced_system_passes_witness :
  security_scan_awk (F := {| fs_exists _ := true; fs_is_dir _ := true; fs_read_dir _ := Ok [];
                             fs_read_to_string _ := Ok (lit "BEGIN { system (cmd) }") |})
    (lit "x.awk") SecurityMode.Strict = Ok [].
Proof. apply spaced_system_passes. reflexivity. Defined.
