(* ===== verification/AwkBridge.v ===== *)
(** * [crates/hawk/src/awk.rs]: frames through an awk process

    Starting the process, the thread that writes frames to it, the thread that
    reads frames back and the thread that waits for it.  The process's standard
    input is a [Sink]; what it prints and how it exits are arguments.  The
    theorems: the writer delivers one line per frame until the first failure; a
    script that copies its input gives every frame that came from a line back,
    stamped. *)

From stdpp Require Import gmap.
From S2P Require Import Prelude RustStr RustNum RustMap TimeLib Severity HawkFrame Io App RustDebug RustPath.
From S2P Require Import Backoff Spine Ingest GrpcHealth Systemd EndToEnd Packs Doctor.

#[local] Open Scope rust_scope.

Section Bridge.
Context {T : TimeLib} {F : Fs} {U : UnicodeTables}.

(** [AwkRunner::spawn]: the arguments of the started process.  [started] is the
    outcome of [Command::spawn] with the presence of the two pipes. *)
Definition awk_spawn (started : list rstr -> result (bool * bool) rstr) (script_path : rstr)
    (tvars : list (rstr * rstr)) : result (list rstr) anyhow :=
  if negb (fs_exists script_path) then Err [lit "awk script not found: " ++ debug_str script_path]
  else
    let args := awk_args tvars script_path in
    let? pipes := from_err (started args) in
    let? _ := ok_or (if fst pipes then Some tt else None) [lit "awk stdin missing"] in
    let? _ := ok_or (if snd pipes then Some tt else None) [lit "awk stdout missing"] in
    Ok args.

(** The writer thread: the process's input after it, and the errors it sent.
    [now i] is the clock for frame [i]; [flushed i] whether its flush worked. *)
Fixpoint writer_loop {C} `{Sink C} (now : nat -> OffsetDateTime) (flushed : nat -> bool) (i : nat)
    (stdin : C) (frames : list HawkFrame) : C * list rstr :=
  match frames with
  | [] => (stdin, [])
  | frame :: rest =>
      let line := to_tsv_line frame (now i) in
      let '(stdin, ok) := write_all stdin (utf8_encode line) in
      if negb ok then (stdin, [lit "awk stdin write failed"])
      else
        let '(stdin, ok) := write_all stdin [LF] in
        if negb ok then (stdin, [lit "awk stdin newline failed"])
        else
          let stdin := flush stdin in
          if negb (flushed i) then (stdin, [lit "awk stdin flush failed"])
          else writer_loop now flushed (S i) stdin rest
  end.

(** What the reader thread sends: frames on one channel, errors on the other. *)
Inductive BridgeMsg := BFrame (f : HawkFrame) | BError (e : rstr).

Fixpoint bridge_reader (reads : list (result rstr rstr)) : list BridgeMsg :=
  match reads with
  | [] => []
  | Err _ :: _ => [BError (lit "awk stdout read failed")]
  | Ok line :: rest =>
      match parse_tsv_line line with
      | Ok (Some frame) => BFrame frame :: bridge_reader rest
      | Ok None => bridge_reader rest
      | Err _ => BError (lit "awk emitted invalid TSV line") :: bridge_reader rest
      end
  end.

(** How the process ended: success, or the text of its status. *)
Definition wait_errors (waited : result (bool * rstr) rstr) : list rstr :=
  match waited with
  | Ok (success, status) => if success then [] else [lit "awk exited with status " ++ status]
  | Err e => [lit "awk wait failed: " ++ e]
  end.

(** What the three threads of [start_bridge] do: the input the process got, what
    the reader sent, and the errors of writer and waiter. *)
Definition start_bridge {C} `{Sink C} (now : nat -> OffsetDateTime) (flushed : nat -> bool) (stdin : C)
    (frames : list HawkFrame) (stdout : byte_stream) (waited : result (bool * rstr) rstr)
    : C * list BridgeMsg * list rstr * list rstr :=
  let '(stdin, werrs) := writer_loop now flushed 0 stdin frames in
  (stdin, bridge_reader (read_lines stdout), werrs, wait_errors waited).

(** ** Lemmas *)

Context {C : Type} `{SinkLaws C}.

(** The lines of the frames, each with its own clock reading. *)
Definition frame_wires (now : nat -> OffsetDateTime) (i : nat) (frames : list HawkFrame) : list rstr :=
  imap (fun k f => to_tsv_line f (now (i + k)%nat)) frames.

Lemma frame_wires_cons now i f frames :
  frame_wires now i (f :: frames) = to_tsv_line f (now i) :: frame_wires now (S i) frames.
Proof.
  unfold frame_wires. cbn [imap]. rewrite Nat.add_0_r. f_equal. apply imap_ext. intros k x _.
  unfold compose. by replace (i + S k)%nat with (S i + k)%nat by lia.
Qed.

(** What the process got is a first part of the lines; all of them when no error
    was sent. *)
Lemma writer_loop_spec now flushed i stdin frames :
  let '(stdin', errs) := writer_loop now flushed i stdin frames in
  exists pre post,
    concat (map wire (frame_wires now i frames)) = pre ++ post
    /\ sink_log stdin' = sink_log stdin ++ pre /\ (length errs <= 1)%nat /\ (errs = [] -> post = []).
Proof.
  revert i stdin. induction frames as [|f frames IH]; intros i stdin; cbn [writer_loop].
  { exists [], []. rewrite !app_nil_r. split; [done|]. split; [done|]. split; [simpl; lia|done]. }
  rewrite frame_wires_cons. cbn [map concat]. unfold wire at 1. rewrite utf8_encode_app.
  set (line := utf8_encode (to_tsv_line f (now i))). set (rest := concat (map wire (frame_wires now (S i) frames))).
  change (utf8_encode [LF]) with [LF].
  destruct (write_all stdin line) as [s1 [|]] eqn:E1; cbn [negb]; last first.
  { apply write_all_err in E1 as (pre & post & -> & ->). exists pre, ((post ++ [LF]) ++ rest).
    rewrite <-!app_assoc. by repeat split. }
  apply write_all_ok in E1. destruct (write_all s1 [LF]) as [s2 [|]] eqn:E2; cbn [negb]; last first.
  { apply write_all_err in E2 as (pre & post & Ep & ->). exists (line ++ pre), (post ++ rest).
    rewrite E1, Ep, <-!app_assoc. by repeat split. }
  apply write_all_ok in E2. destruct (flushed i); cbn [negb]; last first.
  { exists (line ++ [LF]), rest. rewrite flush_log, E2, E1, <-!app_assoc. by repeat split. }
  specialize (IH (S i) (flush s2)). destruct (writer_loop now flushed (S i) (flush s2) frames) as [s3 errs].
  destruct IH as (pre & post & E & El & Hn & Hp). exists ((line ++ [LF]) ++ pre), post.
  unfold rest. rewrite E, El, flush_log, E2, E1, <-!app_assoc. by repeat split.
Qed.

(** ** Properties *)

(** The process receives a first part of the frames' lines, in order, one
    line per frame; at most one error is sent, and without one it has received
    every line completely. *)
Theorem awk_writer_delivers now flushed (stdin : C) frames :
  let '(stdin', errs) := writer_loop now flushed 0 stdin frames in
  exists pre post,
    concat (map wire (frame_wires now 0 frames)) = pre ++ post
    /\ sink_log stdin' = sink_log stdin ++ pre /\ (length errs <= 1)%nat /\ (errs = [] -> post = []).
Proof. apply writer_loop_spec. Qed.

Context {TL : TimeLaws T}.

Lemma frame_wires_ok now i frames :
  Forall (frame_texts line_ok) frames ->
  Forall line_ok (frame_wires now i frames).
Proof.
  intros Hf. revert i. induction Hf as [|f frames H1 _ IH]; intros i; [constructor|].
  rewrite frame_wires_cons. constructor; [by apply to_tsv_line_ok|done].
Qed.

Lemma reader_gives_back now i frames :
  Forall (relayable now) frames ->
  Forall (fun f => tidy_frame f) frames ->
  bridge_reader (map Ok (map strip_cr (frame_wires now i frames)))
  = imap (fun k f => BFrame (stamp (now (i + k)%nat) (named_frame f))) frames.
Proof.
  intros Hr Hc. revert i. induction Hr as [|f frames Hfmt _ IH]; intros i; [done|].
  apply Forall_cons in Hc as [Hcf Hc]. rewrite frame_wires_cons. cbn [map bridge_reader imap].
  destruct (Hfmt i) as [s Hs]. rewrite parse_strip_cr, (tsv_round_trip_named f (now i) s) by done. rewrite IH by done.
  rewrite Nat.add_0_r. f_equal. apply imap_ext. intros k x _.
  unfold compose. by replace (i + S k)%nat with (S i + k)%nat by lia.
Qed.

(** A frame that was read from a line. *)
Definition read_frame (f : HawkFrame) : Prop := exists w, Forall line_char w /\ parse_tsv_line w = Ok (Some f).

Lemma reader_frames strict reads f :
  (forall l, Ok l ∈ reads -> exists w, (l = w \/ l = w ++ [LF]) /\ Forall line_char w) ->
  Frame f ∈ reader_loop strict reads -> read_frame f.
Proof.
  induction reads as [|[l|e] reads IH]; intros Hs; cbn [reader_loop]; [by intros ?%elem_of_nil| |].
  - assert (Frame f ∈ reader_loop strict reads -> read_frame f) as IH'
      by (apply IH; intros l' Hl'; apply Hs; by constructor).
    destruct (parse_tsv_line l) as [[g|]|e] eqn:Ep; [|done|].
    + intros [E|?]%elem_of_cons; [|by apply IH']. injection E as ->.
      destruct (Hs l) as (w & Hl & Hw); [constructor|]. exists w. split; [done|].
      destruct Hl as [->| ->]; [done|]. by rewrite parse_tsv_line_newline in Ep.
    + intros [?|Hin]%elem_of_cons; [done|]. destruct strict; [by apply elem_of_nil in Hin|by apply IH'].
  - intros Hin%list_elem_of_singleton. done.
Qed.

(** The frames of both readers of the mirror. *)
Lemma stdin_frames stdin strict f : Frame f ∈ spawn_stdin_reader stdin strict -> read_frame f.
Proof. apply reader_frames, read_line_calls_shape. Qed.

Lemma unix_frames connected path strict f : Frame f ∈ unix_reader_thread connected path strict -> read_frame f.
Proof.
  unfold unix_reader_thread. destruct connected as [stream|e]; [|by intros Hin%list_elem_of_singleton].
  apply reader_frames. intros l Hl%read_lines_shape. exists l. auto.
Qed.

(** What the writer wrote, read back as the process's output. *)
Lemma copy_gives_back frames now flushed (c c' : C) :
  Forall (fun f => read_frame f /\ relayable now f) frames ->
  sink_log c = [] -> writer_loop now flushed 0 c frames = (c', []) ->
  bridge_reader (read_lines (mk_stream (sink_log c') None))
  = imap (fun k f => BFrame (stamp (now k) (named_frame f))) frames.
Proof.
  intros Hf Hc Hw. pose proof (writer_loop_spec now flushed 0 c frames) as Hs. rewrite Hw in Hs.
  destruct Hs as (pre & post & E & El & _ & Hp). rewrite Hp, app_nil_r in E by done. subst pre.
  rewrite El, Hc. cbn [app].
  assert (Forall line_ok (frame_wires now 0 frames)) as Hok.
  { apply frame_wires_ok. eapply Forall_impl; [exact Hf|]. intros f [(w & Hlw & Hpw) _].
    eapply parsed_texts; [|by repeat constructor|exact Hpw].
    apply Forall_forall. intros x Hx%elem_of_trim_end_newlines. by eapply Forall_forall in Hlw. }
  rewrite <-(app_nil_r (concat _)), read_wire by (eapply Forall_impl; [exact Hok|]; intros ?; apply line_ok_text).
  change (read_lines (mk_stream [] None)) with (@nil (result rstr rstr)). rewrite app_nil_r, text_lines_ok by done.
  apply (reader_gives_back now 0).
  - eapply Forall_impl; [exact Hf|]. by intros f [_ ?].
  - eapply Forall_impl; [exact Hf|]. intros f [(w & _ & Hpw) _]. by eapply parse_tsv_line_tidy.
Qed.

(** A script that copies its input is transparent: for frames that were read from
    lines, when the writer sent no error, the reader gives back exactly those
    frames in order, each with its missing timestamp filled in and without a flag
    that has no name, and no error. *)
Theorem awk_copy_transparent frames now flushed (c c' : C) :
  Forall (fun f => read_frame f /\ relayable now f) frames ->
  sink_log c = [] -> writer_loop now flushed 0 c frames = (c', []) ->
  bridge_reader (read_lines (mk_stream (sink_log c') None))
  = imap (fun k f => BFrame (stamp (now k) (named_frame f))) frames.
Proof. apply copy_gives_back. Qed.
End Bridge.

(** ** Witness *)

Lemma awk_copy_transparent_witness :
  bridge_reader (T := UtcSeconds.utc_lib) (read_lines (mk_stream (wire sample_line) None)) = [BFrame sample_frame].
Proof.
  refine (awk_copy_transparent (T := UtcSeconds.utc_lib) [sample_frame] (fun _ => UtcSeconds.t0)
            (fun _ => true) (mk_pipe [] 500) (mk_pipe (wire sample_line) _) _ _ _).
  - constructor; [|constructor]. split; [apply (stdin_frames sample_stdin false); by left|]. intros i. by eexists.
  - reflexivity.
  - reflexivity.
Defined.
