(* ===== verification/Ui.v ===== *)
(** * [crates/hawk/src/ui.rs] and [ui/draw.rs]: the terminal loop and the drawing

    The loop that drains the channel, draws, waits for a key and keeps its tick;
    and the picture it draws: the areas, and in each the widget with its text,
    style, border and column widths.  The terminal belongs to [crossterm] and
    [ratatui]: what its calls answer is a record of outcomes, how an area is
    divided is the class [Layout], and how a widget is painted into its area is
    not modelled.  The state the loop must leave behind is whether raw mode and
    the alternate screen are on.  The theorems: drawing never panics and shows the
    state; every picture shows all the messages received before it; quitting
    restores the terminal, and success is only reported when it is restored; an
    error inside the loop leaves the terminal as it is. *)

From S2P Require Import Prelude RustStr RustNum RustMap TimeLib Severity HawkFrame Io App.

#[local] Open Scope Z_scope.

(** ** Widgets *)

Inductive Constraint := Length (n : Z) | Min (n : Z) | Percentage (n : Z).
Inductive Direction := Vertical | Horizontal.
Inductive Borders := BordersAll | BordersTop.

Record Block := mk_block { bl_borders : Borders; bl_title : option rstr }.

(** A piece of text, bold or not. *)
Record Span := mk_span { sp_bold : bool; sp_text : rstr }.
Definition raw (s : rstr) : Span := mk_span false s.
Definition bold (s : rstr) : Span := mk_span true s.

(** A paragraph is given by its lines; [wrap] is [Some trim] or absent. *)
Inductive Widget :=
| Paragraph (text : list (list Span)) (block : Block) (wrap : option bool)
| Table (rows : list (list rstr)) (widths : list Constraint) (header : list Span) (block : Block) (spacing : Z).

(** [Layout::split]: "one area per constraint". *)
Class Layout := {
  Rect : Type;
  layout_split : Direction -> list Constraint -> Rect -> list Rect
}.

Class LayoutLaws (L : Layout) : Prop := {
  split_length : forall d cs area, length (layout_split d cs area) = length cs
}.


(** ** Drawing *)

Section Draw.
Context {T : TimeLib} {L : Layout}.

(** What has been rendered, in order. *)
Notation Picture := (list (Rect * Widget)).

(** [now] is the clock of the counts, [now'] the one printed. *)
Definition top_bar_spans (app : App) (now now' : OffsetDateTime) : list Span :=
  let c := counts_by_state app now in
  [bold (lit "HAWK");
   raw (lit "  ");
   raw (lit "entities=" ++ int_to_string (c_total c) ++ lit "  ok=" ++ int_to_string (c_ok c)
        ++ lit "  warn=" ++ int_to_string (c_warn c) ++ lit "  fail=" ++ int_to_string (c_fail c)
        ++ lit "  stale=" ++ int_to_string (c_stale c) ++ lit "  dead=" ++ int_to_string (c_dead c));
   raw (lit "  ");
   raw (lit "frames=" ++ int_to_string (a_frames_seen app) ++ lit "  parse_err="
        ++ int_to_string (a_parse_errors app) ++ lit "  io_err=" ++ int_to_string (a_io_errors app));
   raw (lit "  ");
   raw (format_or_default now')].

Definition draw_top_bar (area : Rect) (app : App) (now now' : OffsetDateTime) : Picture :=
  let text := top_bar_spans app now now' in
  [(area, Paragraph [text] (mk_block BordersAll (Some (lit "health at a glance"))) (Some true))].

Definition draw_footer (area : Rect) : Picture :=
  let text :=
    [raw (lit "q or esc: quit"); raw (lit "  |  "); raw (lit "source: stdin or unix socket (TSV HawkFrames)")] in
  [(area, Paragraph [text] (mk_block BordersTop None) None)].

Definition live_str (l : Liveness) : rstr :=
  match l with
  | Active => lit "active"
  | Dream => lit "dream"
  | Stale => lit "stale"
  | Dead => lit "dead"
  end.

Definition entity_row (app : App) (now : OffsetDateTime) (st : EntityState) : list rstr :=
  let live := compute_entity_liveness app st now in
  let age := whole_seconds (odt_sub now (e_last_seen st)) in
  [e_scope st; e_id st; e_kind st; Level.as_str (e_last_level st); live_str live;
   int_to_string (Z.max age 0) ++ lit "s"; e_last_msg st].

Definition table_header : list rstr :=
  [lit "scope"; lit "id"; lit "kind"; lit "level"; lit "state"; lit "age"; lit "last msg"].

Definition table_widths : list Constraint :=
  [Length 10; Length 20; Length 14; Length 8; Length 8; Length 6; Min 10].

(** [now] is the clock of the rows, [now'] the one of [sorted_entities]. *)
Definition draw_entity_table (area : Rect) (app : App) (now now' : OffsetDateTime) : Picture :=
  let rows := map (entity_row app now) (take 200 (sorted_entities app now')) in
  [(area, Table rows table_widths (map bold table_header) (mk_block BordersAll (Some (lit "entities"))) 1)].

Definition draw_tail (area : Rect) (app : App) : Picture :=
  [(area, Paragraph (map (fun s => [raw s]) (a_tail app)) (mk_block BordersAll (Some (lit "event tail"))) (Some false))].

(** An index out of range would be a panic: [None]. *)
Definition draw_body (area : Rect) (app : App) (now now' : OffsetDateTime) : option Picture :=
  let cols := layout_split Horizontal [Percentage 68; Percentage 32] area in
  c0 ← cols !! 0%nat;
  let table := draw_entity_table c0 app now now' in
  c1 ← cols !! 1%nat;
  Some (table ++ draw_tail c1 app).

(** [now i] is the clock at its readings in the order of the calls. *)
Definition draw_app (size : Rect) (app : App) (now : nat -> OffsetDateTime) : option Picture :=
  let outer := layout_split Vertical [Length 3; Min 0; Length 1] size in
  o0 ← outer !! 0%nat;
  let top := draw_top_bar o0 app (now 0%nat) (now 1%nat) in
  o1 ← outer !! 1%nat;
  body ← draw_body o1 app (now 2%nat) (now 3%nat);
  o2 ← outer !! 2%nat;
  Some (top ++ body ++ draw_footer o2).
End Draw.

Notation Picture := (list (Rect * Widget)).

(** ** The loop *)

Inductive KeyCode := KeyChar (c : char) | KeyEsc | KeyOther.
Inductive Event := EventKey (code : KeyCode) | EventOther.

(** What the loop leaves behind in the terminal. *)
Record Tty := mk_tty { tty_raw : bool; tty_alternate : bool }.

Definition is_quit (e : Event) : bool :=
  match e with
  | EventKey (KeyChar c) => (c =? 113)%N
  | EventKey KeyEsc => true
  | _ => false
  end.

(** 200 milliseconds, in nanoseconds. *)
Definition tick_rate : Z := 200000000.

(** [tick_rate.checked_sub(elapsed).unwrap_or(0)] *)
Definition poll_timeout (elapsed : Z) : Z := if elapsed <=? tick_rate then tick_rate - elapsed else 0.

Section Loop.
Context {T : TimeLib} {L : Layout}.

(** What the terminal and the clocks answer in one turn: the size of the terminal
    and the clock while drawing, and whether [Terminal::draw] succeeds; waiting and
    reading; the monotonic clock at its three readings. *)
Record UiCalls := mk_ui_calls {
  ur_size : Rect;
  ur_clock : nat -> OffsetDateTime;
  ur_draw : result unit rstr;
  ur_wait_at : Z;
  ur_poll : result bool rstr;
  ur_read : result Event rstr;
  ur_tick_at : Z;
  ur_reset_at : Z
}.

(** One turn: the messages that [try_recv] finds, each with the clock of its
    ingestion, and the calls. *)
Record UiRound := mk_ui_round {
  ur_msgs : list (IngestMsg * OffsetDateTime);
  ur_calls :> UiCalls
}.

Inductive LoopEnd := Quit | LoopError (e : rstr) | LoopPanic | Running.

(** The application, how the loop ended, the time each wait was given, and the
    pictures shown. *)
Record LoopTrace := mk_trace {
  lp_app : App;
  lp_end : LoopEnd;
  lp_waits : list Z;
  lp_pictures : list Picture
}.

(** A picture and a wait before the rest. *)
Definition after_turn (pic : Picture) (timeout : Z) (t : LoopTrace) : LoopTrace :=
  mk_trace (lp_app t) (lp_end t) (timeout :: lp_waits t) (pic :: lp_pictures t).

(** [Instant::elapsed] *)
Definition elapsed (since now : Z) : Z := Z.max 0 (now - since).

(** The first turns of the loop. *)
Fixpoint ui_loop (app : App) (last_tick : Z) (rounds : list UiRound) : LoopTrace :=
  match rounds with
  | [] => mk_trace app Running [] []
  | r :: rest =>
      let app := run app (ur_msgs r) in
      match draw_app (ur_size r) app (ur_clock r) with
      | None => mk_trace app LoopPanic [] []
      | Some pic =>
          match ur_draw r with
          | Err e => mk_trace app (LoopError e) [] []
          | Ok _ =>
              let timeout := poll_timeout (elapsed last_tick (ur_wait_at r)) in
              let last_tick' := if tick_rate <=? elapsed last_tick (ur_tick_at r) then ur_reset_at r else last_tick in
              after_turn pic timeout
                match ur_poll r with
                | Err e => mk_trace app (LoopError e) [] []
                | Ok false => ui_loop app last_tick' rest
                | Ok true =>
                    match ur_read r with
                    | Err e => mk_trace app (LoopError e) [] []
                    | Ok event =>
                        if is_quit event then mk_trace app Quit [] [] else ui_loop app last_tick' rest
                    end
                end
          end
      end
  end.

(** The calls before and after the loop. *)
Record Setup := mk_setup {
  su_enable_raw : result unit rstr;
  su_enter_alternate : result unit rstr;
  su_terminal : result unit rstr;
  su_first_tick : Z;
  su_disable_raw : result unit rstr;
  su_leave_alternate : result unit rstr;
  su_show_cursor : result unit rstr
}.

(** How [run_tui] ends, if it does. *)
Inductive UiEnd := UiReturned (r : result unit rstr) | UiPanicked | UiRunning.

(** The terminal, the application, the pictures shown, and the end. *)
Definition run_tui (su : Setup) (app : App) (rounds : list UiRound) : Tty * App * list Picture * UiEnd :=
  match su_enable_raw su with
  | Err e => (mk_tty false false, app, [], UiReturned (Err e))
  | Ok _ =>
      match su_enter_alternate su with
      | Err e => (mk_tty true false, app, [], UiReturned (Err e))
      | Ok _ =>
          match su_terminal su with
          | Err e => (mk_tty true true, app, [], UiReturned (Err e))
          | Ok _ =>
              let t := ui_loop app (su_first_tick su) rounds in
              match lp_end t with
              | Running => (mk_tty true true, lp_app t, lp_pictures t, UiRunning)
              | LoopPanic => (mk_tty true true, lp_app t, lp_pictures t, UiPanicked)
              | LoopError e => (mk_tty true true, lp_app t, lp_pictures t, UiReturned (Err e))
              | Quit =>
                  match su_disable_raw su with
                  | Err e => (mk_tty true true, lp_app t, lp_pictures t, UiReturned (Err e))
                  | Ok _ =>
                      match su_leave_alternate su with
                      | Err e => (mk_tty false true, lp_app t, lp_pictures t, UiReturned (Err e))
                      | Ok _ => (mk_tty false false, lp_app t, lp_pictures t, UiReturned (su_show_cursor su))
                      end
                  end
              end
          end
      end
  end.

(** ** Specifications *)

(** How a turn ends: by an error of drawing, waiting or reading, by the quit key,
    or it goes on. *)
Inductive TurnEnd := TurnFails (e : rstr) | TurnQuits | TurnGoesOn.

Definition turn_end (r : UiCalls) : TurnEnd :=
  match ur_draw r, ur_poll r, ur_read r with
  | Err e, _, _ => TurnFails e
  | Ok _, Err e, _ => TurnFails e
  | Ok _, Ok false, _ => TurnGoesOn
  | Ok _, Ok true, Err e => TurnFails e
  | Ok _, Ok true, Ok ev => if is_quit ev then TurnQuits else TurnGoesOn
  end.

Definition setup_works (su : Setup) : Prop :=
  su_enable_raw su = Ok tt /\ su_enter_alternate su = Ok tt /\ su_terminal su = Ok tt
  /\ su_disable_raw su = Ok tt /\ su_leave_alternate su = Ok tt /\ su_show_cursor su = Ok tt.

(** The messages of some turns. *)
Definition round_msgs (rounds : list UiRound) : list (IngestMsg * OffsetDateTime) :=
  concat (map ur_msgs rounds).






(** ** Lemmas *)

Lemma run_app app ms1 ms2 : run app (ms1 ++ ms2) = run (run app ms1) ms2.
Proof. apply foldl_app. Qed.

Lemma round_msgs_cons r rounds : round_msgs (r :: rounds) = ur_msgs r ++ round_msgs rounds.
Proof. done. Qed.

(** The picture is what the areas hold; the loop does not panic. *)
Lemma draw_app_some {LL : LayoutLaws L} size app now :
  exists o0 o2 c0 c1,
    draw_app size app now =
    Some (draw_top_bar o0 app (now 0%nat) (now 1%nat) ++ (draw_entity_table c0 app (now 2%nat) (now 3%nat) ++ draw_tail c1 app)
          ++ draw_footer o2).
Proof.
  unfold draw_app, draw_body. cbn zeta.
  pose proof (split_length Vertical [Length 3; Min 0; Length 1] size) as Ho.
  destruct (layout_split Vertical _ size) as [|o0 [|o1 [|o2 [|]]]]; try done.
  pose proof (split_length Horizontal [Percentage 68; Percentage 32] o1) as Hc.
  cbn [lookup list_lookup mbind option_bind].
  destruct (layout_split Horizontal _ o1) as [|c0 [|c1 [|]]]; try done. by exists o0, o2, c0, c1.
Qed.

Context {LL : LayoutLaws L}.

(** A turn that goes on: its picture, its wait, and the rest. *)
Lemma ui_loop_step app last_tick (r : UiRound) rest :
  turn_end r = TurnGoesOn ->
  exists pic t tick, draw_app (ur_size r) (run app (ur_msgs r)) (ur_clock r) = Some pic
    /\ ui_loop app last_tick (r :: rest) = after_turn pic t (ui_loop (run app (ur_msgs r)) tick rest).
Proof.
  intros Hr. destruct (draw_app_some (ur_size r) (run app (ur_msgs r)) (ur_clock r)) as (? & ? & ? & ? & Ed).
  cbn [ui_loop]. rewrite Ed. unfold turn_end in Hr. destruct (ur_draw r); [|done].
  eexists _, _, _. split; [done|]. destruct (ur_poll r) as [[|]|]; [|done..].
  destruct (ur_read r) as [ev|]; [|done]. by destruct (is_quit ev).
Qed.

(** A turn that ends the loop. *)
Lemma ui_loop_last app last_tick (r : UiRound) rest :
  turn_end r ≠ TurnGoesOn ->
  lp_app (ui_loop app last_tick (r :: rest)) = run app (ur_msgs r)
  /\ lp_end (ui_loop app last_tick (r :: rest)) = match turn_end r with TurnFails e => LoopError e | _ => Quit end.
Proof.
  intros Hr. destruct (draw_app_some (ur_size r) (run app (ur_msgs r)) (ur_clock r)) as (? & ? & ? & ? & Ed).
  cbn [ui_loop]. rewrite Ed. unfold turn_end in *. destruct (ur_draw r); [|done].
  destruct (ur_poll r) as [[|]|]; [|done..]. destruct (ur_read r) as [ev|]; [|done]. by destruct (is_quit ev).
Qed.

Lemma ui_loop_ends app last_tick (pre : list UiRound) (r : UiRound) rest :
  Forall (fun x : UiRound => turn_end x = TurnGoesOn) pre -> turn_end r ≠ TurnGoesOn ->
  lp_app (ui_loop app last_tick (pre ++ r :: rest)) = run app (round_msgs (pre ++ [r]))
  /\ lp_end (ui_loop app last_tick (pre ++ r :: rest)) = match turn_end r with TurnFails e => LoopError e | _ => Quit end.
Proof.
  intros Hpre Hr. revert app last_tick. induction Hpre as [|x pre Hx _ IH]; intros app last_tick.
  - cbn [Datatypes.app]. rewrite round_msgs_cons, app_nil_r. by apply ui_loop_last.
  - destruct (ui_loop_step app last_tick x (pre ++ r :: rest) Hx) as (pic & t & tick & _ & E).
    change ((x :: pre) ++ r :: rest) with (x :: (pre ++ r :: rest)). rewrite E. cbn [after_turn lp_app lp_end].
    change ((x :: pre) ++ [r]) with (x :: (pre ++ [r])). rewrite round_msgs_cons, run_app. apply IH.
Qed.

(** The waits are bounded. *)
Lemma ui_loop_waits app last_tick rounds :
  Forall (fun t => 0 <= t <= tick_rate) (lp_waits (ui_loop app last_tick rounds)).
Proof.
  assert (forall since at_, 0 <= poll_timeout (elapsed since at_) <= tick_rate) as Ht.
  { intros since at_. unfold poll_timeout, elapsed, tick_rate. destruct (Z.leb_spec (Z.max 0 (at_ - since)) 200000000); lia. }
  revert app last_tick. induction rounds as [|r rest IH]; intros app last_tick; cbn [ui_loop]; [constructor|].
  destruct (draw_app _ _ _); [|constructor]. destruct (ur_draw r); [|constructor]. cbn [after_turn lp_waits].
  constructor; [apply Ht|]. destruct (ur_poll r) as [[|]|]; [|apply IH|constructor].
  destruct (ur_read r) as [ev|]; [|constructor]. destruct (is_quit ev); [constructor|apply IH].
Qed.






(** ** Properties *)

(** C37: pressing q or Esc ends the user interface: the terminal is out of raw
    mode and of the alternate screen, the result is success, and the state is
    that of ingesting every message that had arrived, in order, whatever the
    turns after it would be, when the terminal's calls succeed. *)
Theorem tui_quit_restores su app (pre : list UiRound) (r : UiRound) rest :
  setup_works su -> Forall (fun x : UiRound => turn_end x = TurnGoesOn) pre -> turn_end r = TurnQuits ->
  exists pics, run_tui su app (pre ++ r :: rest)
               = (mk_tty false false, run app (round_msgs (pre ++ [r])), pics, UiReturned (Ok tt)).
Proof.
  intros (H1 & H2 & H3 & H4 & H5 & H6) Hpre Hr. unfold run_tui. rewrite H1, H2, H3. cbn zeta.
  destruct (ui_loop_ends app (su_first_tick su) pre r rest Hpre) as [-> ->]; [by rewrite Hr|].
  rewrite Hr, H4, H5, H6. by eexists.
Qed.

(** Success is reported only for a terminal that was restored, whatever the
    terminal's calls answered. *)
Theorem tui_success_restored su app rounds tty app' pics :
  run_tui su app rounds = (tty, app', pics, UiReturned (Ok tt)) -> tty = mk_tty false false.
Proof. unfold run_tui. repeat case_match; intros; by simplify_eq. Qed.

(** C38: an error of drawing, of waiting or of reading ends the user interface
    without restoring the terminal: raw mode and the alternate screen stay on,
    although they could have been left. *)
Theorem tui_error_leaves_terminal su app (pre : list UiRound) (r : UiRound) rest e :
  setup_works su -> Forall (fun x : UiRound => turn_end x = TurnGoesOn) pre -> turn_end r = TurnFails e ->
  exists pics, run_tui su app (pre ++ r :: rest)
               = (mk_tty true true, run app (round_msgs (pre ++ [r])), pics, UiReturned (Err e)).
Proof.
  intros (H1 & H2 & H3 & _) Hpre Hr. unfold run_tui. rewrite H1, H2, H3. cbn zeta.
  destruct (ui_loop_ends app (su_first_tick su) pre r rest Hpre) as [-> ->]; [by rewrite Hr|].
  rewrite Hr. by eexists.
Qed.

(** No wait for a key is longer than a tick, so the picture is redrawn at
    least every 200 milliseconds of waiting, whatever the clock does. *)
Theorem tui_waits_at_most_a_tick app last_tick rounds :
  Forall (fun t => 0 <= t <= tick_rate) (lp_waits (ui_loop app last_tick rounds)).
Proof. apply ui_loop_waits. Qed.

End Loop.

(** ** Witnesses *)

(** An area is the way to it. *)
Definition strips : Layout := {|
  Rect := list nat;
  layout_split d cs area := imap (fun k _ => area ++ [k]) cs
|}.

#[local] Existing Instance strips.

#[local] Instance strips_laws : LayoutLaws strips.
Proof. split. intros d cs area. apply length_imap. Qed.

Definition demo_setup : Setup := mk_setup (Ok tt) (Ok tt) (Ok tt) 0 (Ok tt) (Ok tt) (Ok tt).

(** A turn with one frame and no key, one with a key, one whose wait fails. *)
Definition demo_calls poll read : @UiCalls UtcSeconds.utc_lib strips :=
  @mk_ui_calls UtcSeconds.utc_lib strips ([] : list nat) (fun _ => UtcSeconds.t1) (Ok tt) 5 poll read 6 7.
Definition idle_calls : @UiCalls UtcSeconds.utc_lib strips := demo_calls (Ok false) (Err []).
Definition key_calls (c : char) : @UiCalls UtcSeconds.utc_lib strips := demo_calls (Ok true) (Ok (EventKey (KeyChar c))).
Definition demo_round msgs calls : @UiRound UtcSeconds.utc_lib strips := @mk_ui_round UtcSeconds.utc_lib strips msgs calls.
Definition idle_round : @UiRound UtcSeconds.utc_lib strips :=
  demo_round [(Frame sample_frame, UtcSeconds.t0)] idle_calls.
Definition key_round (c : char) : @UiRound UtcSeconds.utc_lib strips := demo_round [] (key_calls c).
Definition broken_round : @UiRound UtcSeconds.utc_lib strips := demo_round [] (demo_calls (Err (lit "io")) (Err [])).

Lemma tui_quit_restores_witness :
  exists pics, run_tui demo_setup (app_new 5 10 30) [idle_round; key_round 113%N; idle_round]
  = (mk_tty false false, run (app_new 5 10 30) [(Frame sample_frame, UtcSeconds.t0)], pics, UiReturned (Ok tt)).
Proof.
  refine (tui_quit_restores demo_setup (app_new 5 10 30) [idle_round] (key_round 113%N) [idle_round] _ _ _).
  - by repeat split.
  - by repeat constructor.
  - reflexivity.
Defined.

Lemma tui_error_leaves_terminal_witness :
  exists pics, run_tui demo_setup (app_new 5 10 30) [idle_round; broken_round]
  = (mk_tty true true, run (app_new 5 10 30) [(Frame sample_frame, UtcSeconds.t0)], pics, UiReturned (Err (lit "io"))).
Proof.
  refine (tui_error_leaves_terminal demo_setup (app_new 5 10 30) [idle_round] broken_round [] (lit "io") _ _ _).
  - by repeat split.
  - by repeat constructor.
  - reflexivity.
Defined.

