(* ===== verification/HawkMain.v ===== *)
(** * [crates/hawk/src/main.rs]: the command line of the mirror

    Parsing of variables and of the transform, the choice of the script and its
    variables, the pack commands with what they print, and the wiring of source,
    transform and user interface.  A command's behaviour is what it prints and
    how it ends.  The user interface takes the messages of the threads in front of
    it, in the order in which they arrive.  The theorems: the two parsers; which
    variables a thread runs with; the listing does not depend on the order of the
    hash map; the doctor's exit; what reaches the user interface. *)

From stdpp Require Import gmap.
From S2P Require Import Prelude RustStr RustNum RustMap RustPath RustSock TimeLib Severity HawkFrame Io App RustDebug.
From S2P Require Import Backoff Spine EndToEnd Packs Doctor AwkBridge Ui.

#[local] Open Scope rust_scope.

(** ** The command line *)

Module Source.
Inductive t := Stdin | Unix.
End Source.

Inductive PackCommand :=
| PackList
| PackShow (thread_id : rstr)
| PackDoctorSub (smoke : bool) (security : rstr).

Inductive Command :=
| CmdPack (cmd : PackCommand)
| CmdPackDoctor (smoke : bool) (security : rstr).

Record Cli := mk_cli {
  cli_cmd : option Command;
  cli_source : Source.t;
  cli_socket_path : rstr;
  cli_strict : bool;
  cli_tail_size : nat;
  cli_stale_s : Z;
  cli_dead_s : Z;
  cli_packs_dir : rstr;
  cli_transform : rstr;
  cli_tvars : list (rstr * rstr)
}.

(** The parser of one [--tvar]. *)
Definition parse_kv (s : rstr) : result (rstr * rstr) rstr :=
  let? kv := ok_or (split_once EQUALS s) (lit "expected key=value") in
  let key := trim (fst kv) in
  let val := trim (snd kv) in
  if is_empty key then Err (lit "empty key") else Ok (key, val).

Definition parse_transform (s : rstr) : result (rstr * rstr) anyhow :=
  match strip_prefix (lit "thread:") s with
  | Some rest =>
      let t := trim rest in
      if is_empty t then Err [lit "empty thread id"] else Ok (lit "thread", t)
  | None =>
      match strip_prefix (lit "file:") s with
      | Some rest =>
          let p := trim rest in
          if is_empty p then Err [lit "empty file path"] else Ok (lit "file", p)
      | None => Err [lit "transform must be none, thread:<id>, or file:<path>"]
      end
  end.

(** The variables of the command line, later ones replacing earlier ones. *)
Definition cli_vars (cli : Cli) : list (rstr * rstr) := bt_extend (cli_tvars cli) [].

(** The script and its variables. *)
Definition select_script (cli : Cli) (idx : PackIndex) (transform : rstr)
    : result (rstr * list (rstr * rstr)) anyhow :=
  let tvars := cli_vars cli in
  let? mt := parse_transform transform in
  let '(mode, target) := mt in
  if mode =? lit "thread" then
    let? th := ok_or (resolve_thread idx target) [lit "thread not found: " ++ target] in
    let merged := bt_extend tvars (default_tvars (tr_args th)) in
    let? _ := map_err (fun e => [e]) (validate_tvars (tr_args th) merged) in
    Ok (tr_script_path th, merged)
  else if mode =? lit "file" then Ok (target, tvars)
  else Err [lit "unknown transform mode"].

(** ** Commands *)

(** How a command ends: [Ok(())], an error, or [exit] with a status. *)
Inductive Exit := Returned | Failed (e : anyhow) | Exited (code : Z).

(** What was printed to the two streams, line by line, and the end. *)
Record Outcome := mk_outcome_of { out_stdout : list rstr; out_stderr : list rstr; out_exit : Exit }.

Section Commands.
Context {T : TimeLib} {A : Awk} {F : Fs} {TM : Toml} {U : UnicodeTables}.

Definition parse_security (security : rstr) : result SecurityMode.t anyhow :=
  if security =? lit "strict" then Ok SecurityMode.Strict
  else if security =? lit "warn" then Ok SecurityMode.Warn
  else if security =? lit "off" then Ok SecurityMode.Off
  else Err [lit "unknown security mode '" ++ security ++ lit "', expected strict|warn|off"].

Definition run_doctor (cli : Cli) (smoke : bool) (security : rstr) : Outcome :=
  match parse_security security with
  | Err e => mk_outcome_of [] [] (Failed e)
  | Ok sec_mode =>
      let rep := run_pack_doctor (cli_packs_dir cli) (mk_options smoke sec_mode) in
      let stderr := map (fun w => lit "WARN" ++ [TAB] ++ w) (d_warnings rep)
                    ++ map (fun e => lit "FAIL" ++ [TAB] ++ e) (d_errors rep) in
      if report_ok rep then mk_outcome_of [lit "OK" ++ [TAB] ++ lit "pack doctor passed"] stderr Returned
      else mk_outcome_of [] stderr (Exited 2)
  end.

(** The rows of [pack list]; [iter] is the hash map's iteration. *)
Definition list_rows (iter : list (rstr * ThreadResolved)) : list rstr :=
  map (fun e => join [TAB] [e.1; tr_pack_id e.2; tr_kind e.2; tr_title e.2])
    (sort_by (fun a b => str_cmp a.1 b.1) iter).

Definition arg_type_name (ty : ArgType.t) : rstr :=
  match ty with ArgType.String => lit "string" | ArgType.Int => lit "int" | ArgType.Bool => lit "bool" end.

Definition show_lines (th : ThreadResolved) : list rstr :=
  [lit "id: " ++ tr_thread_id th; lit "pack: " ++ tr_pack_id th; lit "kind: " ++ tr_kind th;
   lit "title: " ++ tr_title th; lit "desc: " ++ tr_description th;
   lit "script: " ++ debug_str (tr_script_path th)]
  ++ match tr_args th with
     | [] => [lit "args: none"]
     | args =>
         lit "args:" ::
         map (fun a => lit "  - " ++ arg_name a ++ lit " (" ++ arg_type_name (arg_ty a) ++ lit ") default="
                       ++ arg_default a ++ lit " :: " ++ arg_help a) args
     end.

Definition run_pack_cmd (cli : Cli) (cmd : Command) (iter : gmap rstr ThreadResolved -> list (rstr * ThreadResolved))
    : Outcome :=
  match cmd with
  | CmdPack cmd =>
      match load_packs (cli_packs_dir cli) with
      | Err e => mk_outcome_of [] [] (Failed e)
      | Ok idx =>
          match cmd with
          | PackList => mk_outcome_of (list_rows (iter (ix_threads idx))) [] Returned
          | PackShow thread_id =>
              match resolve_thread idx thread_id with
              | None => mk_outcome_of [] [] (Failed [lit "thread not found: " ++ thread_id])
              | Some th => mk_outcome_of (show_lines th) [] Returned
              end
          | PackDoctorSub smoke security => run_doctor cli smoke security
          end
      end
  | CmdPackDoctor smoke security => run_doctor cli smoke security
  end.

(** ** Wiring *)

(** What the source thread sends. *)
Definition source_msgs (pf : Platform) (cli : Cli) (stdin : byte_stream) (connected : result byte_stream rstr)
    : result (list IngestMsg) anyhow :=
  match cli_source cli with
  | Source.Stdin => Ok (spawn_stdin_reader stdin (cli_strict cli))
  | Source.Unix => spawn_unix_reader pf connected (cli_socket_path cli) (cli_strict cli)
  end.

(** The thread in front of a transform: frames to the process, the rest to the
    user interface. *)
Definition split_source (ms : list IngestMsg) : list HawkFrame * list IngestMsg :=
  (omap (fun m => match m with Frame f => Some f | _ => None end) ms,
   List.filter (fun m => negb (is_frame m)) ms).

(** The two channels of the reader thread. *)
Definition bridge_frames (ms : list BridgeMsg) : list HawkFrame :=
  omap (fun m => match m with BFrame f => Some f | BError _ => None end) ms.
Definition bridge_errors (ms : list BridgeMsg) : list rstr :=
  omap (fun m => match m with BFrame _ => None | BError e => Some e end) ms.

(** [IngestMsg::IoError(format!("awk: {}", err))] *)
Definition awk_error (e : rstr) : IngestMsg := IoError (lit "awk: " ++ e).

(** One turn of the user interface: which senders' next messages are there when it
    asks, in the order in which they were sent, with the clock at each ingestion;
    and what the terminal and the clocks answer. *)
Record Turn {L : Layout} := mk_turn {
  tn_arrivals : list (nat * OffsetDateTime);
  tn_calls : UiCalls
}.

(** The receiving end of the channel to the user interface: each sender's messages
    come in its order.  The messages received, and what is left of each sender's. *)
Fixpoint receive (senders : list (list IngestMsg)) (arrivals : list (nat * OffsetDateTime))
    : list (IngestMsg * OffsetDateTime) * list (list IngestMsg) :=
  match arrivals with
  | [] => ([], senders)
  | (k, now) :: rest =>
      match senders !! k with
      | Some (m :: more) => let '(ms, unread) := receive (<[k := more]> senders) rest in ((m, now) :: ms, unread)
      | _ => receive senders rest
      end
  end.

Fixpoint rounds_of {L : Layout} (senders : list (list IngestMsg)) (turns : list Turn) : list UiRound :=
  match turns with
  | [] => []
  | t :: rest =>
      let '(ms, unread) := receive senders (tn_arrivals t) in
      mk_ui_round ms (tn_calls t) :: rounds_of unread rest
  end.

(** What the outside delivers: the standard input, the outcome of connecting, the
    iteration order of the hash map; for a transform: how the process is started,
    the clock and the flushes of the writer, the pipe to the process, what the
    process prints given its arguments and its input, and how it ends; for the
    user interface: the calls around the loop and its turns. *)
Record Outside {L : Layout} {C : Type} := mk_outside {
  ou_stdin : byte_stream;
  ou_connected : result byte_stream rstr;
  ou_iter : gmap rstr ThreadResolved -> list (rstr * ThreadResolved);
  ou_started : list rstr -> result (bool * bool) rstr;
  ou_now : nat -> OffsetDateTime;
  ou_flushed : nat -> bool;
  ou_pipe : C;
  ou_stdout : list rstr -> list byte -> byte_stream;
  ou_waited : result (bool * rstr) rstr;
  ou_setup : Setup;
  ou_turns : list Turn
}.

Context {L : Layout} {C : Type} `{Sink C}.

(** The messages of each sender to the user interface, before they interleave. *)
Definition ui_senders (pf : Platform) (cli : Cli) (ou : @Outside L C) : result (list (list IngestMsg)) anyhow :=
  let? idx := load_packs (cli_packs_dir cli) in
  let? source := source_msgs pf cli (ou_stdin ou) (ou_connected ou) in
  let transform := trim (cli_transform cli) in
  if transform =? lit "none" then Ok [source]
  else
    let? st := select_script cli idx transform in
    let '(script_path, tvars) := st in
    let '(frames, others) := split_source source in
    let? args := awk_spawn (ou_started ou) script_path tvars in
    let '(fed, out, werrs, xerrs) :=
      start_bridge (ou_now ou) (ou_flushed ou) (ou_pipe ou) frames
        (ou_stdout ou args (sink_log (writer_loop (ou_now ou) (ou_flushed ou) 0 (ou_pipe ou) frames).1)) (ou_waited ou) in
    Ok [others; map Frame (bridge_frames out);
        map awk_error (bridge_errors out); map awk_error werrs; map awk_error xerrs].

(** A pack command with what it prints, or the user interface: the terminal, the
    application, the pictures shown and the end. *)
Definition main (pf : Platform) (cli : Cli) (ou : @Outside L C)
    : Outcome + result (Tty * App * list Picture * UiEnd) anyhow :=
  match cli_cmd cli with
  | Some cmd => inl (run_pack_cmd cli cmd (ou_iter ou))
  | None => inr (
      let? senders := ui_senders pf cli ou in
      Ok (run_tui (ou_setup ou) (app_new (cli_tail_size cli) (cli_stale_s cli) (cli_dead_s cli))
            (rounds_of senders (ou_turns ou))))
  end.
End Commands.

(** ** Lemmas *)

Lemma perm_short {X} (l1 l2 : list X) : l1 ≡ₚ l2 -> (length l1 <= 1)%nat -> l1 = l2.
Proof.
  intros Hp Hl. destruct l1 as [|a [|b l1]]; [by apply Permutation_nil_l in Hp| |simpl in Hl; lia].
  by apply Permutation_singleton_l in Hp.
Qed.

(** With distinct keys at most one entry compares equal to a probe. *)
Lemma key_filter_short {X} (l : list (rstr * X)) p :
  NoDup l.*1 -> (length (List.filter (cmp_eqb (fun a b => str_cmp a.1 b.1) p) l) <= 1)%nat.
Proof.
  induction l as [|e l IH]; cbn [fmap list_fmap List.filter length]; [lia|]. intros [He Hnd]%NoDup_cons.
  destruct (cmp_eqb _ p e) eqn:E; [|by apply IH]. cbn [length].
  enough (List.filter (cmp_eqb (fun a b => str_cmp a.1 b.1) p) l = []) as -> by (simpl; lia).
  apply cmp_eqb_true, lex_cmp_eq in E.
  destruct (List.filter _ l) as [|x xs] eqn:Ef; [done|]. exfalso.
  assert (In x (List.filter (cmp_eqb (fun a b => str_cmp a.1 b.1) p) l)) as Hx by (rewrite Ef; by left).
  apply filter_In in Hx as [Hx Ex]. apply cmp_eqb_true, lex_cmp_eq in Ex.
  apply He. rewrite <-E, Ex. apply list_elem_of_fmap. exists x. by rewrite list_elem_of_In.
Qed.

Lemma perm_filter {X} (f : X -> bool) (l1 l2 : list X) : l1 ≡ₚ l2 -> List.filter f l1 ≡ₚ List.filter f l2.
Proof.
  induction 1 as [|x l1 l2 _ IH|x y l|l1 l2 l3 _ IH1 _ IH2]; cbn [List.filter]; [done|..].
  - destruct (f x); [by constructor|done].
  - destruct (f x), (f y); [constructor|done..].
  - by etransitivity.
Qed.

Lemma list_rows_perm l1 l2 : l1 ≡ₚ l2 -> NoDup l1.*1 -> list_rows l1 = list_rows l2.
Proof.
  intros Hp Hnd. unfold list_rows. f_equal.
  assert (CmpPreorder (fun a b : rstr * ThreadResolved => str_cmp a.1 b.1)) as P
    by apply (cmp_on_preorder fst), str_cmp_preorder.
  apply (stable_sort_unique (fun a b : rstr * ThreadResolved => str_cmp a.1 b.1)).
  - by apply sort_by_sorted.
  - by apply sort_by_sorted.
  - by rewrite !sort_by_perm.
  - intros p. rewrite !sort_by_stable by done. apply perm_short; [by apply perm_filter|by apply key_filter_short].
Qed.

Lemma strip_prefix_app p s : strip_prefix p (p ++ s) = Some s.
Proof.
  unfold strip_prefix. assert (list_prefix p (p ++ s) = true) as -> by (apply list_prefix_iff; by exists s).
  by rewrite drop_app_length.
Qed.

Lemma strip_prefix_some p s r : strip_prefix p s = Some r -> s = p ++ r.
Proof.
  unfold strip_prefix. destruct (list_prefix p s) eqn:E; [|done]. apply list_prefix_iff in E as [t ->].
  rewrite drop_app_length. by intros [= ->].
Qed.

(** The last value that a list of assignments gives to a name. *)
Definition given (k : rstr) (l : list (rstr * rstr)) : option rstr :=
  last (omap (fun e => if bool_decide (e.1 = k) then Some e.2 else None) l).

Lemma cli_vars_given cli k : bt_get k (cli_vars cli) = given k (cli_tvars cli).
Proof.
  unfold cli_vars, given. induction (cli_tvars cli) as [|[k' v] l IH] using rev_ind; [done|].
  unfold bt_extend in *. rewrite foldl_app, omap_app. cbn [foldl omap list_omap fst snd].
  case_bool_decide as Hk; [subst k'; by rewrite bt_get_insert, last_snoc|].
  rewrite app_nil_r, bt_get_insert_ne; [done| |by intros ->]. apply (bt_extend_wf l []). constructor.
Qed.

(** ** Properties *)

(** A [--tvar] is accepted exactly when it has an equals sign with a name
    that is not blank before the first one; name and value are the two sides,
    trimmed. *)
Theorem parse_kv_spec s k v :
  parse_kv s = Ok (k, v) <->
  exists a b, s = a ++ [EQUALS] ++ b /\ EQUALS ∉ a /\ trim a = k /\ trim b = v /\ k ≠ [].
Proof.
  unfold parse_kv, split_once. split.
  - destruct (split_first EQUALS s) as [[a b]|] eqn:E; cbn [ok_or]; [|done].
    apply split_first_some in E as [-> Ha]. cbn zeta. cbn [fst snd].
    destruct (is_empty (trim a)) eqn:Ek; [done|]. intros Eq. apply (inj Ok) in Eq. injection Eq as <- <-.
    exists a, b. repeat split; try done. by apply is_empty_trim.
  - intros (a & b & -> & Ha & <- & <- & Hne). cbn [app]. rewrite split_first_app by done.
    cbn [ok_or fst snd]. destruct (trim a); [done|]. done.
Qed.

(** A transform is accepted exactly in the two forms [thread:<id>] and
    [file:<path>] with a target that is not blank, and names that target
    trimmed; the two forms exclude each other. *)
Theorem parse_transform_spec s mode target :
  parse_transform s = Ok (mode, target) <->
  target ≠ [] /\ exists rest, trim rest = target
    /\ ((mode = lit "thread" /\ s = lit "thread:" ++ rest) \/ (mode = lit "file" /\ s = lit "file:" ++ rest)).
Proof.
  unfold parse_transform. split.
  - destruct (strip_prefix (lit "thread:") s) as [r|] eqn:E1; [|destruct (strip_prefix (lit "file:") s) as [r|] eqn:E2; [|done]];
      cbn zeta; (destruct (is_empty (trim r)) eqn:Er; [done|]); intros Eq; apply (inj Ok) in Eq; injection Eq as <- <-;
      (split; [by apply is_empty_trim|]); exists r; (split; [done|]).
    + left. split; [done|]. by apply strip_prefix_some.
    + right. split; [done|]. by apply strip_prefix_some.
  - intros (Hne & r & <- & [[-> ->]|[-> ->]]).
    + rewrite strip_prefix_app. cbn zeta. by destruct (trim r).
    + change (strip_prefix (lit "thread:") (lit "file:" ++ r)) with (@None rstr).
      rewrite strip_prefix_app. cbn zeta. by destruct (trim r).
Qed.

(** C31: the variables a thread runs with: for each name the last value given on
    the command line, else the declared default; every one of them is declared
    and fits its declared type; and the script is the thread's own. *)
Theorem thread_variables cli idx id path vars :
  select_script cli idx (lit "thread:" ++ id) = Ok (path, vars) ->
  exists th,
    resolve_thread idx (trim id) = Some th /\ path = tr_script_path th
    /\ (forall k, bt_get k vars = match given k (cli_tvars cli) with
                                  | Some v => Some v
                                  | None => arg_default <$> declared (tr_args th) k
                                  end)
    /\ Forall (fun e => exists a, declared (tr_args th) e.1 = Some a /\ value_fits (arg_ty a) e.2) vars.
Proof.
  unfold select_script, parse_transform. rewrite strip_prefix_app. cbn zeta.
  destruct (is_empty (trim id)); [done|]. rewrite bool_decide_eq_true_2 by done.
  destruct (resolve_thread idx (trim id)) as [th|]; cbn [ok_or]; [|done].
  set (merged := bt_extend (cli_vars cli) (default_tvars (tr_args th))).
  destruct (validate_tvars (tr_args th) merged) as [[]|] eqn:Ev; cbn [map_err]; [|done].
  intros E. apply (inj Ok) in E. injection E as <- <-. exists th. split; [done|]. split; [done|]. split.
  - intros k. destruct (default_tvars_declared (tr_args th)) as [Hw Hg].
    unfold merged. rewrite bt_get_extend; [|apply bt_extend_wf; constructor|done]. by rewrite Hg, cli_vars_given.
  - unfold validate_tvars in Ev. rewrite check_tvars_ok in Ev. eapply Forall_impl; [exact Ev|].
    intros [k v]; cbn [fst snd]. rewrite check_tvar_ok. by setoid_rewrite allowed_args_declared.
Qed.

Section Properties.
Context {T : TimeLib} {A : Awk} {F : Fs} {TM : Toml} {U : UnicodeTables}.

(** [pack list] prints the same rows whatever order the hash map iterates
    in. *)
Theorem pack_list_deterministic cli iter1 iter2 :
  (forall m, iter1 m ≡ₚ map_to_list m) -> (forall m, iter2 m ≡ₚ map_to_list m) ->
  run_pack_cmd cli (CmdPack PackList) iter1 = run_pack_cmd cli (CmdPack PackList) iter2.
Proof.
  intros H1 H2. cbn [run_pack_cmd]. destruct (load_packs (cli_packs_dir cli)) as [idx|]; [|done].
  f_equal. apply list_rows_perm; [by rewrite H1, H2|]. rewrite H1. apply NoDup_fst_map_to_list.
Qed.

(** C29: the doctor as a gate, with its three ends.  It ends with success exactly
    for a known mode and a report without errors; then the loader accepts the
    directory if and only if every entry of the directory can be read (entries
    that cannot are skipped by the doctor and fatal for the loader).  With errors
    it exits with status 2 after printing each of them.  It fails without a report
    only for an unknown mode. *)
Theorem doctor_gate cli smoke security :
  let dir := cli_packs_dir cli in
  let errors mode := d_errors (run_pack_doctor dir (mk_options smoke mode)) in
  match out_exit (run_doctor cli smoke security) with
  | Returned =>
      (exists mode, parse_security security = Ok mode /\ errors mode = [])
      /\ is_ok (load_packs dir) = listable dir
  | Exited code =>
      code = 2%Z /\ exists mode, parse_security security = Ok mode /\ errors mode ≠ []
        /\ forall e, e ∈ errors mode -> lit "FAIL" ++ [TAB] ++ e ∈ out_stderr (run_doctor cli smoke security)
  | Failed _ => security ∉ [lit "strict"; lit "warn"; lit "off"]
  end.
Proof.
  cbn zeta. unfold run_doctor. destruct (parse_security security) as [mode|e] eqn:Em.
  - destruct (report_ok _) eqn:Er; cbn [out_exit out_stderr].
    + split; [|by eapply quiet_report_loads]. exists mode. split; [done|]. by apply bool_decide_eq_true in Er.
    + apply bool_decide_eq_false in Er. split; [done|]. exists mode. split; [done|]. split; [done|].
      intros e He. apply elem_of_app. right. apply list_elem_of_In, in_map_iff.
      exists e. split; [done|]. by apply list_elem_of_In.
  - cbn [out_exit]. unfold parse_security in Em. rewrite !not_elem_of_cons.
    repeat (case_bool_decide; [done|]). pose proof (not_elem_of_nil security). tauto.
Qed.

Context {TL : TimeLaws T} {L : Layout} {C : Type} `{SinkLaws C}.

Lemma bridge_only_frames (l : list HawkFrame) (g : nat -> HawkFrame -> HawkFrame) :
  bridge_frames (imap (fun k f => BFrame (g k f)) l) = imap g l
  /\ bridge_errors (imap (fun k f => BFrame (g k f)) l) = [].
Proof.
  revert g. induction l as [|f l IH]; intros g; [done|].
  destruct (IH (fun k => g (S k))) as [E1 E2]. cbn [imap]. unfold compose.
  split; [|exact E2]. change (g 0%nat f :: bridge_frames (imap (fun k x => BFrame (g (S k) x)) l) = g 0%nat f :: imap (fun k => g (S k)) l).
  by rewrite E1.
Qed.

(** Every frame of a source was read from a line. *)
Lemma source_frames pf cli stdin connected source f :
  source_msgs pf cli stdin connected = Ok source -> Frame f ∈ source -> read_frame f.
Proof.
  unfold source_msgs, spawn_unix_reader. destruct (cli_source cli); [|destruct pf; [|done]]; intros [= <-].
  - apply stdin_frames.
  - apply unix_frames.
Qed.

Lemma select_not_none cli idx : is_ok (select_script cli idx (lit "none")) = false.
Proof. reflexivity. Qed.

(** C26: a transform that copies its input is invisible, for both kinds of source
    and both kinds of script: the user interface gets the frames of the source in
    their order, each with its missing timestamp filled in and without a flag that
    has no name, and the source's error messages unchanged; the transform adds
    nothing.  Assumed: packs and source open and the script is selected and
    exists; the process starts with its pipes, takes all that is written to it
    (the writer reports no error) and prints what it got, and exits with success;
    every frame's timestamp, its own or the clock's, has an RFC 3339 text. *)
Theorem copying_transform_invisible pf cli (ou : @Outside T L C) idx source script vars pipe' st :
  load_packs (cli_packs_dir cli) = Ok idx -> source_msgs pf cli (ou_stdin ou) (ou_connected ou) = Ok source ->
  select_script cli idx (trim (cli_transform cli)) = Ok (script, vars) -> fs_exists script = true ->
  ou_started ou (awk_args vars script) = Ok (true, true) ->
  (forall input, ou_stdout ou (awk_args vars script) input = mk_stream input None) -> ou_waited ou = Ok (true, st) ->
  sink_log (ou_pipe ou) = [] ->
  let frames := omap (fun m => match m with Frame f => Some f | _ => None end) source in
  Forall (relayable (ou_now ou)) frames -> writer_loop (ou_now ou) (ou_flushed ou) 0 (ou_pipe ou) frames = (pipe', []) ->
  ui_senders pf cli ou
  = Ok [List.filter (fun m => negb (is_frame m)) source;
        map Frame (imap (fun k f => stamp (ou_now ou k) (named_frame f)) frames); []; []; []].
Proof.
  intros Hidx Hsrc Hsel Hex Hst Hout Hwt Hlog. cbn zeta. set (frames := omap _ source). intros Hrel Hw.
  unfold ui_senders. rewrite Hidx, Hsrc. cbn zeta. rewrite bool_decide_eq_false_2.
  2: { intros E. rewrite E in Hsel. pose proof (select_not_none cli idx) as Hn. by rewrite Hsel in Hn. }
  rewrite Hsel. unfold split_source. fold frames.
  unfold awk_spawn. rewrite Hex. cbn [negb]. cbn zeta. rewrite Hst. cbn [from_err map_err ok_or fst snd].
  unfold start_bridge. rewrite Hw, Hout, Hwt. cbn [fst].
  assert (bridge_reader (read_lines (mk_stream (sink_log pipe') None))
          = imap (fun k f => BFrame (stamp (ou_now ou k) (named_frame f))) frames) as ->.
  { apply (copy_gives_back frames (ou_now ou) (ou_flushed ou) (ou_pipe ou) pipe'); [|done|done].
    apply Forall_forall. intros f Hf. split; [|by eapply Forall_forall in Hrel].
    apply list_elem_of_omap in Hf as (m & Hm & E). destruct m; simplify_eq. by eapply source_frames. }
  by destruct (bridge_only_frames frames (fun k f => stamp (ou_now ou k) (named_frame f))) as [-> ->].
Qed.
End Properties.

(** ** Witnesses *)

#[local] Existing Instance no_tables.
#[local] Existing Instance script_fs.
#[local] Existing Instance demo_toml.
#[local] Existing Instance silent_awk.

Definition demo_cli (transform : rstr) (tvars : list (rstr * rstr)) : Cli :=
  mk_cli None Source.Stdin (lit "/tmp/hawk.sock") false 200 10 30 (lit "packs") transform tvars.

Lemma thread_variables_witness :
  exists th, resolve_thread demo_index (lit "fail_only") = Some th
    /\ bt_get (lit "window") [(lit "window", lit "7")] = given (lit "window") [(lit "window", lit "3"); (lit "window", lit "7")].
Proof.
  destruct (thread_variables (demo_cli (lit "thread:fail_only") [(lit "window", lit "3"); (lit "window", lit "7")])
              demo_index (lit "fail_only") (lit "packs/hawk.core/fail_only.awk") [(lit "window", lit "7")])
    as (th & H1 & _ & H2 & _); [vm_compute; reflexivity|].
  exists th. split; [exact H1|exact (H2 (lit "window"))].
Defined.

Lemma pack_list_deterministic_witness :
  run_pack_cmd (T := UtcSeconds.utc_lib) (demo_cli (lit "none") []) (CmdPack PackList) map_to_list
  = run_pack_cmd (T := UtcSeconds.utc_lib) (demo_cli (lit "none") []) (CmdPack PackList) (fun m => rev (map_to_list m)).
Proof.
  apply (pack_list_deterministic (T := UtcSeconds.utc_lib) (demo_cli (lit "none") []) map_to_list
           (fun m => rev (map_to_list m))); intros m; [done|symmetry; apply Permutation_rev].
Defined.

(** The demonstration directory passes without the scan, and loads. *)
Lemma doctor_gate_witness :
  out_exit (run_doctor (T := UtcSeconds.utc_lib) (demo_cli (lit "none") []) true (lit "off")) = Returned
  /\ is_ok (load_packs (lit "packs")) = true.
Proof.
  assert (out_exit (run_doctor (T := UtcSeconds.utc_lib) (demo_cli (lit "none") []) true (lit "off")) = Returned) as E
    by reflexivity.
  split; [exact E|].
  pose proof (doctor_gate (T := UtcSeconds.utc_lib) (demo_cli (lit "none") []) true (lit "off")) as H.
  cbn zeta in H. rewrite E in H. destruct H as [_ H]. etransitivity; [exact H|reflexivity].
Defined.

#[local] Existing Instance strips.

Definition demo_outside turns : @Outside UtcSeconds.utc_lib strips Pipe :=
  @mk_outside UtcSeconds.utc_lib strips Pipe sample_stdin (Err []) map_to_list (fun _ => Ok (true, true)) (fun _ => UtcSeconds.t0)
    (fun _ => true) (mk_pipe [] 500) (fun _ input => mk_stream input None) (Ok (true, [])) demo_setup turns.

Lemma copying_transform_invisible_witness :
  ui_senders (T := UtcSeconds.utc_lib) Unix (demo_cli (lit "file:packs") []) (demo_outside [])
  = Ok [[]; [Frame sample_frame]; []; []; []].
Proof.
  destruct (load_packs (lit "packs")) as [idx|e] eqn:El; [|by vm_compute in El].
  refine (copying_transform_invisible (T := UtcSeconds.utc_lib) Unix (demo_cli (lit "file:packs") []) (demo_outside [])
            idx [Frame sample_frame] (lit "packs") [] (mk_pipe (wire sample_line) _) [] _ _ _ _ _ _ _ _ _ _).
  - exact El.
  - reflexivity.
  - reflexivity.
  - reflexivity.
  - reflexivity.
  - reflexivity.
  - reflexivity.
  - reflexivity.
  - constructor; [|constructor]. intros i. by eexists.
  - reflexivity.
Defined.
