(* ===== verification/System.v ===== *)
(** * The daemon and the mirror together

    The two programs side by side: the threads of the daemon feed a client of its
    socket, the mirror is that client, and its user interface takes what the
    mirror's threads send, in the order in which it arrives.  The theorems: what the
    user interface holds when the user quits; and from the sources of the daemon to
    the entity table of the mirror. *)

From stdpp Require Import gmap.
From S2P Require Import Prelude RustStr RustNum RustMap RustPath RustSock TimeLib Severity HawkFrame Io App RustDebug.
From S2P Require Import Backoff Spine SpineThreads SpineLiveness Ingest GrpcHealth Systemd EndToEnd Sources HawkdMain.
From S2P Require Import Packs Doctor AwkBridge Ui HawkMain.

(** ** Taking from several senders *)

(** [takes ss ms ss']: the receiver of the channel has got [ms]; of what the
    senders [ss] send, [ss'] is left. *)
Inductive takes {A} : list (list A) -> list A -> list (list A) -> Prop :=
| takes_none ss : takes ss [] ss
| takes_one ss k m s ms ss' :
    ss !! k = Some (m :: s) -> takes (<[k := s]> ss) ms ss' -> takes ss (m :: ms) ss'.

Lemma takes_single {A} (s ms s' : list A) : takes [s] ms [s'] -> s = ms ++ s'.
Proof.
  remember [s] as ss eqn:Es. remember [s'] as ss' eqn:Es'. intros Ht. revert s Es.
  induction Ht as [ss|ss k m x ms ss' Hk _ IH]; intros s ->; [by simplify_eq|].
  destruct k as [|k]; [|done]. injection Hk as ->. cbn [app]. f_equal. by apply IH.
Qed.

(** Each sender's messages arrive in its order. *)
Lemma takes_order {A} (ss ms ss' : _) k (s : list A) :
  takes ss ms ss' -> ss !! k = Some s ->
  exists s', ss' !! k = Some s' /\ exists got, s = got ++ s' /\ got `sublist_of` ms.
Proof.
  intros Ht. revert s. induction Ht as [ss|ss j m x ms ss' Hj _ IH]; intros s Hk.
  { exists s. split; [done|]. by exists []. }
  destruct (decide (j = k)) as [->|Hjk].
  - rewrite Hk in Hj. injection Hj as ->.
    destruct (IH x) as (s' & Hs' & got & -> & Hsub); [apply list_lookup_insert_eq; by eapply lookup_lt_Some|].
    exists s'. split; [done|]. exists (m :: got). split; [done|by constructor].
  - destruct (IH s) as (s' & Hs' & got & -> & Hsub); [by rewrite list_lookup_insert_ne|].
    exists s'. split; [done|]. exists got. split; [done|by constructor].
Qed.

(** How often sender [k] has a message ready in some turns. *)
Definition arrived {T : TimeLib} {L : Layout} (k : nat) (turns : list Turn) : nat :=
  length (List.filter (fun a => bool_decide (a.1 = k)) (concat (map tn_arrivals turns))).

Section Receiving.
Context {T : TimeLib} {L : Layout}.

Lemma arrived_cons k (t : Turn) turns : arrived k (t :: turns) = (arrived k [t] + arrived k turns)%nat.
Proof. unfold arrived. cbn [map concat]. by rewrite app_nil_r, List.filter_app, length_app. Qed.

(** Of each sender, as many messages are taken as it has ready. *)
Lemma receive_takes senders arrivals :
  takes senders (map fst (receive senders arrivals).1) (receive senders arrivals).2
  /\ forall k s, senders !! k = Some s ->
       (receive senders arrivals).2 !! k = Some (drop (length (List.filter (fun a => bool_decide (a.1 = k)) arrivals)) s).
Proof.
  revert senders. induction arrivals as [|[j now] rest IH]; intros senders; [split; [constructor|by intros]|].
  cbn [receive List.filter fst].
  assert (senders !! j = None \/ senders !! j = Some [] ->
    forall k s, senders !! k = Some s ->
      (receive senders rest).2 !! k
      = Some (drop (length (if bool_decide (j = k) then (j, now) :: List.filter (fun a => bool_decide (a.1 = k)) rest
                            else List.filter (fun a => bool_decide (a.1 = k)) rest)) s)) as Hnone.
  { intros Hj k s Hk. rewrite (proj2 (IH senders) k s Hk). case_bool_decide as E; [|done]. subst k.
    rewrite Hk in Hj. destruct Hj as [?|[= ->]]; [done|]. by rewrite !drop_nil. }
  destruct (senders !! j) as [[|m more]|] eqn:Hj; [split; [apply IH|by apply Hnone; right]| |split; [apply IH|by apply Hnone; left]].
  destruct (IH (<[j := more]> senders)) as [H1 H2]. destruct (receive (<[j := more]> senders) rest) as [ms unread].
  split; [by eapply takes_one|]. intros k s Hk. cbn [snd] in *. case_bool_decide as E.
  - subst k. rewrite Hk in Hj. injection Hj as ->. apply H2, list_lookup_insert_eq. by eapply lookup_lt_Some.
  - apply H2. by rewrite list_lookup_insert_ne.
Qed.

Lemma takes_app {A} (ss ss' ss'' : list (list A)) ms ms' : takes ss ms ss' -> takes ss' ms' ss'' -> takes ss (ms ++ ms') ss''.
Proof. induction 1 as [|ss k m s ms ss' Hk _ IH]; intros Ht; [done|]. eapply takes_one; [exact Hk|by apply IH]. Qed.

Lemma rounds_take senders turns :
  exists unread, takes senders (map fst (round_msgs (rounds_of senders turns))) unread
    /\ forall k s, senders !! k = Some s -> unread !! k = Some (drop (arrived k turns) s).
Proof.
  revert senders. induction turns as [|t turns IH]; intros senders; cbn [rounds_of].
  { exists senders. split; [constructor|by intros]. }
  pose proof (receive_takes senders (tn_arrivals t)) as [H1 H2]. destruct (receive senders (tn_arrivals t)) as [ms mid].
  destruct (IH mid) as (unread & H3 & H4). exists unread. split.
  - unfold round_msgs in *. cbn [map concat ur_msgs fst snd] in *. rewrite map_app. by eapply takes_app.
  - intros k s Hk. rewrite arrived_cons, <-drop_drop. apply H4. cbn [snd] in H2. rewrite (H2 k s Hk). unfold arrived. cbn [map concat].
    by rewrite app_nil_r.
Qed.

(** The turns, with their messages. *)
Lemma rounds_of_split senders pre r rest :
  exists (pre' : list UiRound) (r' : UiRound) rest',
    rounds_of senders (pre ++ r :: rest) = pre' ++ r' :: rest' /\ rounds_of senders (pre ++ [r]) = pre' ++ [r']
    /\ map ur_calls pre' = map tn_calls pre /\ ur_calls r' = tn_calls r.
Proof.
  revert senders. induction pre as [|t pre IH]; intros senders; cbn [app rounds_of].
  - destruct (receive senders (tn_arrivals r)) as [ms unread]. by exists [], (mk_ui_round ms (tn_calls r)), (rounds_of unread rest).
  - destruct (receive senders (tn_arrivals t)) as [ms unread]. destruct (IH unread) as (pre' & r' & rest' & E1 & E2 & E3 & E4).
    exists (mk_ui_round ms (tn_calls t) :: pre'), r', rest'. cbn [map app ur_calls]. by rewrite E1, E2, E3.
Qed.
End Receiving.

Section System.
Context {T : TimeLib} {TL : TimeLaws T} {U : UnicodeTables} {A : Awk} {F : Fs} {TM : Toml}.
Context {L : Layout} {LL : LayoutLaws L} {D : Type} `{Sink D}.

(** The calls of the terminal succeed and the user quits in turn [r]. *)
Record user_quits (ou : @HawkMain.Outside T L D) (pre : list Turn) (r : Turn) : Prop := {
  uq_setup : setup_works (ou_setup ou);
  uq_turns : exists rest, ou_turns ou = pre ++ r :: rest;
  uq_pre : Forall (fun x => turn_end (tn_calls x) = TurnGoesOn) pre;
  uq_quit : turn_end (tn_calls r) = TurnQuits
}.

(** What the mirror starts with. *)
Definition fresh_app (cli : HawkMain.Cli) : App := app_new (cli_tail_size cli) (cli_stale_s cli) (cli_dead_s cli).

(** What the session leaves. *)
Lemma session_end pf cli (ou : @HawkMain.Outside T L D) senders pre r :
  cli_cmd cli = None -> ui_senders pf cli ou = Ok senders -> user_quits ou pre r ->
  exists ms unread pics,
    takes senders (map fst ms) unread
    /\ (forall k s, senders !! k = Some s -> unread !! k = Some (drop (arrived k (pre ++ [r])) s))
    /\ HawkMain.main pf cli ou = inr (Ok (mk_tty false false, run (fresh_app cli) ms, pics, UiReturned (Ok tt))).
Proof.
  intros Hcmd Hs [(H1 & H2 & H3 & H4 & H5 & H6) [rest Hr] Hpre Hq].
  destruct (rounds_of_split senders pre r rest) as (pre' & r' & rest' & E1 & E2 & E3 & E4).
  destruct (rounds_take senders (pre ++ [r])) as (unread & Ht & Hu). rewrite E2 in Ht.
  assert (Forall (fun x : UiRound => turn_end x = TurnGoesOn) pre') as Hpre'.
  { apply (Forall_map ur_calls (fun c => turn_end c = TurnGoesOn)). rewrite E3. by apply Forall_map. }
  eexists _, unread, _. split; [exact Ht|]. split; [exact Hu|]. unfold HawkMain.main. rewrite Hcmd, Hs, Hr, E1.
  unfold run_tui. rewrite H1, H2, H3. cbn zeta.
  destruct (ui_loop_ends (fresh_app cli) (su_first_tick (ou_setup ou)) pre' r' rest' Hpre') as [Ea Ee]; [by rewrite E4, Hq|].
  unfold fresh_app in *. rewrite Ea, Ee, E4, Hq, H4, H5, H6. reflexivity.
Qed.

(** The last frame of a key, and nothing else, is in the table. *)
Lemma run_last_entity cli ms key : bt_get key (a_entities (run (fresh_app cli) ms)) = last_entity key ms.
Proof. rewrite run_entity by apply app_new_ok. by destruct (last_entity key ms). Qed.

(** Of a single sender, a first part is taken. *)
Lemma single_taken {X} (s ms : list X) unread n :
  takes [s] ms unread -> (forall k x, [s] !! k = Some x -> unread !! k = Some (drop n x)) -> ms = take n s.
Proof.
  intros Ht Hu. assert (unread = [drop n s]) as ->.
  { assert (length unread = 1%nat) as Hl.
    { clear Hu. remember [s] as ss eqn:E. assert (length ss = 1%nat) as Hl by (by subst).
      clear s E. induction Ht as [|ss k m s ms ss' Hk _ IH]; [done|]. apply IH. by rewrite length_insert. }
    specialize (Hu 0%nat s eq_refl). destruct unread as [|x [|]]; simplify_eq/=; done. }
  apply takes_single in Ht. rewrite <-(take_drop n s) in Ht at 1. by apply app_inv_tail in Ht.
Qed.

Lemma senders_direct pf cli (ou : @HawkMain.Outside T L D) senders :
  ui_senders pf cli ou = Ok senders -> trim (cli_transform cli) = lit "none" ->
  exists source, source_msgs pf cli (HawkMain.ou_stdin ou) (ou_connected ou) = Ok source /\ senders = [source].
Proof.
  unfold ui_senders. intros Hs Htr. destruct (load_packs _); [|done]. destruct (source_msgs _ _ _ _) as [source|]; [|done].
  rewrite Htr in Hs. cbn zeta in Hs. rewrite bool_decide_eq_true_2 in Hs by done. injection Hs as <-. by exists source.
Qed.

(** ** Properties *)

(** C19: the mirror as a whole: when its threads have started, the terminal's
    calls succeed and the user quits, the program ends with success and a restored
    terminal.  It has then ingested an interleaving of what its threads send: of
    each thread's messages, in order, exactly as many as had arrived by then; and
    the entity under every key is the last of the ingested frames with that key.
    Without a transform, the ingested messages are that many first messages of
    what the source reads. *)
Theorem mirror_session pf cli (ou : @HawkMain.Outside T L D) senders pre r :
  cli_cmd cli = None -> ui_senders pf cli ou = Ok senders -> user_quits ou pre r ->
  exists ms unread app pics,
    takes senders (map fst ms) unread
    /\ (forall k s, senders !! k = Some s -> unread !! k = Some (drop (arrived k (pre ++ [r])) s))
    /\ HawkMain.main pf cli ou = inr (Ok (mk_tty false false, app, pics, UiReturned (Ok tt)))
    /\ (forall key, bt_get key (a_entities app) = last_entity key ms)
    /\ (trim (cli_transform cli) = lit "none" ->
        exists source, source_msgs pf cli (HawkMain.ou_stdin ou) (ou_connected ou) = Ok source
          /\ map fst ms = take (arrived 0 (pre ++ [r])) source).
Proof.
  intros Hcmd Hs Hq. destruct (session_end pf cli ou senders pre r Hcmd Hs Hq) as (ms & unread & pics & Ht & Hu & Em).
  exists ms, unread, (run (fresh_app cli) ms), pics. split; [exact Ht|]. split; [exact Hu|]. split; [exact Em|].
  split; [intros key; apply run_last_entity|]. intros Htr.
  destruct (senders_direct pf cli ou senders Hs Htr) as (source & E & ->). exists source. split; [exact E|].
  eapply single_taken; [exact Ht|]. intros k x Hk. destruct k as [|k]; [|by destruct k]. by apply Hu.
Qed.

Context {P : HealthPb} {C : Type} `{StreamLaws C} {E : Type} `{Sink E}.

(** C1: the whole system: the daemon runs in any configuration that starts and is
    in any state that its threads can reach; a mirror whose connection is the
    daemon's client [k] reads what the daemon has written to this client and
    whatever comes later; it has no transform, its packs load, the terminal's calls
    succeed, and the user quits.  Then the messages that the daemon has broadcast to
    the end since the mirror joined are a merge of the texts of all the daemon's
    sources, nothing else, each source's in order and without gap; what the mirror
    reads is what the lines of these texts parse to, and then the rest (without the
    first line, if writing the banner failed in the middle); the mirror has ingested
    a first part of that, as much as had arrived when the user quit; the program
    ended with success and a restored terminal; and the entity under every key is
    the last of the ingested frames with that key.  The texts that the sources copy
    are only assumed to be Unicode text. *)
Theorem system_shows_sources pf cli ou fs producers (s : @Threads C) k t mcli (mou : @HawkMain.Outside T L D) rest err pre r :
  HawkdMain.main (D := E) pf cli ou = Ok (fs, producers) -> outside_texts cli ou ->
  treachable (c_client_banner cli) producers s -> th_clients s !! k = Some t ->
  cli_cmd mcli = None -> trim (cli_transform mcli) = lit "none" -> is_ok (load_packs (cli_packs_dir mcli)) = true ->
  cli_source mcli = HawkMain.Source.Unix -> ou_connected mou = Ok (mk_stream (st_log (tr_sink t) ++ rest) err) ->
  user_quits mou pre r ->
  exists lss log ms app pics,
    Forall2 Producer producers lss /\ drop (tr_joined t) (th_sent s) = map wired log /\ merges lss (tr_joined t) log
    /\ map fst ms = take (arrived 0 (pre ++ [r]))
         (reader_loop (cli_strict mcli) (heard (tr_base t)
            (map Ok (text_lines (map snd log)) ++ read_lines (mk_stream (current_part s k ++ rest) err))))
    /\ HawkMain.main Unix mcli mou = inr (Ok (mk_tty false false, app, pics, UiReturned (Ok tt)))
    /\ forall key, bt_get key (a_entities app) = last_entity key ms.
Proof.
  intros (_ & _ & _ & ->)%main_inv Hol Hr Ht Hcmd Htr Hp Hsrc Hconn Hq.
  destruct (sends_producers _ (daemon_sends cli ou Hol)) as [lss HP].
  destruct (daemon_log_read _ _ lss s k t (cli_socket_path mcli) (cli_strict mcli) rest err HP Hr Ht) as (log & E1 & _ & E2 & E3).
  rewrite <-Hconn in E3. set (source := unix_reader_thread _ _ _) in E3.
  assert (ui_senders Unix mcli mou = Ok [source]) as Hs.
  { unfold ui_senders. destruct (load_packs _); [|done]. unfold source_msgs. rewrite Hsrc, Htr. cbn zeta.
    cbn [spawn_unix_reader]. by rewrite bool_decide_eq_true_2. }
  destruct (session_end Unix mcli mou _ pre r Hcmd Hs Hq) as (ms & unread & pics & Htk & Hu & Em).
  exists lss, log, ms, (run (fresh_app mcli) ms), pics. do 3 (split; [done|]). split; [|split; [exact Em|apply run_last_entity]].
  unfold reads_log in E3. rewrite <-E3. eapply single_taken; [exact Htk|]. intros j x Hj. destruct j as [|j]; [|by destruct j]. by apply Hu.
Qed.
End System.

(** ** Witnesses *)

#[local] Existing Instances no_tables script_fs demo_toml silent_awk strips strips_laws names_pb.

(** Some messages arrive in the first turn; in the second the user quits. *)
Definition demo_turns (n : nat) : list (@Turn UtcSeconds.utc_lib strips) :=
  [@mk_turn UtcSeconds.utc_lib strips (replicate n (0%nat, UtcSeconds.t0)) idle_calls].
Definition quit_turn : @Turn UtcSeconds.utc_lib strips := @mk_turn UtcSeconds.utc_lib strips [] (key_calls 113%N).

Definition demo_session (connected : result byte_stream rstr) (n : nat) : @HawkMain.Outside UtcSeconds.utc_lib strips Pipe :=
  @HawkMain.mk_outside UtcSeconds.utc_lib strips Pipe sample_stdin connected map_to_list (fun _ => Ok (true, true))
    (fun _ => UtcSeconds.t0) (fun _ => true) (mk_pipe [] 500) (fun _ input => mk_stream input None) (Ok (true, [])) demo_setup
    (demo_turns n ++ [quit_turn]).

Lemma demo_session_quits connected n : user_quits (demo_session connected n) (demo_turns n) quit_turn.
Proof. split; [by repeat split|by exists []|by repeat constructor|done]. Qed.

(** The only frame of the standard input is ingested. *)
Lemma mirror_session_witness :
  exists (ms : list (@IngestMsg UtcSeconds.utc_lib * @OffsetDateTime UtcSeconds.utc_lib)) unread app pics,
    takes [[Frame sample_frame]] (map fst ms) unread
    /\ HawkMain.main (T := UtcSeconds.utc_lib) Unix (HawkMain.demo_cli (lit "none") []) (demo_session (Err []) 1)
       = inr (Ok (mk_tty false false, app, pics, UiReturned (Ok tt)))
    /\ map fst ms = [Frame sample_frame].
Proof.
  destruct (mirror_session (T := UtcSeconds.utc_lib) Unix (HawkMain.demo_cli (lit "none") [])
              (demo_session (Err []) 1) [[Frame sample_frame]] (demo_turns 1) quit_turn)
    as (ms & unread & app & pics & Ht & _ & E & _ & Hms).
  - reflexivity.
  - reflexivity.
  - apply (demo_session_quits (Err []) 1).
  - exists ms, unread, app, pics. split; [exact Ht|]. split; [exact E|].
    destruct (Hms eq_refl) as (source & Hsrc & ->). injection Hsrc as <-. reflexivity.
Defined.

(** The mirror on the socket of the daemon of [HawkdMain.v], after its first
    message and in the middle of the second. *)
Definition unix_cli : HawkMain.Cli :=
  HawkMain.mk_cli None HawkMain.Source.Unix (lit "/tmp/hawk.sock") false 200 10 30 (lit "packs") (lit "none") [].

Definition mid_session : @HawkMain.Outside UtcSeconds.utc_lib strips Pipe :=
  demo_session (Ok (mk_stream (sk_log (tr_sink mid_client) ++ []) None)) 1.

(** What the mirror holds of the sample's entity at its end. *)
Definition entity_shown (o : Outcome + result (Tty * @App UtcSeconds.utc_lib * list Picture * UiEnd) anyhow)
    : option (@EntityState UtcSeconds.utc_lib) :=
  match o with inr (Ok (_, app, _, _)) => bt_get (lit "service:alpha") (a_entities app) | _ => None end.

Lemma system_shows_sources_witness :
  exists lss log app pics,
    Forall2 Producer demo_producers lss /\ th_sent (daemon_run 11%nat) = map wired log /\ merges lss 0 log
    /\ HawkMain.main Unix unix_cli mid_session = inr (Ok (mk_tty false false, app, pics, UiReturned (Ok tt)))
    /\ bt_get (lit "service:alpha") (a_entities app) = Some (entity_of sample_frame UtcSeconds.t0).
Proof.
  destruct mid_client_connected as (Ht & _ & Ej).
  destruct (system_shows_sources (T := UtcSeconds.utc_lib) (U := plain_tables) (E := Pipe) (C := Sock)
              Unix HawkdMain.demo_cli HawkdMain.demo_outside _ demo_producers
              (daemon_run 11%nat) 0 mid_client unix_cli mid_session [] None (demo_turns 1) quit_turn demo_main)
    as (lss & log & ms & app & pics & H1 & H2 & H3 & _ & H4 & _).
  - exact demo_texts.
  - apply run_reachable.
  - exact Ht.
  - reflexivity.
  - reflexivity.
  - reflexivity.
  - reflexivity.
  - reflexivity.
  - apply demo_session_quits.
  - rewrite Ej in H2, H3. exists lss, log, app, pics. split; [exact H1|]. split; [exact H2|]. split; [exact H3|].
    split; [exact H4|].
    assert (entity_shown (HawkMain.main (T := UtcSeconds.utc_lib) Unix unix_cli mid_session)
            = Some (entity_of sample_frame UtcSeconds.t0)) as Hkey
      by (vm_cast_no_check (eq_refl (Some (entity_of sample_frame UtcSeconds.t0)))).
    pose proof (f_equal entity_shown H4) as Hshown. etransitivity; [symmetry; exact Hshown|exact Hkey].
Defined.
